(** * ddrescue / ddrescuelog: mapfile algebra, block I/O and option parsing

    A shallow embedding of the parts of [ddrescuelog.cc], [io.cc] and
    [main.cc] that the checked properties are about, followed by the
    properties themselves.  Positions and sizes are C++ [long long] values
    kept as [Z]; the vector of sblocks is a [list]; the functions of the
    program that end it ([std::exit], [internal_error]) are results of
    type [run]. *)

From Stdlib Require Import String Ascii ZArith List Bool Lia.
Import ListNotations.
Local Open Scope Z_scope.

(* ================================================================== *)
(** * Constants and results *)

Definition LLONG_MAX : Z := 9223372036854775807.
Definition INT_MAX : Z := 2147483647.

(** The ways a function of the program can end: it returns a value, it
    ends the process with an exit status ([std::exit( n )], or
    [internal_error], which exits with status 3), or the model ran out
    of loop fuel. *)
Inductive run (A : Type) : Type :=
| Returned (a : A)
| Exited (status : Z)
| OutOfFuel.

Arguments Returned {A} a.
Arguments Exited {A} status.
Arguments OutOfFuel {A}.

Definition internal_error {A : Type} : run A := Exited 3.

(* ================================================================== *)
(** * Blocks, statuses, sblocks and domains (block.h) *)

(** Modelled from the spec: class [Block] of block.h, which is not under
    src/.  Spec 3: a half-open byte range with fields [pos] and [size]. *)
Record Block : Type := mkBlock { pos : Z; size : Z }.

Definition Block_end (b : Block) : Z := pos b + size b.

(** Modelled from the spec: [Block::operator==] (block.h). *)
Definition Block_eqb (a b : Block) : bool :=
  (pos a =? pos b) && (size a =? size b).

(** Modelled from the spec: [Block::includes( const Block & )] (block.h),
    spec 4.1 "includes(block)". *)
Definition Block_includes (a b : Block) : bool :=
  (pos a <=? pos b) && (Block_end b <=? Block_end a).

(** Modelled from the spec: [Block::includes( long long )] (block.h),
    spec 4.1 "includes(point)". *)
Definition Block_includes_pos (a : Block) (p : Z) : bool :=
  (pos a <=? p) && (p <? Block_end a).

(** Modelled from the spec: [Block::strictly_includes] (block.h): the
    point lies inside the block and is not its first byte. *)
Definition Block_strictly_includes (a : Block) (p : Z) : bool :=
  (pos a <? p) && (p <? Block_end a).

(** Modelled from the spec: [Block::crop] (block.h), spec 4.1
    "intersection". *)
Definition Block_crop (a b : Block) : Block :=
  let p := Z.max (pos a) (pos b) in
  let s := Z.max 0 (Z.min (Block_end a) (Block_end b) - p) in
  mkBlock p s.

(** Modelled from the spec: [Block::align_end] (block.h): rounds the end
    of the block down to a multiple of the alignment when that leaves the
    block non-empty. *)
Definition Block_align_end (a : Block) (alignment : Z) : Block :=
  if 1 <? alignment then
    let new_end := Block_end a - Block_end a mod alignment in
    if pos a <? new_end then mkBlock (pos a) (new_end - pos a) else a
  else a.

(** Modelled from the spec: [Sblock::Status] (block.h), spec 3: the five
    statuses and the character each has in a mapfile. *)
Inductive Status : Type :=
| non_tried | non_trimmed | non_split | bad_sector | finished.

Definition Status_eqb (a b : Status) : bool :=
  match a, b with
  | non_tried, non_tried | non_trimmed, non_trimmed
  | non_split, non_split | bad_sector, bad_sector
  | finished, finished => true
  | _, _ => false
  end.

Definition Status_char (s : Status) : ascii :=
  match s with
  | non_tried => "?" | non_trimmed => "*" | non_split => "/"
  | bad_sector => "-" | finished => "+"
  end%char.

(** [Sblock::Status( ch )] for a character that [Sblock::isstatus]
    accepts. *)
Definition Status_of_char (c : ascii) : option Status :=
  if Ascii.eqb c "?" then Some non_tried
  else if Ascii.eqb c "*" then Some non_trimmed
  else if Ascii.eqb c "/" then Some non_split
  else if Ascii.eqb c "-" then Some bad_sector
  else if Ascii.eqb c "+" then Some finished
  else None.

Definition isstatus (c : ascii) : bool :=
  match Status_of_char c with Some _ => true | None => false end.

(** Modelled from the spec: class [Sblock] of block.h, spec 3: a [Block]
    plus a [Status]. *)
Record Sblock : Type := mkSblock { Sblock_block :> Block; status : Status }.

Definition Sblock_with_status (sb : Sblock) (st : Status) : Sblock :=
  mkSblock (Sblock_block sb) st.

Definition Sblock_eqb (a b : Sblock) : bool :=
  Block_eqb a b && Status_eqb (status a) (status b).

(** Modelled from the spec: class [Domain] of block.h, spec 3: an ordered
    sequence of disjoint blocks, possibly empty. *)
Definition Domain : Type := list Block.

Definition Domain_pos (d : Domain) : Z := pos (hd (mkBlock 0 0) d).
Definition Domain_end (d : Domain) : Z := Block_end (last d (mkBlock 0 0)).
Definition Domain_size (d : Domain) : Z := Domain_end d - Domain_pos d.
Definition Domain_in_size (d : Domain) : Z :=
  fold_right (fun b acc => size b + acc) 0 d.
Definition Domain_blocks (d : Domain) : Z := Z.of_nat (length d).

(** Modelled from the spec: [Domain::includes( const Block & )]: some
    block of the domain includes the argument. *)
Definition Domain_includes (d : Domain) (b : Block) : bool :=
  existsb (fun D => Block_includes D b) d.

(** Modelled from the spec: [Domain::operator<( const Block & )], spec 4.1
    "strict less-than (by end vs start)": the domain ends at or before
    the start of the block. *)
Definition Domain_lt (d : Domain) (b : Block) : bool :=
  Domain_end d <=? pos b.

(* ================================================================== *)
(** * The logbook (block.h, logbook.cc) *)

(** Modelled from the spec: class [Logbook] (the spec's Mapbook), which
    is not under src/.  Spec 3: an ordered sequence of sblocks with the
    domain it is used on; a value of this type is the state a [Logbook]
    has once its constructor has read the logfile. *)
Record Logbook : Type := mkLogbook {
  offset_ : Z;
  domain_ : Domain;
  hardbs_ : Z;
  sblock_vector : list Sblock;
  logfile_exists_ : bool
}.

Definition with_vector (lb : Logbook) (v : list Sblock) : Logbook :=
  mkLogbook (offset_ lb) (domain_ lb) (hardbs_ lb) v (logfile_exists_ lb).

Definition with_domain (lb : Logbook) (d : Domain) : Logbook :=
  mkLogbook (offset_ lb) d (hardbs_ lb) (sblock_vector lb) (logfile_exists_ lb).

(** The sentinel that an access outside the vector yields in the model;
    every loop of the program tests [i < logbook.sblocks()] first. *)
Definition Sblock_sentinel : Sblock := mkSblock (mkBlock 0 0) non_tried.

Definition sblocks (lb : Logbook) : Z := Z.of_nat (length (sblock_vector lb)).

Definition vget (v : list Sblock) (i : nat) : Sblock := nth i v Sblock_sentinel.

Definition sblock (lb : Logbook) (i : Z) : Sblock :=
  vget (sblock_vector lb) (Z.to_nat i).

Definition vset (v : list Sblock) (i : nat) (sb : Sblock) : list Sblock :=
  firstn i v ++ sb :: skipn (S i) v.

(** [std::vector::insert] before index [i] and [std::vector::erase] of
    index [i]. *)
Definition insert_sblock (v : list Sblock) (i : nat) (sb : Sblock) : list Sblock :=
  firstn i v ++ sb :: skipn i v.

Definition erase_sblock (v : list Sblock) (i : nat) : list Sblock :=
  firstn i v ++ skipn (S i) v.

Definition inc_size (sb : Sblock) (delta : Z) : Sblock :=
  mkSblock (mkBlock (pos sb) (size sb + delta)) (status sb).

(** Modelled from the spec: [Logbook::find_index], spec 4.2
    "find_index(pos) -> i": the index of the sblock that includes [pos],
    -1 when [pos] lies outside the vector. *)
Fixpoint vfind_index (v : list Sblock) (p : Z) : option nat :=
  match v with
  | [] => None
  | sb :: rest =>
      if Block_includes_pos sb p then Some O
      else option_map S (vfind_index rest p)
  end.

Definition find_index (lb : Logbook) (p : Z) : Z :=
  match vfind_index (sblock_vector lb) p with
  | Some k => Z.of_nat k
  | None => -1
  end.

(** The first sblock at index [k] or later (counted from the head of [v],
    which stands at index [k]) that has status [st] and is included in
    the domain. *)
Fixpoint vfind_status (d : Domain) (st : Status) (v : list Sblock) : option Sblock :=
  match v with
  | [] => None
  | sb :: rest =>
      if Status_eqb (status sb) st && Domain_includes d sb then Some sb
      else vfind_status d st rest
  end.

(** Modelled from the spec: [Logbook::find_chunk], spec 4.1: narrows [b]
    to a chunk of status [st] and gives it size 0 when there is none.
    The chunk is looked for from [b.pos()] on: it lies in the first
    sblock of status [st] of the domain at or after [b.pos()], starts
    where that sblock or [b] starts, whichever is later, and is no larger
    than [b]; the callers in [do_logic_ops] tell the three cases apart
    ([b.pos() >= sb.end()], [b.pos() == sb.pos()], neither). *)
Definition find_chunk (lb : Logbook) (b : Block) (st : Status) : Block :=
  if size b <=? 0 then b else
  let v := sblock_vector lb in
  let b1 := if pos b <? pos (vget v 0) then mkBlock (pos (vget v 0)) (size b) else b in
  match vfind_index v (pos b1) with
  | None => mkBlock (pos b1) 0
  | Some k =>
      match vfind_status (domain_ lb) st (skipn k v) with
      | None => mkBlock (pos b1) 0
      | Some sb =>
          let b2 := if pos b1 <? pos sb then mkBlock (pos sb) (size b1) else b1 in
          let b3 := if Block_includes sb b2 then b2 else Block_crop b2 sb in
          if Block_end b3 =? Block_end sb then b3
          else Block_align_end b3 (hardbs_ lb)
      end
  end.

(** Modelled from the spec: [Logbook::change_sblock_status], spec 4.2:
    replaces the status of sblock [i] in place.  The vector keeps its
    length: the loops of ddrescuelog.cc go on by index after the call
    and merge equal neighbours with [compact_sblock_vector] once they
    are done. *)
Definition change_sblock_status (lb : Logbook) (i : Z) (st : Status) : Logbook :=
  let v := sblock_vector lb in
  let k := Z.to_nat i in
  with_vector lb (vset v k (Sblock_with_status (vget v k) st)).

(** Modelled from the spec: [Logbook::split_sblock_by], spec 4.2: splits
    sblock [i] at the absolute position [p], both halves keeping its
    status; nothing happens when [p] is not inside the sblock. *)
Definition split_sblock_by (lb : Logbook) (p : Z) (i : Z) : Logbook :=
  let v := sblock_vector lb in
  let k := Z.to_nat i in
  let sb := vget v k in
  if Block_strictly_includes sb p then
    let left := mkSblock (mkBlock (pos sb) (p - pos sb)) (status sb) in
    let right := mkSblock (mkBlock p (Block_end sb - p)) (status sb) in
    with_vector lb (insert_sblock (vset v k right) k left)
  else lb.

(** Modelled from the spec: the last part of
    [Logbook::change_chunk_status], spec 4.2: sblock [k] is the chunk; it gets
    the status [st] and joins the sblock before it and the sblock after
    it when they are in the domain and have that status. *)
Definition rewrite_and_merge (d : Domain) (v : list Sblock) (k : nat)
    (st : Status) : list Sblock :=
  let v2 := vset v k (Sblock_with_status (vget v k) st) in
  let '(v3, k3) :=
    if (0 <? k)%nat && Status_eqb (status (vget v2 (k - 1))) st
       && Domain_includes d (vget v2 (k - 1))
    then (erase_sblock (vset v2 (k - 1) (inc_size (vget v2 (k - 1)) (size (vget v2 k)))) k,
          (k - 1)%nat)
    else (v2, k) in
  if (S k3 <? length v3)%nat && Status_eqb (status (vget v3 (S k3))) st
     && Domain_includes d (vget v3 (S k3))
  then erase_sblock (vset v3 k3 (inc_size (vget v3 k3) (size (vget v3 (S k3))))) (S k3)
  else v3.

(** Modelled from the spec: [Logbook::change_chunk_status], spec 4.2: finds
    the sblock spanning the chunk, splits it at the edges of the chunk
    that fall inside it, rewrites the interior and merges it with the
    neighbours that have the new status and are in the domain.  A chunk
    outside the domain, or one that no single sblock of the domain
    includes, is an internal inconsistency ([None], exit status 3). *)
Definition change_chunk_status (lb : Logbook) (b : Block) (st : Status)
    : option Logbook :=
  if size b <=? 0 then Some lb else
  let v := sblock_vector lb in
  let d := domain_ lb in
  match vfind_index v (pos b) with
  | None => None
  | Some k =>
      let sbk := vget v k in
      if negb (Domain_includes d b) || negb (Domain_includes d sbk) then None
      else if negb (Block_includes sbk b) then None
      else if Status_eqb (status sbk) st then Some lb
      else
        let lb1 := split_sblock_by lb (pos b) (Z.of_nat k) in
        let k1 := if pos sbk <? pos b then S k else k in
        let lb2 := split_sblock_by lb1 (Block_end b) (Z.of_nat k1) in
        Some (with_vector lb2 (rewrite_and_merge d (sblock_vector lb2) k1 st))
  end.

(** Modelled from the spec: [Logbook::compact_sblock_vector], spec 4.2
    "compact()": merges every run of adjacent sblocks of one status into
    one sblock. *)
Fixpoint compact (v : list Sblock) : list Sblock :=
  match v with
  | [] => []
  | sb :: rest =>
      match compact rest with
      | [] => [sb]
      | nx :: rest' =>
          if Status_eqb (status sb) (status nx)
          then mkSblock (mkBlock (pos sb) (size sb + size nx)) (status sb) :: rest'
          else sb :: nx :: rest'
      end
  end.

Definition compact_sblock_vector (lb : Logbook) : Logbook :=
  with_vector lb (compact (sblock_vector lb)).

(** Modelled from the spec: [Logbook::truncate_vector], spec 4.2: drops
    what the vector holds at or after [e]; an sblock that [e] cuts is
    shortened. *)
Fixpoint truncate (v : list Sblock) (e : Z) : list Sblock :=
  match v with
  | [] => []
  | sb :: rest =>
      if e <=? pos sb then []
      else if e <? Block_end sb then [mkSblock (mkBlock (pos sb) (e - pos sb)) (status sb)]
      else sb :: truncate rest e
  end.

Definition truncate_vector (lb : Logbook) (e : Z) : Logbook :=
  match truncate (sblock_vector lb) e with
  | [] => with_vector lb [Sblock_sentinel]
  | v => with_vector lb v
  end.

(** Modelled from the spec: the constructor
    [Logbook( offset, isize, domain, logname, cluster, hardbs, ... )]
    (logbook.cc, not under src/).  [domain] is the domain as the
    constructor leaves it (it is passed by reference; spec 4.4,
    complete-only: the domain does not go beyond the sblocks of the
    logfile); [logfile]
    is the vector of sblocks the constructor leaves, read from the file
    [logname] and split at the borders of the domain; [None] when there
    is no such file. *)
Definition Logbook_open (offset : Z) (domain : Domain) (hardbs : Z)
    (logfile : option (list Sblock)) : Logbook :=
  match logfile with
  | Some v => mkLogbook offset domain hardbs v true
  | None => mkLogbook offset domain hardbs [] false
  end.

(* ================================================================== *)
(** * ddrescuelog.cc *)

Inductive Mode : Type :=
| m_none | m_and | m_change | m_compare | m_create | m_delete
| m_done_st | m_invert | m_list | m_or | m_status | m_xor.

Definition bind {A B : Type} (r : run A) (k : A -> run B) : run B :=
  match r with
  | Returned a => k a
  | Exited n => Exited n
  | OutOfFuel => OutOfFuel
  end.

Notation "x <- r ;; k" := (bind r (fun x => k))
  (at level 61, r at next level, right associativity).

(** [verify_logname_and_domain]: a missing logfile ends the program with
    status 1, an empty domain with status 0. *)
Definition verify_logname_and_domain (logbook : Logbook) : run unit :=
  if negb (logfile_exists_ logbook) then Exited 1
  else if Domain_size (domain_ logbook) =? 0 then Exited 0
  else Returned tt.

(** The loop of [do_logic_ops].  [i] is the loop counter; a pass whose
    body ends in [--i] goes on at [i - 1 + 1]. *)
Fixpoint logic_loop (fuel : nat) (program_mode : Mode) (logbook2 : Logbook)
    (logbook : Logbook) (i : Z) : run Logbook :=
  match fuel with
  | O => OutOfFuel
  | S fuel' =>
    if negb (i <? sblocks logbook) then Returned logbook else
    let sb := sblock logbook i in
    if negb (Domain_includes (domain_ logbook) sb) then
      if Domain_lt (domain_ logbook) sb then Returned logbook
      else logic_loop fuel' program_mode logbook2 logbook (i + 1)
    else
      match program_mode with
      | m_and =>
          if negb (Status_eqb (status sb) finished)
          then logic_loop fuel' program_mode logbook2 logbook (i + 1)
          else
            let b := find_chunk logbook2 sb finished in
            if (size b <=? 0) || (Block_end sb <=? pos b) then
              logic_loop fuel' program_mode logbook2
                (change_sblock_status logbook i bad_sector) (i + 1)
            else if Block_eqb b sb then
              logic_loop fuel' program_mode logbook2 logbook (i + 1)
            else if pos b =? pos sb then
              logic_loop fuel' program_mode logbook2
                (split_sblock_by logbook (Block_end b) i) (i + 1)
            else
              match change_chunk_status logbook
                      (mkBlock (pos sb) (pos b - pos sb)) bad_sector with
              | None => internal_error
              | Some logbook' =>
                  logic_loop fuel' program_mode logbook2 logbook' (i - 1 + 1)
              end
      | m_or =>
          if Status_eqb (status sb) finished
          then logic_loop fuel' program_mode logbook2 logbook (i + 1)
          else
            let b := find_chunk logbook2 sb finished in
            if (size b <=? 0) || (Block_end sb <=? pos b) then
              logic_loop fuel' program_mode logbook2 logbook (i + 1)
            else if Block_eqb b sb then
              logic_loop fuel' program_mode logbook2
                (change_sblock_status logbook i finished) (i + 1)
            else if pos b =? pos sb then
              match change_chunk_status logbook b finished with
              | None => internal_error
              | Some logbook' =>
                  logic_loop fuel' program_mode logbook2 logbook' (i - 1 + 1)
              end
            else
              logic_loop fuel' program_mode logbook2
                (split_sblock_by logbook (Block_end b) i) (i + 1)
      | m_xor =>
          let st := if Status_eqb (status sb) finished
                    then bad_sector else finished in
          let b := find_chunk logbook2 sb finished in
          if (size b <=? 0) || (Block_end sb <=? pos b) then
            logic_loop fuel' program_mode logbook2 logbook (i + 1)
          else if Block_eqb b sb then
            logic_loop fuel' program_mode logbook2
              (change_sblock_status logbook i st) (i + 1)
          else if pos b =? pos sb then
            match change_chunk_status logbook b st with
            | None => internal_error
            | Some logbook' =>
                logic_loop fuel' program_mode logbook2 logbook' (i - 1 + 1)
            end
          else
            logic_loop fuel' program_mode logbook2
              (split_sblock_by logbook (Block_end b) i) (i + 1)
      | _ => internal_error
      end
  end.

(** Total size of the sblocks of a vector. *)
Definition vsize (v : list Sblock) : Z :=
  fold_right (fun (sb : Sblock) acc => size sb + acc) 0 v.

(** Loop fuel that is enough for [logic_loop] on a logbook of contiguous
    sblocks: every pass either moves on to a later byte position or
    turns the sblock it stands on into one it then steps over. *)
Definition logic_fuel (v : list Sblock) : nat :=
  S (Z.to_nat (2 * vsize v + 1)).

(** [do_logic_ops]: the result is the logbook that [write_logfile] prints
    to the standard output before the function returns 0.  [domain] and
    [domain2] are the domain and its copy [Domain domain2( domain )] as
    the constructors of the two logbooks leave them, each narrowed to
    the logfile of its logbook. *)
Definition do_logic_ops (domain domain2 : Domain)
    (logfile second_logfile : option (list Sblock))
    (program_mode : Mode) : run Logbook :=
  let logbook := Logbook_open 0 domain 1 logfile in
  _ <- verify_logname_and_domain logbook ;;
  let logbook2 := Logbook_open 0 domain2 1 second_logfile in
  _ <- verify_logname_and_domain logbook2 ;;
  lb <- logic_loop (logic_fuel (sblock_vector logbook)) program_mode logbook2 logbook 0 ;;
  Returned (compact_sblock_vector lb).

(** [std::string::find( char )]: the first index of the character. *)
Fixpoint string_find (s : string) (c : ascii) : option nat :=
  match s with
  | EmptyString => None
  | String a rest =>
      if Ascii.eqb a c then Some O else option_map S (string_find rest c)
  end.

(** One pass of the loop of [change_types] on an sblock of the domain:
    [j = types1.find( sb.status() )], and the status becomes
    [types2[j]] when [j < types1.size()]. *)
Definition change_type (types1 types2 : string) (sb : Sblock) : Sblock :=
  match string_find types1 (Status_char (status sb)) with
  | None => sb
  | Some j =>
      match String.get j types2 with
      | None => sb
      | Some c =>
          match Status_of_char c with
          | Some st => Sblock_with_status sb st
          | None => sb
          end
      end
  end.

(** The loop of [change_types]; it visits the sblocks in index order and
    changes sblock [i] in place, so the vector is taken from its head. *)
Fixpoint change_types_loop (domain : Domain) (types1 types2 : string)
    (v : list Sblock) : list Sblock :=
  match v with
  | [] => []
  | sb :: rest =>
      if negb (Domain_includes domain sb) then
        if Domain_lt domain sb then sb :: rest
        else sb :: change_types_loop domain types1 types2 rest
      else change_type types1 types2 sb
             :: change_types_loop domain types1 types2 rest
  end.

(** [change_types]: the result is the logbook printed to the standard
    output. *)
Definition change_types (domain : Domain) (logfile : option (list Sblock))
    (types1 types2 : string) : run Logbook :=
  let logbook := Logbook_open 0 domain 1 logfile in
  _ <- verify_logname_and_domain logbook ;;
  Returned (compact_sblock_vector
              (with_vector logbook
                 (change_types_loop (domain_ logbook) types1 types2
                    (sblock_vector logbook)))).

(** [case m_invert] of [main]. *)
Definition invert_logfile (domain : Domain) (logfile : option (list Sblock))
    : run Logbook :=
  change_types domain logfile "?*/-+" "++++-".

(** The loop of [test_if_done]: [false] when it meets an sblock of the
    domain that is not finished ([return 1]). *)
Fixpoint test_if_done_loop (domain : Domain) (v : list Sblock) : bool :=
  match v with
  | [] => true
  | sb :: rest =>
      if negb (Domain_includes domain sb) then
        if Domain_lt domain sb then true
        else test_if_done_loop domain rest
      else if negb (Status_eqb (status sb) finished) then false
      else test_if_done_loop domain rest
  end.

(** What a run of [test_if_done] leaves: the exit status, and whether
    the logfile was unlinked. *)
Record Done_result : Type := mkDone { exit_status : Z; unlinked : bool }.

(** [test_if_done]; [remove_ok] tells whether [std::remove( logname )]
    succeeds when it is called. *)
Definition test_if_done (domain : Domain) (logfile : option (list Sblock))
    (del : bool) (remove_ok : bool) : Done_result :=
  let logbook := Logbook_open 0 domain 1 logfile in
  match verify_logname_and_domain logbook with
  | Exited n => mkDone n false
  | OutOfFuel => mkDone 3 false
  | Returned _ =>
      if negb (test_if_done_loop (domain_ logbook) (sblock_vector logbook))
      then mkDone 1 false
      else if negb del then mkDone 0 false
      else if negb remove_ok then mkDone 1 false
      else mkDone 0 true
  end.

(** The inner loop of [to_badblocks] on one sblock: [limit] is
    [sb.end() + logbook.offset()]; the lines printed so far are [out].
    The numbers are [long long] in the source and integers here:
    [sb.pos() + offset], [sb.end() + offset] and [block * hardbs] are
    the source's as long as they stay from 0 to [LLONG_MAX], which they
    do when no byte of the domain has a negative position in the output
    and the domain ends [hardbs] bytes or more before [LLONG_MAX] there;
    beyond that they overflow in the source. *)
Fixpoint badblocks_of_sblock (fuel : nat) (hardbs limit : Z)
    (block last_block : Z) (out : list Z) : run (Z * list Z) :=
  match fuel with
  | O => OutOfFuel
  | S fuel' =>
      if block * hardbs <? limit then
        if last_block <? block then
          badblocks_of_sblock fuel' hardbs limit (block + 1) block (out ++ [block])
        else if block <? last_block then internal_error
        else badblocks_of_sblock fuel' hardbs limit (block + 1) last_block out
      else Returned (last_block, out)
  end.

(** The outer loop of [to_badblocks]. *)
Fixpoint to_badblocks_loop (offset : Z) (domain : Domain) (hardbs : Z)
    (blocktypes : string) (v : list Sblock) (last_block : Z) (out : list Z)
    : run (list Z) :=
  match v with
  | [] => Returned out
  | sb :: rest =>
      if negb (Domain_includes domain sb) then
        if Domain_lt domain sb then Returned out
        else to_badblocks_loop offset domain hardbs blocktypes rest last_block out
      else
        match string_find blocktypes (Status_char (status sb)) with
        | None => to_badblocks_loop offset domain hardbs blocktypes rest last_block out
        | Some _ =>
            r <- badblocks_of_sblock (Z.to_nat (size sb) + 2) hardbs
                   (Block_end sb + offset)
                   (Z.quot (pos sb + offset) hardbs) last_block out ;;
            to_badblocks_loop offset domain hardbs blocktypes rest (fst r) (snd r)
        end
  end.

(** [to_badblocks]: the result is the list of block numbers printed, one
    per line, before the function returns 0. *)
Definition to_badblocks (offset : Z) (domain : Domain)
    (logfile : option (list Sblock)) (hardbs : Z) (blocktypes : string)
    : run (list Z) :=
  let last_block := -1 in
  let logbook := Logbook_open offset domain hardbs logfile in
  _ <- verify_logname_and_domain logbook ;;
  to_badblocks_loop (offset_ logbook) (domain_ logbook) hardbs blocktypes
    (sblock_vector logbook) last_block [].

(** The local variables of [do_show_status] that the loop updates. *)
Record Show_status : Type := mkShow {
  size_non_tried : Z; size_non_trimmed : Z; size_non_split : Z;
  size_bad_sector : Z; size_finished : Z;
  areas_non_tried : Z; areas_non_trimmed : Z; areas_non_split : Z;
  areas_bad_sector : Z; areas_finished : Z;
  errors : Z;
  old_status : Status;
  first_block : bool;
  good : bool
}.

Definition Show_status_init : Show_status :=
  mkShow 0 0 0 0 0 0 0 0 0 0 0 non_tried true true.

(** The domain has a gap at this sblock:
    [first_block = true; good = true; continue]. *)
Definition show_status_gap (s : Show_status) : Show_status :=
  mkShow (size_non_tried s) (size_non_trimmed s) (size_non_split s)
         (size_bad_sector s) (size_finished s)
         (areas_non_tried s) (areas_non_trimmed s) (areas_non_split s)
         (areas_bad_sector s) (areas_finished s)
         (errors s) (old_status s) true true.

Definition incr_if (c : bool) (n : Z) : Z := if c then n + 1 else n.

(** The body of the loop of [do_show_status] on an sblock of the
    domain. *)
Definition show_status_step (s : Show_status) (sb : Sblock) : Show_status :=
  let sc := first_block s || negb (Status_eqb (status sb) (old_status s)) in
  match status sb with
  | non_tried =>
      mkShow (size_non_tried s + size sb) (size_non_trimmed s) (size_non_split s)
             (size_bad_sector s) (size_finished s)
             (incr_if sc (areas_non_tried s)) (areas_non_trimmed s)
             (areas_non_split s) (areas_bad_sector s) (areas_finished s)
             (errors s) (status sb) false true
  | finished =>
      mkShow (size_non_tried s) (size_non_trimmed s) (size_non_split s)
             (size_bad_sector s) (size_finished s + size sb)
             (areas_non_tried s) (areas_non_trimmed s)
             (areas_non_split s) (areas_bad_sector s) (incr_if sc (areas_finished s))
             (errors s) (status sb) false true
  | non_trimmed =>
      mkShow (size_non_tried s) (size_non_trimmed s + size sb) (size_non_split s)
             (size_bad_sector s) (size_finished s)
             (areas_non_tried s) (incr_if sc (areas_non_trimmed s))
             (areas_non_split s) (areas_bad_sector s) (areas_finished s)
             (incr_if (good s) (errors s)) (status sb) false false
  | non_split =>
      mkShow (size_non_tried s) (size_non_trimmed s) (size_non_split s + size sb)
             (size_bad_sector s) (size_finished s)
             (areas_non_tried s) (areas_non_trimmed s)
             (incr_if sc (areas_non_split s)) (areas_bad_sector s) (areas_finished s)
             (incr_if (good s) (errors s)) (status sb) false false
  | bad_sector =>
      mkShow (size_non_tried s) (size_non_trimmed s) (size_non_split s)
             (size_bad_sector s + size sb) (size_finished s)
             (areas_non_tried s) (areas_non_trimmed s)
             (areas_non_split s) (incr_if sc (areas_bad_sector s)) (areas_finished s)
             (incr_if (good s) (errors s)) (status sb) false false
  end.

(** The loop of [do_show_status]. *)
Fixpoint show_status_loop (domain : Domain) (v : list Sblock) (s : Show_status)
    : Show_status :=
  match v with
  | [] => s
  | sb :: rest =>
      if negb (Domain_includes domain sb) then
        if Domain_lt domain sb then s
        else show_status_loop domain rest (show_status_gap s)
      else show_status_loop domain rest (show_status_step s sb)
  end.

(** [do_show_status]: the result holds the numbers the summary prints;
    [errors] is the one printed after "errors:". *)
Definition do_show_status (domain : Domain) (logfile : option (list Sblock))
    : run Show_status :=
  let logbook := Logbook_open 0 domain 1 logfile in
  _ <- verify_logname_and_domain logbook ;;
  Returned (show_status_loop (domain_ logbook) (sblock_vector logbook)
              Show_status_init).

(** The loop of [create_logfile] that reads the standard input.  An
    element of [stdin] is what [std::scanf( "%lli\n", &block )] makes of
    the next line: [Some block] when it reads a number ([n == 1]),
    [None] when the line does not match ([n == 0]); the end of the list
    is the end of the input ([n < 0]).  [Block_new pos size] is the
    block that the constructor [Block( pos, size )] of block.h, which is
    not under src/, makes of the two numbers.  [block * hardbs] is a
    [long long] in the source and an integer here; the guard keeps it
    from overflowing above. *)
Fixpoint create_logfile_loop (Block_new : Z -> Z -> Block) (hardbs : Z)
    (type1 : Status) (logbook : Logbook) (stdin : list (option Z))
    : run Logbook :=
  match stdin with
  | [] => Returned logbook
  | None :: _ => Exited 2
  | Some block :: rest =>
      if Z.quot LLONG_MAX hardbs <? block then Exited 2
      else
        let b := Block_new (block * hardbs) hardbs in
        if Domain_includes (domain_ logbook) b then
          match change_chunk_status logbook b type1 with
          | None => internal_error
          | Some logbook' => create_logfile_loop Block_new hardbs type1 logbook' rest
          end
        else create_logfile_loop Block_new hardbs type1 logbook rest
  end.

(** [create_logfile].  [existing] tells whether the constructor found and
    read a logfile (it does not look for one under [--force]); [fresh]
    is the vector of a logbook created without a file; [update_ok] is
    the result of [update_logfile].  The result is the logbook written
    when the function returns 0. *)
Definition create_logfile (Block_new : Z -> Z -> Block) (domain : Domain)
    (existing : bool) (fresh : list Sblock) (hardbs : Z) (type1 type2 : Status)
    (force : bool) (stdin : list (option Z)) (update_ok : bool) : run Logbook :=
  let logbook := mkLogbook 0 domain hardbs fresh (existing && negb force) in
  if logfile_exists_ logbook then Exited 1
  else if Domain_size (domain_ logbook) =? 0 then Exited 0
  else
    let logbook :=
      with_vector logbook
        (map (fun sb => Sblock_with_status sb type2) (sblock_vector logbook)) in
    lb <- create_logfile_loop Block_new hardbs type1 logbook stdin ;;
    let lb := truncate_vector lb (Domain_end (domain_ lb)) in
    if negb update_ok then Exited 1 else Returned lb.

(** The loop of the first [set_types], the one of [--change-types]:
    [comma_found] is the local variable of that name, and [p] points to
    [types2] exactly when it is set.  [None] is [error = true; break]. *)
Fixpoint set_types_loop (arg : string) (comma_found : bool)
    (types1 types2 : string) : option (string * string) :=
  match arg with
  | EmptyString => Some (types1, types2)
  | String ch rest =>
      if Ascii.eqb ch "," then
        if comma_found then None
        else set_types_loop rest true types1 types2
      else if negb (isstatus ch) then None
      else if comma_found
      then set_types_loop rest comma_found types1
             (String.append types2 (String ch EmptyString))
      else set_types_loop rest comma_found
             (String.append types1 (String ch EmptyString)) types2
  end.

(** [types2[types2.size()-1]]. *)
Fixpoint string_back (s : string) : ascii :=
  match s with
  | EmptyString => Ascii.zero
  | String c EmptyString => c
  | String _ rest => string_back rest
  end.

(** [std::string( n, c )]. *)
Fixpoint string_fill (n : nat) (c : ascii) : string :=
  match n with
  | O => EmptyString
  | S n' => String c (string_fill n' c)
  end.

(** [set_types( arg, types1, types2 )] with two strings: the result is
    the two strings when the function returns. *)
Definition set_types (arg : string) : run (string * string) :=
  match set_types_loop arg false EmptyString EmptyString with
  | None => Exited 1
  | Some (types1, types2) =>
      if (String.length types1 =? 0)%nat || (String.length types2 =? 0)%nat
      then Exited 1
      else if (String.length types2 <? String.length types1)%nat then
        Returned (types1,
                  String.append types2
                    (string_fill (String.length types1 - String.length types2)
                       (string_back types2)))
      else Returned (types1, types2)
  end.

(** [set_types( arg, type1, type2 )] with two statuses, the one of
    [--create-logfile]: the result is the two statuses when the function
    returns. *)
Definition set_types_create (arg : string) (type1 type2 : Status)
    : run (Status * Status) :=
  match arg with
  | EmptyString => Returned (type1, type2)
  | String a (String b EmptyString) =>
      if Ascii.eqb a b || negb (isstatus a) || negb (isstatus b) then Exited 1
      else
        match Status_of_char a, Status_of_char b with
        | Some s1, Some s2 => Returned (s1, s2)
        | _, _ => Exited 1
        end
  | _ => Exited 1
  end.

(** Modelled from the spec: [Domain::operator!=] (block.h): two domains
    are equal when they hold the same blocks in the same order. *)
Fixpoint Domain_eqb (a b : Domain) : bool :=
  match a, b with
  | [], [] => true
  | x :: a', y :: b' => Block_eqb x y && Domain_eqb a' b'
  | _, _ => false
  end.

(** The loop of [compare_logfiles]: the value of [retval] when it ends. *)
Fixpoint compare_logfiles_loop (domain : Domain) (logbook2 : Logbook)
    (v : list Sblock) : Z :=
  match v with
  | [] => 0
  | sb :: rest =>
      if negb (Domain_includes domain sb) then
        if Domain_lt domain sb then 0
        else compare_logfiles_loop domain logbook2 rest
      else
        let j := find_index logbook2 (pos sb) in
        if (j <? 0) || negb (Sblock_eqb (sblock logbook2 j) sb) then 1
        else compare_logfiles_loop domain logbook2 rest
  end.

(** [compare_logfiles]: the value it returns.  [domain] and [domain2]
    are the domain and its copy as the constructors of the two logbooks
    leave them. *)
Definition compare_logfiles (domain domain2 : Domain)
    (logfile second_logfile : option (list Sblock)) : run Z :=
  let logbook := Logbook_open 0 domain 1 logfile in
  _ <- verify_logname_and_domain logbook ;;
  let logbook2 := Logbook_open 0 domain2 1 second_logfile in
  _ <- verify_logname_and_domain logbook2 ;;
  Returned (if negb (Domain_eqb (domain_ logbook) (domain_ logbook2)) then 1
            else compare_logfiles_loop (domain_ logbook) logbook2
                   (sblock_vector logbook)).

(** [llabs].  The numbers of [format_percentage] are [long long] in the
    source and integers here: [llabs( num )], [-num], [-den] and
    [num * 100] are the source's for [num] and [den] from [-LLONG_MAX]
    to [LLONG_MAX]; at [LLONG_MIN] they overflow in the source. *)
Definition llabs (n : Z) : Z := Z.abs n.

(** The character [(char)( n ) + '0'] stored in a [char]. *)
Definition char_plus_zero (n : Z) : ascii :=
  ascii_of_N (Z.to_N ((n + 48) mod 256)).

(** The digits [printf] writes for a number that is not negative, the
    highest first, before the characters of [acc]; a [long long] has at
    most 19 of them. *)
Fixpoint decimal_digits (fuel : nat) (n : Z) (acc : string) : string :=
  match fuel with
  | O => acc
  | S fuel' =>
      let acc' := String (char_plus_zero (n mod 10)) acc in
      if n <? 10 then acc' else decimal_digits fuel' (n / 10) acc'
  end.

(** The conversion [%lld] of [printf]. *)
Definition lld (n : Z) : string :=
  if n <? 0 then String "-" (decimal_digits 19 (- n) EmptyString)
  else decimal_digits 19 n EmptyString.

(** A field of [printf] whose width is given by [*]: [s] with spaces up
    to [|width|] characters, before [s] when the width is not negative
    and after it otherwise. *)
Definition printf_field (width : Z) (s : string) : string :=
  let fill := string_fill (Z.to_nat (Z.abs width) - String.length s) " " in
  if width <? 0 then String.append s fill else String.append fill s.

(** The first statements of [format_percentage]: the sign of [den] and
    the scaling of [num] and [den] to a percentage (the source's for
    [num] and [den] from [-LLONG_MAX] to [LLONG_MAX], see [llabs]). *)
Definition format_percentage_scale (num den : Z) : Z * Z :=
  let '(num, den) := if den <? 0 then (- num, - den) else (num, den) in
  if (llabs num <=? Z.quot LLONG_MAX 100) && (den <=? Z.quot LLONG_MAX 10)
  then (num * 100, den)
  else if llabs num <=? Z.quot LLONG_MAX 10 then (num * 10, Z.quot den 10)
  else (num, Z.quot den 100).

(** The loop of [format_percentage] that writes the decimals.  [buf]
    holds the [i] characters written so far and [prec] counts down to 0;
    [sizeof( buf ) - 2] is 78. *)
Fixpoint format_percentage_loop (prec : nat) (trunc : bool) (den : Z)
    (buf : string) (rest : Z) : string :=
  match prec with
  | O => buf
  | S prec' =>
      if ((0 <? rest) || negb trunc) && (Z.of_nat (String.length buf) <? 78)
      then
        let rest := rest * 10 in
        format_percentage_loop prec' trunc den
          (String.append buf (String (char_plus_zero (Z.quot rest den)) EmptyString))
          (Z.rem rest den)
      else buf
  end.

(** [format_percentage]: the string it returns.  [snprintf] returns the
    length of the whole field and leaves in [buf] what fits; when the
    field is too long the percent sign is written at index 78. *)
Definition format_percentage (num den iwidth prec : Z) : string :=
  let '(num, den) := format_percentage_scale num den in
  if den =? 0 then
    if 0 <? num then "+INF"%string
    else if num <? 0 then "-INF"%string else "NAN"%string
  else
    let trunc := prec <? 0 in
    let prec := if prec <? 0 then - prec else prec in
    let field :=
      if (num <? 0) && (Z.quot num den =? 0)
      then printf_field iwidth "-0"
      else printf_field iwidth (lld (Z.quot num den)) in
    let i := Z.of_nat (String.length field) in
    let buf :=
      if i <? 78 then
        let rest := Z.rem (llabs num) den in
        if (0 <? prec) && ((0 <? rest) || negb trunc)
        then format_percentage_loop (Z.to_nat prec) trunc den
               (String.append field ".") rest
        else field
      else substring 0 78 field in
    String.append buf "%".

(* ================================================================== *)
(** * io.cc *)

Definition EINTR : Z := 4.

(** What one call of [lseek], [read] or [write] does: the value it
    returns and the value it leaves in [errno] when it fails. *)
Record Syscall : Type := mkSyscall { ret : Z; err : Z }.

(** The [while( sz < size )] loop of [readblock]; [reads] are the
    results of the calls of [read] to come.  The result is [(sz, errno)]
    when the loop ends, [None] when it is still going after the last of
    the [reads]. *)
Fixpoint readblock_loop (reads : list Syscall) (size sz : Z) (errno : Z)
    : option (Z * Z) :=
  if sz <? size then
    match reads with
    | [] => None
    | r :: rest =>
        let n := ret r in
        let errno := if n <? 0 then err r else 0 in
        if 0 <? n then readblock_loop rest size (sz + n) errno
        else if n =? 0 then Some (sz, errno)
        else if negb (errno =? EINTR) then Some (sz, errno)
        else readblock_loop rest size sz errno
    end
  else Some (sz, errno).

(** [readblock]: the number of bytes read and the final [errno]. *)
Definition readblock (seek : Syscall) (reads : list Syscall) (size : Z)
    : option (Z * Z) :=
  let sz := 0 in
  let errno := 0 in
  if 0 <=? ret seek then readblock_loop reads size sz errno
  else Some (sz, err seek).

(** The [while( sz < size )] loop of [writeblock]. *)
Fixpoint writeblock_loop (writes : list Syscall) (size sz : Z) (errno : Z)
    : option (Z * Z) :=
  if sz <? size then
    match writes with
    | [] => None
    | r :: rest =>
        let n := ret r in
        let errno := if n <? 0 then err r else 0 in
        if 0 <? n then writeblock_loop rest size (sz + n) errno
        else if (n <? 0) && negb (errno =? EINTR) then Some (sz, errno)
        else writeblock_loop rest size sz errno
    end
  else Some (sz, errno).

(** [writeblock]: the number of bytes written and the final [errno]. *)
Definition writeblock (seek : Syscall) (writes : list Syscall) (size : Z)
    : option (Z * Z) :=
  let sz := 0 in
  let errno := 0 in
  if 0 <=? ret seek then writeblock_loop writes size sz errno
  else Some (sz, err seek).

(** A call interrupted by a signal. *)
Definition interrupted_call (r : Syscall) : bool :=
  (ret r <? 0) && (err r =? EINTR).

(** What [sigaction] can install for a signal: the function
    [sighandler], [SIG_IGN] or [SIG_DFL]. *)
Inductive Handler : Type := handler_sighandler | SIG_IGN | SIG_DFL.

(** The variable [signum_] and the handler installed for every signal. *)
Record Signal_state : Type := mkSignals {
  signum_ : Z;
  handler_of : Z -> Handler
}.

(** [sighandler]. *)
Definition sighandler (st : Signal_state) (signum : Z) : Signal_state :=
  if (signum_ st =? 0) && (0 <? signum)
  then mkSignals signum (handler_of st)
  else st.

(** [set_signal]: [sigaction] installs the handler. *)
Definition set_signal (st : Signal_state) (signum : Z) (handler : Handler)
    : Signal_state :=
  mkSignals (signum_ st)
    (fun s => if s =? signum then handler else handler_of st s).

(** [interrupted]. *)
Definition interrupted (st : Signal_state) : bool := 0 <? signum_ st.

(** A signal arrives while the program runs with the handlers that
    [set_signals] installs: the handler installed for it runs, and an
    ignored signal does not reach the program.  (What a signal left to
    its default action does to the process is in [raise] below.) *)
Definition deliver (st : Signal_state) (signum : Z) : Signal_state :=
  match handler_of st signum with
  | handler_sighandler => sighandler st signum
  | SIG_IGN | SIG_DFL => st
  end.

Section Signals.

(** The numbers of the five signals, which <csignal> gives. *)
Variables SIGHUP SIGINT SIGTERM SIGUSR1 SIGUSR2 : Z.

(** [set_signals]. *)
Definition set_signals (st : Signal_state) : Signal_state :=
  let st := mkSignals 0 (handler_of st) in
  let st := set_signal st SIGHUP handler_sighandler in
  let st := set_signal st SIGINT handler_sighandler in
  let st := set_signal st SIGTERM handler_sighandler in
  let st := set_signal st SIGUSR1 SIG_IGN in
  set_signal st SIGUSR2 SIG_IGN.

End Signals.

(** How [signaled_exit] ends: the signal it raises ends the process, or
    [std::raise] comes back and the function returns a status. *)
Inductive Signaled_exit : Type :=
| Ended_by_signal (signum : Z)
| Returned_status (status : Z).

(** [std::raise( signum )]: the signal is sent to the process itself.
    The handler installed for it runs; under [SIG_DFL] a signal whose
    default action is to end the process ends it there ([None]), and
    [default_ends] tells which signals these are (<csignal> and the
    system give this: SIGHUP, SIGINT and SIGTERM are among them). *)
Definition raise (default_ends : Z -> bool) (st : Signal_state) (signum : Z)
    : option Signal_state :=
  match handler_of st signum with
  | SIG_DFL => if default_ends signum then None else Some st
  | handler_sighandler => Some (sighandler st signum)
  | SIG_IGN => Some st
  end.

(** [signaled_exit]. *)
Definition signaled_exit (default_ends : Z -> bool) (st : Signal_state)
    : Signaled_exit :=
  let st := set_signal st (signum_ st) SIG_DFL in
  match raise default_ends st (signum_ st) with
  | None => Ended_by_signal (signum_ st)
  | Some st' => Returned_status (128 + signum_ st')
  end.

Definition EINVAL : Z := 22.
Definition EIO : Z := 5.

(** The value a [uint32_t] keeps of a number, and the [int] a
    [uint32_t] is returned as. *)
Definition uint32 (z : Z) : Z := z mod 4294967296.
Definition int_of_uint32 (z : Z) : Z :=
  if z <? 2147483648 then z else z - 4294967296.

(** [readblock_dvdread]: the value it returns and the final [errno].
    [DVDReadRawBlocks lb n] is what the call of that function of
    libdvdread on [n] blocks from block [lb] on returns and the value it
    leaves in [errno], which is 0 before the call. *)
Definition readblock_dvdread (DVDReadRawBlocks : Z -> Z -> Z * Z)
    (dvd_blocks : Z) (size : Z) (pos : Z) : Z * Z :=
  let errno := 0 in
  if negb (Z.rem pos 2048 =? 0) then (-1, EINVAL)
  else if negb (Z.rem size 2048 =? 0) then (-1, EINVAL)
  else
    let lb := uint32 (Z.quot pos 2048) in
    let n := uint32 (Z.quot size 2048) in
    let r := DVDReadRawBlocks lb n in
    let n_read := uint32 (fst r) in
    let errno := snd r in
    let errno :=
      if n_read <? n then
        if uint32 (lb + n_read) <? dvd_blocks then EIO else errno
      else errno in
    (int_of_uint32 (uint32 (n_read * 2048)), errno).

(* ================================================================== *)
(** * main.cc *)

(** Modelled from the spec: [Rb_options::default_skipbs] and
    [Rb_options::max_max_skipbs] (rescuebook.h, not under src/).  Spec
    4.5: the minimum skip size is 64 KiB and the maximum at most 1 GiB. *)
Definition default_skipbs : Z := 65536.
Definition max_max_skipbs : Z := 1073741824.

(** Modelled from the spec: the two fields of [Rb_options]
    (rescuebook.h) that [parse_skipbs] writes, spec 4.5. *)
Record Rb_options : Type := mkRb { skipbs : Z; max_skipbs : Z }.

Definition Rb_options_default : Rb_options :=
  mkRb default_skipbs max_max_skipbs.

(** [std::strchr( ptr, c )]: the rest of the string from the first [c]
    on. *)
Fixpoint strchr (s : string) (c : ascii) : option string :=
  match s with
  | EmptyString => None
  | String a rest => if Ascii.eqb a c then Some s else strchr rest c
  end.

(** [ptr + 1]. *)
Definition next_char (s : string) : string :=
  match s with
  | EmptyString => EmptyString
  | String _ rest => rest
  end.

Section Main.

(** The numeric input grammar (spec 6): the value of the number a
    string starts with, multiplier included ([hardbs] is the value of
    the multiplier [s]); [comma] allows a comma after the number.
    [None] when the string is not a number. *)
Variable strtonum : string -> Z -> bool -> option Z.

(** Modelled from the spec: [getnum] of main_common.cc, which is not
    under src/: a string that is not a number, or a number outside
    [min .. max], is a bad command line and ends the program with
    status 1 (spec 7, domain validation). *)
Definition getnum (ptr : string) (hardbs min max : Z) (comma : bool) : run Z :=
  match strtonum ptr hardbs comma with
  | None => Exited 1
  | Some result =>
      if (result <? min) || (max <? result) then Exited 1
      else Returned result
  end.

(** [parse_skipbs]. *)
Definition parse_skipbs (ptr : string) (rb_opts : Rb_options) (hardbs : Z)
    : run Rb_options :=
  let ptr2 := strchr ptr "," in
  rb_opts <-
    (match ptr2 with
     | Some p2 =>
         if negb (String.eqb p2 ptr) then
           n <- getnum ptr hardbs 0 max_max_skipbs true ;;
           Returned (mkRb n (max_skipbs rb_opts))
         else Returned rb_opts
     | None =>
         n <- getnum ptr hardbs 0 max_max_skipbs true ;;
         Returned (mkRb n (max_skipbs rb_opts))
     end) ;;
  rb_opts <-
    (match ptr2 with
     | Some p2 =>
         n <- getnum (next_char p2) hardbs default_skipbs max_max_skipbs false ;;
         Returned (mkRb (skipbs rb_opts) n)
     | None => Returned rb_opts
     end) ;;
  if (0 <? skipbs rb_opts) && (skipbs rb_opts <? default_skipbs) then Exited 1
  else if max_skipbs rb_opts <? skipbs rb_opts then Exited 1
  else Returned rb_opts.

(** The test of [do_rescue] that prints "Initial skip size" or
    "Skipping disabled". *)
Definition skipping_disabled (rb_opts : Rb_options) : bool :=
  negb (0 <? skipbs rb_opts).

(** The options of [main] whose cases read or write the sector size,
    and one name for all the others. *)
Inductive Option_code : Type :=
| opt_b (arg : string)      (* -b, --sector-size *)
| opt_c (arg : string)      (* -c, --cluster-size *)
| opt_K (arg : string)      (* -K, --skip-size *)
| opt_dvd                   (* --dvd *)
| opt_other.

(** The local variables of [main] that those cases use. *)
Record Main_vars : Type := mkMain {
  cluster : Z;
  hardbs_at_default : bool;
  hardbs : Z;
  rb_opts : Rb_options;
  dvd : bool
}.

Definition cluster_bytes : Z := 65536.
Definition default_hardbs : Z := 512.
Definition max_hardbs : Z := max_max_skipbs.

Definition Main_vars_init : Main_vars :=
  mkMain 0 true default_hardbs Rb_options_default false.

(** [DDRESCUE_USE_DVDREAD]: whether the program was built with the
    [case opt_dvd] of the switch. *)
Variable DDRESCUE_USE_DVDREAD : bool.

(** The switch of the option loop of [main]. *)
Definition process_option (m : Main_vars) (code : Option_code) : run Main_vars :=
  match code with
  | opt_b ptr =>
      m1 <- (if negb (hardbs_at_default m) then
               n <- getnum ptr 0 1 max_hardbs false ;;
               Returned (mkMain (cluster m) (hardbs_at_default m) n (rb_opts m) (dvd m))
             else Returned m) ;;
      Returned (mkMain (cluster m1) false (hardbs m1) (rb_opts m1) (dvd m1))
  | opt_c ptr =>
      n <- getnum ptr 0 1 INT_MAX false ;;
      Returned (mkMain n (hardbs_at_default m) (hardbs m) (rb_opts m) (dvd m))
  | opt_K ptr =>
      rb <- parse_skipbs ptr (rb_opts m) (hardbs m) ;;
      Returned (mkMain (cluster m) (hardbs_at_default m) (hardbs m) rb (dvd m))
  | opt_dvd =>
      if DDRESCUE_USE_DVDREAD then
        Returned (mkMain (cluster m) (hardbs_at_default m)
                    (if hardbs_at_default m then 2048 else hardbs m)
                    (rb_opts m) true)
      else internal_error
  | opt_other => Returned m
  end.

(** The option loop of [main]. *)
Fixpoint process_options (m : Main_vars) (codes : list Option_code)
    : run Main_vars :=
  match codes with
  | [] => Returned m
  | code :: rest => m' <- process_option m code ;; process_options m' rest
  end.

(** The lines of [main] after the loop that settle the sector and
    cluster sizes. *)
Definition settle_sizes (m : Main_vars) : Main_vars :=
  let hardbs := if hardbs m <? 1 then default_hardbs else hardbs m in
  let cluster := if Z.quot INT_MAX hardbs <=? cluster m
                 then Z.quot INT_MAX hardbs - 1 else cluster m in
  let cluster := if cluster <? 1 then Z.quot cluster_bytes hardbs else cluster in
  let cluster := if cluster <? 1 then 1 else cluster in
  mkMain cluster (hardbs_at_default m) hardbs (rb_opts m) (dvd m).

(** [main] up to the end of the scan of the arguments. *)
Definition scan_arguments (codes : list Option_code) : run Main_vars :=
  m <- process_options Main_vars_init codes ;;
  Returned (settle_sizes m).

End Main.

(** The loop of [parse_cpass] from index [i] on, [arg] being what is
    left of the argument from there: the value of [rb_opts.cpass_bitset]
    when the loop ends, [None] when it ends with [error = true]. *)
Fixpoint parse_cpass_loop (arg : string) (cpass_bitset : Z) : option Z :=
  match arg with
  | EmptyString => Some cpass_bitset
  | String ch rest =>
      if (nat_of_ascii ch <? nat_of_ascii "0")%nat
         || (nat_of_ascii "3" <? nat_of_ascii ch)%nat then None
      else
        let cpass_bitset :=
          if (nat_of_ascii "0" <? nat_of_ascii ch)%nat
          then Z.lor cpass_bitset
                 (Z.shiftl 1 (Z.of_nat (nat_of_ascii ch) - Z.of_nat (nat_of_ascii "1")))
          else cpass_bitset in
        match rest with
        | EmptyString => Some cpass_bitset
        | String next rest' =>
            if Ascii.eqb next ","
               && negb (match rest' with EmptyString => true | _ => false end)
            then parse_cpass_loop rest' cpass_bitset
            else None
        end
  end.

(** [parse_cpass]: the value it leaves in [rb_opts.cpass_bitset]. *)
Definition parse_cpass (arg : string) : run Z :=
  let error := match arg with EmptyString => true | _ => false end in
  match parse_cpass_loop arg 0 with
  | None => Exited 1
  | Some cpass_bitset => if error then Exited 1 else Returned cpass_bitset
  end.

(** What [stat] tells of a file: the fields [st_ino] and [st_dev] and
    the result of [S_ISREG( st_mode )]. *)
Record Stat : Type := mkStat { st_ino : Z; st_dev : Z; S_ISREG : bool }.

Section Files.

(** [stat( name, &st )]: [None] when the call fails. *)
Variable stat : string -> option Stat.

Definition same_inode (a b : option Stat) : bool :=
  match a, b with
  | Some sa, Some sb => (st_ino sa =? st_ino sb) && (st_dev sa =? st_dev sb)
  | _, _ => false
  end.

(** [check_identical]. *)
Definition check_identical (iname oname : string) (mapname : option string)
    : bool :=
  let same := String.eqb iname oname in
  let istat := if negb same then stat iname else None in
  let ostat := if negb same then stat oname else None in
  let same := same || same_inode istat ostat in
  if same then true
  else
    match mapname with
    | Some mapname =>
        let same := String.eqb iname mapname in
        let mapstat := if negb same then stat mapname else None in
        let same := same || same_inode istat mapstat in
        if same then true
        else if String.eqb oname mapname || same_inode ostat mapstat then true
        else false
    | None => false
    end.

(** [check_files]. *)
Definition check_files (iname oname mapname : option string)
    (min_outfile_size : Z) (force generate preallocate sparse : bool) : bool :=
  match iname, oname with
  | Some iname, Some oname =>
      if check_identical iname oname mapname then false
      else if match mapname with
              | Some mapname =>
                  match stat mapname with
                  | Some st => negb (S_ISREG st)
                  | None => false
                  end
              | None => false
              end
      then false
      else if negb generate
              && ((0 <? min_outfile_size) || negb force || preallocate || sparse)
              && match stat oname with
                 | Some st => negb (S_ISREG st)
                 | None => false
                 end
      then false
      else true
  | _, _ => false
  end.

End Files.

(* ================================================================== *)
(** * Vocabulary of the properties *)

(** ** Command lines *)

(** A decimal instance of the numeric input grammar, to run the option
    parser on examples: digits, followed by nothing or, where a comma is
    allowed, by a comma. *)
Definition digit_of (c : ascii) : option Z :=
  let n := Z.of_nat (nat_of_ascii c) in
  if (48 <=? n) && (n <=? 57) then Some (n - 48) else None.

Fixpoint strtonum_digits (s : string) (acc : Z) (seen comma : bool) : option Z :=
  match s with
  | EmptyString => if seen then Some acc else None
  | String c rest =>
      match digit_of c with
      | Some d => strtonum_digits rest (10 * acc + d) true comma
      | None => if seen && comma && Ascii.eqb c "," then Some acc else None
      end
  end.

Definition strtonum_decimal (s : string) (hardbs : Z) (comma : bool) : option Z :=
  strtonum_digits s 0 false comma.

(** No [-b] among the options. *)
Definition no_sector_size (codes : list Option_code) : bool :=
  forallb (fun c => match c with opt_b _ => false | _ => true end) codes.

(** [--dvd] is among the options. *)
Definition has_dvd (codes : list Option_code) : bool :=
  existsb (fun c => match c with opt_dvd => true | _ => false end) codes.

Definition set_hardbs (m : Main_vars) (n : Z) : Main_vars :=
  mkMain (cluster m) (hardbs_at_default m) n (rb_opts m) (dvd m).

Definition clear_hardbs_at_default (m : Main_vars) : Main_vars :=
  mkMain (cluster m) false (hardbs m) (rb_opts m) (dvd m).

(** The maximum skip size in force when [parse_skipbs] checks the
    initial one: the number after the comma when the argument has one
    ([None] when that number is refused), the one already set
    otherwise. *)
Definition configured_max_skipbs (strtonum : string -> Z -> bool -> option Z)
    (ptr : string) (rb_opts : Rb_options) (hardbs : Z) : option Z :=
  match strchr ptr "," with
  | None => Some (max_skipbs rb_opts)
  | Some p2 =>
      match getnum strtonum (next_char p2) hardbs default_skipbs max_max_skipbs false with
      | Returned n => Some n
      | _ => None
      end
  end.

(** ** Block transfers *)

(** The calls that the loop of [readblock] goes through without ending:
    a transfer of some bytes, or an interrupted call. *)
Definition read_goes_on (r : Syscall) : Prop :=
  0 < ret r \/ interrupted_call r = true.

(** The same for [writeblock], whose loop also goes on after a call of
    [write] that returns 0. *)
Definition write_goes_on (r : Syscall) : Prop :=
  0 <= ret r \/ interrupted_call r = true.

(** The loop ended on a call of [read] that returned 0; [errno] is 0. *)
Definition ended_at_eof (reads : list Syscall) (errno : Z) : Prop :=
  exists pre r rest,
    reads = pre ++ r :: rest /\ Forall read_goes_on pre /\ ret r = 0 /\ errno = 0.

(** The loop ended on a call that failed with an error other than
    [EINTR], which is the final [errno]. *)
Definition ended_at_error (goes_on : Syscall -> Prop) (calls : list Syscall)
    (errno : Z) : Prop :=
  exists pre r rest,
    calls = pre ++ r :: rest /\ Forall goes_on pre /\
    ret r < 0 /\ err r <> EINTR /\ errno = err r.

(** The trace without its interrupted calls. *)
Definition without_interrupts (calls : list Syscall) : list Syscall :=
  filter (fun r => negb (interrupted_call r)) calls.

(** "[readblock] returns fewer bytes than requested only when end of file
    is reached (in which case errno is 0) or a non-EINTR read error
    occurs." *)
Definition short_read_is_eof_or_error (seek : Syscall) (reads : list Syscall)
    (size : Z) : Prop :=
  forall sz errno,
    readblock seek reads size = Some (sz, errno) -> sz < size ->
    ended_at_eof reads errno \/ ended_at_error read_goes_on reads errno.

(** ** Mapfiles *)

(** The status a vector of sblocks gives the byte at position [p]. *)
Fixpoint status_at (v : list Sblock) (p : Z) : option Status :=
  match v with
  | [] => None
  | sb :: rest =>
      if Block_includes_pos sb p then Some (status sb) else status_at rest p
  end.

(** The byte at [p] is finished in the vector. *)
Definition finished_at (v : list Sblock) (p : Z) : bool :=
  match status_at v p with
  | Some finished => true
  | _ => false
  end.

(** The byte at [p] belongs to the domain. *)
Definition in_domain (d : Domain) (p : Z) : bool :=
  existsb (fun D => Block_includes_pos D p) d.

(** The sblocks are not empty and each starts where the one before it
    ends (spec 3, invariants of the mapbook). *)
Fixpoint contiguous (v : list Sblock) : bool :=
  match v with
  | [] => true
  | sb :: rest =>
      (0 <? size sb)
      && match rest with
         | [] => true
         | nx :: _ => Block_end sb =? pos nx
         end
      && contiguous rest
  end.

Definition Block_disjoint (a b : Block) : bool :=
  (Block_end a <=? pos b) || (Block_end b <=? pos a).

(** The sblocks are split at the borders of the domain: an sblock that
    meets a block of the domain lies inside it. *)
Definition split_at_domain_borders (d : Domain) (v : list Sblock) : bool :=
  forallb (fun sb : Sblock =>
             forallb (fun D => Block_includes D sb || Block_disjoint D sb) d) v.

(** The blocks of the domain are in ascending order and do not overlap
    (spec 3). *)
Fixpoint Domain_ordered (d : Domain) : bool :=
  match d with
  | [] => true
  | D :: rest =>
      (0 <=? size D)
      && match rest with
         | [] => true
         | N :: _ => Block_end D <=? pos N
         end
      && Domain_ordered rest
  end.

(** What the constructor of [Logbook] makes sure of in the vector it
    leaves for the domain. *)
Definition mapfile_ok (d : Domain) (v : list Sblock) : bool :=
  contiguous v && split_at_domain_borders d v.

(** The status AND leaves a byte of status [a]: a finished byte that is
    not finished in the second mapfile becomes a bad sector. *)
Definition and_status (a : Status) (finished_in_b : bool) : Status :=
  match a with
  | finished => if finished_in_b then finished else bad_sector
  | _ => a
  end.

(** The status XOR of the finished bits gives a byte of status [a]. *)
Definition xor_status (a : Status) (finished_in_b : bool) : Status :=
  match a with
  | finished => if finished_in_b then bad_sector else finished
  | _ => if finished_in_b then finished else a
  end.

(** The status [--invert-logfile] gives an sblock of the domain. *)
Definition invert_status (a : Status) : Status :=
  match a with
  | finished => bad_sector
  | _ => finished
  end.

(** The sblocks [find_chunk] looks for: finished and included in the
    domain. *)
Definition finished_included (d : Domain) (sb : Sblock) : bool :=
  Status_eqb (status sb) finished && Domain_includes d sb.

(** A finished sblock of the domain of the vector holds the byte at [p]. *)
Definition finished_chunk_at (d : Domain) (v : list Sblock) (p : Z) : bool :=
  existsb (fun sb : Sblock =>
             finished_included d sb && Block_includes_pos sb p) v.

(** The blocks of [v] end at or before [q]. *)
Definition ends_before (v : list Sblock) (q : Z) : Prop :=
  forall x, In x v -> Block_end x <= q.

(** The blocks of [v] start at or after [q]. *)
Definition starts_after (v : list Sblock) (q : Z) : Prop :=
  forall x, In x v -> q <= pos x.

Definition sizes_positive (v : list Sblock) : Prop :=
  forall x, In x v -> 0 < size x.

Definition sbl (p s : Z) (st : Status) : Sblock := mkSblock (mkBlock p s) st.

(** Every sblock included in the domain has status finished. *)
Definition all_done (d : Domain) (v : list Sblock) : bool :=
  forallb (fun sb : Sblock =>
             negb (Domain_includes d sb) || Status_eqb (status sb) finished) v.

(** "[--done-status] returns exit status 0 if and only if every sblock
    included in the domain has status finished; with [--delete-if-done]
    the mapfile is unlinked exactly when that test succeeds, and a
    failed unlink yields exit status 1." *)
Definition done_status_claim (d : Domain) (v : list Sblock) : Prop :=
  (forall remove_ok,
     exit_status (test_if_done d (Some v) false remove_ok) = 0
     <-> all_done d v = true) /\
  (forall remove_ok,
     exit_status (test_if_done d (Some v) false remove_ok) = 0 \/
     exit_status (test_if_done d (Some v) false remove_ok) = 1) /\
  (unlinked (test_if_done d (Some v) true true) = true
   <-> all_done d v = true) /\
  (all_done d v = true ->
   test_if_done d (Some v) true false = mkDone 1 false).

(** The sblock belongs to a bad area: it is in the domain and is
    neither non-tried nor finished. *)
Definition in_error_area (d : Domain) (sb : Sblock) : bool :=
  Domain_includes d sb
  && negb (Status_eqb (status sb) non_tried)
  && negb (Status_eqb (status sb) finished).

(** The number of maximal runs of consecutive sblocks in a bad area: the
    number of indexes at which such a run starts.  An sblock outside the
    domain is in no run, so it ends the run before it. *)
Definition starts_error_run (d : Domain) (v : list Sblock) (k : nat) : bool :=
  in_error_area d (vget v k)
  && ((k =? 0)%nat || negb (in_error_area d (vget v (k - 1)))).

Definition error_runs (d : Domain) (v : list Sblock) : Z :=
  Z.of_nat (length (filter (starts_error_run d v) (seq 0 (length v)))).

(** The same number, counted along the vector; [prev] tells whether the
    sblock before the head of [v] is in a bad area. *)
Fixpoint error_runs_from (d : Domain) (prev : bool) (v : list Sblock) : Z :=
  match v with
  | [] => 0
  | sb :: rest =>
      (if in_error_area d sb && negb prev then 1 else 0)
      + error_runs_from d (in_error_area d sb) rest
  end.

(** What [--invert-logfile] makes of an sblock. *)
Definition invert_sblock (d : Domain) (sb : Sblock) : Sblock :=
  if Domain_includes d sb
  then Sblock_with_status sb (invert_status (status sb))
  else sb.

(** [--list-blocks] prints the blocks of this sblock: it is included in
    the domain and its status is one of [blocktypes]. *)
Definition listed (d : Domain) (blocktypes : string) (sb : Sblock) : bool :=
  Domain_includes d sb
  && match string_find blocktypes (Status_char (status sb)) with
     | Some _ => true
     | None => false
     end.

(** [n] is [(byte + offset) / hardbs] for a byte of a listed sblock. *)
Definition block_of_listed_byte (offset : Z) (d : Domain) (v : list Sblock)
    (hardbs : Z) (blocktypes : string) (n : Z) : Prop :=
  exists (sb : Sblock) byte,
    In sb v /\ listed d blocktypes sb = true /\
    Block_includes_pos sb byte = true /\ n = (byte + offset) / hardbs.

(** The numbers are above [lo] and in strictly ascending order. *)
Fixpoint ascending_above (lo : Z) (l : list Z) : bool :=
  match l with
  | [] => true
  | x :: rest => (lo <? x) && ascending_above x rest
  end.

(** What AND makes of the status a vector gives the byte at [p], given
    the finished chunks of the second logbook (its domain [d2] and its
    vector [v2]): the bytes of the domain go through [and_status], the
    others keep what they have. *)
Definition and_at (d d2 : Domain) (v2 v : list Sblock) (p : Z) : option Status :=
  if in_domain d p
  then option_map (fun s => and_status s (finished_chunk_at d2 v2 p)) (status_at v p)
  else status_at v p.

(** The measure that goes down at every pass of the loop of
    [do_logic_ops] in AND mode, on the sblocks from the loop counter
    on. *)
Definition and_measure (suf : list Sblock) : Z :=
  match suf with
  | [] => 0
  | sb :: _ =>
      2 * vsize suf + (if Status_eqb (status sb) finished then 1 else 0)
  end.

(** "Every byte of the domain that is finished in both A and B is
    finished, and every other byte of the domain is bad_sector", for the
    logfile [R] that AND prints. *)
Definition and_claim (d : Domain) (vA vB : list Sblock) (R : Logbook) : Prop :=
  forall p a,
    in_domain d p = true -> status_at vA p = Some a ->
    status_at (sblock_vector R) p =
    Some (if finished_at vA p && finished_at vB p then finished else bad_sector).

(** The loop of AND that stands at position [q] of the vector [v] ends
    with the vector [v']: before [q] nothing has changed, from [q] on
    every byte has the status AND gives it. *)
Definition and_done_from (d d2 : Domain) (v2 v : list Sblock) (q : Z)
    (v' : list Sblock) : Prop :=
  contiguous v' = true /\
  forall p, status_at v' p = if p <? q then status_at v p else and_at d d2 v2 v p.

(** [q] is where the sblocks from the loop counter on start. *)
Definition seam_at (suf : list Sblock) (q : Z) : Prop :=
  match suf with
  | x :: _ => q = pos x
  | [] => True
  end.

(** An sblock that meets a block of the domain lies inside it. *)
Definition borders_ok (d : Domain) (sb : Sblock) : bool :=
  forallb (fun D => Block_includes D sb || Block_disjoint D sb) d.

(** ** Creating a logfile *)

(** The blocks of the domain are in ascending order and apart from each
    other, as the finished areas of a compacted logfile are. *)
Fixpoint Domain_separated (d : Domain) : bool :=
  match d with
  | [] => true
  | D :: rest =>
      (0 <=? size D)
      && match rest with
         | [] => true
         | N :: _ => Block_end D <? pos N
         end
      && Domain_separated rest
  end.

(** The positions at which the sblocks of a vector start. *)
Definition starts (v : list Sblock) : list Z := map (fun x : Sblock => pos x) v.

(** No sblock starts inside a block of the domain. *)
Definition starts_at_borders (d : Domain) (v : list Sblock) : bool :=
  forallb (fun x : Sblock =>
             forallb (fun D => negb (Block_strictly_includes D (pos x))) d) v.

(** The vector holds every byte of the domain. *)
Definition covers_domain (d : Domain) (v : list Sblock) : bool :=
  forallb (fun D =>
             Block_includes (mkBlock (pos (vget v 0)) (vsize v)) D) d.

(** What the constructor of [Logbook] makes sure of in the vector of a
    logbook created without a file: it holds the domain and is split at
    the borders of the domain and nowhere else inside it. *)
Definition fresh_ok (d : Domain) (v : list Sblock) : bool :=
  contiguous v && split_at_domain_borders d v
  && starts_at_borders d v && covers_domain d v.

(** [create_logfile] goes on after this line of the standard input: it
    is a number and is not above [LLONG_MAX / hardbs]. *)
Definition accepted (hardbs : Z) (line : option Z) : bool :=
  match line with
  | Some block => block <=? LLONG_MAX / hardbs
  | None => false
  end.

(** Modelled from the spec: what is known of the constructor
    [Block( pos, size )] of block.h, spec 3 ("fields pos >= 0,
    size >= 0", "pos + size does not overflow"): two numbers that make
    a block as spec 3 has them are held as they are.  What the
    constructor makes of other numbers is left open. *)
Definition Block_constructor (Block_new : Z -> Z -> Block) : Prop :=
  forall p s, 0 <= p -> 0 <= s -> p + s <= LLONG_MAX -> Block_new p s = mkBlock p s.

(** A constructor of blocks for the examples: it holds the numbers of
    a block as spec 3 has them, and makes the empty block at 0 of any
    others. *)
Definition Block_or_empty (p s : Z) : Block :=
  if (0 <=? p) && (0 <=? s) && (p + s <=? LLONG_MAX) then mkBlock p s
  else mkBlock 0 0.


(** The block of [hardbs] bytes with this number is a block as spec 3
    has them: it starts at or after 0 and ends at or below [LLONG_MAX],
    so that [Block( block * hardbs, hardbs )] holds just these two
    numbers. *)
Definition plain_block (hardbs : Z) (line : option Z) : bool :=
  match line with
  | Some block => (0 <=? block) && (block * hardbs + hardbs <=? LLONG_MAX)
  | None => true
  end.

(** The byte at [p] belongs to a block of [hardbs] bytes whose number
    is one of the lines and which lies inside the domain. *)
Definition marked (d : Domain) (hardbs : Z) (lines : list (option Z)) (p : Z)
    : bool :=
  existsb (fun line =>
             match line with
             | Some block =>
                 Domain_includes d (mkBlock (block * hardbs) hardbs)
                 && Block_includes_pos (mkBlock (block * hardbs) hardbs) p
             | None => false
             end) lines.

(** What the loop of [create_logfile] keeps true of the vector: it is
    contiguous, split at the borders of the domain, it holds the domain,
    and inside a block of the domain its sblocks start at multiples of
    [hardbs] only. *)
Definition create_invariant (d : Domain) (hardbs : Z) (v : list Sblock) : Prop :=
  contiguous v = true /\
  split_at_domain_borders d v = true /\
  (forall D p, In D d -> Block_includes_pos D p = true -> status_at v p <> None) /\
  (forall z D, In z (starts v) -> In D d ->
     Block_strictly_includes D z = true -> z mod hardbs = 0).

(** ** Signals and block transfers *)

(** The signal is one of the three that [set_signals] gives to
    [sighandler]. *)
Definition interrupting (SIGHUP SIGINT SIGTERM s : Z) : bool :=
  (s =? SIGHUP) || (s =? SIGINT) || (s =? SIGTERM).

(** The first of the signals that is one of those three, 0 when there
    is none. *)
Definition first_interrupting (SIGHUP SIGINT SIGTERM : Z) (sigs : list Z) : Z :=
  hd 0 (filter (interrupting SIGHUP SIGINT SIGTERM) sigs).

(** The handlers are the ones [set_signals] installs. *)
Definition installed (SIGHUP SIGINT SIGTERM SIGUSR1 SIGUSR2 : Z)
    (st : Signal_state) : Prop :=
  forall s,
    (interrupting SIGHUP SIGINT SIGTERM s = true ->
     handler_of st s = handler_sighandler) /\
    (s = SIGUSR1 \/ s = SIGUSR2 -> handler_of st s = SIG_IGN).

(** No call returns more than the [size - sz] bytes it is asked for. *)
Fixpoint within_request (calls : list Syscall) (size sz : Z) : bool :=
  match calls with
  | [] => true
  | r :: rest =>
      (ret r <=? size - sz)
      && within_request rest size (if 0 <? ret r then sz + ret r else sz)
  end.

(** ** The list of passes and the files of the command line *)

(** The character of a pass number: '0' for 0, '1' for 1, ... *)
Definition pass_char (k : nat) : ascii := ascii_of_nat (48 + k).

(** The argument of [--cpass] that lists these numbers, with a comma
    between one and the next. *)
Fixpoint cpass_arg (passes : list nat) : string :=
  match passes with
  | [] => EmptyString
  | k :: rest =>
      match rest with
      | [] => String (pass_char k) EmptyString
      | _ :: _ => String (pass_char k) (String "," (cpass_arg rest))
      end
  end.

(** A list of pass numbers that [--cpass] takes: it is not empty and no
    number is above 3. *)
Definition cpass_list (passes : list nat) : Prop :=
  passes <> [] /\ forall k, In k passes -> (k <= 3)%nat.

(** The two names are the same name or name the same file. *)
Definition same_file (stat : string -> option Stat) (a b : string) : bool :=
  String.eqb a b || same_inode (stat a) (stat b).

(** The file exists and is no regular file. *)
Definition special_file (stat : string -> option Stat) (name : string) : bool :=
  match stat name with
  | Some st => negb (S_ISREG st)
  | None => false
  end.

(** ** The types of the command line *)

(** Every character of the string is the character of a status. *)
Fixpoint status_string (s : string) : bool :=
  match s with
  | EmptyString => true
  | String c rest => isstatus c && status_string rest
  end.

(** The new types with the last of them repeated until there are as
    many as old types. *)
Definition padded_types (types1 nt : string) : string :=
  String.append nt
    (string_fill (String.length types1 - String.length nt) (string_back nt)).

(** What [change_types] makes of an sblock. *)
Definition change_sblock (d : Domain) (types1 types2 : string) (sb : Sblock)
    : Sblock :=
  if Domain_includes d sb then change_type types1 types2 sb else sb.

(** ** The sizes and areas of the status summary *)

(** The five sizes of the summary together. *)
Definition summary_size (s : Show_status) : Z :=
  size_finished s + size_non_tried s + size_non_trimmed s + size_non_split s
  + size_bad_sector s.

(** The areas of the three types that make an error. *)
Definition error_areas (s : Show_status) : Z :=
  areas_non_trimmed s + areas_non_split s + areas_bad_sector s.

(** The bytes of the sblocks that are included in the domain, and of
    those that are included in one block. *)
Definition included_size (d : Domain) (v : list Sblock) : Z :=
  fold_right (fun (sb : Sblock) acc =>
                (if Domain_includes d sb then size sb else 0) + acc) 0 v.

Definition size_inside (D : Block) (v : list Sblock) : Z :=
  fold_right (fun (sb : Sblock) acc =>
                (if Block_includes D sb then size sb else 0) + acc) 0 v.

(** A status that does not make an error. *)
Definition good_status (st : Status) : bool :=
  Status_eqb st non_tried || Status_eqb st finished.

(** What the loop of [do_show_status] keeps true of the errors and the
    areas: no more errors than areas of the types that make an error,
    and [good] tells whether the sblock before was of a good type. *)
Definition areas_invariant_holds (s : Show_status) : Prop :=
  errors s <= error_areas s /\
  (first_block s = false -> good s = good_status (old_status s)).

(** ** OR and XOR of two logfiles *)

(** A status that OR, or XOR, gives a byte it changes. *)
Definition new_status (mode : Mode) (st : Status) : bool :=
  match mode with
  | m_or => Status_eqb st finished
  | _ => Status_eqb st finished || Status_eqb st bad_sector
  end.

(** From [before] to [after] the byte at [p] has kept its status, or it
    is a byte of the domain that is finished in the second logbook (its
    domain [d2] and its vector [v2]) and has got one of the statuses
    that the mode gives. *)
Definition changed_where_finished (mode : Mode) (d d2 : Domain) (v2 : list Sblock)
    (p : Z) (before after : option Status) : Prop :=
  after = before \/
  (in_domain d p = true /\ finished_chunk_at d2 v2 p = true /\ before <> None /\
   exists st, after = Some st /\ new_status mode st = true).

(** The measure that goes down at every pass of the loop of
    [do_logic_ops] in OR and XOR mode, on the sblocks from the loop
    counter on: a pass that is done again on the same index stands on a
    chunk that is finished as a whole in the second logfile. *)
Definition logic_measure (logbook2 : Logbook) (suf : list Sblock) : Z :=
  match suf with
  | [] => 0
  | sb :: _ =>
      2 * vsize suf
      + (if Block_eqb (find_chunk logbook2 sb finished) sb then 0 else 1)
  end.

(** The second logbook is finished at every byte from [q] to [p]. *)
Definition finished_from (d2 : Domain) (v2 : list Sblock) (q p : Z) : Prop :=
  forall r, q <= r <= p -> finished_chunk_at d2 v2 r = true.

(** The loop of OR or XOR that stands on the sblocks [suf] of the
    vector [v] ends with the vector [v']: a byte has changed only where
    the second logfile is finished, and in OR mode the bytes at the
    beginning of an sblock of [suf], as far as the second logfile is
    finished from its first byte on, are finished. *)
Definition or_xor_done (mode : Mode) (d d2 : Domain) (v2 v suf v' : list Sblock)
    : Prop :=
  contiguous v' = true /\
  (forall p,
     changed_where_finished mode d d2 v2 p (status_at v p) (status_at v' p)) /\
  (mode = m_or -> forall x : Sblock, In x suf -> Domain_includes d x = true ->
     forall p, pos x <= p < Block_end x -> finished_from d2 v2 (pos x) p ->
     status_at v' p = Some finished).

(** ** Percentages *)

(** The character of the decimal digit [d]. *)
Definition digit_char (d : Z) : ascii := ascii_of_N (Z.to_N (d + 48)).

(** The characters of the decimal digits [ds]. *)
Fixpoint digit_string (ds : list Z) : string :=
  match ds with
  | [] => EmptyString
  | d :: rest => String (digit_char d) (digit_string rest)
  end.

(** The number the decimal digits [ds] write, the highest first. *)
Fixpoint digits_number (ds : list Z) : Z :=
  match ds with
  | [] => 0
  | d :: rest => d * 10 ^ Z.of_nat (length rest) + digits_number rest
  end.

(** [d] is a decimal digit. *)
Definition decimal_digit (d : Z) : Prop := 0 <= d <= 9.

(** What follows the whole part of a percentage: nothing when there are
    no decimals, a point and the decimals otherwise. *)
Definition decimals (ds : list Z) : string :=
  match ds with
  | [] => EmptyString
  | _ => String "." (digit_string ds)
  end.

(* ================================================================== *)
(** * Properties of main.cc *)

Section MainProperties.

Variable strtonum : string -> Z -> bool -> option Z.
Variable DVDREAD : bool.

Lemma getnum_limits ptr h lo hi c n :
  getnum strtonum ptr h lo hi c = Returned n -> lo <= n <= hi.
Proof.
  unfold getnum. destruct (strtonum ptr h c) as [r|]; [|discriminate].
  destruct ((r <? lo) || (hi <? r)) eqn:E; [discriminate|].
  intros H; inversion H; subst. apply orb_false_elim in E. lia.
Qed.

Lemma getnum_value ptr h lo hi c v :
  strtonum ptr h c = Some v ->
  getnum strtonum ptr h lo hi c = if (v <? lo) || (hi <? v) then Exited 1 else Returned v.
Proof. unfold getnum. intros ->. reflexivity. Qed.

Lemma getnum_cases ptr h lo hi c :
  (exists n, getnum strtonum ptr h lo hi c = Returned n) \/
  getnum strtonum ptr h lo hi c = Exited 1.
Proof.
  unfold getnum. destruct (strtonum ptr h c) as [r|]; [|now right].
  destruct ((r <? lo) || (hi <? r)); [now right|left; eauto].
Qed.

Lemma bind_Returned {A B} (r : run A) (k : A -> run B) b :
  bind r k = Returned b -> exists a, r = Returned a /\ k a = Returned b.
Proof. destruct r; simpl; try discriminate. eauto. Qed.

Lemma process_options_app m xs ys :
  process_options strtonum DVDREAD m (xs ++ ys) =
  bind (process_options strtonum DVDREAD m xs) (fun m' => process_options strtonum DVDREAD m' ys).
Proof.
  revert m. induction xs as [|x xs IH]; intros m; simpl; [reflexivity|].
  destruct (process_option strtonum DVDREAD m x); simpl; auto.
Qed.

(** While no [-b] has been seen, [hardbs_at_default] stays set and the
    sector size is 512, or 2048 once [--dvd] has been seen. *)
Lemma process_options_before_b codes : forall m m',
  no_sector_size codes = true ->
  hardbs_at_default m = true ->
  process_options strtonum DVDREAD m codes = Returned m' ->
  hardbs_at_default m' = true /\
  hardbs m' = if has_dvd codes then 2048 else hardbs m.
Proof.
  induction codes as [|c codes IH]; intros m m' Hn Hd Hr; simpl in *.
  - inversion Hr; subst. auto.
  - apply andb_prop in Hn. destruct Hn as [Hc Hn].
    apply bind_Returned in Hr. destruct Hr as (m1 & H1 & H2).
    destruct c; try discriminate; simpl in H1.
    + apply bind_Returned in H1. destruct H1 as (n & _ & H1).
      inversion H1; subst. apply (IH _ _ Hn) in H2; auto.
    + apply bind_Returned in H1. destruct H1 as (n & _ & H1).
      inversion H1; subst. apply (IH _ _ Hn) in H2; auto.
    + destruct DVDREAD; [|discriminate]. inversion H1; subst; clear H1.
      rewrite Hd in H2.
      apply (IH _ _ Hn) in H2; [|reflexivity]. simpl in H2.
      destruct H2 as [Ha Hb]. split; [exact Ha|].
      rewrite Hb. destruct (has_dvd codes); reflexivity.
    + inversion H1; subst. apply (IH _ _ Hn) in H2; auto.
Qed.

(** Once [hardbs_at_default] is clear, options other than [-b] leave
    the sector size alone. *)
Lemma process_options_after_b codes : forall m m',
  no_sector_size codes = true ->
  hardbs_at_default m = false ->
  process_options strtonum DVDREAD m codes = Returned m' ->
  hardbs_at_default m' = false /\ hardbs m' = hardbs m.
Proof.
  induction codes as [|c codes IH]; intros m m' Hn Hd Hr; simpl in *.
  - inversion Hr; subst. auto.
  - apply andb_prop in Hn. destruct Hn as [Hc Hn].
    apply bind_Returned in Hr. destruct Hr as (m1 & H1 & H2).
    destruct c; try discriminate; simpl in H1.
    + apply bind_Returned in H1. destruct H1 as (n & _ & H1).
      inversion H1; subst. apply (IH _ _ Hn) in H2; auto.
    + apply bind_Returned in H1. destruct H1 as (n & _ & H1).
      inversion H1; subst. apply (IH _ _ Hn) in H2; auto.
    + destruct DVDREAD; [|discriminate]. inversion H1; subst; clear H1.
      rewrite Hd in H2.
      apply (IH _ _ Hn) in H2; [|reflexivity]. simpl in H2. exact H2.
    + inversion H1; subst. apply (IH _ _ Hn) in H2; auto.
Qed.

(** C2: the first [-b] of a command line is ignored.  Scanning the
    options up to and including the first [-b N] leaves what scanning
    them without it leaves, but for [hardbs_at_default], which it
    clears, whatever [N] is; a [-b N] met when [hardbs_at_default] is
    clear assigns [N] to the sector size; and a command line with a
    single [-b N] runs with sector size 512, or 2048 when [--dvd]
    comes before the [-b]. *)
Theorem first_sector_size_option_is_ignored
    (before after : list Option_code) (N : string) :
  no_sector_size before = true ->
  process_options strtonum DVDREAD Main_vars_init (before ++ [opt_b N]) =
    bind (process_options strtonum DVDREAD Main_vars_init before)
         (fun m => Returned (clear_hardbs_at_default m)) /\
  (forall m, hardbs_at_default m = false ->
     process_option strtonum DVDREAD m (opt_b N) =
       bind (getnum strtonum N 0 1 max_hardbs false)
            (fun n => Returned (set_hardbs m n))) /\
  (no_sector_size after = true ->
   forall m, scan_arguments strtonum DVDREAD (before ++ opt_b N :: after) = Returned m ->
     hardbs m = if has_dvd before then 2048 else 512).
Proof.
  intros Hb. split; [|split].
  - rewrite process_options_app.
    destruct (process_options strtonum DVDREAD Main_vars_init before) as [m| |] eqn:E;
      simpl; try reflexivity.
    destruct (process_options_before_b _ Main_vars_init _ Hb eq_refl E) as [Hd _].
    rewrite Hd. simpl. reflexivity.
  - intros m Hd. unfold set_hardbs. simpl. rewrite Hd. simpl.
    destruct (getnum strtonum N 0 1 max_hardbs false); reflexivity.
  - intros Ha m Hs. unfold scan_arguments in Hs.
    apply bind_Returned in Hs. destruct Hs as (m1 & H1 & H2).
    inversion H2; subst; clear H2.
    rewrite process_options_app in H1.
    apply bind_Returned in H1. destruct H1 as (m0 & H0 & H1).
    destruct (process_options_before_b _ Main_vars_init _ Hb eq_refl H0) as [Hd Hh].
    simpl in H1. rewrite Hd in H1. simpl in H1.
    apply (process_options_after_b _ _ _ Ha) in H1; [|reflexivity].
    simpl in H1. destruct H1 as [_ H1].
    unfold settle_sizes. simpl. rewrite H1, Hh. simpl.
    destruct (has_dvd before); reflexivity.
Qed.

(** C10: [parse_skipbs] ends the program with status 1 when the
    initial skip size asked for is not 0 and is below 64 KiB, and when
    it is above the maximum skip size in force; an initial skip size
    of 0 is taken, and it disables skipping. *)
Theorem parse_skipbs_initial_skip_size
    (ptr : string) (rb_opts : Rb_options) (hardbs v : Z) :
  strchr ptr "," <> Some ptr ->
  strtonum ptr hardbs true = Some v ->
  (v <> 0 -> v < 65536 -> parse_skipbs strtonum ptr rb_opts hardbs = Exited 1) /\
  (forall mx, configured_max_skipbs strtonum ptr rb_opts hardbs = Some mx ->
     mx < v -> parse_skipbs strtonum ptr rb_opts hardbs = Exited 1) /\
  (forall mx, configured_max_skipbs strtonum ptr rb_opts hardbs = Some mx ->
     v = 0 -> 0 <= mx ->
     parse_skipbs strtonum ptr rb_opts hardbs = Returned (mkRb 0 mx) /\
     skipping_disabled (mkRb 0 mx) = true).
Proof.
  intros Hc Hv.
  assert (Hfirst :
    parse_skipbs strtonum ptr rb_opts hardbs =
    bind (getnum strtonum ptr hardbs 0 max_max_skipbs true) (fun n =>
    bind (match strchr ptr "," with
          | Some p2 =>
              bind (getnum strtonum (next_char p2) hardbs default_skipbs max_max_skipbs false)
                   (fun mx => Returned (mkRb n mx))
          | None => Returned (mkRb n (max_skipbs rb_opts))
          end) (fun rb =>
    if (0 <? skipbs rb) && (skipbs rb <? default_skipbs) then Exited 1
    else if max_skipbs rb <? skipbs rb then Exited 1 else Returned rb))).
  { unfold parse_skipbs.
    destruct (strchr ptr ",") as [p2|] eqn:E.
    - destruct (String.eqb p2 ptr) eqn:Ee.
      + apply String.eqb_eq in Ee. subst p2. congruence.
      + simpl. destruct (getnum strtonum ptr hardbs 0 max_max_skipbs true); reflexivity.
    - simpl. destruct (getnum strtonum ptr hardbs 0 max_max_skipbs true); reflexivity. }
  rewrite Hfirst. rewrite (getnum_value _ _ 0 max_max_skipbs _ _ Hv).
  unfold configured_max_skipbs, default_skipbs, max_max_skipbs.
  split; [|split].
  - intros Hnz Hlt.
    destruct (v <? 0) eqn:E0; simpl; [reflexivity|].
    destruct (1073741824 <? v) eqn:E1; simpl; [reflexivity|].
    apply Z.ltb_ge in E0.
    destruct (strchr ptr ",") as [p2|]; simpl.
    + destruct (getnum_cases (next_char p2) hardbs 65536 1073741824 false)
        as [[mx ->]| ->]; simpl; try reflexivity.
      replace (0 <? v) with true by (symmetry; apply Z.ltb_lt; lia).
      replace (v <? 65536) with true by (symmetry; apply Z.ltb_lt; lia).
      reflexivity.
    + replace (0 <? v) with true by (symmetry; apply Z.ltb_lt; lia).
      replace (v <? 65536) with true by (symmetry; apply Z.ltb_lt; lia).
      reflexivity.
  - intros mx Hm Hlt.
    destruct ((v <? 0) || (1073741824 <? v)) eqn:E0; simpl; [reflexivity|].
    destruct (strchr ptr ",") as [p2|]; simpl.
    + destruct (getnum strtonum (next_char p2) hardbs 65536 1073741824 false);
        simpl; try discriminate.
      inversion Hm; subst.
      destruct ((0 <? v) && (v <? 65536)); [reflexivity|].
      replace (mx <? v) with true by (symmetry; apply Z.ltb_lt; lia).
      reflexivity.
    + inversion Hm; subst.
      destruct ((0 <? v) && (v <? 65536)); [reflexivity|].
      replace (max_skipbs rb_opts <? v) with true by (symmetry; apply Z.ltb_lt; lia).
      reflexivity.
  - intros mx Hm -> Hmx. simpl.
    split; [|reflexivity].
    destruct (strchr ptr ",") as [p2|]; simpl.
    + destruct (getnum strtonum (next_char p2) hardbs 65536 1073741824 false);
        simpl; try discriminate.
      inversion Hm; subst. simpl.
      replace (mx <? 0) with false by (symmetry; apply Z.ltb_ge; lia).
      reflexivity.
    + inversion Hm; subst. simpl.
      replace (max_skipbs rb_opts <? 0) with false by (symmetry; apply Z.ltb_ge; lia).
      reflexivity.
Qed.

End MainProperties.

Lemma first_sector_size_option_is_ignored_witness :
  no_sector_size [opt_dvd; opt_c "128"] = true /\
  no_sector_size [opt_K "0"] = true /\
  scan_arguments strtonum_decimal true
    ([opt_dvd; opt_c "128"] ++ opt_b "4096" :: [opt_K "0"])
  = Returned (mkMain 128 false 2048 (mkRb 0 max_max_skipbs) true) /\
  hardbs (mkMain 128 false 2048 (mkRb 0 max_max_skipbs) true) = 2048.
Proof.
  split; [reflexivity|]. split; [reflexivity|]. split; [reflexivity|].
  exact (proj2 (proj2 (first_sector_size_option_is_ignored strtonum_decimal true
                         [opt_dvd; opt_c "128"] [opt_K "0"] "4096" eq_refl))
               eq_refl _ eq_refl).
Defined.

Lemma parse_skipbs_initial_skip_size_witness :
  parse_skipbs strtonum_decimal "512,131072" Rb_options_default 512 = Exited 1.
Proof.
  apply (proj1 (parse_skipbs_initial_skip_size strtonum_decimal
                  "512,131072" Rb_options_default 512 512
                  ltac:(vm_compute; discriminate) eq_refl)).
  - discriminate.
  - reflexivity.
Defined.

(* ================================================================== *)
(** * Properties of io.cc *)

Module BlockIO.

(** While bytes are missing, the value [errno] has on entry of the
    loop is not looked at: every pass sets it anew. *)
Lemma readblock_loop_errno calls size sz e1 e2 :
  sz < size ->
  readblock_loop calls size sz e1 = readblock_loop calls size sz e2.
Proof.
  intros H. apply Z.ltb_lt in H.
  destruct calls; simpl; rewrite H; reflexivity.
Qed.

Lemma writeblock_loop_errno calls size sz e1 e2 :
  sz < size ->
  writeblock_loop calls size sz e1 = writeblock_loop calls size sz e2.
Proof.
  intros H. apply Z.ltb_lt in H.
  destruct calls; simpl; rewrite H; reflexivity.
Qed.

Lemma readblock_loop_done calls size sz e :
  size <= sz -> readblock_loop calls size sz e = Some (sz, e).
Proof.
  intros H. apply Z.ltb_ge in H. destruct calls; simpl; rewrite H; reflexivity.
Qed.

Lemma writeblock_loop_done calls size sz e :
  size <= sz -> writeblock_loop calls size sz e = Some (sz, e).
Proof.
  intros H. apply Z.ltb_ge in H. destruct calls; simpl; rewrite H; reflexivity.
Qed.

Lemma readblock_loop_interrupts calls size : forall sz e,
  readblock_loop calls size sz e =
  readblock_loop (without_interrupts calls) size sz e.
Proof.
  induction calls as [|r calls IH]; intros sz e; [reflexivity|].
  destruct (Z.lt_ge_cases sz size) as [Hlt|Hge];
    [|rewrite !readblock_loop_done by exact Hge; reflexivity].
  unfold without_interrupts. cbn [filter].
  fold (without_interrupts calls).
  destruct (interrupted_call r) eqn:Hi; cbn [negb].
  - unfold interrupted_call in Hi. apply andb_prop in Hi.
    destruct Hi as [Hn He].
    cbn [readblock_loop]. rewrite (proj2 (Z.ltb_lt _ _) Hlt), Hn, He.
    replace (0 <? ret r) with false by (symmetry; apply Z.ltb_ge; apply Z.ltb_lt in Hn; lia).
    replace (ret r =? 0) with false by (symmetry; apply Z.eqb_neq; apply Z.ltb_lt in Hn; lia).
    cbn [negb]. rewrite IH. apply readblock_loop_errno. exact Hlt.
  - cbn [readblock_loop]. rewrite (proj2 (Z.ltb_lt _ _) Hlt).
    destruct (0 <? ret r); [apply IH|].
    destruct (ret r =? 0); [reflexivity|].
    destruct (negb ((if ret r <? 0 then err r else 0) =? EINTR)); [reflexivity|].
    apply IH.
Qed.

Lemma writeblock_loop_interrupts calls size : forall sz e,
  writeblock_loop calls size sz e =
  writeblock_loop (without_interrupts calls) size sz e.
Proof.
  induction calls as [|r calls IH]; intros sz e; [reflexivity|].
  destruct (Z.lt_ge_cases sz size) as [Hlt|Hge];
    [|rewrite !writeblock_loop_done by exact Hge; reflexivity].
  unfold without_interrupts. cbn [filter].
  fold (without_interrupts calls).
  destruct (interrupted_call r) eqn:Hi; cbn [negb].
  - unfold interrupted_call in Hi. apply andb_prop in Hi.
    destruct Hi as [Hn He].
    cbn [writeblock_loop]. rewrite (proj2 (Z.ltb_lt _ _) Hlt), Hn, He.
    replace (0 <? ret r) with false by (symmetry; apply Z.ltb_ge; apply Z.ltb_lt in Hn; lia).
    cbn [negb andb]. rewrite IH. apply writeblock_loop_errno. exact Hlt.
  - cbn [writeblock_loop]. rewrite (proj2 (Z.ltb_lt _ _) Hlt).
    destruct (0 <? ret r); [apply IH|].
    destruct ((ret r <? 0) && negb ((if ret r <? 0 then err r else 0) =? EINTR));
      [reflexivity|apply IH].
Qed.

Lemma ended_at_eof_cons r calls e :
  read_goes_on r -> ended_at_eof calls e -> ended_at_eof (r :: calls) e.
Proof.
  intros Hr (pre & x & rest & -> & Hp & Hx).
  exists (r :: pre), x, rest. split; [reflexivity|]. split; [constructor; assumption|exact Hx].
Qed.

Lemma ended_at_error_cons (P : Syscall -> Prop) r calls e :
  P r -> ended_at_error P calls e -> ended_at_error P (r :: calls) e.
Proof.
  intros Hr (pre & x & rest & -> & Hp & Hx).
  exists (r :: pre), x, rest. split; [reflexivity|]. split; [constructor; assumption|exact Hx].
Qed.

Lemma readblock_loop_short calls size : forall sz0 e0 sz e,
  readblock_loop calls size sz0 e0 = Some (sz, e) -> sz < size ->
  ended_at_eof calls e \/ ended_at_error read_goes_on calls e.
Proof.
  induction calls as [|r calls IH]; intros sz0 e0 sz e H Hlt.
  - simpl in H. destruct (sz0 <? size) eqn:E; [discriminate|].
    inversion H; subst. apply Z.ltb_ge in E. lia.
  - cbn [readblock_loop] in H. destruct (sz0 <? size) eqn:E.
    2:{ inversion H; subst. apply Z.ltb_ge in E. lia. }
    destruct (0 <? ret r) eqn:Hpos.
    { apply Z.ltb_lt in Hpos. destruct (IH _ _ _ _ H Hlt) as [A|A];
        [left; apply ended_at_eof_cons|right; apply ended_at_error_cons];
        auto; left; exact Hpos. }
    apply Z.ltb_ge in Hpos.
    destruct (ret r =? 0) eqn:Hz.
    { apply Z.eqb_eq in Hz. inversion H; subst. left.
      exists [], r, calls. repeat split; auto.
      destruct (ret r <? 0) eqn:Hneg; [apply Z.ltb_lt in Hneg; lia|reflexivity]. }
    apply Z.eqb_neq in Hz.
    assert (Hneg : (ret r <? 0) = true) by (apply Z.ltb_lt; lia).
    rewrite Hneg in H.
    destruct (err r =? EINTR) eqn:He; cbn [negb] in H.
    + destruct (IH _ _ _ _ H Hlt) as [A|A];
        [left; apply ended_at_eof_cons|right; apply ended_at_error_cons];
        auto; right; unfold interrupted_call; rewrite Hneg, He; reflexivity.
    + inversion H; subst. right. exists [], r, calls.
      apply Z.eqb_neq in He. apply Z.ltb_lt in Hneg. repeat split; auto.
Qed.

Lemma writeblock_loop_short calls size : forall sz0 e0 sz e,
  writeblock_loop calls size sz0 e0 = Some (sz, e) -> sz < size ->
  ended_at_error write_goes_on calls e.
Proof.
  induction calls as [|r calls IH]; intros sz0 e0 sz e H Hlt.
  - simpl in H. destruct (sz0 <? size) eqn:E; [discriminate|].
    inversion H; subst. apply Z.ltb_ge in E. lia.
  - cbn [writeblock_loop] in H. destruct (sz0 <? size) eqn:E.
    2:{ inversion H; subst. apply Z.ltb_ge in E. lia. }
    destruct (0 <? ret r) eqn:Hpos.
    { apply Z.ltb_lt in Hpos. apply ended_at_error_cons; [left; lia|].
      exact (IH _ _ _ _ H Hlt). }
    destruct (ret r <? 0) eqn:Hneg; cbn [andb] in H.
    + destruct (err r =? EINTR) eqn:He; cbn [negb] in H.
      * apply ended_at_error_cons; [|exact (IH _ _ _ _ H Hlt)].
        right. unfold interrupted_call. rewrite Hneg, He. reflexivity.
      * inversion H; subst. exists [], r, calls.
        apply Z.eqb_neq in He. apply Z.ltb_lt in Hneg. repeat split; auto.
    + (* write returned 0: the loop calls write again *)
      apply Z.ltb_ge in Hneg.
      apply ended_at_error_cons; [left; exact Hneg|exact (IH _ _ _ _ H Hlt)].
Qed.

End BlockIO.

(** C9, as stated, fails: a call of [readblock] whose [lseek] fails
    returns 0 bytes, fewer than the 512 requested, without any call of
    [read]: neither the end of the file nor a read error. *)
Lemma readblock_short_after_failed_seek :
  readblock (mkSyscall (-1) 29) [] 512 = Some (0, 29) /\
  ~ short_read_is_eof_or_error (mkSyscall (-1) 29) [] 512.
Proof.
  split; [reflexivity|].
  intros H. specialize (H 0 29 eq_refl eq_refl).
  destruct H as [(pre & r & rest & E & _)|(pre & r & rest & E & _)];
    destruct pre; discriminate E.
Qed.

(** C9, amended: an interrupted call never ends the loop of [readblock]
    or of [writeblock]: both return what they return on the trace
    without its interrupted calls.  [readblock] returns fewer bytes than
    requested only when the seek fails, when the end of the file is
    reached (and then errno is 0), or when a read fails with an error
    other than EINTR; [writeblock] only when the seek fails or a write
    fails with an error other than EINTR. *)
Theorem block_transfer_short_only_on_seek_eof_or_error
    (seek : Syscall) (calls : list Syscall) (size sz errno : Z) :
  sz < size ->
  readblock seek calls size = readblock seek (without_interrupts calls) size /\
  writeblock seek calls size = writeblock seek (without_interrupts calls) size /\
  (readblock seek calls size = Some (sz, errno) ->
     (ret seek < 0 /\ errno = err seek) \/
     ended_at_eof calls errno \/ ended_at_error read_goes_on calls errno) /\
  (writeblock seek calls size = Some (sz, errno) ->
     (ret seek < 0 /\ errno = err seek) \/
     ended_at_error write_goes_on calls errno).
Proof.
  intros Hlt. unfold readblock, writeblock.
  destruct (0 <=? ret seek) eqn:Hs.
  - split; [apply BlockIO.readblock_loop_interrupts|].
    split; [apply BlockIO.writeblock_loop_interrupts|].
    split; intros H; right.
    + exact (BlockIO.readblock_loop_short _ _ _ _ _ _ H Hlt).
    + exact (BlockIO.writeblock_loop_short _ _ _ _ _ _ H Hlt).
  - apply Z.leb_gt in Hs.
    split; [reflexivity|]. split; [reflexivity|].
    split; intros H; inversion H; subst; left; auto.
Qed.

Lemma block_transfer_short_only_on_seek_eof_or_error_witness :
  ended_at_eof [mkSyscall 100 0; mkSyscall (-1) 4; mkSyscall 0 0] 0 \/
  ended_at_error read_goes_on [mkSyscall 100 0; mkSyscall (-1) 4; mkSyscall 0 0] 0.
Proof.
  destruct (proj1 (proj2 (proj2
      (block_transfer_short_only_on_seek_eof_or_error
         (mkSyscall 0 0) [mkSyscall 100 0; mkSyscall (-1) 4; mkSyscall 0 0]
         512 100 0 eq_refl))) eq_refl) as [[H _]|H].
  - discriminate H.
  - exact H.
Defined.

(* ================================================================== *)
(** * Vectors of sblocks *)

Ltac bool_to_Z :=
  repeat match goal with
  | H : (_ && _) = true |- _ => apply andb_prop in H; destruct H
  | H : (_ || _) = false |- _ => apply orb_false_elim in H; destruct H
  | H : negb _ = true |- _ => apply negb_true_iff in H
  | H : negb _ = false |- _ => apply negb_false_iff in H
  | H : (_ <? _) = true |- _ => apply Z.ltb_lt in H
  | H : (_ <? _) = false |- _ => apply Z.ltb_ge in H
  | H : (_ <=? _) = true |- _ => apply Z.leb_le in H
  | H : (_ <=? _) = false |- _ => apply Z.leb_gt in H
  | H : (_ =? _) = true |- _ => apply Z.eqb_eq in H
  | H : (_ =? _) = false |- _ => apply Z.eqb_neq in H
  end.

Ltac block_lia := unfold Block_end in *; lia.

Ltac Z_to_bool :=
  repeat match goal with
  | |- (_ && _) = true => apply andb_true_intro; split
  | |- (_ <? _) = true => apply Z.ltb_lt
  | |- (_ <? _) = false => apply Z.ltb_ge
  | |- (_ <=? _) = true => apply Z.leb_le
  | |- (_ <=? _) = false => apply Z.leb_gt
  | |- (_ =? _) = true => apply Z.eqb_eq
  | |- (_ =? _) = false => apply Z.eqb_neq
  end.

Module Vector.

Lemma Status_eqb_eq a b : Status_eqb a b = true <-> a = b.
Proof. destruct a, b; simpl; split; intros H; try reflexivity; discriminate H. Qed.

Lemma Status_eqb_neq a b : Status_eqb a b = false <-> a <> b.
Proof. destruct a, b; simpl; split; intros H; try reflexivity; try discriminate H;
       try (intros E; discriminate E); exfalso; apply H; reflexivity. Qed.

Lemma Status_eqb_refl a : Status_eqb a a = true.
Proof. destruct a; reflexivity. Qed.

Lemma contiguous_unfold sb v :
  contiguous (sb :: v) =
  (0 <? size sb)
  && match v with [] => true | nx :: _ => Block_end sb =? pos nx end
  && contiguous v.
Proof. reflexivity. Qed.

Lemma contiguous_cons sb v :
  contiguous (sb :: v) = true ->
  0 < size sb /\ contiguous v = true /\ starts_after v (Block_end sb).
Proof.
  revert sb. induction v as [|nx v IH]; intros sb H;
    rewrite contiguous_unfold in H;
    apply andb_prop in H; destruct H as [H H3];
    apply andb_prop in H; destruct H as [H1 H2];
    apply Z.ltb_lt in H1.
  - repeat split; auto. intros x [].
  - apply Z.eqb_eq in H2.
    destruct (IH nx H3) as (Hn & Hc & Hs).
    repeat split; auto.
    intros x [<-|Hx]; [lia|]. specialize (Hs x Hx). unfold Block_end in *. lia.
Qed.

Lemma contiguous_positive v : contiguous v = true -> sizes_positive v.
Proof.
  induction v as [|sb v IH]; intros H x Hx; [destruct Hx|].
  destruct (contiguous_cons _ _ H) as (Hp & Hc & _).
  destruct Hx as [<-|Hx]; auto. apply IH; auto.
Qed.

Lemma contiguous_app pre suf :
  contiguous (pre ++ suf) = true ->
  contiguous pre = true /\ contiguous suf = true.
Proof.
  induction pre as [|x pre IH]; intros H; [split; [reflexivity|exact H]|].
  cbn [app contiguous] in H. apply andb_prop in H. destruct H as [H H3].
  apply andb_prop in H. destruct H as [H1 H2].
  destruct (IH H3) as [Hp Hs]. split; [|exact Hs].
  cbn [contiguous]. rewrite H1, Hp. simpl.
  destruct pre; [reflexivity|]. simpl in H2. rewrite H2. reflexivity.
Qed.

Lemma contiguous_split pre sb post :
  contiguous (pre ++ sb :: post) = true ->
  ends_before pre (pos sb) /\ 0 < size sb /\ starts_after post (Block_end sb).
Proof.
  induction pre as [|x pre IH]; intros H.
  - simpl in H. destruct (contiguous_cons _ _ H) as (Hp & _ & Hs).
    repeat split; auto. intros y [].
  - destruct (contiguous_cons _ _ H) as (Hp & Hc & Hs).
    destruct (IH Hc) as (He & Hsz & Hst). repeat split; auto.
    intros y [<-|Hy]; [|apply He; exact Hy].
    assert (Hin : In sb (pre ++ sb :: post)) by (apply in_or_app; right; left; reflexivity).
    specialize (Hs sb Hin). exact Hs.
Qed.

(** Gluing two contiguous vectors that touch. *)
Lemma contiguous_glue pre suf :
  contiguous pre = true -> contiguous suf = true ->
  (forall l nx rest, pre <> [] -> suf = nx :: rest ->
     l = last pre Sblock_sentinel -> Block_end l = pos nx) ->
  contiguous (pre ++ suf) = true.
Proof.
  induction pre as [|x pre IH]; intros Hp Hs Ht; [exact Hs|].
  cbn [app contiguous]. cbn [contiguous] in Hp.
  apply andb_prop in Hp. destruct Hp as [Hp H3].
  apply andb_prop in Hp. destruct Hp as [H1 H2].
  rewrite H1. cbn [andb].
  destruct pre as [|y pre].
  - simpl. destruct suf as [|nx rest]; [reflexivity|].
    rewrite Hs. rewrite andb_true_r. apply Z.eqb_eq.
    apply (Ht x nx rest); [discriminate|reflexivity|reflexivity].
  - cbn [app]. rewrite H2. cbn [andb]. apply IH; auto.
    intros l nx rest _ E El. apply (Ht l nx rest); [discriminate|exact E|].
    rewrite El. reflexivity.
Qed.

Lemma status_at_app a b p :
  status_at (a ++ b) p =
  match status_at a p with Some s => Some s | None => status_at b p end.
Proof.
  induction a as [|x a IH]; [reflexivity|]. simpl.
  destruct (Block_includes_pos x p); [reflexivity|exact IH].
Qed.

Lemma status_at_ends_before v q p :
  ends_before v q -> q <= p -> status_at v p = None.
Proof.
  induction v as [|x v IH]; intros H Hp; [reflexivity|]. simpl.
  assert (Hx : Block_end x <= q) by (apply H; left; reflexivity).
  replace (Block_includes_pos x p) with false.
  - apply IH; auto. intros y Hy. apply H. right. exact Hy.
  - symmetry. unfold Block_includes_pos. apply andb_false_iff. right.
    apply Z.ltb_ge. lia.
Qed.

Lemma status_at_starts_after v q p :
  starts_after v q -> p < q -> status_at v p = None.
Proof.
  induction v as [|x v IH]; intros H Hp; [reflexivity|]. simpl.
  assert (Hx : q <= pos x) by (apply H; left; reflexivity).
  replace (Block_includes_pos x p) with false.
  - apply IH; auto. intros y Hy. apply H. right. exact Hy.
  - symmetry. unfold Block_includes_pos. apply andb_false_iff. left.
    apply Z.leb_gt. lia.
Qed.

Lemma status_at_Some v p s :
  status_at v p = Some s ->
  exists x, In x v /\ Block_includes_pos x p = true /\ status x = s.
Proof.
  induction v as [|x v IH]; intros H; [discriminate|]. simpl in H.
  destruct (Block_includes_pos x p) eqn:E.
  - inversion H; subst. exists x. repeat split; auto. left. reflexivity.
  - destruct (IH H) as (y & Hy & Hi & Hs). exists y. repeat split; auto.
    right. exact Hy.
Qed.

Lemma status_at_In v x p :
  contiguous v = true -> In x v -> Block_includes_pos x p = true ->
  status_at v p = Some (status x).
Proof.
  induction v as [|y v IH]; intros Hc Hx Hp; [destruct Hx|].
  destruct (contiguous_cons _ _ Hc) as (Hsz & Hc' & Hs).
  simpl. destruct Hx as [<-|Hx]; [rewrite Hp; reflexivity|].
  replace (Block_includes_pos y p) with false; [apply IH; auto|].
  symmetry. unfold Block_includes_pos in *. specialize (Hs x Hx).
  bool_to_Z. apply andb_false_iff. right. apply Z.ltb_ge. lia.
Qed.

Lemma status_at_None v p :
  status_at v p = None ->
  forall x, In x v -> Block_includes_pos x p = false.
Proof.
  induction v as [|y v IH]; intros H x Hx; [destruct Hx|]. simpl in H.
  destruct (Block_includes_pos y p) eqn:E; [discriminate|].
  destruct Hx as [<-|Hx]; auto.
Qed.

(** Indexing at the seam of a vector. *)
Lemma firstn_seam {A} (pre suf : list A) : firstn (length pre) (pre ++ suf) = pre.
Proof. induction pre; simpl; [destruct suf; reflexivity|f_equal; auto]. Qed.

Lemma skipn_seam {A} (pre suf : list A) : skipn (length pre) (pre ++ suf) = suf.
Proof. induction pre; simpl; auto. Qed.

Lemma vget_seam pre sb post : vget (pre ++ sb :: post) (length pre) = sb.
Proof. unfold vget. induction pre; simpl; auto. Qed.

Lemma vget_seam_S pre sb nx post :
  vget (pre ++ sb :: nx :: post) (S (length pre)) = nx.
Proof. unfold vget. induction pre; simpl; auto. Qed.

Lemma vget_before pre l suf :
  vget ((pre ++ [l]) ++ suf) (length (pre ++ [l]) - 1) = l.
Proof.
  rewrite length_app. simpl. replace (length pre + 1 - 1)%nat with (length pre) by lia.
  rewrite <- app_assoc. simpl. apply vget_seam.
Qed.

Lemma vset_seam pre sb post x :
  vset (pre ++ sb :: post) (length pre) x = pre ++ x :: post.
Proof.
  unfold vset. rewrite firstn_seam.
  replace (S (length pre)) with (length (pre ++ [sb])) by (rewrite length_app; simpl; lia).
  replace (pre ++ sb :: post) with ((pre ++ [sb]) ++ post) by (rewrite <- app_assoc; reflexivity).
  rewrite skipn_seam. reflexivity.
Qed.

Lemma insert_seam pre suf x :
  insert_sblock (pre ++ suf) (length pre) x = pre ++ x :: suf.
Proof. unfold insert_sblock. rewrite firstn_seam, skipn_seam. reflexivity. Qed.

(** Indexing after the seam. *)
Lemma vget_add pre suf n : vget (pre ++ suf) (n + length pre) = vget suf n.
Proof.
  unfold vget. rewrite Nat.add_comm. apply app_nth2_plus.
Qed.

Lemma firstn_add {A} (pre suf : list A) n :
  firstn (n + length pre) (pre ++ suf) = pre ++ firstn n suf.
Proof. rewrite Nat.add_comm. induction pre; simpl; [reflexivity|f_equal; auto]. Qed.

Lemma skipn_add {A} (pre suf : list A) n :
  skipn (n + length pre) (pre ++ suf) = skipn n suf.
Proof. rewrite Nat.add_comm. induction pre; simpl; auto. Qed.

Lemma vset_add pre suf n x :
  vset (pre ++ suf) (n + length pre) x = pre ++ vset suf n x.
Proof.
  unfold vset. rewrite firstn_add.
  change (S (n + length pre)) with (S n + length pre)%nat.
  rewrite skipn_add, <- app_assoc. reflexivity.
Qed.

Lemma insert_add pre suf n x :
  insert_sblock (pre ++ suf) (n + length pre) x = pre ++ insert_sblock suf n x.
Proof.
  unfold insert_sblock. rewrite firstn_add, skipn_add, <- app_assoc. reflexivity.
Qed.

Lemma erase_add pre suf n :
  erase_sblock (pre ++ suf) (n + length pre) = pre ++ erase_sblock suf n.
Proof.
  unfold erase_sblock. rewrite firstn_add.
  change (S (n + length pre)) with (S n + length pre)%nat.
  rewrite skipn_add, <- app_assoc. reflexivity.
Qed.

Lemma ltb_length_add (pre suf : list Sblock) n :
  (n + length pre <? length (pre ++ suf))%nat = (n <? length suf)%nat.
Proof.
  rewrite length_app.
  destruct (Nat.ltb_spec n (length suf)); [apply Nat.ltb_lt|apply Nat.ltb_ge]; lia.
Qed.

Lemma rev_cons_inv {A} (pre : list A) l rpre :
  rev pre = l :: rpre -> pre = rev rpre ++ [l].
Proof.
  intros E. apply (f_equal (@rev A)) in E. rewrite rev_involutive in E. exact E.
Qed.

Lemma rev_nil_inv {A} (pre : list A) : rev pre = [] -> pre = [].
Proof.
  intros E. apply (f_equal (@rev A)) in E. rewrite rev_involutive in E. exact E.
Qed.

Lemma vfind_index_seam pre (sb : Sblock) post p :
  ends_before pre (pos sb) -> Block_includes_pos sb p = true ->
  vfind_index (pre ++ sb :: post) p = Some (length pre).
Proof.
  induction pre as [|x pre IH]; intros He Hp; simpl.
  - rewrite Hp. reflexivity.
  - assert (Hx : Block_end x <= pos sb) by (apply He; left; reflexivity).
    replace (Block_includes_pos x p) with false.
    + rewrite IH; auto. intros y Hy. apply He. right. exact Hy.
    + symmetry. unfold Block_includes_pos in *. bool_to_Z.
      apply andb_false_iff. right. apply Z.ltb_ge. lia.
Qed.

Lemma vfind_index_Some v p k :
  vfind_index v p = Some k ->
  exists pre x post,
    v = pre ++ x :: post /\ length pre = k /\
    Block_includes_pos x p = true.
Proof.
  revert k. induction v as [|y v IH]; intros k H; [discriminate|]. simpl in H.
  destruct (Block_includes_pos y p) eqn:E.
  - inversion H; subst. exists [], y, v. auto.
  - destruct (vfind_index v p) as [k'|]; [|discriminate]. inversion H; subst.
    destruct (IH k' eq_refl) as (pre & x & post & -> & Hl & Hp).
    exists (y :: pre), x, post. simpl. auto.
Qed.

Lemma vfind_index_None v p :
  vfind_index v p = None -> forall x, In x v -> Block_includes_pos x p = false.
Proof.
  induction v as [|y v IH]; intros H x Hx; [destruct Hx|]. simpl in H.
  destruct (Block_includes_pos y p) eqn:E; [discriminate|].
  destruct (vfind_index v p) eqn:F; [discriminate|].
  destruct Hx as [<-|Hx]; auto.
Qed.

End Vector.

(* ================================================================== *)
(** * Domains *)

Module Dom.

Import Vector.

Lemma Domain_ordered_cons D d :
  Domain_ordered (D :: d) = true ->
  0 <= size D /\ Domain_ordered d = true /\
  (forall N, In N d -> Block_end D <= pos N).
Proof.
  revert D. induction d as [|N d IH]; intros D H.
  - simpl in H. bool_to_Z. repeat split; auto. intros N [].
  - assert (E : Domain_ordered (D :: N :: d) =
                (0 <=? size D) && (Block_end D <=? pos N) && Domain_ordered (N :: d))
      by reflexivity.
    rewrite E in H. clear E.
    apply andb_prop in H. destruct H as [H H3].
    apply andb_prop in H. destruct H as [H1 H2].
    apply Z.leb_le in H1. apply Z.leb_le in H2.
    destruct (IH N H3) as (Hn & Hd & Hs).
    repeat split; auto.
    intros M [<-|HM]; [exact H2|]. specialize (Hs M HM).
    unfold Block_end in *. lia.
Qed.

Lemma Domain_end_cons D N d :
  Domain_end (D :: N :: d) = Domain_end (N :: d).
Proof. reflexivity. Qed.

Lemma Domain_ordered_end d :
  Domain_ordered d = true -> forall D, In D d -> Block_end D <= Domain_end d.
Proof.
  induction d as [|D0 d IH]; intros H D HD; [destruct HD|].
  destruct (Domain_ordered_cons _ _ H) as (Hsz & Hd & Hs).
  destruct d as [|N d].
  - destruct HD as [<-|[]]. unfold Domain_end. simpl. lia.
  - rewrite Domain_end_cons.
    destruct HD as [<-|HD]; [|apply IH; auto].
    assert (HN : Block_end N <= Domain_end (N :: d)) by (apply IH; auto; left; reflexivity).
    specialize (Hs N (or_introl eq_refl)).
    destruct (Domain_ordered_cons _ _ Hd) as (HszN & _ & _).
    unfold Block_end in *. lia.
Qed.

Lemma Domain_ordered_pos d :
  Domain_ordered d = true -> forall D, In D d -> Domain_pos d <= pos D.
Proof.
  intros H D HD. destruct d as [|D0 d]; [destruct HD|].
  destruct (Domain_ordered_cons _ _ H) as (Hsz & _ & Hs).
  unfold Domain_pos. cbn [hd].
  destruct HD as [<-|HD]; [lia|]. specialize (Hs D HD).
  unfold Block_end in Hs. lia.
Qed.

Lemma Domain_includes_In d b :
  Domain_includes d b = true <-> exists D, In D d /\ Block_includes D b = true.
Proof. unfold Domain_includes. apply existsb_exists. Qed.

Lemma in_domain_In d p :
  in_domain d p = true <-> exists D, In D d /\ Block_includes_pos D p = true.
Proof. unfold in_domain. apply existsb_exists. Qed.

(** Past the end of the domain no sblock is included. *)
Lemma not_included_past_end d (sb : Sblock) :
  Domain_ordered d = true -> 0 < size sb -> Domain_end d <= pos sb ->
  Domain_includes d sb = false.
Proof.
  intros Hd Hs He. destruct (Domain_includes d sb) eqn:E; [|reflexivity].
  apply Domain_includes_In in E. destruct E as (D & HD & Hi).
  pose proof (Domain_ordered_end _ Hd _ HD).
  unfold Block_includes, Block_end in *. bool_to_Z. lia.
Qed.

Lemma not_in_domain_past_end d p :
  Domain_ordered d = true -> Domain_end d <= p -> in_domain d p = false.
Proof.
  intros Hd He. destruct (in_domain d p) eqn:E; [|reflexivity].
  apply in_domain_In in E. destruct E as (D & HD & Hi).
  pose proof (Domain_ordered_end _ Hd _ HD).
  unfold Block_includes_pos, Block_end in *. bool_to_Z. lia.
Qed.

Lemma none_included_past_end d (sb : Sblock) rest :
  Domain_ordered d = true -> contiguous (sb :: rest) = true ->
  Domain_end d <= pos sb ->
  forall x, In x (sb :: rest) -> Domain_includes d x = false.
Proof.
  intros Hd Hc He x Hx.
  pose proof (contiguous_positive _ Hc x Hx) as Hp.
  apply not_included_past_end; auto.
  destruct Hx as [<-|Hx]; [exact He|].
  destruct (contiguous_cons _ _ Hc) as (Hs & _ & Ha).
  specialize (Ha x Hx). unfold Block_end in *. lia.
Qed.

Lemma included_in_domain d (sb : Sblock) p :
  Domain_includes d sb = true -> Block_includes_pos sb p = true ->
  in_domain d p = true.
Proof.
  intros Hi Hp. apply Domain_includes_In in Hi. destruct Hi as (D & HD & Hi).
  apply in_domain_In. exists D. split; [exact HD|].
  unfold Block_includes, Block_includes_pos, Block_end in *. bool_to_Z.
  Z_to_bool; lia.
Qed.

Lemma in_domain_included d v (sb : Sblock) p :
  split_at_domain_borders d v = true -> In sb v ->
  Block_includes_pos sb p = true -> in_domain d p = true ->
  Domain_includes d sb = true.
Proof.
  intros Hs Hsb Hp Hd. unfold split_at_domain_borders in Hs.
  rewrite forallb_forall in Hs. specialize (Hs sb Hsb).
  rewrite forallb_forall in Hs.
  apply in_domain_In in Hd. destruct Hd as (D & HD & Hi).
  apply Domain_includes_In. exists D. split; [exact HD|].
  specialize (Hs D HD). apply orb_prop in Hs. destruct Hs as [Hs|Hs]; [exact Hs|].
  unfold Block_disjoint, Block_includes_pos, Block_end in *.
  apply orb_prop in Hs. bool_to_Z. destruct Hs; bool_to_Z; lia.
Qed.

Lemma included_after_Domain_pos d (sb : Block) :
  Domain_ordered d = true -> Domain_includes d sb = true ->
  Domain_pos d <= pos sb.
Proof.
  intros Hd Hi. apply Domain_includes_In in Hi. destruct Hi as (D & HD & Hi).
  pose proof (Domain_ordered_pos d Hd D HD).
  unfold Block_includes in Hi. bool_to_Z. lia.
Qed.

Lemma Domain_includes_sub d (a b : Block) :
  Domain_includes d a = true -> Block_includes a b = true ->
  Domain_includes d b = true.
Proof.
  intros Ha Hb. apply Domain_includes_In in Ha. destruct Ha as (D & HD & Hi).
  apply Domain_includes_In. exists D. split; [exact HD|].
  unfold Block_includes, Block_end in *. bool_to_Z. Z_to_bool; lia.
Qed.

End Dom.

(* ================================================================== *)
(** * Done status *)

Module Done.

Import Vector Dom.

Lemma test_if_done_loop_all_done d v :
  Domain_ordered d = true -> contiguous v = true ->
  test_if_done_loop d v = all_done d v.
Proof.
  intros Hd. induction v as [|sb v IH]; intros Hc; [reflexivity|].
  destruct (contiguous_cons _ _ Hc) as (Hs & Hc' & Ha).
  cbn [test_if_done_loop all_done forallb].
  destruct (Domain_includes d sb) eqn:Hi; cbn [negb orb].
  - destruct (Status_eqb (status sb) finished); cbn [negb andb]; [apply IH; exact Hc'|reflexivity].
  - unfold Domain_lt. destruct (Domain_end d <=? pos sb) eqn:He; [|apply IH; exact Hc'].
    apply Z.leb_le in He. symmetry. apply forallb_forall. intros x Hx.
    rewrite (none_included_past_end d sb v Hd Hc He x (or_intror Hx)). reflexivity.
Qed.

End Done.

(** C4, as stated, fails on an empty domain: every sblock included in
    the domain is finished and the exit status is 0, but
    [--delete-if-done] does not unlink the mapfile. *)
Lemma done_status_claim_fails_on_empty_domain :
  test_if_done [] (Some [sbl 0 4096 finished]) true true = mkDone 0 false /\
  ~ done_status_claim [] [sbl 0 4096 finished].
Proof.
  split; [reflexivity|].
  intros (_ & _ & [_ H] & _). specialize (H eq_refl). discriminate H.
Qed.

(** C4, amended: for a mapfile and a domain that is not empty,
    [--done-status] returns 0 if and only if every sblock included in
    the domain is finished, and 1 otherwise; [--delete-if-done] unlinks
    the mapfile exactly when that test succeeds, and a failed unlink
    yields exit status 1.  On an empty domain both return 0 and the
    mapfile is not unlinked. *)
Theorem done_status_of_nonempty_domain (d : Domain) (v : list Sblock) :
  Domain_ordered d = true -> contiguous v = true ->
  (Domain_size d <> 0 -> done_status_claim d v) /\
  (Domain_size d = 0 ->
   forall del remove_ok, test_if_done d (Some v) del remove_ok = mkDone 0 false).
Proof.
  intros Hd Hc. split.
  - intros Hn. apply Z.eqb_neq in Hn.
    unfold done_status_claim, test_if_done, verify_logname_and_domain.
    cbn [Logbook_open logfile_exists_ domain_ negb sblock_vector]. rewrite Hn.
    rewrite (Done.test_if_done_loop_all_done d v Hd Hc).
    destruct (all_done d v); cbn [negb exit_status unlinked].
    + repeat split; auto; discriminate.
    + repeat split; auto; discriminate.
  - intros Hz del ok. apply Z.eqb_eq in Hz.
    unfold test_if_done, verify_logname_and_domain.
    cbn [Logbook_open logfile_exists_ domain_ negb]. rewrite Hz. reflexivity.
Qed.

Lemma done_status_of_nonempty_domain_witness :
  done_status_claim [mkBlock 0 8192]
    [sbl 0 4096 finished; sbl 4096 512 bad_sector; sbl 4608 3584 finished].
Proof.
  apply (proj1 (done_status_of_nonempty_domain [mkBlock 0 8192]
                  [sbl 0 4096 finished; sbl 4096 512 bad_sector; sbl 4608 3584 finished]
                  eq_refl eq_refl)).
  discriminate.
Defined.

(* ================================================================== *)
(** * Compaction *)

Module Compact.

Import Vector.

Lemma includes_pos_merged (sb nx : Sblock) p :
  0 < size sb -> 0 < size nx -> Block_end sb = pos nx ->
  Block_includes_pos (mkBlock (pos sb) (size sb + size nx)) p =
  Block_includes_pos sb p || Block_includes_pos nx p.
Proof.
  intros H1 H2 H3. unfold Block_includes_pos, Block_end in *. simpl.
  destruct (pos sb <=? p) eqn:A, (p <? pos sb + (size sb + size nx)) eqn:B,
           (p <? pos sb + size sb) eqn:C, (pos nx <=? p) eqn:D,
           (p <? pos nx + size nx) eqn:E; simpl; try reflexivity;
    bool_to_Z; lia.
Qed.

(** Compaction keeps the vector contiguous, keeps where it starts and
    keeps the status of every byte. *)
Lemma compact_spec v :
  contiguous v = true ->
  contiguous (compact v) = true /\
  (forall p, status_at (compact v) p = status_at v p) /\
  match v with
  | [] => compact v = []
  | x :: _ => exists y r, compact v = y :: r /\ pos y = pos x
  end.
Proof.
  induction v as [|sb v IH]; intros Hc; [repeat split; reflexivity|].
  destruct (contiguous_cons _ _ Hc) as (Hs & Hc' & Ha).
  destruct (IH Hc') as (IHc & IHs & IHh). clear IH.
  destruct v as [|x v].
  - simpl. repeat split; auto. exists sb, []. auto.
  - destruct IHh as (nx & r & E & Hpos).
    change (compact (sb :: x :: v)) with
      (match compact (x :: v) with
       | [] => [sb]
       | nx :: rest' =>
           if Status_eqb (status sb) (status nx)
           then mkSblock (mkBlock (pos sb) (size sb + size nx)) (status sb) :: rest'
           else sb :: nx :: rest'
       end).
    rewrite E in *.
    assert (Htouch : Block_end sb = pos nx).
    { rewrite contiguous_unfold in Hc. bool_to_Z. congruence. }
    destruct (contiguous_cons _ _ IHc) as (Hnx & Hcr & Har).
    destruct (Status_eqb (status sb) (status nx)) eqn:Est.
    + apply Status_eqb_eq in Est. split; [|split].
      * rewrite contiguous_unfold. rewrite contiguous_unfold in IHc.
        bool_to_Z. cbn [size pos Sblock_block].
        replace (0 <? size sb + size nx) with true by (symmetry; apply Z.ltb_lt; lia).
        rewrite H0. rewrite andb_true_r. cbn [andb].
        destruct r as [|y r]; [reflexivity|].
        unfold Block_end in *. cbn [size pos Sblock_block]. bool_to_Z.
        apply Z.eqb_eq. lia.
      * intros p.
        change (status_at (sb :: x :: v) p) with
          (if Block_includes_pos sb p then Some (status sb)
           else status_at (x :: v) p).
        rewrite <- (IHs p).
        cbn [status_at Sblock_block status].
        rewrite includes_pos_merged by auto.
        destruct (Block_includes_pos sb p); cbn [orb]; [reflexivity|].
        destruct (Block_includes_pos nx p); [congruence|reflexivity].
      * eexists _, r. split; [reflexivity|reflexivity].
    + split; [|split].
      * rewrite contiguous_unfold. rewrite IHc.
        replace (0 <? size sb) with true by (symmetry; apply Z.ltb_lt; lia).
        replace (Block_end sb =? pos nx) with true by (symmetry; apply Z.eqb_eq; lia).
        reflexivity.
      * intros p.
        change (status_at (sb :: x :: v) p) with
          (if Block_includes_pos sb p then Some (status sb)
           else status_at (x :: v) p).
        rewrite <- (IHs p). reflexivity.
      * exists sb, (nx :: r). auto.
Qed.

Lemma status_at_compact v p :
  contiguous v = true -> status_at (compact v) p = status_at v p.
Proof. intros H. apply (proj1 (proj2 (compact_spec v H))). Qed.

(** Changing statuses leaves a vector contiguous. *)
Lemma contiguous_map (f : Sblock -> Sblock) v :
  (forall sb, Sblock_block (f sb) = Sblock_block sb) ->
  contiguous (map f v) = contiguous v.
Proof.
  intros Hf. induction v as [|sb v IH]; [reflexivity|].
  cbn [map]. rewrite !contiguous_unfold, IH, Hf.
  destruct v as [|nx v]; [reflexivity|]. cbn [map]. rewrite Hf. reflexivity.
Qed.

Lemma status_at_map (f : Sblock -> Sblock) v (sb : Sblock) p :
  (forall x, Sblock_block (f x) = Sblock_block x) ->
  contiguous v = true -> In sb v -> Block_includes_pos sb p = true ->
  status_at (map f v) p = Some (status (f sb)).
Proof.
  intros Hf Hc Hin Hp.
  apply (status_at_In (map f v) (f sb) p).
  - rewrite contiguous_map; auto.
  - apply in_map. exact Hin.
  - rewrite Hf. exact Hp.
Qed.

End Compact.

(* ================================================================== *)
(** * Inverting a logfile *)

Module Invert.

Import Vector Dom.

Lemma change_type_invert sb :
  change_type "?*/-+" "++++-" sb = Sblock_with_status sb (invert_status (status sb)).
Proof. destruct sb as [b []]; reflexivity. Qed.

Lemma invert_sblock_block d sb : Sblock_block (invert_sblock d sb) = Sblock_block sb.
Proof. unfold invert_sblock. destruct (Domain_includes d sb); reflexivity. Qed.

Lemma change_types_loop_invert d v :
  Domain_ordered d = true -> contiguous v = true ->
  change_types_loop d "?*/-+" "++++-" v = map (invert_sblock d) v.
Proof.
  intros Hd. induction v as [|sb v IH]; intros Hc; [reflexivity|].
  destruct (contiguous_cons _ _ Hc) as (Hs & Hc' & Ha).
  cbn [change_types_loop map]. unfold invert_sblock at 1.
  destruct (Domain_includes d sb) eqn:Hi; cbn [negb].
  - rewrite change_type_invert, IH by exact Hc'. reflexivity.
  - unfold Domain_lt. destruct (Domain_end d <=? pos sb) eqn:He.
    + apply Z.leb_le in He. f_equal. symmetry.
      rewrite <- (map_id v) at 2. apply map_ext_in. intros x Hx.
      unfold invert_sblock.
      rewrite (none_included_past_end d sb v Hd Hc He x (or_intror Hx)).
      reflexivity.
    + rewrite IH by exact Hc'. reflexivity.
Qed.

End Invert.

(** C3: [--invert-logfile] is [change_types] with the old types "?*/-+"
    and the new types "++++-".  In the logfile it prints, every byte of
    an sblock of the domain that was finished is a bad sector, every
    byte of an sblock of the domain of another status (non-tried,
    non-trimmed, non-split, bad sector) is finished, and the other
    sblocks keep their status.  It is not its own inverse: inverting a
    non-tried logfile twice gives a logfile of bad sectors. *)
Theorem invert_logfile_maps_statuses (d : Domain) (v : list Sblock) :
  Domain_ordered d = true -> contiguous v = true -> Domain_size d <> 0 ->
  invert_logfile d (Some v) = change_types d (Some v) "?*/-+" "++++-" /\
  (exists R,
     invert_logfile d (Some v) = Returned R /\
     sblock_vector R = compact (map (invert_sblock d) v) /\
     forall (sb : Sblock) p,
       In sb v -> Block_includes_pos sb p = true ->
       status_at (sblock_vector R) p =
       Some (if Domain_includes d sb then invert_status (status sb)
             else status sb)) /\
  (exists R1 R2,
     invert_logfile [mkBlock 0 4096] (Some [sbl 0 4096 non_tried]) = Returned R1 /\
     invert_logfile [mkBlock 0 4096] (Some (sblock_vector R1)) = Returned R2 /\
     sblock_vector R2 = [sbl 0 4096 bad_sector] /\
     sblock_vector R2 <> [sbl 0 4096 non_tried]).
Proof.
  intros Hd Hc Hn. split; [reflexivity|]. split.
  - apply Z.eqb_neq in Hn.
    unfold invert_logfile, change_types, verify_logname_and_domain.
    cbn [Logbook_open logfile_exists_ domain_ negb sblock_vector bind]. rewrite Hn.
    cbn [bind]. eexists. split; [reflexivity|].
    cbn [compact_sblock_vector with_vector sblock_vector].
    rewrite (Invert.change_types_loop_invert d v Hd Hc).
    split; [reflexivity|]. intros sb p Hin Hp.
    rewrite Compact.status_at_compact
      by (rewrite Compact.contiguous_map; auto using Invert.invert_sblock_block).
    rewrite (Compact.status_at_map (invert_sblock d) v sb p
               (Invert.invert_sblock_block d) Hc Hin Hp).
    unfold invert_sblock. destruct (Domain_includes d sb); reflexivity.
  - eexists. eexists. split; [reflexivity|]. split; [reflexivity|].
    split; [reflexivity|discriminate].
Qed.

Lemma invert_logfile_maps_statuses_witness :
  exists R,
    invert_logfile [mkBlock 0 8192]
      (Some [sbl 0 4096 finished; sbl 4096 512 bad_sector; sbl 4608 3584 non_tried])
    = Returned R /\
    sblock_vector R = [sbl 0 4096 bad_sector; sbl 4096 4096 finished].
Proof.
  destruct (proj1 (proj2 (invert_logfile_maps_statuses [mkBlock 0 8192]
      [sbl 0 4096 finished; sbl 4096 512 bad_sector; sbl 4608 3584 non_tried]
      eq_refl eq_refl ltac:(discriminate)))) as (R & HR & Hv & _).
  exists R. split; [exact HR|]. rewrite Hv. reflexivity.
Defined.

(* ================================================================== *)
(** * The errors of the status summary *)

Module Errors.

Import Vector Dom.

Lemma error_runs_from_outside d prev (v : list Sblock) :
  (forall x, In x v -> Domain_includes d x = false) ->
  error_runs_from d prev v = 0.
Proof.
  revert prev. induction v as [|sb v IH]; intros prev H; [reflexivity|].
  cbn [error_runs_from]. unfold in_error_area at 1 2.
  rewrite (H sb (or_introl eq_refl)). cbn [andb].
  rewrite IH; [reflexivity|]. intros x Hx. apply H. right. exact Hx.
Qed.

Lemma show_status_step_errors d s (sb : Sblock) :
  Domain_includes d sb = true ->
  errors (show_status_step s sb) =
    errors s + (if in_error_area d sb && good s then 1 else 0) /\
  good (show_status_step s sb) = negb (in_error_area d sb).
Proof.
  intros Hi. unfold in_error_area, show_status_step, incr_if. rewrite Hi.
  destruct (status sb); cbn; destruct (good s); split; try reflexivity; lia.
Qed.

Lemma show_status_loop_errors d v :
  Domain_ordered d = true -> contiguous v = true ->
  forall s,
    errors (show_status_loop d v s) =
    errors s + error_runs_from d (negb (good s)) v.
Proof.
  intros Hd. induction v as [|sb v IH]; intros Hc s; [simpl; lia|].
  destruct (contiguous_cons _ _ Hc) as (Hs & Hc' & Ha).
  cbn [show_status_loop].
  destruct (Domain_includes d sb) eqn:Hi; cbn [negb].
  - rewrite (IH Hc').
    destruct (show_status_step_errors d s sb Hi) as [He Hg].
    rewrite He, Hg, negb_involutive. cbn [error_runs_from].
    rewrite negb_involutive. lia.
  - unfold Domain_lt. destruct (Domain_end d <=? pos sb) eqn:He.
    + apply Z.leb_le in He.
      rewrite error_runs_from_outside; [lia|].
      apply (none_included_past_end d sb v Hd Hc He).
    + rewrite (IH Hc'). cbn [show_status_gap errors good negb error_runs_from].
      unfold in_error_area at 1 2. rewrite Hi. cbn [andb]. lia.
Qed.

Lemma filter_map_S (f : nat -> bool) l :
  length (filter f (map S l)) = length (filter (fun k => f (S k)) l).
Proof.
  induction l as [|k l IH]; [reflexivity|]. cbn [map filter].
  destruct (f (S k)); cbn [length]; rewrite IH; reflexivity.
Qed.

Lemma starts_error_run_shift d u w k :
  (1 <= k)%nat ->
  starts_error_run d (u :: w) (S k) = starts_error_run d w k.
Proof.
  intros Hk. unfold starts_error_run, vget.
  destruct k as [|k]; [lia|]. cbn [nth Nat.eqb orb].
  replace (S (S k) - 1)%nat with (S k) by lia.
  replace (S k - 1)%nat with k by lia. reflexivity.
Qed.

(** Counting along the vector and counting the indexes at which a run
    starts give the same number. *)
Lemma error_runs_after d v : forall u,
  Z.of_nat (length (filter (starts_error_run d (u :: v)) (seq 1 (length v)))) =
  error_runs_from d (in_error_area d u) v.
Proof.
  induction v as [|x v IH]; intros u; [reflexivity|].
  cbn [length seq filter error_runs_from].
  assert (E1 : starts_error_run d (u :: x :: v) 1 =
               in_error_area d x && negb (in_error_area d u)) by reflexivity.
  rewrite E1. rewrite <- (IH x).
  assert (E2 : length (filter (starts_error_run d (u :: x :: v)) (seq 2 (length v))) =
               length (filter (starts_error_run d (x :: v)) (seq 1 (length v)))).
  { rewrite <- (seq_shift (length v) 1). rewrite filter_map_S.
    f_equal. apply filter_ext_in. intros k Hk. apply in_seq in Hk.
    apply starts_error_run_shift. lia. }
  destruct (in_error_area d x && negb (in_error_area d u));
    cbn [length]; rewrite E2; lia.
Qed.

Lemma error_runs_from_start d v :
  error_runs d v = error_runs_from d false v.
Proof.
  unfold error_runs. destruct v as [|x v]; [reflexivity|].
  cbn [length seq filter error_runs_from].
  assert (E0 : starts_error_run d (x :: v) 0 = in_error_area d x).
  { unfold starts_error_run, vget. simpl. rewrite andb_true_r. reflexivity. }
  rewrite E0. cbn [negb]. rewrite andb_true_r. rewrite <- (error_runs_after d v x).
  destruct (in_error_area d x); cbn [length]; lia.
Qed.

End Errors.

(** C6: the errors count of the status summary is the number of maximal
    runs of consecutive sblocks that are included in the domain and are
    neither non-tried nor finished; an sblock outside the domain is in
    no run, so a bad area that goes on after a gap of the domain counts
    as a new error. *)
Theorem show_status_errors_are_error_runs (d : Domain) (v : list Sblock) :
  Domain_ordered d = true -> contiguous v = true -> Domain_size d <> 0 ->
  exists s, do_show_status d (Some v) = Returned s /\ errors s = error_runs d v.
Proof.
  intros Hd Hc Hn. apply Z.eqb_neq in Hn.
  unfold do_show_status, verify_logname_and_domain.
  cbn [Logbook_open logfile_exists_ domain_ negb sblock_vector bind]. rewrite Hn.
  cbn [bind]. eexists. split; [reflexivity|].
  rewrite (Errors.show_status_loop_errors d v Hd Hc).
  rewrite Errors.error_runs_from_start. reflexivity.
Qed.

Lemma show_status_errors_are_error_runs_witness :
  exists s,
    do_show_status [mkBlock 0 1024; mkBlock 2048 2048]
      (Some [sbl 0 512 finished; sbl 512 512 bad_sector; sbl 1024 1024 bad_sector;
             sbl 2048 512 bad_sector; sbl 2560 512 non_trimmed; sbl 3072 1024 non_tried])
    = Returned s /\ errors s = 2.
Proof.
  destruct (show_status_errors_are_error_runs [mkBlock 0 1024; mkBlock 2048 2048]
      [sbl 0 512 finished; sbl 512 512 bad_sector; sbl 1024 1024 bad_sector;
       sbl 2048 512 bad_sector; sbl 2560 512 non_trimmed; sbl 3072 1024 non_tried]
      eq_refl eq_refl ltac:(discriminate)) as (s & Hs & He).
  exists s. split; [exact Hs|]. rewrite He. reflexivity.
Defined.

(* ================================================================== *)
(** * Listing blocks *)

Module Badblocks.

Import Vector Dom.

Lemma ascending_above_app lo m a b :
  ascending_above lo a = true -> (forall n, In n a -> n <= m) -> lo <= m ->
  ascending_above m b = true ->
  ascending_above lo (a ++ b) = true.
Proof.
  revert lo. induction a as [|x a IH]; intros lo Ha Hm Hlo Hb; simpl.
  - destruct b as [|y b]; [reflexivity|]. simpl in *. bool_to_Z.
    Z_to_bool; [lia|assumption].
  - simpl in Ha. bool_to_Z. Z_to_bool; [lia|].
    apply IH; auto.
    + intros n Hn. apply Hm. right. exact Hn.
    + apply Hm. left. reflexivity.
Qed.

Lemma ascending_above_weaken lo lo' l :
  lo' <= lo -> ascending_above lo l = true -> ascending_above lo' l = true.
Proof.
  intros H. destruct l as [|x l]; [reflexivity|]. simpl. intros Ha.
  bool_to_Z. Z_to_bool; [lia|assumption].
Qed.

Section Inner.

Variables hardbs limit : Z.
Hypothesis hardbs_pos : 0 < hardbs.

(** The inner loop, started at [block] with [last_block <= block],
    prints the blocks from [block] on that start before [limit] and
    are above [last_block]. *)
Lemma badblocks_of_sblock_spec : forall fuel block last out,
  (0 < fuel)%nat ->
  limit - block * hardbs <= (Z.of_nat fuel - 1) * hardbs ->
  last <= block ->
  exists last' out',
    badblocks_of_sblock fuel hardbs limit block last out
      = Returned (last', out ++ out') /\
    ascending_above last out' = true /\
    (forall n, In n out' <-> block <= n /\ n * hardbs < limit /\ last < n) /\
    (forall n, In n out' -> n <= last') /\
    last <= last' /\
    (last' = last \/ In last' out') /\
    (block * hardbs < limit -> block <= last').
Proof.
  induction fuel as [|fuel IH]; intros block last out Hf Hb Hl; [lia|].
  cbn [badblocks_of_sblock].
  destruct (block * hardbs <? limit) eqn:Er.
  - apply Z.ltb_lt in Er.
    assert (Hf' : (0 < fuel)%nat) by (destruct fuel; [simpl in Hb; nia|lia]).
    assert (Hb' : limit - (block + 1) * hardbs <= (Z.of_nat fuel - 1) * hardbs) by nia.
    destruct (last <? block) eqn:El.
    + apply Z.ltb_lt in El.
      destruct (IH (block + 1) block (out ++ [block]) Hf' Hb' ltac:(lia))
        as (last' & out' & Hr & Ha & Hm & Hle & Hge & Hin & _).
      exists last', (block :: out'). rewrite Hr, <- app_assoc. cbn [app].
      split; [reflexivity|]. split; [|split; [|split; [|split; [|split]]]].
      * cbn [ascending_above]. rewrite Ha. Z_to_bool; [lia|reflexivity].
      * intros n. cbn [In]. rewrite Hm. split.
        -- intros [<-|H]; lia.
        -- intros H. destruct (Z.eq_dec block n); [left; assumption|right; lia].
      * intros n [<-|Hn]; [lia|apply Hle; exact Hn].
      * lia.
      * right. destruct Hin as [->|Hin]; [left; reflexivity|right; exact Hin].
      * intros _. lia.
    + apply Z.ltb_ge in El.
      replace (block <? last) with false by (symmetry; apply Z.ltb_ge; lia).
      assert (block = last) by lia. subst block.
      destruct (IH (last + 1) last out Hf' Hb' ltac:(lia))
        as (last' & out' & Hr & Ha & Hm & Hle & Hge & Hin & _).
      exists last', out'. rewrite Hr.
      split; [reflexivity|]. split; [exact Ha|].
      split; [intros n; rewrite Hm; lia|].
      split; [exact Hle|]. split; [exact Hge|]. split; [exact Hin|].
      intros _. lia.
  - apply Z.ltb_ge in Er. exists last, []. rewrite app_nil_r.
    split; [reflexivity|]. split; [reflexivity|].
    split; [|split; [|split; [|split]]].
    + intros n. cbn [In]. split; [tauto|]. intros (H1 & H2 & _). nia.
    + intros n [].
    + lia.
    + left. reflexivity.
    + intros H. lia.
Qed.

End Inner.

(** The block numbers of the bytes of a block are the numbers from the
    one of its first byte on that start before its end. *)
Lemma blocks_of_bytes (sb : Block) offset hardbs n :
  0 < hardbs -> 0 < size sb ->
  ((pos sb + offset) / hardbs <= n /\ n * hardbs < Block_end sb + offset)
  <-> exists byte, Block_includes_pos sb byte = true /\ n = (byte + offset) / hardbs.
Proof.
  intros Hh Hs. unfold Block_includes_pos, Block_end. split.
  - intros [H1 H2].
    destruct (Z.eq_dec n ((pos sb + offset) / hardbs)) as [->|Hne].
    + exists (pos sb). split; [Z_to_bool; lia|reflexivity].
    + exists (n * hardbs - offset).
      assert (Hlt : pos sb + offset < n * hardbs).
      { assert (H3 : (pos sb + offset) / hardbs + 1 <= n) by lia.
        pose proof (Z.mul_succ_div_gt (pos sb + offset) hardbs Hh) as H4.
        unfold Z.succ in H4. nia. }
      split; [Z_to_bool; lia|].
      replace (n * hardbs - offset + offset) with (n * hardbs) by lia.
      rewrite Z.div_mul; lia.
  - intros (byte & Hb & ->). bool_to_Z. split.
    + apply Z.div_le_mono; lia.
    + pose proof (Z.mul_div_le (byte + offset) hardbs Hh). lia.
Qed.

Section Outer.

Variables (offset : Z) (d : Domain) (hardbs : Z) (blocktypes : string).
Hypothesis hardbs_pos : 0 < hardbs.
Hypothesis domain_ordered : Domain_ordered d = true.
Hypothesis included_nonneg :
  forall sb : Sblock, Domain_includes d sb = true -> 0 <= pos sb + offset.

Lemma prints_cons_not_listed (sb : Sblock) (v : list Sblock) n :
  listed d blocktypes sb = false -> (block_of_listed_byte offset d (sb :: v) hardbs blocktypes n <-> block_of_listed_byte offset d v hardbs blocktypes n).
Proof.
  intros H. unfold block_of_listed_byte. split.
  - intros (x & byte & [<-|Hx] & Hl & Hb); [congruence|]. eauto.
  - intros (x & byte & Hx & Hl). exists x, byte. split; [right; exact Hx|exact Hl].
Qed.

Lemma prints_none (v : list Sblock) n :
  (forall x, In x v -> Domain_includes d x = false) -> ~ block_of_listed_byte offset d v hardbs blocktypes n.
Proof.
  intros H (x & byte & Hx & Hl & _). unfold listed in Hl.
  rewrite (H x Hx) in Hl. discriminate.
Qed.

Lemma to_badblocks_loop_spec : forall v last out,
  contiguous v = true ->
  (last = -1 \/
   (0 <= last /\ forall x : Sblock, In x v -> last * hardbs < pos x + offset)) ->
  -1 <= last ->
  exists out',
    to_badblocks_loop offset d hardbs blocktypes v last out
      = Returned (out ++ out') /\
    ascending_above last out' = true /\
    (forall n, In n out' <-> last < n /\ block_of_listed_byte offset d v hardbs blocktypes n).
Proof.
  induction v as [|sb v IH]; intros last out Hc Hlast Hm1.
  { exists []. rewrite app_nil_r. split; [reflexivity|]. split; [reflexivity|].
    intros n. split; [intros []|]. intros [_ (x & _ & [] & _)]. }
  destruct (contiguous_cons _ _ Hc) as (Hs & Hc' & Ha).
  assert (Hlast' : last = -1 \/
           (0 <= last /\ forall x : Sblock, In x v -> last * hardbs < pos x + offset)).
  { destruct Hlast as [?|[? H]]; [left; assumption|right]. split; [assumption|].
    intros x Hx. apply H. right. exact Hx. }
  cbn [to_badblocks_loop].
  destruct (Domain_includes d sb) eqn:Hi; cbn [negb].
  2:{ assert (Hnl : listed d blocktypes sb = false)
        by (unfold listed; rewrite Hi; reflexivity).
      unfold Domain_lt. destruct (Domain_end d <=? pos sb) eqn:He.
      - apply Z.leb_le in He. exists []. rewrite app_nil_r.
        split; [reflexivity|]. split; [reflexivity|].
        intros n. split; [intros []|]. intros [_ Hp]. exfalso.
        revert Hp. apply prints_none.
        apply (none_included_past_end d sb v domain_ordered Hc He).
      - destruct (IH last out Hc' Hlast' Hm1) as (out' & Hr & Hasc & Hmem).
        exists out'. split; [exact Hr|]. split; [exact Hasc|].
        intros n. rewrite Hmem, (prints_cons_not_listed sb v n Hnl). tauto. }
  destruct (string_find blocktypes (Status_char (status sb))) as [j|] eqn:Hf.
  2:{ assert (Hnl : listed d blocktypes sb = false)
        by (unfold listed; rewrite Hi, Hf; reflexivity).
      destruct (IH last out Hc' Hlast' Hm1) as (out' & Hr & Hasc & Hmem).
      exists out'. split; [exact Hr|]. split; [exact Hasc|].
      intros n. rewrite Hmem, (prints_cons_not_listed sb v n Hnl). tauto. }
  assert (Hl : listed d blocktypes sb = true)
    by (unfold listed; rewrite Hi, Hf; reflexivity).
  pose proof (included_nonneg sb Hi) as Hnn.
  rewrite Z.quot_div_nonneg by lia.
  set (b0 := (pos sb + offset) / hardbs).
  assert (Hb0 : 0 <= b0) by (apply Z.div_pos; lia).
  assert (Hb0l : b0 * hardbs <= pos sb + offset)
    by (unfold b0; pose proof (Z.mul_div_le (pos sb + offset) hardbs hardbs_pos); lia).
  assert (Hb0u : pos sb + offset < (b0 + 1) * hardbs).
  { unfold b0. pose proof (Z.mul_succ_div_gt (pos sb + offset) hardbs hardbs_pos) as H.
    unfold Z.succ in H. lia. }
  assert (Hlb : last <= b0).
  { destruct Hlast as [->|[H0 H]]; [lia|].
    specialize (H sb (or_introl eq_refl)).
    unfold b0. apply Z.div_le_lower_bound; [lia|].
    (* the last block printed starts before the end of an earlier
       sblock, hence at or before the start of this one *)
    rewrite Z.mul_comm. lia. }
  destruct (badblocks_of_sblock_spec hardbs (Block_end sb + offset) hardbs_pos
              (Z.to_nat (size sb) + 2) b0 last out)
    as (last1 & out1 & Hr1 & Hasc1 & Hmem1 & Hle1 & Hge1 & Hin1 & Hb1).
  { lia. }
  { unfold Block_end. rewrite Nat2Z.inj_add, Z2Nat.id by lia. simpl Z.of_nat. nia. }
  { exact Hlb. }
  rewrite Hr1. cbn [bind fst snd].
  assert (Hin_range : Block_end sb + offset > b0 * hardbs)
    by (unfold Block_end; lia).
  assert (Hb0last : b0 <= last1) by (apply Hb1; lia).
  assert (Hlast1 : last1 * hardbs < Block_end sb + offset).
  { destruct Hin1 as [->|Hin1].
    - assert (last = b0) by lia. subst last. lia.
    - apply Hmem1 in Hin1. lia. }
  destruct (IH last1 (out ++ out1) Hc') as (out2 & Hr2 & Hasc2 & Hmem2).
  { right. split; [lia|]. intros x Hx. specialize (Ha x Hx).
    unfold Block_end in *. lia. }
  { lia. }
  exists (out1 ++ out2). rewrite Hr2, app_assoc.
  split; [reflexivity|]. split.
  - apply (ascending_above_app last last1 out1 out2); auto.
  - intros n. rewrite in_app_iff, Hmem1, Hmem2.
    unfold block_of_listed_byte.
    split.
    + intros [(H1 & H2 & H3)|(H1 & x & byte & Hx & Hlx & Hbx)].
      * split; [exact H3|].
        destruct (proj1 (blocks_of_bytes sb offset hardbs n hardbs_pos Hs)
                    (conj H1 H2)) as (byte & Hb & Hn).
        exists sb, byte. repeat split; auto. left. reflexivity.
      * split; [lia|]. exists x, byte. split; [right; exact Hx|auto].
    + intros (H1 & x & byte & [<-|Hx] & Hlx & Hbx).
      * left.
        destruct (proj2 (blocks_of_bytes sb offset hardbs n hardbs_pos Hs)
                    (ex_intro _ byte Hbx)) as [H2 H3].
        fold b0 in H2. lia.
      * destruct (Z_lt_le_dec last1 n) as [Hgt|Hle]; [right; split; eauto|].
        left.
        (* a block of a later sblock that is not above the last block
           printed is that block *)
        pose proof (contiguous_positive _ Hc' x Hx) as Hxs.
        destruct (proj2 (blocks_of_bytes x offset hardbs n hardbs_pos Hxs)
                    (ex_intro _ byte Hbx)) as [H2 H3].
        specialize (Ha x Hx).
        assert (Hx0 : last1 <= (pos x + offset) / hardbs).
        { apply Z.div_le_lower_bound; [lia|]. unfold Block_end in *.
          rewrite Z.mul_comm. lia. }
        assert (n = last1) by lia. subst n.
        destruct Hin1 as [->|Hin1]; [lia|].
        apply Hmem1 in Hin1. lia.
Qed.

End Outer.

End Badblocks.



(* ================================================================== *)
(** * Finding a finished chunk *)

Module Chunk.

Import Vector Dom.

Section FindChunk.

Variables (d : Domain) (v : list Sblock).
Hypothesis v_contiguous : contiguous v = true.

Lemma finished_chunk_at_true p :
  finished_chunk_at d v p = true <->
  exists x, In x v /\ finished_included d x = true /\ Block_includes_pos x p = true.
Proof.
  unfold finished_chunk_at. rewrite existsb_exists. unfold finished_included.
  split; intros (x & Hx & H); exists x; (split; [exact Hx|]).
  - apply andb_prop in H. exact H.
  - destruct H as [H1 H2]. rewrite H1, H2. reflexivity.
Qed.

Lemma finished_chunk_at_false p :
  (forall x, In x v -> finished_included d x = true -> Block_includes_pos x p = false) ->
  finished_chunk_at d v p = false.
Proof.
  intros H. destruct (finished_chunk_at d v p) eqn:E; [|reflexivity].
  apply finished_chunk_at_true in E. destruct E as (x & Hx & Hf & Hp).
  rewrite (H x Hx Hf) in Hp. discriminate.
Qed.

Lemma vfind_status_None l :
  vfind_status d finished l = None ->
  forall x, In x l -> finished_included d x = false.
Proof.
  induction l as [|y l IH]; intros H x Hx; [destruct Hx|].
  cbn [vfind_status] in H. fold (finished_included d y) in H.
  destruct (finished_included d y) eqn:E; [discriminate|].
  destruct Hx as [<-|Hx]; auto.
Qed.

Lemma vfind_status_Some l sb :
  vfind_status d finished l = Some sb ->
  exists mid post,
    l = mid ++ sb :: post /\ finished_included d sb = true /\
    forall x, In x mid -> finished_included d x = false.
Proof.
  induction l as [|y l IH]; intros H; [discriminate|].
  cbn [vfind_status] in H. fold (finished_included d y) in H.
  destruct (finished_included d y) eqn:E.
  - inversion H; subst. exists [], l. repeat split; auto. intros x [].
  - destruct (IH H) as (mid & post & -> & Hf & Hm).
    exists (y :: mid), post. repeat split; auto.
    intros x [<-|Hx]; auto.
Qed.

(** Before the first sblock nothing is finished. *)
Lemma nothing_before_front p :
  p < pos (vget v 0) -> finished_chunk_at d v p = false.
Proof.
  intros Hp. apply finished_chunk_at_false. intros x Hx _.
  destruct v as [|y l]; [destruct Hx|]. unfold vget in Hp. cbn [nth] in Hp.
  destruct (contiguous_cons _ _ v_contiguous) as (Hs & _ & Ha).
  unfold Block_includes_pos. apply andb_false_iff. left. apply Z.leb_gt.
  destruct Hx as [<-|Hx]; [lia|]. specialize (Ha x Hx).
  unfold Block_end in Ha. lia.
Qed.

(** A position at or after the start of the vector that no sblock
    includes is at or after its end. *)
Lemma vfind_index_None_past l p :
  contiguous l = true -> pos (vget l 0) <= p -> vfind_index l p = None ->
  ends_before l p.
Proof.
  revert p. induction l as [|y l IH]; intros p Hc Hp Hn x Hx; [destruct Hx|].
  destruct (contiguous_cons _ _ Hc) as (Hs & Hc' & Ha).
  pose proof (vfind_index_None _ _ Hn) as Hnone.
  assert (Hy : Block_end y <= p).
  { specialize (Hnone y (or_introl eq_refl)). unfold vget in Hp. cbn [nth] in Hp.
    unfold Block_includes_pos in Hnone. apply andb_false_iff in Hnone.
    destruct Hnone; bool_to_Z; lia. }
  destruct Hx as [<-|Hx]; [exact Hy|].
  apply (IH p Hc'); auto.
  - destruct l as [|z l]; [destruct Hx|]. unfold vget. cbn [nth].
    rewrite contiguous_unfold in Hc. bool_to_Z. lia.
  - cbn [vfind_index] in Hn. destruct (Block_includes_pos y p); [discriminate|].
    destruct (vfind_index l p); [discriminate|reflexivity].
Qed.

(** What [find_chunk] returns for a block that is not empty, on a
    logbook made with sector size 1. *)
Lemma find_chunk_spec offset exists_ (b : Block) :
  0 < size b ->
  let c := find_chunk (mkLogbook offset d 1 v exists_) b finished in
  size c <= size b /\
  (size c <= 0 -> forall p, pos b <= p -> finished_chunk_at d v p = false) /\
  (0 < size c ->
     pos b <= pos c /\
     (forall p, pos b <= p < pos c -> finished_chunk_at d v p = false) /\
     (forall p, pos c <= p < Block_end c -> finished_chunk_at d v p = true)).
Proof.
  intros Hb. unfold find_chunk.
  replace (size b <=? 0) with false by (symmetry; apply Z.leb_gt; lia).
  cbn [sblock_vector domain_ hardbs_].
  set (b1 := if pos b <? pos (vget v 0)
             then mkBlock (pos (vget v 0)) (size b) else b).
  assert (Hb1 : size b1 = size b /\ pos b <= pos b1 /\ pos (vget v 0) <= pos b1 /\
                (pos b1 = pos b \/ pos b1 = pos (vget v 0))).
  { unfold b1. destruct (pos b <? pos (vget v 0)) eqn:E; bool_to_Z; simpl; lia. }
  destruct Hb1 as (Hb1s & Hb1p & Hb1f & Hb1c).
  assert (Hbefore : forall p, pos b <= p < pos b1 -> finished_chunk_at d v p = false).
  { intros p Hp. apply nothing_before_front. lia. }
  destruct (vfind_index v (pos b1)) as [k|] eqn:Ek.
  2:{ (* the block starts after the end of the vector *)
      cbn [size pos]. split; [lia|]. split; [|lia].
      intros _ p Hp.
      destruct (Z_lt_le_dec p (pos b1)) as [Hlt|Hge]; [apply Hbefore; lia|].
      apply finished_chunk_at_false. intros x Hx _.
      pose proof (vfind_index_None_past v (pos b1) v_contiguous Hb1f Ek x Hx).
      unfold Block_includes_pos. apply andb_false_iff. right. apply Z.ltb_ge. lia. }
  destruct (vfind_index_Some _ _ _ Ek) as (pre & y & post & Ev & Hk & Hy).
  assert (Hskip : skipn k v = y :: post)
    by (rewrite Ev, <- Hk; apply skipn_seam).
  rewrite Hskip.
  assert (Hcv := v_contiguous). rewrite Ev in Hcv.
  destruct (contiguous_split _ _ _ Hcv) as (Hpre & Hys & Hpost).
  assert (Hpre_out : forall x p, In x pre -> pos b1 <= p ->
                                 Block_includes_pos x p = false).
  { intros x p Hx Hp. specialize (Hpre x Hx).
    unfold Block_includes_pos in *. bool_to_Z.
    apply andb_false_iff. right. apply Z.ltb_ge. lia. }
  destruct (vfind_status d finished (y :: post)) as [sb|] eqn:Es.
  2:{ (* no finished sblock from the block on *)
      cbn [size pos]. split; [lia|]. split; [|lia].
      intros _ p Hp.
      destruct (Z_lt_le_dec p (pos b1)) as [Hlt|Hge]; [apply Hbefore; lia|].
      apply finished_chunk_at_false. intros x Hx Hf.
      rewrite Ev in Hx. apply in_app_or in Hx. destruct Hx as [Hx|Hx].
      - apply Hpre_out; auto.
      - rewrite (vfind_status_None _ Es x Hx) in Hf. discriminate. }
  destruct (vfind_status_Some _ _ Es) as (mid & post2 & Em & Hf & Hmid).
  assert (Ev2 : v = (pre ++ mid) ++ sb :: post2)
    by (rewrite Ev, Em, <- app_assoc; reflexivity).
  assert (Hcv2 := v_contiguous). rewrite Ev2 in Hcv2.
  destruct (contiguous_split _ _ _ Hcv2) as (Hpm & Hsbs & Hpost2).
  assert (Hy_sb : Block_end y <= Block_end sb).
  { destruct mid as [|m mid].
    - cbn [app] in Em. inversion Em; subst. lia.
    - cbn [app] in Em. inversion Em; subst m.
      assert (Hin : In y (pre ++ y :: mid))
        by (apply in_or_app; right; left; reflexivity).
      specialize (Hpm y Hin). unfold Block_end in *. lia. }
  assert (Hb1_sb : pos b1 < Block_end sb).
  { unfold Block_includes_pos in Hy. bool_to_Z. unfold Block_end in *. lia. }
  set (b2 := if pos b1 <? pos sb then mkBlock (pos sb) (size b1) else b1).
  assert (Hb2 : size b2 = size b /\ pos b2 = Z.max (pos b1) (pos sb)).
  { unfold b2. destruct (pos b1 <? pos sb) eqn:E; bool_to_Z; simpl; lia. }
  destruct Hb2 as (Hb2s & Hb2p).
  set (b3 := if Block_includes sb b2 then b2 else Block_crop b2 sb).
  assert (Hb3 : pos b3 = pos b2 /\ 0 < size b3 /\ size b3 <= size b /\
                Block_end b3 <= Block_end sb).
  { unfold b3. destruct (Block_includes sb b2) eqn:E.
    - unfold Block_includes, Block_end in *. bool_to_Z. lia.
    - unfold Block_crop, Block_end in *. cbn [pos size]. lia. }
  destruct Hb3 as (Hb3p & Hb3s & Hb3le & Hb3e).
  assert (Hc : (if Block_end b3 =? Block_end sb then b3 else Block_align_end b3 1) = b3).
  { destruct (Block_end b3 =? Block_end sb); reflexivity. }
  rewrite Hc. cbn zeta.
  split; [exact Hb3le|]. split; [block_lia|]. intros _.
  split; [block_lia|]. split.
  - intros p Hp.
    destruct (Z_lt_le_dec p (pos b1)) as [Hlt|Hge]; [apply Hbefore; block_lia|].
    apply finished_chunk_at_false. intros x Hx Hfx.
    rewrite Ev2 in Hx. apply in_app_or in Hx. destruct Hx as [Hx|[<-|Hx]].
    + apply in_app_or in Hx. destruct Hx as [Hx|Hx].
      * apply Hpre_out; auto.
      * rewrite (Hmid x Hx) in Hfx. discriminate.
    + unfold Block_includes_pos. apply andb_false_iff. left. apply Z.leb_gt. block_lia.
    + specialize (Hpost2 x Hx). unfold Block_includes_pos.
      apply andb_false_iff. left. apply Z.leb_gt. block_lia.
  - intros p Hp. apply finished_chunk_at_true. exists sb.
    split; [rewrite Ev2; apply in_or_app; right; left; reflexivity|].
    split; [exact Hf|]. unfold Block_includes_pos. Z_to_bool; unfold Block_end in *; lia.
Qed.

End FindChunk.

(** On a mapfile split at the borders of the domain, the finished
    chunks hold the finished bytes of the domain. *)
Lemma finished_chunk_at_domain d v p :
  mapfile_ok d v = true -> in_domain d p = true ->
  finished_chunk_at d v p = finished_at v p.
Proof.
  intros Hok Hd. unfold mapfile_ok in Hok. apply andb_prop in Hok.
  destruct Hok as [Hc Hs]. unfold finished_at.
  destruct (finished_chunk_at d v p) eqn:E.
  - apply finished_chunk_at_true in E. destruct E as (x & Hx & Hf & Hp).
    rewrite (status_at_In v x p Hc Hx Hp).
    unfold finished_included in Hf. apply andb_prop in Hf. destruct Hf as [Hf _].
    apply Status_eqb_eq in Hf. rewrite Hf. reflexivity.
  - destruct (status_at v p) as [s|] eqn:Es; [|reflexivity].
    destruct s; try reflexivity. exfalso.
    destruct (status_at_Some _ _ _ Es) as (x & Hx & Hp & Hst).
    assert (Ht : finished_chunk_at d v p = true).
    { apply finished_chunk_at_true. exists x. split; [exact Hx|].
      split; [|exact Hp]. unfold finished_included. rewrite Hst. cbn [Status_eqb andb].
      apply (in_domain_included d v x p Hs Hx Hp Hd). }
    congruence.
Qed.

(** The finished chunks of a logbook are the finished bytes of its
    logfile that lie in its domain. *)
Lemma finished_chunk_at_logbook d v p :
  mapfile_ok d v = true ->
  finished_chunk_at d v p = finished_at v p && in_domain d p.
Proof.
  intros Hok. destruct (in_domain d p) eqn:Hd.
  - rewrite andb_true_r. apply finished_chunk_at_domain; assumption.
  - rewrite andb_false_r. apply finished_chunk_at_false. intros x Hx Hf.
    destruct (Block_includes_pos x p) eqn:Hp; [|reflexivity].
    unfold finished_included in Hf. apply andb_prop in Hf. destruct Hf as [_ Hi].
    rewrite (Dom.included_in_domain d x p Hi Hp) in Hd. discriminate.
Qed.

End Chunk.

(* ================================================================== *)
(** * The loop of do_logic_ops at the seam of the vector *)

Module Seam.

Import Vector Dom.

Section Logbook.

Variables (o : Z) (d : Domain) (h : Z) (e : bool).

Lemma sblocks_seam (pre suf : list Sblock) :
  sblocks (mkLogbook o d h (pre ++ suf) e) =
  Z.of_nat (length pre) + Z.of_nat (length suf).
Proof. unfold sblocks. cbn [sblock_vector]. rewrite length_app. lia. Qed.

Lemma index_in_range (pre : list Sblock) sb post :
  (Z.of_nat (length pre) <? sblocks (mkLogbook o d h (pre ++ sb :: post) e)) = true.
Proof. rewrite sblocks_seam. cbn [length]. apply Z.ltb_lt. lia. Qed.

Lemma index_at_end (pre : list Sblock) :
  (Z.of_nat (length pre) <? sblocks (mkLogbook o d h (pre ++ []) e)) = false.
Proof. rewrite sblocks_seam. cbn [length]. apply Z.ltb_ge. lia. Qed.

Lemma sblock_seam pre sb post :
  sblock (mkLogbook o d h (pre ++ sb :: post) e) (Z.of_nat (length pre)) = sb.
Proof. unfold sblock. cbn [sblock_vector]. rewrite Nat2Z.id. apply vget_seam. Qed.

Lemma next_index (pre : list Sblock) x :
  Z.of_nat (length pre) + 1 = Z.of_nat (length (pre ++ [x])).
Proof. rewrite length_app. cbn [length]. lia. Qed.

Lemma change_sblock_status_seam pre sb post st :
  change_sblock_status (mkLogbook o d h (pre ++ sb :: post) e)
    (Z.of_nat (length pre)) st =
  mkLogbook o d h (pre ++ Sblock_with_status sb st :: post) e.
Proof.
  unfold change_sblock_status, with_vector. cbn [sblock_vector offset_ domain_ hardbs_ logfile_exists_].
  rewrite Nat2Z.id, vget_seam, vset_seam. reflexivity.
Qed.

Lemma split_sblock_by_seam pre (sb : Sblock) post q :
  pos sb < q < Block_end sb ->
  split_sblock_by (mkLogbook o d h (pre ++ sb :: post) e) q (Z.of_nat (length pre)) =
  mkLogbook o d h
    (pre ++ mkSblock (mkBlock (pos sb) (q - pos sb)) (status sb)
         :: mkSblock (mkBlock q (Block_end sb - q)) (status sb) :: post) e.
Proof.
  intros Hq. unfold split_sblock_by, with_vector.
  cbn [sblock_vector offset_ domain_ hardbs_ logfile_exists_].
  rewrite Nat2Z.id, vget_seam.
  replace (Block_strictly_includes sb q) with true
    by (symmetry; unfold Block_strictly_includes; Z_to_bool; lia).
  rewrite vset_seam, insert_seam. reflexivity.
Qed.

(** The last part of [change_chunk_status] at the seam: the sblock
    there gets the new status, then joins the sblock before it and
    the sblock after it when they are in the domain and have that
    status. *)
Lemma rewrite_and_merge_seam pre (x : Sblock) post st :
  rewrite_and_merge d (pre ++ x :: post) (length pre) st =
  let C := Sblock_with_status x st in
  let '(pre', Z) :=
    match rev pre with
    | l :: rpre =>
        if Status_eqb (status l) st && Domain_includes d l
        then (rev rpre, inc_size l (size x))
        else (pre, C)
    | [] => (pre, C)
    end in
  match post with
  | y :: post' =>
      if Status_eqb (status y) st && Domain_includes d y
      then pre' ++ inc_size Z (size y) :: post'
      else pre' ++ Z :: post
  | [] => pre' ++ [Z]
  end.
Proof.
  unfold rewrite_and_merge. rewrite vget_seam, vset_seam.
  destruct (rev pre) as [|l rpre] eqn:Er.
  - apply rev_nil_inv in Er. subst pre. cbn [length app Nat.ltb Nat.leb andb].
    destruct post as [|y post']; [reflexivity|].
    cbn [length Nat.ltb Nat.leb andb vget nth].
    destruct (Status_eqb (status y) st && Domain_includes d y); reflexivity.
  - apply rev_cons_inv in Er. subst pre.
    rewrite length_app. cbn [length].
    replace (length (rev rpre) + 1 - 1)%nat with (0 + length (rev rpre))%nat by lia.
    replace (0 <? length (rev rpre) + 1)%nat with true
      by (symmetry; apply Nat.ltb_lt; lia).
    replace (length (rev rpre) + 1)%nat with (1 + length (rev rpre))%nat by lia.
    rewrite <- !app_assoc. cbn [app].
    rewrite !vget_add. cbn [vget nth andb].
    destruct (Status_eqb (status l) st && Domain_includes d l).
    + rewrite (vset_add (rev rpre) _ 0).
      rewrite (erase_add (rev rpre) _ 1).
      match goal with
      | |- context [erase_sblock (vset (?a :: ?b :: ?r) 0 ?z) 1] =>
          change (erase_sblock (vset (a :: b :: r) 0 z) 1) with (z :: r)
      end.
      cbn [Sblock_with_status size Sblock_block].
      change (S (0 + length (rev rpre))) with (1 + length (rev rpre))%nat.
      rewrite ltb_length_add.
      rewrite !(vget_add (rev rpre) _ 1).
      rewrite !(vget_add (rev rpre) _ 0).
      rewrite (vset_add (rev rpre) _ 0).
      rewrite (erase_add (rev rpre) _ 1).
      destruct post as [|y post']; [reflexivity|].
      cbn [length Nat.ltb Nat.leb andb vget nth].
      destruct (Status_eqb (status y) st && Domain_includes d y); reflexivity.
    + change (S (1 + length (rev rpre))) with (2 + length (rev rpre))%nat.
      rewrite ltb_length_add.
      rewrite !(vget_add (rev rpre) _ 2).
      rewrite !(vget_add (rev rpre) _ 1).
      rewrite (vset_add (rev rpre) _ 1).
      rewrite (erase_add (rev rpre) _ 2).
      destruct post as [|y post'];
        [cbn [length Nat.ltb Nat.leb andb]; rewrite <- app_assoc; reflexivity|].
      cbn [length Nat.ltb Nat.leb andb vget nth].
      destruct (Status_eqb (status y) st && Domain_includes d y);
        rewrite <- app_assoc; reflexivity.
Qed.

Lemma split_sblock_by_outside pre (sb : Sblock) post q :
  q <= pos sb \/ Block_end sb <= q ->
  split_sblock_by (mkLogbook o d h (pre ++ sb :: post) e) q (Z.of_nat (length pre)) =
  mkLogbook o d h (pre ++ sb :: post) e.
Proof.
  intros Hq. unfold split_sblock_by. cbn [sblock_vector].
  rewrite Nat2Z.id, vget_seam.
  replace (Block_strictly_includes sb q) with false; [reflexivity|].
  symmetry. unfold Block_strictly_includes. apply andb_false_iff.
  destruct Hq; [left|right]; apply Z.ltb_ge; lia.
Qed.

(** [change_chunk_status] on a chunk that is a proper beginning of
    the sblock at the seam: the chunk joins the sblock before it
    when that one is in the domain and has the new status, and
    becomes an sblock of its own otherwise. *)
Lemma change_chunk_status_front pre (sb : Sblock) post k st :
  contiguous (pre ++ sb :: post) = true ->
  Domain_includes d sb = true ->
  0 < k < size sb -> status sb <> st ->
  let rest := mkSblock (mkBlock (pos sb + k) (size sb - k)) (status sb) in
  change_chunk_status (mkLogbook o d h (pre ++ sb :: post) e)
    (mkBlock (pos sb) k) st =
  Some (mkLogbook o d h
          (match rev pre with
           | l :: rpre =>
               if Status_eqb (status l) st && Domain_includes d l
               then rev rpre ++ inc_size l k :: rest :: post
               else pre ++ mkSblock (mkBlock (pos sb) k) st :: rest :: post
           | [] => pre ++ mkSblock (mkBlock (pos sb) k) st :: rest :: post
           end) e).
Proof.
  intros Hc Hi Hk Hst rest.
  destruct (contiguous_split _ _ _ Hc) as (Hpre & Hs & Hpost).
  unfold change_chunk_status.
  cbn [size pos sblock_vector domain_].
  replace (k <=? 0) with false by (symmetry; apply Z.leb_gt; lia).
  rewrite (vfind_index_seam pre sb post (pos sb) Hpre)
    by (unfold Block_includes_pos; Z_to_bool; unfold Block_end; lia).
  rewrite vget_seam.
  assert (Hsub : Block_includes sb (mkBlock (pos sb) k) = true)
    by (unfold Block_includes, Block_end; cbn [pos size]; Z_to_bool; lia).
  rewrite (Domain_includes_sub d sb _ Hi Hsub), Hi, Hsub. cbn [negb orb].
  replace (Status_eqb (status sb) st) with false
    by (symmetry; apply Status_eqb_neq; exact Hst).
  rewrite Z.ltb_irrefl.
  rewrite split_sblock_by_outside by lia.
  rewrite split_sblock_by_seam by (unfold Block_end; cbn [pos size]; lia).
  unfold with_vector. cbn [offset_ domain_ hardbs_ logfile_exists_ sblock_vector].
  rewrite rewrite_and_merge_seam.
  unfold Block_end. cbn [pos size Sblock_with_status Sblock_block status].
  replace (pos sb + k - pos sb) with k by lia.
  replace (pos sb + size sb - (pos sb + k)) with (size sb - k) by lia.
  fold rest.
  replace (Status_eqb (status sb) st) with false
    by (symmetry; apply Status_eqb_neq; exact Hst).
  cbn [andb].
  destruct (rev pre) as [|l rpre]; [reflexivity|].
  destruct (Status_eqb (status l) st && Domain_includes d l); reflexivity.
Qed.

End Logbook.

End Seam.

(* ================================================================== *)
(** * Replacing the sblocks from the seam on *)

Ltac split_tests :=
  repeat match goal with
  | |- context [?a <=? ?b] => destruct (Z.leb_spec a b)
  | |- context [?a <? ?b] => destruct (Z.ltb_spec a b)
  | |- context [?a =? ?b] => destruct (Z.eqb_spec a b)
  end.

Module Replace.

Import Vector Dom.

Lemma contiguous_cons_touch (x y : Sblock) r :
  contiguous (x :: y :: r) = true -> Block_end x = pos y.
Proof. rewrite contiguous_unfold. intros H. bool_to_Z. assumption. Qed.

Lemma contiguous_cons_intro (x : Sblock) rest :
  0 < size x -> contiguous rest = true ->
  (forall y r, rest = y :: r -> Block_end x = pos y) ->
  contiguous (x :: rest) = true.
Proof.
  intros Hs Hc Ht. rewrite contiguous_unfold, Hc.
  replace (0 <? size x) with true by (symmetry; apply Z.ltb_lt; exact Hs).
  destruct rest as [|y r]; [reflexivity|].
  rewrite (Ht y r eq_refl), Z.eqb_refl. reflexivity.
Qed.

(** The head of a contiguous vector can be replaced by an sblock that
    ends where it ends. *)
Lemma contiguous_head_replace (sb x : Sblock) post :
  contiguous (sb :: post) = true -> 0 < size x ->
  Block_end x = Block_end sb -> contiguous (x :: post) = true.
Proof.
  intros Hc Hs He. destruct (contiguous_cons _ _ Hc) as (_ & Hp & _).
  apply contiguous_cons_intro; auto.
  intros y r ->. rewrite He. apply (contiguous_cons_touch _ _ _ Hc).
Qed.

(** What follows the seam can be replaced by a contiguous vector that
    starts at the same position. *)
Lemma contiguous_suffix_replace pre (x x' : Sblock) post post' :
  contiguous (pre ++ x :: post) = true ->
  contiguous (x' :: post') = true -> pos x' = pos x ->
  contiguous (pre ++ x' :: post') = true.
Proof.
  intros Hc Hc' Hp. induction pre as [|a pre IH]; [exact Hc'|].
  cbn [app] in *. destruct (contiguous_cons _ _ Hc) as (Hs & Hcp & _).
  apply contiguous_cons_intro; auto.
  intros y r E. destruct pre as [|b pre]; cbn [app] in *.
  - inversion E; subst. rewrite Hp. apply (contiguous_cons_touch _ _ _ Hc).
  - inversion E; subst. apply (contiguous_cons_touch _ _ _ Hc).
Qed.

Lemma status_at_after pre X q p :
  ends_before pre q -> q <= p -> status_at (pre ++ X) p = status_at X p.
Proof.
  intros He Hp. rewrite status_at_app, (status_at_ends_before pre q p He Hp).
  reflexivity.
Qed.

Lemma status_at_before pre X q p :
  starts_after X q -> p < q -> status_at (pre ++ X) p = status_at pre p.
Proof.
  intros Hs Hp. rewrite status_at_app, (status_at_starts_after X q p Hs Hp).
  destruct (status_at pre p); reflexivity.
Qed.

Lemma starts_after_contiguous (x : Sblock) post :
  contiguous (x :: post) = true -> starts_after (x :: post) (pos x).
Proof.
  intros Hc y [<-|Hy]; [lia|].
  destruct (contiguous_cons _ _ Hc) as (Hs & _ & Ha). specialize (Ha y Hy).
  unfold Block_end in Ha. lia.
Qed.

Lemma split_at_domain_borders_cons d (x : Sblock) post :
  split_at_domain_borders d (x :: post) = borders_ok d x && split_at_domain_borders d post.
Proof. reflexivity. Qed.

Lemma borders_ok_sub d (y x : Sblock) :
  borders_ok d y = true -> Block_includes y x = true -> borders_ok d x = true.
Proof.
  unfold borders_ok. rewrite !forallb_forall. intros H Hi D HD.
  specialize (H D HD). unfold Block_includes, Block_disjoint, Block_end in *.
  apply orb_prop in H. bool_to_Z. apply orb_true_iff.
  destruct H as [H|H]; [left|right].
  - bool_to_Z. Z_to_bool; lia.
  - apply orb_prop in H. apply orb_true_iff.
    destruct H as [H|H]; [left|right]; bool_to_Z; Z_to_bool; lia.
Qed.

Lemma borders_ok_not_included d (sb : Sblock) p :
  borders_ok d sb = true -> Domain_includes d sb = false ->
  Block_includes_pos sb p = true -> in_domain d p = false.
Proof.
  intros Hb Hn Hp. destruct (in_domain d p) eqn:E; [|reflexivity].
  rewrite <- Hn. symmetry.
  apply (in_domain_included d [sb] sb p); auto.
  - unfold split_at_domain_borders. cbn [forallb]. fold (borders_ok d sb).
    rewrite Hb. reflexivity.
  - left. reflexivity.
Qed.

Lemma vsize_nonneg v : contiguous v = true -> 0 <= vsize v.
Proof.
  induction v as [|x v IH]; intros Hc; [simpl; lia|].
  destruct (contiguous_cons _ _ Hc) as (Hs & Hc' & _).
  unfold vsize in *. cbn [fold_right]. specialize (IH Hc'). lia.
Qed.

Lemma and_measure_bounds v :
  contiguous v = true -> 0 <= and_measure v <= 2 * vsize v + 1.
Proof.
  intros Hc. pose proof (vsize_nonneg v Hc).
  unfold and_measure. destruct v as [|x v]; [simpl in *; lia|].
  destruct (Status_eqb (status x) finished); lia.
Qed.

Lemma vsize_cons (x : Sblock) v : vsize (x :: v) = size x + vsize v.
Proof. reflexivity. Qed.

End Replace.

(* ================================================================== *)
(** * The loop of do_logic_ops in AND mode *)

Module AndLoop.

Import Vector Dom Seam Replace Chunk.

Lemma and_status_not_finished s f : s <> finished -> and_status s f = s.
Proof. destruct s; intros H; try reflexivity. exfalso. apply H. reflexivity. Qed.

Lemma and_status_idempotent s f : and_status (and_status s f) f = and_status s f.
Proof. destruct s, f; reflexivity. Qed.

Section And.

Variables (d d2 : Domain) (vB : list Sblock).
Hypothesis vB_contiguous : contiguous vB = true.
Hypothesis d_ordered : Domain_ordered d = true.

(** One more pass: the loop that goes on from a later state ends
    with what it has to end with from the present one. *)
Lemma and_done_step v v1 q q1 v' :
  and_done_from d d2 vB v1 q1 v' -> q <= q1 ->
  (forall p, p < q -> status_at v1 p = status_at v p) ->
  (forall p, q <= p < q1 -> status_at v1 p = and_at d d2 vB v p) ->
  (forall p, q1 <= p -> and_at d d2 vB v1 p = and_at d d2 vB v p) ->
  and_done_from d d2 vB v q v'.
Proof.
  intros [Hc Hs] Hq H1 H2 H3. split; [exact Hc|]. intros p. rewrite Hs.
  destruct (Z.ltb_spec p q1), (Z.ltb_spec p q); try lia; auto.
Qed.

Lemma and_at_same v v1 p :
  status_at v1 p = status_at v p -> and_at d d2 vB v1 p = and_at d d2 vB v p.
Proof. unfold and_at. intros ->. reflexivity. Qed.

Lemma and_loop_spec : forall fuel pre suf q,
  contiguous (pre ++ suf) = true ->
  split_at_domain_borders d suf = true ->
  ends_before pre q -> seam_at suf q ->
  and_measure suf < Z.of_nat fuel ->
  exists v',
    logic_loop fuel m_and (mkLogbook 0 d2 1 vB true)
      (mkLogbook 0 d 1 (pre ++ suf) true) (Z.of_nat (length pre))
    = Returned (mkLogbook 0 d 1 v' true) /\
    and_done_from d d2 vB (pre ++ suf) q v'.
Proof.
  induction fuel as [|fuel IH]; intros pre suf q Hc Hb Hpre Hq Hm.
  { destruct (contiguous_app _ _ Hc) as [_ Hcs].
    pose proof (and_measure_bounds suf Hcs). simpl in Hm. lia. }
  destruct suf as [|sb post].
  { (* the loop counter has reached the end of the vector *)
    cbn [logic_loop]. rewrite index_at_end. cbn [negb].
    eexists. split; [reflexivity|]. split; [exact Hc|].
    intros p. destruct (Z.ltb_spec p q); [reflexivity|].
    unfold and_at. rewrite (status_at_after pre [] q p Hpre H).
    cbn [status_at option_map]. destruct (in_domain d p); reflexivity. }
  cbn [seam_at] in Hq. subst q.
  destruct (contiguous_split _ _ _ Hc) as (_ & Hs & Hpost).
  destruct (contiguous_app _ _ Hc) as [Hcpre Hcsuf].
  destruct (contiguous_cons _ _ Hcsuf) as (_ & Hcpost & _).
  rewrite split_at_domain_borders_cons in Hb.
  apply andb_prop in Hb. destruct Hb as [Hbsb Hbpost].
  pose proof (starts_after_contiguous sb post Hcsuf) as Hsuf_after.
  pose proof (and_measure_bounds post Hcpost) as Hmpost.
  assert (Hmsb : 2 * (size sb + vsize post) <= and_measure (sb :: post)).
  { unfold and_measure. rewrite vsize_cons.
    destruct (Status_eqb (status sb) finished); lia. }
  (* going on from a later state *)
  assert (Hnext : forall pre1 suf1 q1,
    contiguous (pre1 ++ suf1) = true ->
    split_at_domain_borders d suf1 = true ->
    ends_before pre1 q1 -> seam_at suf1 q1 ->
    and_measure suf1 < and_measure (sb :: post) ->
    pos sb <= q1 ->
    (forall p, p < pos sb ->
       status_at (pre1 ++ suf1) p = status_at (pre ++ sb :: post) p) ->
    (forall p, pos sb <= p < q1 ->
       status_at (pre1 ++ suf1) p = and_at d d2 vB (pre ++ sb :: post) p) ->
    (forall p, q1 <= p ->
       and_at d d2 vB (pre1 ++ suf1) p = and_at d d2 vB (pre ++ sb :: post) p) ->
    exists v',
      logic_loop fuel m_and (mkLogbook 0 d2 1 vB true)
        (mkLogbook 0 d 1 (pre1 ++ suf1) true) (Z.of_nat (length pre1))
      = Returned (mkLogbook 0 d 1 v' true) /\
      and_done_from d d2 vB (pre ++ sb :: post) (pos sb) v').
  { intros pre1 suf1 q1 Hc1 Hb1 Hp1 Hq1 Hm1 Hqq H1 H2 H3.
    destruct (IH pre1 suf1 q1 Hc1 Hb1 Hp1 Hq1 ltac:(lia)) as (v' & Hr & Hd).
    exists v'. split; [exact Hr|].
    apply (and_done_step _ (pre1 ++ suf1) _ q1); assumption. }
  (* stepping over the sblock at the seam, possibly with a new status *)
  assert (Hover : forall st,
    (forall p, pos sb <= p < Block_end sb ->
       Some st = and_at d d2 vB (pre ++ sb :: post) p) ->
    exists v',
      logic_loop fuel m_and (mkLogbook 0 d2 1 vB true)
        (mkLogbook 0 d 1 (pre ++ Sblock_with_status sb st :: post) true)
        (Z.of_nat (length pre) + 1)
      = Returned (mkLogbook 0 d 1 v' true) /\
      and_done_from d d2 vB (pre ++ sb :: post) (pos sb) v').
  { intros st Hst.
    rewrite (next_index pre (Sblock_with_status sb st)).
    replace (pre ++ Sblock_with_status sb st :: post)
      with ((pre ++ [Sblock_with_status sb st]) ++ post)
      by (rewrite <- app_assoc; reflexivity).
    assert (Hc1 : contiguous (pre ++ Sblock_with_status sb st :: post) = true).
    { apply (contiguous_suffix_replace pre sb _ post); [exact Hc| |reflexivity].
      apply (contiguous_head_replace sb); auto. }
    apply (Hnext _ _ (Block_end sb)).
    - rewrite <- app_assoc. exact Hc1.
    - exact Hbpost.
    - intros x Hx. apply in_app_or in Hx. destruct Hx as [Hx|[<-|[]]].
      + specialize (Hpre x Hx). unfold Block_end in *. lia.
      + unfold Block_end. cbn. lia.
    - destruct post as [|y r]; [exact I|]. cbn [seam_at].
      apply (contiguous_cons_touch _ _ _ Hcsuf).
    - lia.
    - unfold Block_end. lia.
    - intros p Hp. rewrite <- app_assoc. cbn [app].
      rewrite !(status_at_before pre _ (pos sb) p); auto.
      intros y [<-|Hy]; [cbn; lia|]. apply Hsuf_after. right. exact Hy.
    - intros p Hp. rewrite <- Hst by exact Hp. rewrite <- app_assoc. cbn [app].
      rewrite (status_at_after pre _ (pos sb) p Hpre) by lia.
      cbn [status_at Sblock_with_status Sblock_block status].
      unfold Block_includes_pos. split_tests; try lia. reflexivity.
    - intros p Hp. apply and_at_same. rewrite <- app_assoc. cbn [app].
      assert (pos sb <= p) by (unfold Block_end in Hp; lia).
      rewrite !(status_at_after pre _ (pos sb) p Hpre) by lia.
      cbn [status_at Sblock_with_status Sblock_block status].
      unfold Block_includes_pos. split_tests; try lia. reflexivity. }
  cbn [logic_loop]. rewrite index_in_range, sblock_seam. cbn [negb domain_].
  destruct (Domain_includes d sb) eqn:Hi; cbn [negb].
  2:{ unfold Domain_lt. destruct (Z.leb_spec (Domain_end d) (pos sb)) as [He|He].
      - (* past the end of the domain: break *)
        eexists. split; [reflexivity|]. split; [exact Hc|].
        intros p. destruct (Z.ltb_spec p (pos sb)); [reflexivity|].
        unfold and_at.
        rewrite (not_in_domain_past_end d p d_ordered) by lia. reflexivity.
      - (* an sblock outside the domain: continue *)
        destruct (Hover (status sb)) as (v' & Hr & Hd).
        + intros p Hp. unfold and_at.
          rewrite (borders_ok_not_included d sb p Hbsb Hi)
            by (unfold Block_includes_pos; Z_to_bool; lia).
          rewrite (status_at_after pre _ (pos sb) p Hpre) by lia.
          cbn [status_at]. unfold Block_includes_pos. split_tests; try lia.
          reflexivity.
        + destruct sb as [bsb ssb]. exists v'. split; [exact Hr|exact Hd]. }
  assert (Hin : forall p, pos sb <= p < Block_end sb -> in_domain d p = true).
  { intros p Hp. apply (included_in_domain d sb p Hi).
    unfold Block_includes_pos. Z_to_bool; lia. }
  assert (Hat : forall p, pos sb <= p < Block_end sb ->
            and_at d d2 vB (pre ++ sb :: post) p =
            Some (and_status (status sb) (finished_chunk_at d2 vB p))).
  { intros p Hp. unfold and_at. rewrite (Hin p Hp).
    rewrite (status_at_after pre _ (pos sb) p Hpre) by lia.
    cbn [status_at]. unfold Block_includes_pos. split_tests; try lia.
    reflexivity. }
  destruct (Status_eqb (status sb) finished) eqn:Hfin; cbn [negb].
  2:{ (* not finished: continue *)
      apply Status_eqb_neq in Hfin.
      destruct (Hover (status sb)) as (v' & Hr & Hd).
      + intros p Hp. rewrite (Hat p Hp), and_status_not_finished; auto.
      + destruct sb as [bsb ssb]. exists v'. split; [exact Hr|exact Hd]. }
  apply Status_eqb_eq in Hfin.
  destruct (find_chunk_spec d2 vB vB_contiguous 0 true sb Hs) as (Hc1 & Hc2 & Hc3).
  set (c := find_chunk (mkLogbook 0 d2 1 vB true) sb finished) in *.
  destruct ((size c <=? 0) || (Block_end sb <=? pos c)) eqn:Hnone.
  { (* no finished chunk in the sblock: it becomes a bad sector *)
    rewrite change_sblock_status_seam.
    apply Hover. intros p Hp. rewrite (Hat p Hp), Hfin. cbn [and_status].
    replace (finished_chunk_at d2 vB p) with false; [reflexivity|]. symmetry.
    apply orb_prop in Hnone. destruct Hnone as [Hn|Hn]; bool_to_Z.
    - apply Hc2; lia.
    - destruct (Z_le_gt_dec (size c) 0) as [Hz|Hz]; [apply Hc2; lia|].
      destruct (Hc3 ltac:(lia)) as (_ & Hf & _). apply Hf. lia. }
  apply orb_false_elim in Hnone. destruct Hnone as [Hn1 Hn2]. bool_to_Z.
  destruct (Hc3 ltac:(lia)) as (Hcp & Hcf & Hct). clear Hc2 Hc3.
  destruct (Block_eqb c sb) eqn:Heq.
  { (* the whole sblock is finished in both: continue *)
    unfold Block_eqb in Heq. bool_to_Z.
    destruct (Hover (status sb)) as (v' & Hr & Hd).
    + intros p Hp. rewrite (Hat p Hp), Hfin. cbn [and_status].
      rewrite Hct; [reflexivity|]. unfold Block_end in *. lia.
    + destruct sb as [bsb ssb]. exists v'. split; [exact Hr|exact Hd]. }
  destruct (Z.eqb_spec (pos c) (pos sb)) as [Hpc|Hpc].
  { (* finished in both at its beginning: split after the chunk *)
    assert (Hsz : size c < size sb).
    { unfold Block_eqb in Heq. rewrite Hpc, Z.eqb_refl in Heq. cbn [andb] in Heq.
      bool_to_Z. lia. }
    rewrite split_sblock_by_seam by (unfold Block_end; lia).
    set (L := mkSblock (mkBlock (pos sb) (Block_end c - pos sb)) (status sb)).
    set (R := mkSblock (mkBlock (Block_end c) (Block_end sb - Block_end c)) (status sb)).
    rewrite (next_index pre L).
    replace (pre ++ L :: R :: post) with ((pre ++ [L]) ++ R :: post)
      by (rewrite <- app_assoc; reflexivity).
    assert (HcR : contiguous (R :: post) = true).
    { apply (contiguous_head_replace sb); auto; unfold R, Block_end; cbn; lia. }
    assert (HcLR : contiguous (L :: R :: post) = true).
    { apply contiguous_cons_intro; auto; [unfold L, Block_end; cbn; lia|].
      intros y r E. inversion E; subst. unfold L, R, Block_end. cbn. lia. }
    apply (Hnext _ _ (Block_end c)).
    - rewrite <- app_assoc. cbn [app].
      apply (contiguous_suffix_replace pre sb L post); auto.
    - rewrite split_at_domain_borders_cons, Hbpost, andb_true_r.
      apply (borders_ok_sub d sb R Hbsb).
      unfold Block_includes, R, Block_end. cbn. Z_to_bool; lia.
    - intros x Hx. apply in_app_or in Hx. destruct Hx as [Hx|[<-|[]]].
      + specialize (Hpre x Hx). unfold Block_end in *. lia.
      + unfold L, Block_end. cbn. lia.
    - reflexivity.
    - unfold and_measure. rewrite !vsize_cons. unfold R at 2. cbn [status].
      rewrite Hfin. cbn [Status_eqb]. unfold R, Block_end. cbn [size Sblock_block]. lia.
    - unfold Block_end. lia.
    - intros p Hp. rewrite <- app_assoc. cbn [app].
      rewrite !(status_at_before pre _ (pos sb) p); auto.
      apply (starts_after_contiguous L _ HcLR).
    - intros p Hp. rewrite (Hat p) by (unfold Block_end in *; lia).
      rewrite Hfin. cbn [and_status]. rewrite Hct by lia.
      rewrite <- app_assoc. cbn [app].
      rewrite (status_at_after pre _ (pos sb) p Hpre) by lia.
      cbn [status_at]. unfold Block_includes_pos, L, R, Block_end in *.
      cbn [pos size Sblock_block status]. rewrite Hfin.
      split_tests; try lia; reflexivity.
    - intros p Hp. apply and_at_same. rewrite <- app_assoc. cbn [app].
      assert (pos sb <= p) by (unfold Block_end in Hp; lia).
      rewrite !(status_at_after pre _ (pos sb) p Hpre) by lia.
      cbn [status_at]. unfold Block_includes_pos, L, R, Block_end in *.
      cbn [pos size Sblock_block status].
      split_tests; try lia; reflexivity. }
  (* finished in both from inside the sblock on: what comes before
     the chunk becomes a bad sector, and the pass is done again *)
  assert (Hk : 0 < pos c - pos sb < size sb) by (unfold Block_end in *; lia).
  rewrite (change_chunk_status_front 0 d 1 true pre sb post (pos c - pos sb)
             bad_sector Hc Hi Hk)
    by (rewrite Hfin; discriminate).
  replace (Z.of_nat (length pre) - 1 + 1) with (Z.of_nat (length pre)) by lia.
  replace (pos sb + (pos c - pos sb)) with (pos c) by lia.
  set (C := mkSblock (mkBlock (pos sb) (pos c - pos sb)) bad_sector).
  set (R := mkSblock (mkBlock (pos c) (size sb - (pos c - pos sb))) (status sb)).
  assert (HcR : contiguous (R :: post) = true).
  { apply (contiguous_head_replace sb); auto; unfold R, Block_end; cbn; lia. }
  assert (HbR : borders_ok d R = true).
  { apply (borders_ok_sub d sb R Hbsb).
    unfold Block_includes, R, Block_end. cbn. Z_to_bool; lia. }
  assert (HmR : and_measure (R :: post) < and_measure (sb :: post)).
  { unfold and_measure. rewrite !vsize_cons. unfold R at 2. cbn [status].
    rewrite Hfin. cbn [Status_eqb]. unfold R. cbn [size Sblock_block]. lia. }
  assert (Hbad : forall p, pos sb <= p < pos c ->
            and_at d d2 vB (pre ++ sb :: post) p = Some bad_sector).
  { intros p Hp. rewrite (Hat p) by (unfold Block_end in *; lia).
    rewrite Hfin. cbn [and_status]. rewrite Hcf by lia. reflexivity. }
  assert (Hinserted : exists v',
    logic_loop fuel m_and (mkLogbook 0 d2 1 vB true)
      (mkLogbook 0 d 1 (pre ++ C :: R :: post) true) (Z.of_nat (length pre))
    = Returned (mkLogbook 0 d 1 v' true) /\
    and_done_from d d2 vB (pre ++ sb :: post) (pos sb) v').
  { assert (HcCR : contiguous (C :: R :: post) = true).
    { apply contiguous_cons_intro; auto; [unfold C; cbn; lia|].
      intros y r E. inversion E; subst. unfold C, R, Block_end. cbn. lia. }
    apply (Hnext _ _ (pos sb)).
    - apply (contiguous_suffix_replace pre sb C post); auto.
    - rewrite !split_at_domain_borders_cons, Hbpost, HbR, andb_true_r.
      apply (borders_ok_sub d sb C Hbsb).
      unfold Block_includes, C, Block_end. cbn. Z_to_bool; lia.
    - exact Hpre.
    - reflexivity.
    - unfold and_measure, C, R. rewrite !vsize_cons.
      cbn [status size Sblock_block pos]. rewrite Hfin. cbn [Status_eqb]. lia.
    - lia.
    - intros p Hp.
      rewrite !(status_at_before pre _ (pos sb) p); auto.
      apply (starts_after_contiguous C _ HcCR).
    - intros p Hp. lia.
    - intros p Hp.
      destruct (Z_lt_le_dec p (pos c)) as [Hlt|Hge].
      + rewrite (Hbad p) by lia. unfold and_at.
        rewrite (Hin p) by (unfold Block_end in *; lia).
        rewrite (status_at_after pre _ (pos sb) p Hpre) by lia.
        cbn [status_at]. unfold Block_includes_pos, C, Block_end.
        cbn [pos size Sblock_block status].
        split_tests; try lia; reflexivity.
      + apply and_at_same.
        rewrite !(status_at_after pre _ (pos sb) p Hpre) by lia.
        cbn [status_at]. unfold Block_includes_pos, C, R, Block_end.
        cbn [pos size Sblock_block status].
        split_tests; try lia; reflexivity. }
  destruct (rev pre) as [|l rpre] eqn:Er; [exact Hinserted|].
  destruct (Status_eqb (status l) bad_sector && Domain_includes d l) eqn:El;
    [|exact Hinserted].
  (* the chunk has joined the sblock before the seam *)
  apply andb_prop in El. destruct El as [El _]. apply Status_eqb_eq in El.
  assert (Ep : pre = rev rpre ++ [l]).
  { apply (f_equal (@rev Sblock)) in Er. rewrite rev_involutive in Er. exact Er. }
  set (l' := inc_size l (pos c - pos sb)).
  assert (Hlen : Z.of_nat (length pre) = Z.of_nat (length (rev rpre ++ [l'])))
    by (rewrite Ep, !length_app; reflexivity).
  rewrite Hlen.
  replace (rev rpre ++ l' :: R :: post) with ((rev rpre ++ [l']) ++ R :: post)
    by (rewrite <- app_assoc; reflexivity).
  assert (Hc0 : contiguous (rev rpre ++ l :: sb :: post) = true)
    by (rewrite Ep, <- app_assoc in Hc; exact Hc).
  destruct (contiguous_split _ _ _ Hc0) as (Hrpre & Hls & _).
  destruct (contiguous_app _ _ Hc0) as [_ Hcl].
  pose proof (contiguous_cons_touch _ _ _ Hcl) as Htouch.
  assert (Hcl' : contiguous (l' :: R :: post) = true).
  { apply contiguous_cons_intro; auto; [unfold l'; cbn; lia|].
    intros y r E. inversion E; subst. unfold l', R, Block_end in *. cbn. lia. }
  apply (Hnext _ _ (pos c)).
  - rewrite <- app_assoc. cbn [app].
    apply (contiguous_suffix_replace (rev rpre) l l' (sb :: post)); auto.
  - rewrite split_at_domain_borders_cons, Hbpost, HbR. reflexivity.
  - intros x Hx. apply in_app_or in Hx. destruct Hx as [Hx|[<-|[]]].
    + specialize (Hrpre x Hx). unfold Block_end in *. lia.
    + unfold l', Block_end in *. cbn. lia.
  - reflexivity.
  - exact HmR.
  - lia.
  - intros p Hp. rewrite Ep, <- !app_assoc. cbn [app].
    destruct (Z_lt_le_dec p (pos l)) as [Hlt|Hge].
    + rewrite !(status_at_before (rev rpre) _ (pos l) p); auto.
      * apply (starts_after_contiguous l _ Hcl).
      * apply (starts_after_contiguous l' _ Hcl').
    + rewrite !(status_at_after (rev rpre) _ (pos l) p Hrpre) by lia.
      cbn [status_at]. unfold Block_includes_pos, l', inc_size, R, Block_end in *.
      cbn [pos size Sblock_block status].
      split_tests; try lia; reflexivity.
  - intros p Hp. rewrite (Hbad p) by lia. rewrite <- app_assoc. cbn [app].
    rewrite (status_at_after (rev rpre) _ (pos l) p Hrpre)
      by (unfold Block_end in *; lia).
    cbn [status_at]. unfold Block_includes_pos, l', inc_size, R, Block_end in *.
    cbn [pos size Sblock_block status]. rewrite El.
    split_tests; try lia; reflexivity.
  - intros p Hp. apply and_at_same. rewrite Ep, <- !app_assoc. cbn [app].
    rewrite !(status_at_after (rev rpre) _ (pos l) p Hrpre)
      by (unfold Block_end in *; lia).
    cbn [status_at]. unfold Block_includes_pos, l', inc_size, R, Block_end in *.
    cbn [pos size Sblock_block status].
    split_tests; try lia; reflexivity.
Qed.

End And.

End AndLoop.

(* ================================================================== *)
(** * AND and XOR of logfiles *)

Module LogicOps.

(** [do_logic_ops] in AND mode, at every byte. *)
Lemma and_at_every_byte (d d2 : Domain) (vA vB : list Sblock) :
  Domain_ordered d = true -> Domain_size d <> 0 -> Domain_size d2 <> 0 ->
  mapfile_ok d vA = true -> mapfile_ok d2 vB = true ->
  exists R,
    do_logic_ops d d2 (Some vA) (Some vB) m_and = Returned R /\
    forall p, status_at (sblock_vector R) p = and_at d d2 vB vA p.
Proof.
  intros Hd Hn Hn2 HA HB.
  apply Z.eqb_neq in Hn. apply Z.eqb_neq in Hn2.
  assert (HA' := HA). assert (HB' := HB).
  unfold mapfile_ok in HA', HB'.
  apply andb_prop in HA'. destruct HA' as [HcA HsA].
  apply andb_prop in HB'. destruct HB' as [HcB _].
  unfold do_logic_ops, verify_logname_and_domain.
  cbn [Logbook_open logfile_exists_ domain_ negb sblock_vector bind].
  rewrite Hn. cbn [bind]. rewrite Hn2. cbn [bind].
  set (q := match vA with x :: _ => pos x | [] => 0 end).
  destruct (AndLoop.and_loop_spec d d2 vB HcB Hd (logic_fuel vA) [] vA q)
    as (v' & Hr & Hc' & Hs'); auto.
  - intros x [].
  - unfold seam_at, q. destruct vA; auto.
  - pose proof (Replace.and_measure_bounds vA HcA).
    pose proof (Replace.vsize_nonneg vA HcA).
    unfold logic_fuel. rewrite Nat2Z.inj_succ, Z2Nat.id by lia. lia.
  - cbn [app length Z.of_nat] in Hr. rewrite Hr. cbn [bind].
    eexists. split; [reflexivity|]. intros p.
    cbn [compact_sblock_vector with_vector sblock_vector].
    rewrite Compact.status_at_compact by exact Hc'.
    rewrite Hs'. cbn [app].
    destruct (Z.ltb_spec p q) as [Hlt|Hge]; [|reflexivity].
    assert (Hnone : status_at vA p = None).
    { unfold q in Hlt. destruct vA as [|x vA]; [reflexivity|].
      apply (Vector.status_at_starts_after (x :: vA) (pos x) p);
        [apply Replace.starts_after_contiguous; exact HcA|exact Hlt]. }
    unfold and_at. rewrite Hnone. destruct (in_domain d p); reflexivity.
Qed.

End LogicOps.

(** C1, as stated, fails: AND leaves the bytes that are not finished in
    the first logfile as they are; it does not make them bad sectors. *)
Lemma and_keeps_statuses_other_than_finished :
  exists R,
    do_logic_ops [mkBlock 0 4096] [mkBlock 0 4096] (Some [sbl 0 4096 non_tried])
      (Some [sbl 0 4096 finished]) m_and = Returned R /\
    sblock_vector R = [sbl 0 4096 non_tried] /\
    ~ and_claim [mkBlock 0 4096] [sbl 0 4096 non_tried] [sbl 0 4096 finished] R.
Proof.
  eexists. split; [reflexivity|]. split; [reflexivity|].
  intros H. specialize (H 0 non_tried eq_refl eq_refl). discriminate H.
Qed.

(** C1, amended.  [d] is the domain of the logbook of the first logfile
    and [d2] that of the second (one and the same domain when the two
    logfiles hold the same range).  In the logfile AND prints
    - a byte of the domain that is finished in the first logfile is
      finished when it is finished in the second logfile too (and lies
      in the domain of its logbook), and a bad sector when it is not;
    - every other byte of the first logfile keeps the status it has
      there: the bytes that are not finished in it, and the bytes
      outside the domain;
    - the logfile holds no other byte.
    For A = {0,4096,+},{4096,4096,-} and B = {0,2048,+},{2048,6144,-} the
    result is {0,2048,+},{2048,6144,-}. *)
Theorem and_of_logfiles (d d2 : Domain) (vA vB : list Sblock) :
  Domain_ordered d = true -> Domain_size d <> 0 -> Domain_size d2 <> 0 ->
  mapfile_ok d vA = true -> mapfile_ok d2 vB = true ->
  (exists R,
     do_logic_ops d d2 (Some vA) (Some vB) m_and = Returned R /\
     (forall p a,
        status_at vA p = Some a ->
        status_at (sblock_vector R) p =
        Some (if in_domain d p
              then and_status a (finished_at vB p && in_domain d2 p)
              else a)) /\
     (forall p, status_at vA p = None -> status_at (sblock_vector R) p = None)) /\
  (exists R,
     do_logic_ops [mkBlock 0 8192] [mkBlock 0 8192]
       (Some [sbl 0 4096 finished; sbl 4096 4096 bad_sector])
       (Some [sbl 0 2048 finished; sbl 2048 6144 bad_sector]) m_and = Returned R /\
     sblock_vector R = [sbl 0 2048 finished; sbl 2048 6144 bad_sector]).
Proof.
  intros Hd Hn Hn2 HA HB. split; [|eexists; split; reflexivity].
  destruct (LogicOps.and_at_every_byte d d2 vA vB Hd Hn Hn2 HA HB) as (R & Hr & H).
  exists R. split; [exact Hr|]. split.
  - intros p a Ha. rewrite H. unfold and_at. rewrite Ha. cbn [option_map].
    rewrite (Chunk.finished_chunk_at_logbook d2 vB p HB).
    destruct (in_domain d p); reflexivity.
  - intros p Hnone. rewrite H. unfold and_at. rewrite Hnone.
    destruct (in_domain d p); reflexivity.
Qed.

Lemma and_of_logfiles_witness :
  exists R,
    do_logic_ops [mkBlock 0 4096; mkBlock 8192 4096] [mkBlock 0 4096]
      (Some [sbl 0 4096 finished; sbl 4096 4096 non_tried; sbl 8192 4096 finished])
      (Some [sbl 0 1024 bad_sector; sbl 1024 1024 finished; sbl 2048 2048 non_trimmed;
             sbl 4096 4096 finished]) m_and = Returned R /\
    (forall p a,
       status_at [sbl 0 4096 finished; sbl 4096 4096 non_tried; sbl 8192 4096 finished] p
         = Some a ->
       status_at (sblock_vector R) p =
       Some (if in_domain [mkBlock 0 4096; mkBlock 8192 4096] p
             then and_status a
                    (finished_at [sbl 0 1024 bad_sector; sbl 1024 1024 finished;
                                  sbl 2048 2048 non_trimmed; sbl 4096 4096 finished] p
                     && in_domain [mkBlock 0 4096] p)
             else a)) /\
    (forall p,
       status_at [sbl 0 4096 finished; sbl 4096 4096 non_tried; sbl 8192 4096 finished] p
         = None ->
       status_at (sblock_vector R) p = None).
Proof.
  apply (proj1 (and_of_logfiles [mkBlock 0 4096; mkBlock 8192 4096] [mkBlock 0 4096]
    [sbl 0 4096 finished; sbl 4096 4096 non_tried; sbl 8192 4096 finished]
    [sbl 0 1024 bad_sector; sbl 1024 1024 finished; sbl 2048 2048 non_trimmed;
     sbl 4096 4096 finished]
    eq_refl ltac:(discriminate) ltac:(discriminate) eq_refl eq_refl)).
Defined.

(** C7 on a logfile that is finished where the second one is finished
    only at the beginning: XOR changes the chunk finished in both to a
    bad sector, does the same pass again on it, finds it finished in
    the second logfile only, and makes it finished again. *)
Lemma xor_keeps_a_chunk_finished_in_both :
  exists R,
    do_logic_ops [mkBlock 0 4096] [mkBlock 0 4096] (Some [sbl 0 4096 finished])
      (Some [sbl 0 2048 finished; sbl 2048 2048 bad_sector]) m_xor = Returned R /\
    sblock_vector R = [sbl 0 4096 finished] /\
    finished_at [sbl 0 4096 finished] 0 = true /\
    finished_at [sbl 0 2048 finished; sbl 2048 2048 bad_sector] 0 = true /\
    xor_status finished true = bad_sector /\
    status_at (sblock_vector R) 0 = Some finished.
Proof.
  eexists. split; [reflexivity|]. repeat split.
Qed.

(* ================================================================== *)
(** * Changing the status of a chunk *)

Module ChunkStatus.

Import Vector Dom Seam Replace.

Lemma Domain_separated_cons D d :
  Domain_separated (D :: d) = true ->
  0 <= size D /\ Domain_separated d = true /\
  (forall N, In N d -> Block_end D < pos N).
Proof.
  revert D. induction d as [|N d IH]; intros D H.
  - simpl in H. bool_to_Z. repeat split; auto. intros N [].
  - assert (E : Domain_separated (D :: N :: d) =
                (0 <=? size D) && (Block_end D <? pos N) && Domain_separated (N :: d))
      by reflexivity.
    rewrite E in H. clear E.
    apply andb_prop in H. destruct H as [H H3].
    apply andb_prop in H. destruct H as [H1 H2].
    apply Z.leb_le in H1. apply Z.ltb_lt in H2.
    destruct (IH N H3) as (Hn & Hd & Hs).
    repeat split; auto.
    intros M [<-|HM]; [exact H2|]. specialize (Hs M HM).
    unfold Block_end in *. lia.
Qed.

Lemma Domain_separated_ordered d :
  Domain_separated d = true -> Domain_ordered d = true.
Proof.
  induction d as [|D d IH]; intros H; [reflexivity|].
  destruct (Domain_separated_cons _ _ H) as (Hs & Hd & Hn).
  cbn [Domain_ordered]. rewrite (IH Hd).
  replace (0 <=? size D) with true by (symmetry; apply Z.leb_le; exact Hs).
  destruct d as [|N d]; [reflexivity|].
  specialize (Hn N (or_introl eq_refl)).
  replace (Block_end D <=? pos N) with true by (symmetry; apply Z.leb_le; lia).
  reflexivity.
Qed.

(** Two blocks of the domain are the same block or lie apart. *)
Lemma Domain_separated_pairwise d :
  Domain_separated d = true ->
  forall D1 D2, In D1 d -> In D2 d ->
    D1 = D2 \/ Block_end D1 < pos D2 \/ Block_end D2 < pos D1.
Proof.
  induction d as [|D d IH]; intros H D1 D2 H1 H2; [destruct H1|].
  destruct (Domain_separated_cons _ _ H) as (Hs & Hd & Hn).
  destruct H1 as [<-|H1], H2 as [<-|H2]; auto.
Qed.

(** A block inside a block of the domain meets no other one. *)
Lemma borders_ok_inside d D (m : Sblock) :
  Domain_separated d = true -> In D d -> Block_includes D m = true ->
  borders_ok d m = true.
Proof.
  intros Hd HD Hm. unfold borders_ok. apply forallb_forall. intros D' HD'.
  destruct (Domain_separated_pairwise d Hd D D' HD HD') as [<-|[H|H]].
  - rewrite Hm. reflexivity.
  - apply orb_true_iff. right. unfold Block_disjoint, Block_includes, Block_end in *.
    bool_to_Z. apply orb_true_iff. right. apply Z.leb_le. lia.
  - apply orb_true_iff. right. unfold Block_disjoint, Block_includes, Block_end in *.
    bool_to_Z. apply orb_true_iff. left. apply Z.leb_le. lia.
Qed.

Lemma borders_ok_included d (m : Sblock) :
  Domain_separated d = true -> Domain_includes d m = true ->
  borders_ok d m = true.
Proof.
  intros Hd Hm. apply Domain_includes_In in Hm. destruct Hm as (D & HD & Hm).
  apply (borders_ok_inside d D); auto.
Qed.

(** Two sblocks of the domain that touch lie in one block of the
    domain, and so does what they make together. *)
Lemma Domain_includes_merged d (a b : Sblock) :
  Domain_separated d = true ->
  Domain_includes d a = true -> Domain_includes d b = true ->
  0 < size a -> 0 < size b -> Block_end a = pos b ->
  Domain_includes d (inc_size a (size b)) = true.
Proof.
  intros Hd Ha Hb Hsa Hsb Ht.
  apply Domain_includes_In in Ha. destruct Ha as (D1 & HD1 & Ha).
  apply Domain_includes_In in Hb. destruct Hb as (D2 & HD2 & Hb).
  apply Domain_includes_In. exists D1. split; [exact HD1|].
  unfold Block_includes, inc_size, Block_end in *. cbn [pos size Sblock_block].
  bool_to_Z.
  destruct (Domain_separated_pairwise d Hd D1 D2 HD1 HD2) as [<-|[Hsep|Hsep]];
    unfold Block_end in *; Z_to_bool; lia.
Qed.

Section Steps.

Variable d : Domain.
Hypothesis d_separated : Domain_separated d = true.

(** How a step of [change_chunk_status] changes the vector: it stays
    contiguous and split at the borders of the domain, and its
    sblocks start where they started or at the positions [qs]. *)
Lemma split_step pre (x : Sblock) post q :
  contiguous (pre ++ x :: post) = true ->
  split_at_domain_borders d (pre ++ x :: post) = true ->
  pos x < q < Block_end x ->
  let L := mkSblock (mkBlock (pos x) (q - pos x)) (status x) in
  let R := mkSblock (mkBlock q (Block_end x - q)) (status x) in
  contiguous (pre ++ L :: R :: post) = true /\
  split_at_domain_borders d (pre ++ L :: R :: post) = true /\
  (forall p, status_at (pre ++ L :: R :: post) p = status_at (pre ++ x :: post) p) /\
  incl (starts (pre ++ L :: R :: post)) (q :: starts (pre ++ x :: post)).
Proof.
  intros Hc Hb Hq L R.
  destruct (contiguous_split _ _ _ Hc) as (Hpre & Hs & Hpost).
  destruct (contiguous_app _ _ Hc) as [Hcpre Hcsuf].
  assert (HcR : contiguous (R :: post) = true).
  { apply (contiguous_head_replace x); auto; unfold R, Block_end in *; cbn; lia. }
  assert (HcLR : contiguous (L :: R :: post) = true).
  { apply contiguous_cons_intro; auto; [unfold L, Block_end in *; cbn; lia|].
    intros y r E. inversion E; subst. unfold L, R, Block_end. cbn. lia. }
  unfold split_at_domain_borders in *. rewrite forallb_app in *.
  cbn [forallb] in *. fold (borders_ok d x) in Hb. fold (borders_ok d L) (borders_ok d R).
  apply andb_prop in Hb. destruct Hb as [Hb1 Hb2].
  apply andb_prop in Hb2. destruct Hb2 as [Hbx Hb2].
  split; [|split; [|split]].
  - apply (contiguous_suffix_replace pre x L post); auto.
  - rewrite Hb1, Hb2.
    rewrite (borders_ok_sub d x L Hbx)
      by (unfold Block_includes, L, Block_end in *; cbn; Z_to_bool; lia).
    rewrite (borders_ok_sub d x R Hbx)
      by (unfold Block_includes, R, Block_end in *; cbn; Z_to_bool; lia).
    reflexivity.
  - intros p. destruct (Z_lt_le_dec p (pos x)) as [Hlt|Hge].
    + rewrite !(status_at_before pre _ (pos x) p); auto.
      * apply (starts_after_contiguous x _ Hcsuf).
      * apply (starts_after_contiguous L _ HcLR).
    + rewrite !(status_at_after pre _ (pos x) p Hpre) by lia.
      cbn [status_at]. unfold Block_includes_pos, L, R, Block_end in *.
      cbn [pos size Sblock_block status].
      split_tests; try lia; reflexivity.
  - unfold starts. rewrite !map_app. cbn [map].
    intros z Hz. apply in_app_or in Hz. cbn [In].
    destruct Hz as [Hz|[Hz|[Hz|Hz]]].
    + right. apply in_or_app. left. exact Hz.
    + right. apply in_or_app. right. left. exact Hz.
    + left. exact Hz.
    + right. apply in_or_app. right. right. exact Hz.
Qed.

Lemma set_step pre (x : Sblock) post st :
  contiguous (pre ++ x :: post) = true ->
  split_at_domain_borders d (pre ++ x :: post) = true ->
  let C := Sblock_with_status x st in
  contiguous (pre ++ C :: post) = true /\
  split_at_domain_borders d (pre ++ C :: post) = true /\
  (forall p, status_at (pre ++ C :: post) p =
             if Block_includes_pos x p then Some st
             else status_at (pre ++ x :: post) p) /\
  starts (pre ++ C :: post) = starts (pre ++ x :: post).
Proof.
  intros Hc Hb C.
  destruct (contiguous_split _ _ _ Hc) as (Hpre & Hs & Hpost).
  destruct (contiguous_app _ _ Hc) as [Hcpre Hcsuf].
  assert (HcC : contiguous (C :: post) = true)
    by (apply (contiguous_head_replace x); auto).
  split; [|split; [|split]].
  - apply (contiguous_suffix_replace pre x C post); auto.
  - unfold split_at_domain_borders in *. rewrite forallb_app in *.
    cbn [forallb] in *. exact Hb.
  - intros p. destruct (Z_lt_le_dec p (pos x)) as [Hlt|Hge].
    + rewrite !(status_at_before pre _ (pos x) p); auto.
      * unfold Block_includes_pos. split_tests; try lia; reflexivity.
      * apply (starts_after_contiguous x _ Hcsuf).
      * apply (starts_after_contiguous C _ HcC).
    + rewrite !(status_at_after pre _ (pos x) p Hpre) by lia.
      cbn [status_at]. unfold C. cbn [Sblock_with_status Sblock_block status].
      destruct (Block_includes_pos x p); reflexivity.
  - unfold starts. rewrite !map_app. reflexivity.
Qed.

Lemma merge_step pre (a b : Sblock) post :
  contiguous (pre ++ a :: b :: post) = true ->
  split_at_domain_borders d (pre ++ a :: b :: post) = true ->
  status a = status b ->
  Domain_includes d a = true -> Domain_includes d b = true ->
  let m := inc_size a (size b) in
  contiguous (pre ++ m :: post) = true /\
  split_at_domain_borders d (pre ++ m :: post) = true /\
  (forall p, status_at (pre ++ m :: post) p = status_at (pre ++ a :: b :: post) p) /\
  incl (starts (pre ++ m :: post)) (starts (pre ++ a :: b :: post)) /\
  Domain_includes d m = true.
Proof.
  intros Hc Hb Hst Ha Hbi m.
  destruct (contiguous_split _ _ _ Hc) as (Hpre & Hs & Hpost).
  destruct (contiguous_app _ _ Hc) as [Hcpre Hcsuf].
  destruct (contiguous_cons _ _ Hcsuf) as (_ & Hcb & _).
  destruct (contiguous_cons _ _ Hcb) as (Hsb & _ & _).
  pose proof (contiguous_cons_touch _ _ _ Hcsuf) as Ht.
  assert (Hm : Domain_includes d m = true)
    by (apply Domain_includes_merged; auto).
  assert (Hcm : contiguous (m :: post) = true).
  { apply (contiguous_head_replace b); auto; unfold m, inc_size, Block_end in *; cbn; lia. }
  split; [|split; [|split; [|split]]]; auto.
  - apply (contiguous_suffix_replace pre a m (b :: post)); auto.
  - unfold split_at_domain_borders in *. rewrite forallb_app in *.
    cbn [forallb] in *. fold (borders_ok d m).
    apply andb_prop in Hb. destruct Hb as [Hb1 Hb2].
    apply andb_prop in Hb2. destruct Hb2 as [_ Hb2].
    apply andb_prop in Hb2. destruct Hb2 as [_ Hb2].
    rewrite Hb1, Hb2, (borders_ok_included d m d_separated Hm). reflexivity.
  - intros p. destruct (Z_lt_le_dec p (pos a)) as [Hlt|Hge].
    + rewrite !(status_at_before pre _ (pos a) p); auto.
      * apply (starts_after_contiguous a _ Hcsuf).
      * apply (starts_after_contiguous m _ Hcm).
    + rewrite !(status_at_after pre _ (pos a) p Hpre) by lia.
      cbn [status_at]. unfold Block_includes_pos, m, inc_size, Block_end in *.
      cbn [pos size Sblock_block status]. rewrite Hst.
      split_tests; try lia; reflexivity.
  - unfold starts. rewrite !map_app. cbn [map].
    intros z Hz. apply in_app_or in Hz. cbn [In] in Hz.
    apply in_or_app. cbn [In].
    destruct Hz as [Hz|[Hz|Hz]]; [left; exact Hz|right; left; exact Hz|].
    right. right. right. exact Hz.
Qed.

(** The last part of [change_chunk_status], on the sblock [x] at the
    seam: its bytes get the new status and no other byte changes. *)
Lemma rewrite_and_merge_spec pre (x : Sblock) post st :
  contiguous (pre ++ x :: post) = true ->
  split_at_domain_borders d (pre ++ x :: post) = true ->
  Domain_includes d x = true ->
  let v' := rewrite_and_merge d (pre ++ x :: post) (length pre) st in
  contiguous v' = true /\
  split_at_domain_borders d v' = true /\
  (forall p, status_at v' p =
             if Block_includes_pos x p then Some st
             else status_at (pre ++ x :: post) p) /\
  incl (starts v') (starts (pre ++ x :: post)).
Proof.
  intros Hc Hb Hi v'. unfold v'. clear v'.
  rewrite rewrite_and_merge_seam. cbn zeta.
  destruct (set_step pre x post st Hc Hb) as (Hc3 & Hb3 & Hs3 & Ht3).
  set (C := Sblock_with_status x st) in *.
  assert (HiC : Domain_includes d C = true) by exact Hi.
  assert (Hdone : forall w,
            contiguous w = true -> split_at_domain_borders d w = true ->
            (forall p, status_at w p = status_at (pre ++ C :: post) p) ->
            incl (starts w) (starts (pre ++ C :: post)) ->
            contiguous w = true /\
            split_at_domain_borders d w = true /\
            (forall p, status_at w p =
                       if Block_includes_pos x p then Some st
                       else status_at (pre ++ x :: post) p) /\
            incl (starts w) (starts (pre ++ x :: post))).
  { intros w H1 H2 H3 H4. repeat split; auto.
    - intros p. rewrite H3. apply Hs3.
    - rewrite <- Ht3. exact H4. }
  (* the merge with the sblock after the seam, from a vector that
     has the bytes of [pre ++ C :: post] *)
  assert (Hright : forall pre' (Z : Sblock),
            contiguous (pre' ++ Z :: post) = true ->
            split_at_domain_borders d (pre' ++ Z :: post) = true ->
            (forall p, status_at (pre' ++ Z :: post) p
                       = status_at (pre ++ C :: post) p) ->
            incl (starts (pre' ++ Z :: post)) (starts (pre ++ C :: post)) ->
            status Z = st -> Domain_includes d Z = true ->
            let w := match post with
                     | y :: post' =>
                         if Status_eqb (status y) st && Domain_includes d y
                         then pre' ++ inc_size Z (size y) :: post'
                         else pre' ++ Z :: post
                     | [] => pre' ++ [Z]
                     end in
            contiguous w = true /\
            split_at_domain_borders d w = true /\
            (forall p, status_at w p =
                       if Block_includes_pos x p then Some st
                       else status_at (pre ++ x :: post) p) /\
            incl (starts w) (starts (pre ++ x :: post))).
  { intros pre' Z H1 H2 H3 H4 HsZ HiZ w. unfold w. clear w.
    destruct post as [|y post']; [apply Hdone; auto|].
    destruct (Status_eqb (status y) st && Domain_includes d y) eqn:Ey;
      [|apply Hdone; auto].
    apply andb_prop in Ey. destruct Ey as [Ey1 Ey2]. apply Status_eqb_eq in Ey1.
    destruct (merge_step pre' Z y post' H1 H2 ltac:(congruence) HiZ Ey2)
      as (M1 & M2 & M3 & M4 & _).
    apply Hdone; auto.
    - intros p. rewrite M3. apply H3.
    - intros z Hz. apply H4. apply M4. exact Hz. }
  destruct (rev pre) as [|l rpre] eqn:Er.
  - apply (Hright pre C); auto. intros z Hz. exact Hz.
  - destruct (Status_eqb (status l) st && Domain_includes d l) eqn:El.
    + apply rev_cons_inv in Er. subst pre.
      apply andb_prop in El. destruct El as [El1 El2]. apply Status_eqb_eq in El1.
      rewrite <- !app_assoc in *. cbn [app] in *.
      destruct (merge_step (rev rpre) l C post Hc3 Hb3 ltac:(rewrite El1; reflexivity) El2 HiC)
        as (M1 & M2 & M3 & M4 & M5).
      apply (Hright (rev rpre) (inc_size l (size x))); auto.
    + apply (Hright pre C); auto. intros z Hz. exact Hz.
Qed.

(** [change_chunk_status], when it goes through: the bytes of the
    chunk get the new status, no other byte changes, and no sblock
    starts at a new position but at the edges of the chunk. *)
Lemma change_chunk_status_spec o h e v (c : Block) st lb' :
  contiguous v = true -> split_at_domain_borders d v = true ->
  0 < size c ->
  change_chunk_status (mkLogbook o d h v e) c st = Some lb' ->
  exists v',
    lb' = mkLogbook o d h v' e /\
    contiguous v' = true /\
    split_at_domain_borders d v' = true /\
    (forall p, status_at v' p =
               if Block_includes_pos c p then Some st else status_at v p) /\
    incl (starts v') (pos c :: Block_end c :: starts v).
Proof.
  intros Hc Hb Hs. unfold change_chunk_status.
  replace (size c <=? 0) with false by (symmetry; apply Z.leb_gt; lia).
  cbn [sblock_vector domain_].
  destruct (vfind_index v (pos c)) as [k|] eqn:Ek; [|discriminate].
  destruct (vfind_index_Some _ _ _ Ek) as (pre & x & post & -> & <- & Hx).
  rewrite vget_seam.
  destruct (Domain_includes d c) eqn:Hic; [|discriminate].
  destruct (Domain_includes d x) eqn:Hix; [|discriminate].
  destruct (Block_includes x c) eqn:Hxc; [|discriminate].
  cbn [negb orb].
  destruct (contiguous_split _ _ _ Hc) as (Hpre & Hxs & Hpost).
  unfold Block_includes in Hxc. apply andb_prop in Hxc.
  destruct Hxc as [Hxc1 Hxc2]. apply Z.leb_le in Hxc1. apply Z.leb_le in Hxc2.
  destruct (Status_eqb (status x) st) eqn:Est.
  { (* the sblock has the status already *)
    intros E. inversion E; subst lb'. eexists. split; [reflexivity|].
    split; [exact Hc|]. split; [exact Hb|]. split.
    - intros p. destruct (Block_includes_pos c p) eqn:Ep; [|reflexivity].
      apply Status_eqb_eq in Est. rewrite <- Est.
      apply (status_at_In _ x p Hc); [apply in_or_app; right; left; reflexivity|].
      unfold Block_includes_pos, Block_end in *. bool_to_Z. Z_to_bool; lia.
    - intros z Hz. right. right. exact Hz. }
  intros E. inversion E; subst lb'. clear E.
  (* first edge *)
  assert (H1 : exists pre1 (x1 : Sblock),
            split_sblock_by (mkLogbook o d h (pre ++ x :: post) e) (pos c)
              (Z.of_nat (length pre)) = mkLogbook o d h (pre1 ++ x1 :: post) e /\
            (if pos x <? pos c then S (length pre) else length pre) = length pre1 /\
            pos x1 = pos c /\ Block_end x1 = Block_end x /\
            contiguous (pre1 ++ x1 :: post) = true /\
            split_at_domain_borders d (pre1 ++ x1 :: post) = true /\
            (forall p, status_at (pre1 ++ x1 :: post) p
                       = status_at (pre ++ x :: post) p) /\
            incl (starts (pre1 ++ x1 :: post))
                 (pos c :: starts (pre ++ x :: post))).
  { destruct (Z.ltb_spec (pos x) (pos c)) as [Hlt|Hge].
    - destruct (split_step pre x post (pos c) Hc Hb) as (S1 & S2 & S3 & S4);
        [unfold Block_end in *; lia|].
      eexists (pre ++ [_]), _.
      rewrite split_sblock_by_seam by (unfold Block_end in *; lia).
      rewrite <- app_assoc. cbn [app].
      split; [reflexivity|]. split; [rewrite length_app; cbn [length]; lia|].
      split; [reflexivity|].
      split; [unfold Block_end; cbn [pos size Sblock_block]; lia|].
      auto.
    - exists pre, x. rewrite split_sblock_by_outside by lia.
      split; [reflexivity|]. split; [reflexivity|]. split; [lia|].
      split; [reflexivity|]. split; [exact Hc|]. split; [exact Hb|].
      split; [reflexivity|]. intros z Hz. right. exact Hz. }
  destruct H1 as (pre1 & x1 & E1 & Ek1 & Hp1 & He1 & Hc1 & Hb1 & Hs1 & Ht1).
  rewrite E1, Ek1. clear E1 Ek1.
  assert (Hix1 : Domain_includes d x1 = true).
  { apply (Domain_includes_sub d x x1 Hix). unfold Block_includes.
    destruct (contiguous_split _ _ _ Hc1) as (_ & Hx1s & _).
    unfold Block_end in *. Z_to_bool; lia. }
  (* second edge *)
  assert (H2 : exists (x2 : Sblock) post2,
            split_sblock_by (mkLogbook o d h (pre1 ++ x1 :: post) e) (Block_end c)
              (Z.of_nat (length pre1)) = mkLogbook o d h (pre1 ++ x2 :: post2) e /\
            pos x2 = pos c /\ Block_end x2 = Block_end c /\
            contiguous (pre1 ++ x2 :: post2) = true /\
            split_at_domain_borders d (pre1 ++ x2 :: post2) = true /\
            (forall p, status_at (pre1 ++ x2 :: post2) p
                       = status_at (pre1 ++ x1 :: post) p) /\
            incl (starts (pre1 ++ x2 :: post2))
                 (Block_end c :: starts (pre1 ++ x1 :: post))).
  { destruct (Z.ltb_spec (Block_end c) (Block_end x1)) as [Hlt|Hge].
    - destruct (split_step pre1 x1 post (Block_end c) Hc1 Hb1) as (S1 & S2 & S3 & S4);
        [unfold Block_end in *; lia|].
      eexists _, (_ :: post).
      rewrite split_sblock_by_seam by (unfold Block_end in *; lia).
      split; [reflexivity|]. split; [exact Hp1|].
      split; [unfold Block_end; cbn [pos size Sblock_block]; lia|].
      auto.
    - exists x1, post. rewrite split_sblock_by_outside by lia.
      split; [reflexivity|]. split; [exact Hp1|]. split; [lia|].
      split; [exact Hc1|]. split; [exact Hb1|].
      split; [reflexivity|]. intros z Hz. right. exact Hz. }
  destruct H2 as (x2 & post2 & E2 & Hp2 & He2 & Hc2 & Hb2 & Hs2 & Ht2).
  rewrite E2. clear E2.
  assert (Hix2 : Domain_includes d x2 = true).
  { apply (Domain_includes_sub d x x2 Hix). unfold Block_includes.
    unfold Block_end in *. Z_to_bool; lia. }
  unfold with_vector. cbn [offset_ domain_ hardbs_ logfile_exists_ sblock_vector].
  destruct (rewrite_and_merge_spec pre1 x2 post2 st Hc2 Hb2 Hix2)
    as (R1 & R2 & R3 & R4).
  eexists. split; [reflexivity|]. split; [exact R1|]. split; [exact R2|]. split.
  - intros p. rewrite R3, Hs2, Hs1.
    replace (Block_includes_pos x2 p) with (Block_includes_pos c p); [reflexivity|].
    unfold Block_includes_pos. rewrite Hp2, He2. reflexivity.
  - intros z Hz. apply R4 in Hz. apply Ht2 in Hz.
    destruct Hz as [Hz|Hz]; [right; left; exact Hz|].
    apply Ht1 in Hz. destruct Hz as [Hz|Hz]; [left; exact Hz|].
    right. right. exact Hz.
Qed.

(** [change_chunk_status] goes through when an sblock of the domain
    includes the chunk. *)
Lemma change_chunk_status_goes_through o h e pre (x : Sblock) post (c : Block) st :
  contiguous (pre ++ x :: post) = true ->
  0 < size c -> Block_includes x c = true -> Domain_includes d x = true ->
  exists lb',
    change_chunk_status (mkLogbook o d h (pre ++ x :: post) e) c st = Some lb'.
Proof.
  intros Hc Hs Hxc Hix.
  destruct (contiguous_split _ _ _ Hc) as (Hpre & Hxs & Hpost).
  unfold change_chunk_status.
  replace (size c <=? 0) with false by (symmetry; apply Z.leb_gt; lia).
  cbn [sblock_vector domain_].
  rewrite (vfind_index_seam pre x post (pos c) Hpre)
    by (unfold Block_includes, Block_includes_pos, Block_end in *;
        bool_to_Z; Z_to_bool; lia).
  rewrite vget_seam, (Domain_includes_sub d x c Hix Hxc), Hix, Hxc.
  cbn [negb orb].
  destruct (Status_eqb (status x) st); eexists; reflexivity.
Qed.

End Steps.

End ChunkStatus.

(* ================================================================== *)
(** * Creating a logfile *)

Module Create.

Import Vector Dom Compact Seam Replace ChunkStatus.

(** ** The vector before the first line is read *)

Lemma status_at_with_status v st p :
  status_at (map (fun sb => Sblock_with_status sb st) v) p =
  match status_at v p with Some _ => Some st | None => None end.
Proof.
  induction v as [|x v IH]; [reflexivity|]. cbn [map status_at].
  change (Block_includes_pos (Sblock_with_status x st) p)
    with (Block_includes_pos x p).
  destruct (Block_includes_pos x p); [reflexivity|exact IH].
Qed.

Lemma split_at_domain_borders_with_status d v st :
  split_at_domain_borders d (map (fun sb => Sblock_with_status sb st) v) =
  split_at_domain_borders d v.
Proof.
  induction v as [|x v IH]; [reflexivity|]. cbn [map].
  rewrite !split_at_domain_borders_cons, IH. reflexivity.
Qed.

Lemma starts_with_status v st :
  starts (map (fun sb => Sblock_with_status sb st) v) = starts v.
Proof.
  unfold starts. rewrite map_map. reflexivity.
Qed.

(** A contiguous vector holds every byte from its first to its last. *)
Lemma status_at_inside v p :
  contiguous v = true ->
  pos (vget v 0) <= p < pos (vget v 0) + vsize v ->
  status_at v p <> None.
Proof.
  induction v as [|x v IH]; intros Hc Hp.
  - cbn in Hp. lia.
  - cbn [status_at]. rewrite vsize_cons in Hp. change (vget (x :: v) 0) with x in Hp.
    destruct (Block_includes_pos x p) eqn:E; [discriminate|].
    rewrite contiguous_unfold in Hc. apply andb_prop in Hc. destruct Hc as [Hc H3].
    apply andb_prop in Hc. destruct Hc as [H1 H2]. apply Z.ltb_lt in H1.
    assert (Hq : Block_end x <= p).
    { unfold Block_includes_pos in E. apply andb_false_iff in E.
      destruct E as [E|E]; [apply Z.leb_gt in E; lia|apply Z.ltb_ge in E; exact E]. }
    destruct v as [|y v].
    + cbn in Hp. unfold Block_end in Hq. lia.
    + apply Z.eqb_eq in H2. apply (IH H3). change (vget (y :: v) 0) with y.
      unfold Block_end in *. lia.
Qed.

Lemma fresh_create_invariant d hardbs fresh st :
  fresh_ok d fresh = true ->
  create_invariant d hardbs (map (fun sb => Sblock_with_status sb st) fresh).
Proof.
  unfold fresh_ok. intros H.
  apply andb_prop in H. destruct H as [H Hcov].
  apply andb_prop in H. destruct H as [H Hst].
  apply andb_prop in H. destruct H as [Hc Hb].
  split; [rewrite contiguous_map; [exact Hc|reflexivity]|].
  split; [rewrite split_at_domain_borders_with_status; exact Hb|].
  split.
  - intros D p HD Hp. rewrite status_at_with_status.
    assert (Hs : status_at fresh p <> None).
    { apply (status_at_inside fresh p Hc).
      unfold covers_domain in Hcov. rewrite forallb_forall in Hcov.
      specialize (Hcov D HD).
      unfold Block_includes, Block_includes_pos, Block_end in *.
      cbn [pos size] in Hcov. bool_to_Z. lia. }
    destruct (status_at fresh p); [discriminate|contradiction].
  - intros z D Hz HD Hi. exfalso. rewrite starts_with_status in Hz.
    unfold starts in Hz. apply in_map_iff in Hz. destruct Hz as (x & <- & Hx).
    unfold starts_at_borders in Hst. rewrite forallb_forall in Hst.
    specialize (Hst x Hx). rewrite forallb_forall in Hst. specialize (Hst D HD).
    rewrite Hi in Hst. discriminate.
Qed.

(** ** What [truncate_vector] leaves *)

Lemma status_at_truncate v e p :
  contiguous v = true ->
  status_at (truncate v e) p = if p <? e then status_at v p else None.
Proof.
  induction v as [|x v IH]; intros Hc.
  - cbn. destruct (p <? e); reflexivity.
  - pose proof (starts_after_contiguous x v Hc) as Hall.
    destruct (contiguous_cons _ _ Hc) as (Hsz & Hc' & Hs).
    cbn [truncate].
    destruct (Z.leb_spec e (pos x)) as [H1|H1].
    + cbn [status_at]. destruct (Z.ltb_spec p e) as [H2|H2]; [|reflexivity].
      symmetry. apply (status_at_starts_after (x :: v) (pos x) p Hall). lia.
    + destruct (Z.ltb_spec e (Block_end x)) as [H2|H2].
      * cbn [status_at]. unfold Block_includes_pos, Block_end in *.
        cbn [pos size Sblock_block status].
        destruct (Z.ltb_spec p e) as [H3|H3].
        -- destruct (Z.leb_spec (pos x) p) as [H4|H4]; cbn [andb].
           ++ replace (p <? pos x + (e - pos x)) with true
                by (symmetry; apply Z.ltb_lt; lia).
              replace (p <? pos x + size x) with true
                by (symmetry; apply Z.ltb_lt; lia).
              reflexivity.
           ++ symmetry. apply (status_at_starts_after v (pos x + size x) p Hs). lia.
        -- replace (p <? pos x + (e - pos x)) with false
             by (symmetry; apply Z.ltb_ge; lia).
           rewrite andb_false_r. reflexivity.
      * cbn [status_at]. rewrite (IH Hc').
        destruct (Block_includes_pos x p) eqn:E; [|reflexivity].
        unfold Block_includes_pos in E. bool_to_Z.
        replace (p <? e) with true by (symmetry; apply Z.ltb_lt; lia).
        reflexivity.
Qed.


(** ** The loop over the lines *)

Section Lines.

Variable Block_new : Z -> Z -> Block.
Variable d : Domain.
Variable hardbs : Z.
Variable type1 : Status.
Hypothesis Block_new_plain : Block_constructor Block_new.
Hypothesis d_separated : Domain_separated d = true.
Hypothesis hardbs_positive : 0 < hardbs.

(** The block of a line whose block is a block as spec 3 has them. *)
Lemma Block_new_line block :
  plain_block hardbs (Some block) = true ->
  Block_new (block * hardbs) hardbs = mkBlock (block * hardbs) hardbs.
Proof.
  unfold plain_block. intros H. apply andb_prop in H. destruct H as [H0 H1].
  apply Z.leb_le in H0. apply Z.leb_le in H1.
  apply Block_new_plain; nia.
Qed.


(** Marking a block of the domain goes through and keeps what the
    loop relies on. *)
Lemma mark_block o e v block :
  create_invariant d hardbs v ->
  Domain_includes d (mkBlock (block * hardbs) hardbs) = true ->
  exists v',
    change_chunk_status (mkLogbook o d hardbs v e)
      (mkBlock (block * hardbs) hardbs) type1
    = Some (mkLogbook o d hardbs v' e) /\
    create_invariant d hardbs v' /\
    (forall p, status_at v' p =
               if Block_includes_pos (mkBlock (block * hardbs) hardbs) p
               then Some type1 else status_at v p).
Proof.
  intros (Hc & Hb & Hcov & Hst) Hi.
  pose proof Hi as HiD. apply Domain_includes_In in HiD.
  destruct HiD as (D & HD & HDc).
  unfold Block_includes, Block_end in HDc. cbn [pos size] in HDc.
  apply andb_prop in HDc. destruct HDc as [HD1 HD2].
  apply Z.leb_le in HD1. apply Z.leb_le in HD2.
  (* the sblock that holds the first byte of the block *)
  assert (Hfirst : Block_includes_pos D (block * hardbs) = true)
    by (unfold Block_includes_pos, Block_end; Z_to_bool; lia).
  destruct (status_at v (block * hardbs)) as [s|] eqn:Es;
    [|exfalso; exact (Hcov D _ HD Hfirst Es)].
  destruct (status_at_Some _ _ _ Es) as (x & Hx & Hxp & _).
  destruct (in_split _ _ Hx) as (pre & post & ->).
  assert (Hix : Domain_includes d x = true).
  { apply (in_domain_included d _ x (block * hardbs) Hb Hx Hxp).
    apply in_domain_In. exists D. split; [exact HD|exact Hfirst]. }
  destruct (contiguous_split _ _ _ Hc) as (Hpre & Hxs & Hpost).
  unfold Block_includes_pos in Hxp. apply andb_prop in Hxp.
  destruct Hxp as [Hx1 Hx2]. apply Z.leb_le in Hx1. apply Z.ltb_lt in Hx2.
  (* it holds the whole block *)
  assert (Hxc : Block_includes x (mkBlock (block * hardbs) hardbs) = true).
  { unfold Block_includes, Block_end. cbn [pos size].
    apply andb_true_intro. split; [apply Z.leb_le; exact Hx1|].
    apply Z.leb_le.
    destruct (Z_le_gt_dec (block * hardbs + hardbs) (Block_end x)) as [Hle|Hgt];
      [unfold Block_end in Hle; exact Hle|exfalso].
    assert (Hnext : Block_includes_pos D (Block_end x) = true)
      by (unfold Block_includes_pos, Block_end in *; Z_to_bool; lia).
    apply (Hcov D _ HD) in Hnext. apply Hnext.
    rewrite (status_at_after pre (x :: post) (pos x) (Block_end x) Hpre)
      by (unfold Block_end; lia).
    cbn [status_at].
    replace (Block_includes_pos x (Block_end x)) with false
      by (symmetry; unfold Block_includes_pos; apply andb_false_iff; right;
          apply Z.ltb_ge; lia).
    destruct post as [|y post]; [reflexivity|exfalso].
    apply contiguous_app in Hc. destruct Hc as [_ Hc].
    pose proof (contiguous_cons_touch _ _ _ Hc) as Ht.
    assert (Hm : pos y mod hardbs = 0).
    { apply (Hst (pos y) D); [|exact HD|].
      - unfold starts. apply in_map_iff. exists y. split; [reflexivity|].
        apply in_or_app. right. right. left. reflexivity.
      - unfold Block_strictly_includes, Block_end in *. Z_to_bool; lia. }
    apply Z.mod_divide in Hm; [|lia]. destruct Hm as [q Hq].
    unfold Block_end in *.
    assert (H1 : block * hardbs < q * hardbs) by lia.
    assert (H2 : q * hardbs < (block + 1) * hardbs) by lia.
    apply Z.mul_lt_mono_pos_r in H1; [|lia].
    apply Z.mul_lt_mono_pos_r in H2; [|lia]. lia. }
  destruct (change_chunk_status_goes_through d o hardbs e pre x post
              (mkBlock (block * hardbs) hardbs) type1 Hc hardbs_positive Hxc Hix)
    as (lb' & Hlb).
  destruct (change_chunk_status_spec d d_separated o hardbs e (pre ++ x :: post)
              (mkBlock (block * hardbs) hardbs) type1 lb'
              Hc Hb hardbs_positive Hlb)
    as (v' & -> & Hc' & Hb' & Hs' & Ht').
  exists v'. split; [exact Hlb|]. split; [|exact Hs'].
  split; [exact Hc'|]. split; [exact Hb'|]. split.
  - intros D' p HD' Hp. rewrite Hs'.
    destruct (Block_includes_pos (mkBlock (block * hardbs) hardbs) p);
      [discriminate|].
    apply (Hcov D' p HD' Hp).
  - intros z D' Hz HD' Hi'. apply Ht' in Hz.
    unfold Block_end in Hz. cbn [pos size] in Hz.
    destruct Hz as [<-|[<-|Hz]].
    + apply Z.mod_mul. lia.
    + replace (block * hardbs + hardbs) with ((block + 1) * hardbs) by lia.
      apply Z.mod_mul. lia.
    + apply (Hst z D' Hz HD' Hi').
Qed.

Lemma marked_cons block rest p :
  marked d hardbs (Some block :: rest) p =
  Domain_includes d (mkBlock (block * hardbs) hardbs)
  && Block_includes_pos (mkBlock (block * hardbs) hardbs) p
  || marked d hardbs rest p.
Proof. reflexivity. Qed.



(** A marked byte is a byte of the domain. *)
Lemma marked_in_domain stdin p :
  marked d hardbs stdin p = true -> in_domain d p = true.
Proof.
  unfold marked. intros H. apply existsb_exists in H.
  destruct H as ([block|] & _ & H); [|discriminate].
  apply andb_prop in H. destruct H as [Hi Hp].
  apply (included_in_domain d (mkSblock (mkBlock (block * hardbs) hardbs) non_tried) p);
    [exact Hi|exact Hp].
Qed.

End Lines.

Lemma Block_or_empty_constructor : Block_constructor Block_or_empty.
Proof.
  intros p s H0 H1 H2. unfold Block_or_empty.
  replace (0 <=? p) with true by (symmetry; apply Z.leb_le; exact H0).
  replace (0 <=? s) with true by (symmetry; apply Z.leb_le; exact H1).
  replace (p + s <=? LLONG_MAX) with true by (symmetry; apply Z.leb_le; exact H2).
  reflexivity.
Qed.

End Create.



(* ================================================================== *)
(** * Signals, and the sizes of block transfers *)

Module Signals.

Section Installed.

Variables SIGHUP SIGINT SIGTERM SIGUSR1 SIGUSR2 : Z.
Hypothesis SIGHUP_positive : 0 < SIGHUP.
Hypothesis SIGINT_positive : 0 < SIGINT.
Hypothesis SIGTERM_positive : 0 < SIGTERM.
Hypothesis SIGUSR1_other : interrupting SIGHUP SIGINT SIGTERM SIGUSR1 = false.
Hypothesis SIGUSR2_other : interrupting SIGHUP SIGINT SIGTERM SIGUSR2 = false.

Lemma set_signals_installed st0 :
  installed SIGHUP SIGINT SIGTERM SIGUSR1 SIGUSR2 (set_signals SIGHUP SIGINT SIGTERM SIGUSR1 SIGUSR2 st0) /\
  signum_ (set_signals SIGHUP SIGINT SIGTERM SIGUSR1 SIGUSR2 st0) = 0.
Proof.
  split; [|reflexivity]. intros s. unfold set_signals, set_signal.
  cbn [handler_of signum_]. unfold interrupting in *.
  split.
  - intros H.
    destruct (Z.eqb_spec s SIGUSR2) as [->|_];
      [rewrite H in SIGUSR2_other; discriminate|].
    destruct (Z.eqb_spec s SIGUSR1) as [->|_];
      [rewrite H in SIGUSR1_other; discriminate|].
    destruct (s =? SIGTERM); [reflexivity|].
    destruct (s =? SIGINT); [reflexivity|].
    destruct (s =? SIGHUP); [reflexivity|discriminate].
  - intros [-> | ->].
    + rewrite Z.eqb_refl. destruct (SIGUSR1 =? SIGUSR2); reflexivity.
    + rewrite Z.eqb_refl. reflexivity.
Qed.

Lemma deliver_installed st s :
  installed SIGHUP SIGINT SIGTERM SIGUSR1 SIGUSR2 st ->
  installed SIGHUP SIGINT SIGTERM SIGUSR1 SIGUSR2 (deliver st s).
Proof.
  intros H. unfold deliver, sighandler.
  destruct (handler_of st s); [|exact H|exact H].
  destruct ((signum_ st =? 0) && (0 <? s)); exact H.
Qed.

Lemma interrupting_positive s :
  interrupting SIGHUP SIGINT SIGTERM s = true -> 0 < s.
Proof.
  unfold interrupting. intros H. apply orb_prop in H. destruct H as [H|H].
  - apply orb_prop in H. destruct H as [H|H]; apply Z.eqb_eq in H; lia.
  - apply Z.eqb_eq in H. lia.
Qed.

Lemma deliver_all sigs : forall st,
  installed SIGHUP SIGINT SIGTERM SIGUSR1 SIGUSR2 st ->
  (forall s, In s sigs ->
     interrupting SIGHUP SIGINT SIGTERM s = true \/ s = SIGUSR1 \/ s = SIGUSR2) ->
  signum_ (fold_left deliver sigs st) =
  if signum_ st =? 0 then first_interrupting SIGHUP SIGINT SIGTERM sigs
  else signum_ st.
Proof.
  induction sigs as [|s sigs IH]; intros st Hst Hs.
  - cbn. destruct (Z.eqb_spec (signum_ st) 0); auto.
  - cbn [fold_left]. rewrite IH; [|apply deliver_installed; exact Hst|
      intros x Hx; apply Hs; right; exact Hx].
    unfold first_interrupting. cbn [filter].
    destruct (Hst s) as [Hh Hi].
    destruct (Hs s (or_introl eq_refl)) as [Hint|Husr].
    + rewrite Hint. cbn [hd]. unfold deliver, sighandler. rewrite (Hh Hint).
      pose proof (interrupting_positive s Hint) as Hpos.
      destruct (Z.eqb_spec (signum_ st) 0) as [E|E]; cbn [andb].
      * replace (0 <? s) with true by (symmetry; apply Z.ltb_lt; exact Hpos).
        cbn [signum_]. destruct (Z.eqb_spec s 0); [lia|reflexivity].
      * destruct (Z.eqb_spec (signum_ st) 0); [contradiction|reflexivity].
    + assert (Hn : interrupting SIGHUP SIGINT SIGTERM s = false)
        by (destruct Husr as [-> | ->]; assumption).
      rewrite Hn. unfold deliver. rewrite (Hi Husr). reflexivity.
Qed.

End Installed.

End Signals.

Module Transfer.

Lemma readblock_loop_bounds calls : forall size sz errno sz' errno',
  0 <= sz <= size -> within_request calls size sz = true ->
  readblock_loop calls size sz errno = Some (sz', errno') ->
  sz <= sz' <= size.
Proof.
  induction calls as [|r rest IH]; intros size sz errno sz' errno' Hsz Hw H.
  - cbn in H. destruct (sz <? size); [discriminate|]. inversion H; subst. lia.
  - cbn [readblock_loop] in H. cbn [within_request] in Hw.
    apply andb_prop in Hw. destruct Hw as [Hr Hw]. apply Z.leb_le in Hr.
    destruct (sz <? size); [|inversion H; subst; lia].
    destruct (Z.ltb_spec 0 (ret r)) as [Hp|Hp].
    + apply IH in H; [lia|lia|exact Hw].
    + destruct (ret r =? 0); [inversion H; subst; lia|].
      destruct (negb _); [inversion H; subst; lia|].
      apply IH in H; [lia|lia|exact Hw].
Qed.

Lemma writeblock_loop_bounds calls : forall size sz errno sz' errno',
  0 <= sz <= size -> within_request calls size sz = true ->
  writeblock_loop calls size sz errno = Some (sz', errno') ->
  sz <= sz' <= size.
Proof.
  induction calls as [|r rest IH]; intros size sz errno sz' errno' Hsz Hw H.
  - cbn in H. destruct (sz <? size); [discriminate|]. inversion H; subst. lia.
  - cbn [writeblock_loop] in H. cbn [within_request] in Hw.
    apply andb_prop in Hw. destruct Hw as [Hr Hw]. apply Z.leb_le in Hr.
    destruct (sz <? size); [|inversion H; subst; lia].
    destruct (Z.ltb_spec 0 (ret r)) as [Hp|Hp].
    + apply IH in H; [lia|lia|exact Hw].
    + destruct (_ && _); [inversion H; subst; lia|].
      apply IH in H; [lia|lia|exact Hw].
Qed.

End Transfer.

(** X1.  After [set_signals], whatever signals arrive among SIGHUP,
    SIGINT, SIGTERM, SIGUSR1 and SIGUSR2, [signum_] holds the first
    SIGHUP, SIGINT or SIGTERM that arrived and a later signal never
    replaces it; SIGUSR1 and SIGUSR2 never interrupt.  [interrupted]
    tells whether one of the three has arrived.  [signaled_exit] then
    raises that first signal under its default action: the signal ends
    the process when its default action is to end it, and only
    otherwise does the function return, with 128 plus that signal. *)
Theorem first_signal_is_kept
    (SIGHUP SIGINT SIGTERM SIGUSR1 SIGUSR2 : Z) (default_ends : Z -> bool)
    (st0 : Signal_state) (sigs : list Z) :
  0 < SIGHUP -> 0 < SIGINT -> 0 < SIGTERM ->
  interrupting SIGHUP SIGINT SIGTERM SIGUSR1 = false ->
  interrupting SIGHUP SIGINT SIGTERM SIGUSR2 = false ->
  (forall s, In s sigs ->
     interrupting SIGHUP SIGINT SIGTERM s = true \/ s = SIGUSR1 \/ s = SIGUSR2) ->
  signum_ (fold_left deliver sigs
             (set_signals SIGHUP SIGINT SIGTERM SIGUSR1 SIGUSR2 st0))
  = first_interrupting SIGHUP SIGINT SIGTERM sigs /\
  interrupted (fold_left deliver sigs
                 (set_signals SIGHUP SIGINT SIGTERM SIGUSR1 SIGUSR2 st0))
  = existsb (interrupting SIGHUP SIGINT SIGTERM) sigs /\
  signaled_exit default_ends
    (fold_left deliver sigs (set_signals SIGHUP SIGINT SIGTERM SIGUSR1 SIGUSR2 st0))
  = if default_ends (first_interrupting SIGHUP SIGINT SIGTERM sigs)
    then Ended_by_signal (first_interrupting SIGHUP SIGINT SIGTERM sigs)
    else Returned_status (128 + first_interrupting SIGHUP SIGINT SIGTERM sigs).
Proof.
  intros H1 H2 H3 H4 H5 Hs.
  destruct (Signals.set_signals_installed SIGHUP SIGINT SIGTERM SIGUSR1 SIGUSR2
              H4 H5 st0) as [Hi H0].
  pose proof (Signals.deliver_all SIGHUP SIGINT SIGTERM SIGUSR1 SIGUSR2
                H1 H2 H3 H4 H5 sigs _ Hi Hs) as E.
  rewrite H0 in E. cbn in E.
  split; [exact E|]. split.
  - unfold interrupted. rewrite E. unfold first_interrupting.
    clear E Hs. induction sigs as [|s sigs IH]; [reflexivity|].
    cbn [filter existsb].
    destruct (interrupting SIGHUP SIGINT SIGTERM s) eqn:Es; [|exact IH].
    cbn [hd orb]. apply Z.ltb_lt.
    apply (Signals.interrupting_positive SIGHUP SIGINT SIGTERM H1 H2 H3 s Es).
  - unfold signaled_exit, raise, set_signal. cbn [handler_of signum_].
    rewrite E, Z.eqb_refl.
    destruct (default_ends (first_interrupting SIGHUP SIGINT SIGTERM sigs));
      reflexivity.
Qed.

Lemma first_signal_is_kept_witness :
  signum_ (fold_left deliver [10; 15; 12; 2; 1]
             (set_signals 1 2 15 10 12 (mkSignals 7 (fun _ => SIG_DFL)))) = 15 /\
  interrupted (fold_left deliver [10; 15; 12; 2; 1]
                 (set_signals 1 2 15 10 12 (mkSignals 7 (fun _ => SIG_DFL)))) = true /\
  signaled_exit (fun s => (s =? 1) || (s =? 2) || (s =? 15))
    (fold_left deliver [10; 15; 12; 2; 1]
       (set_signals 1 2 15 10 12 (mkSignals 7 (fun _ => SIG_DFL))))
  = Ended_by_signal 15.
Proof.
  apply (first_signal_is_kept 1 2 15 10 12 (fun s => (s =? 1) || (s =? 2) || (s =? 15))
           (mkSignals 7 (fun _ => SIG_DFL)) [10; 15; 12; 2; 1]
           ltac:(lia) ltac:(lia) ltac:(lia) eq_refl eq_refl
           ltac:(intros s Hs; cbn in Hs;
                 repeat (destruct Hs as [<-|Hs]; [auto|]); destruct Hs)).
Defined.

(** X2.  [readblock_dvdread] on a position or a size that is not a
    multiple of 2048 returns -1 with [errno] EINVAL.  On multiples of
    2048 below the 2^32 blocks that a [uint32_t] counts, when
    [DVDReadRawBlocks] returns no more blocks than it was asked for,
    the function returns 2048 bytes for each block read, never more
    than [size]; a short count comes with [errno] EIO when the read
    stopped before the last block of the disc, and a short count with
    [errno] 0 means that the end of the disc was reached. *)
Theorem readblock_dvdread_short_count
    (DVDReadRawBlocks : Z -> Z -> Z * Z) (dvd_blocks size pos : Z) :
  0 <= pos -> 0 <= size <= INT_MAX -> pos + size < 2048 * 4294967296 ->
  0 <= fst (DVDReadRawBlocks (pos / 2048) (size / 2048)) <= size / 2048 ->
  (pos mod 2048 <> 0 \/ size mod 2048 <> 0 ->
   readblock_dvdread DVDReadRawBlocks dvd_blocks size pos = (-1, EINVAL)) /\
  (pos mod 2048 = 0 -> size mod 2048 = 0 ->
   let n_read := fst (DVDReadRawBlocks (pos / 2048) (size / 2048)) in
   let r := readblock_dvdread DVDReadRawBlocks dvd_blocks size pos in
   fst r = 2048 * n_read /\ 0 <= fst r <= size /\
   (fst r < size -> pos / 2048 + n_read < dvd_blocks -> snd r = EIO) /\
   (fst r < size -> snd r = 0 -> dvd_blocks <= pos / 2048 + n_read)).
Proof.
  intros Hpos Hsize Hfit Hn.
  assert (Erp : Z.rem pos 2048 = pos mod 2048) by (apply Z.rem_mod_nonneg; lia).
  assert (Ers : Z.rem size 2048 = size mod 2048) by (apply Z.rem_mod_nonneg; lia).
  assert (Eqp : Z.quot pos 2048 = pos / 2048) by (apply Z.quot_div_nonneg; lia).
  assert (Eqs : Z.quot size 2048 = size / 2048) by (apply Z.quot_div_nonneg; lia).
  unfold readblock_dvdread. rewrite Erp, Ers, Eqp, Eqs.
  split.
  - intros [H|H].
    + destruct (Z.eqb_spec (pos mod 2048) 0); [contradiction|reflexivity].
    + destruct (Z.eqb_spec (pos mod 2048) 0); [|reflexivity].
      destruct (Z.eqb_spec (size mod 2048) 0); [contradiction|reflexivity].
  - intros Hp Hs. rewrite Hp, Hs. cbn [Z.eqb negb].
    pose proof (Z.div_mod pos 2048 ltac:(lia)) as Dp.
    pose proof (Z.div_mod size 2048 ltac:(lia)) as Ds.
    assert (Hlb : 0 <= pos / 2048) by (apply Z.div_pos; lia).
    assert (Hnn : 0 <= size / 2048) by (apply Z.div_pos; lia).
    set (lb := pos / 2048) in *. set (n := size / 2048) in *.
    unfold INT_MAX in Hsize.
    assert (U1 : uint32 lb = lb) by (unfold uint32; apply Z.mod_small; lia).
    assert (U2 : uint32 n = n) by (unfold uint32; apply Z.mod_small; lia).
    rewrite U1, U2. cbv zeta.
    destruct (DVDReadRawBlocks lb n) as [k e]. cbn [fst snd] in *.
    assert (U3 : uint32 k = k) by (unfold uint32; apply Z.mod_small; lia).
    assert (U4 : uint32 (lb + k) = lb + k) by (unfold uint32; apply Z.mod_small; lia).
    assert (U5 : uint32 (k * 2048) = k * 2048)
      by (unfold uint32; apply Z.mod_small; lia).
    rewrite U3, U4, U5.
    assert (U6 : int_of_uint32 (k * 2048) = 2048 * k).
    { unfold int_of_uint32.
      destruct (Z.ltb_spec (k * 2048) 2147483648); lia. }
    rewrite U6.
    split; [reflexivity|]. split; [lia|]. split.
    + intros Hshort Hin.
      destruct (Z.ltb_spec k n); [|lia].
      destruct (Z.ltb_spec (lb + k) dvd_blocks); [reflexivity|lia].
    + intros Hshort He.
      destruct (Z.ltb_spec k n); [|lia].
      destruct (Z.ltb_spec (lb + k) dvd_blocks); [|lia].
      unfold EIO in He. discriminate.
Qed.

Lemma readblock_dvdread_short_count_witness :
  (2031616 mod 2048 <> 0 \/ 65536 mod 2048 <> 0 ->
   readblock_dvdread (fun lb n => (if lb + n <=? 1000 then n else 1000 - lb, 0))
     1000 65536 2031616 = (-1, EINVAL)) /\
  (2031616 mod 2048 = 0 -> 65536 mod 2048 = 0 ->
   let n_read :=
     fst ((fun lb n => (if lb + n <=? 1000 then n else 1000 - lb, 0))
            (2031616 / 2048) (65536 / 2048)) in
   let r :=
     readblock_dvdread (fun lb n => (if lb + n <=? 1000 then n else 1000 - lb, 0))
       1000 65536 2031616 in
   fst r = 2048 * n_read /\ 0 <= fst r <= 65536 /\
   (fst r < 65536 -> 2031616 / 2048 + n_read < 1000 -> snd r = EIO) /\
   (fst r < 65536 -> snd r = 0 -> 1000 <= 2031616 / 2048 + n_read)).
Proof.
  apply (readblock_dvdread_short_count
           (fun lb n => (if lb + n <=? 1000 then n else 1000 - lb, 0))
           1000 65536 2031616).
  - lia.
  - unfold INT_MAX. lia.
  - lia.
  - cbn. lia.
Defined.

(** X3.  When [read] and [write] return no more than the number of
    bytes they are asked for, [readblock] and [writeblock] return at
    least 0 and at most [size]: no more is transferred than the buffer
    holds. *)
Theorem block_transfer_never_exceeds_size
    (seek : Syscall) (calls : list Syscall) (size sz errno : Z) :
  0 <= size -> within_request calls size 0 = true ->
  (readblock seek calls size = Some (sz, errno) -> 0 <= sz <= size) /\
  (writeblock seek calls size = Some (sz, errno) -> 0 <= sz <= size).
Proof.
  intros Hs Hw. unfold readblock, writeblock. split; intros H.
  - destruct (0 <=? ret seek); [|inversion H; subst; lia].
    apply (Transfer.readblock_loop_bounds calls size 0 0 sz errno); auto. lia.
  - destruct (0 <=? ret seek); [|inversion H; subst; lia].
    apply (Transfer.writeblock_loop_bounds calls size 0 0 sz errno); auto. lia.
Qed.

Lemma block_transfer_never_exceeds_size_witness :
  0 <= 300 <= 512 /\ 0 <= 512 <= 512.
Proof.
  split.
  - apply (proj1 (block_transfer_never_exceeds_size (mkSyscall 0 0)
             [mkSyscall 200 0; mkSyscall (-1) 4; mkSyscall 100 0; mkSyscall 0 0]
             512 300 0 ltac:(lia) eq_refl)). reflexivity.
  - apply (proj2 (block_transfer_never_exceeds_size (mkSyscall 0 0)
             [mkSyscall 200 0; mkSyscall 0 0; mkSyscall (-1) 4; mkSyscall 312 0]
             512 512 0 ltac:(lia) eq_refl)). reflexivity.
Defined.

(* ================================================================== *)
(** * The passes of --cpass, the files and the sizes of main.cc *)

Module Cpass.

Lemma pass_char_code k : (k <= 3)%nat -> nat_of_ascii (pass_char k) = (48 + k)%nat.
Proof.
  intros H. unfold pass_char. apply nat_ascii_embedding. lia.
Qed.

Lemma pass_char_of ch :
  (nat_of_ascii ch <? nat_of_ascii "0")%nat
  || (nat_of_ascii "3" <? nat_of_ascii ch)%nat = false ->
  exists k, (k <= 3)%nat /\ ch = pass_char k.
Proof.
  intros H. apply orb_false_elim in H. destruct H as [H1 H2].
  apply Nat.ltb_ge in H1. apply Nat.ltb_ge in H2.
  change (nat_of_ascii "0") with 48%nat in H1.
  change (nat_of_ascii "3") with 51%nat in H2.
  exists (nat_of_ascii ch - 48)%nat. split; [lia|].
  unfold pass_char. replace (48 + (nat_of_ascii ch - 48))%nat with (nat_of_ascii ch) by lia.
  symmetry. apply ascii_nat_embedding.
Qed.

Lemma pass_char_not_comma k : (k <= 3)%nat -> Ascii.eqb (pass_char k) "," = false.
Proof.
  intros H. do 4 (destruct k as [|k]; [reflexivity|]). lia.
Qed.

(** The bit that the loop sets for a pass. *)
Lemma pass_bit k j :
  (k <= 3)%nat -> 0 <= j ->
  Z.testbit
    (if (nat_of_ascii "0" <? nat_of_ascii (pass_char k))%nat
     then Z.shiftl 1 (Z.of_nat (nat_of_ascii (pass_char k)) - Z.of_nat (nat_of_ascii "1"))
     else 0) j
  = (Z.of_nat k =? j + 1).
Proof.
  intros Hk Hj. rewrite (pass_char_code k Hk).
  change (nat_of_ascii "0") with 48%nat. change (nat_of_ascii "1") with 49%nat.
  destruct k as [|k].
  - change (48 <? 48 + 0)%nat with false. rewrite Z.testbit_0_l.
    symmetry. apply Z.eqb_neq. lia.
  - replace (48 <? 48 + S k)%nat with true by (symmetry; apply Nat.ltb_lt; lia).
    replace (Z.of_nat (48 + S k) - Z.of_nat 49) with (Z.of_nat k) by lia.
    rewrite Z.shiftl_spec by exact Hj.
    destruct (Z.eqb_spec (Z.of_nat (S k)) (j + 1)) as [E|E].
    + replace (j - Z.of_nat k) with 0 by lia. reflexivity.
    + destruct (j - Z.of_nat k) as [|p|p] eqn:Ej; [lia| |reflexivity].
      destruct p; reflexivity.
Qed.

Lemma lor_pass_bit acc k :
  (if (nat_of_ascii "0" <? nat_of_ascii (pass_char k))%nat
   then Z.lor acc
          (Z.shiftl 1 (Z.of_nat (nat_of_ascii (pass_char k)) - Z.of_nat (nat_of_ascii "1")))
   else acc)
  = Z.lor acc
      (if (nat_of_ascii "0" <? nat_of_ascii (pass_char k))%nat
       then Z.shiftl 1 (Z.of_nat (nat_of_ascii (pass_char k)) - Z.of_nat (nat_of_ascii "1"))
       else 0).
Proof.
  destruct (nat_of_ascii "0" <? nat_of_ascii (pass_char k))%nat; [reflexivity|].
  rewrite Z.lor_0_r. reflexivity.
Qed.

(** The loop on a list of passes. *)
Lemma parse_cpass_loop_accepts passes : forall acc,
  (forall k, In k passes -> (k <= 3)%nat) ->
  exists b,
    parse_cpass_loop (cpass_arg passes) acc = Some b /\
    forall j, 0 <= j ->
      Z.testbit b j =
      Z.testbit acc j || existsb (fun k => Z.of_nat k =? j + 1) passes.
Proof.
  induction passes as [|k rest IH]; intros acc Hk.
  - exists acc. split; [reflexivity|]. intros j Hj. cbn. rewrite orb_false_r.
    reflexivity.
  - assert (Hk3 : (k <= 3)%nat) by (apply Hk; left; reflexivity).
    assert (Hrange : (nat_of_ascii (pass_char k) <? nat_of_ascii "0")%nat
                     || (nat_of_ascii "3" <? nat_of_ascii (pass_char k))%nat = false).
    { rewrite (pass_char_code k Hk3).
      change (nat_of_ascii "0") with 48%nat. change (nat_of_ascii "3") with 51%nat.
      apply orb_false_intro; apply Nat.ltb_ge; lia. }
    destruct rest as [|k2 rest].
    + cbn [cpass_arg parse_cpass_loop]. rewrite Hrange.
      eexists. split; [reflexivity|]. intros j Hj.
      rewrite lor_pass_bit, Z.lor_spec, (pass_bit k j Hk3 Hj). cbn [existsb].
      rewrite orb_false_r. reflexivity.
    + change (cpass_arg (k :: k2 :: rest))
        with (String (pass_char k) (String "," (cpass_arg (k2 :: rest)))).
      cbn [parse_cpass_loop]. rewrite Hrange.
      change (Ascii.eqb "," ",") with true. cbn [andb].
      assert (Hne : match cpass_arg (k2 :: rest) with
                    | EmptyString => true | String _ _ => false end = false)
        by (cbn [cpass_arg]; destruct rest; reflexivity).
      rewrite Hne. cbn [negb].
      destruct (IH (if (nat_of_ascii "0" <? nat_of_ascii (pass_char k))%nat
                    then Z.lor acc
                           (Z.shiftl 1 (Z.of_nat (nat_of_ascii (pass_char k))
                                        - Z.of_nat (nat_of_ascii "1")))
                    else acc))
        as (b & Hb & Hbits); [intros x Hx; apply Hk; right; exact Hx|].
      exists b. split; [exact Hb|]. intros j Hj.
      rewrite (Hbits j Hj), lor_pass_bit, Z.lor_spec, (pass_bit k j Hk3 Hj).
      cbn [existsb]. rewrite !orb_assoc. reflexivity.
Qed.

(** What the loop accepts is a list of passes. *)
Lemma parse_cpass_loop_grammar n : forall arg acc b,
  (String.length arg <= n)%nat ->
  parse_cpass_loop arg acc = Some b ->
  exists passes,
    arg = cpass_arg passes /\ forall k, In k passes -> (k <= 3)%nat.
Proof.
  induction n as [|n IH]; intros arg acc b Hlen H.
  - destruct arg; [|cbn in Hlen; lia]. exists []. split; [reflexivity|].
    intros k [].
  - destruct arg as [|ch rest]; [exists []; split; [reflexivity|intros k []]|].
    cbn [parse_cpass_loop] in H.
    destruct ((nat_of_ascii ch <? nat_of_ascii "0")%nat
              || (nat_of_ascii "3" <? nat_of_ascii ch)%nat) eqn:Hr; [discriminate|].
    destruct (pass_char_of ch Hr) as (k & Hk & ->).
    destruct rest as [|next rest'].
    + exists [k]. split; [reflexivity|]. intros x [<-|[]]. exact Hk.
    + destruct (Ascii.eqb_spec next ","); [subst next|discriminate].
      cbn [andb] in H.
      destruct rest' as [|c2 rest2]; [discriminate|]. cbn [negb] in H.
      apply IH in H; [|cbn [String.length] in *; lia].
      destruct H as (passes & E & Hp).
      destruct passes as [|k2 passes]; [discriminate|].
      exists (k :: k2 :: passes). split.
      * change (cpass_arg (k :: k2 :: passes))
          with (String (pass_char k) (String "," (cpass_arg (k2 :: passes)))).
        rewrite <- E. reflexivity.
      * intros x [<-|Hx]; [exact Hk|apply Hp; exact Hx].
Qed.

End Cpass.

(** X4.  [parse_cpass] returns exactly on the arguments that list pass
    numbers from 0 to 3 with a comma between one and the next, and
    exits with status 1 on every other argument: the empty argument, a
    character that is no such digit, a missing comma, a comma at the
    end. *)
Theorem parse_cpass_takes_lists_of_passes (arg : string) :
  ((exists bitset, parse_cpass arg = Returned bitset) <->
   (exists passes, cpass_list passes /\ arg = cpass_arg passes)) /\
  ((forall passes, cpass_list passes -> arg <> cpass_arg passes) ->
   parse_cpass arg = Exited 1).
Proof.
  assert (Hiff : (exists bitset, parse_cpass arg = Returned bitset) <->
                 (exists passes, cpass_list passes /\ arg = cpass_arg passes)).
  { split.
    - intros [b H]. unfold parse_cpass in H.
      destruct (parse_cpass_loop arg 0) as [b'|] eqn:E; [|discriminate].
      destruct (Cpass.parse_cpass_loop_grammar (String.length arg) arg 0 b'
                  (le_n _) E) as (passes & Ea & Hp).
      exists passes. split; [|exact Ea]. split; [|exact Hp].
      intros ->. subst arg. discriminate.
    - intros (passes & [Hne Hp] & ->).
      destruct (Cpass.parse_cpass_loop_accepts passes 0 Hp) as (b & Hb & _).
      exists b. unfold parse_cpass. rewrite Hb.
      destruct passes as [|k [|k2 rest]]; [contradiction| |]; reflexivity. }
  split; [exact Hiff|].
  intros Hno. unfold parse_cpass.
  destruct (parse_cpass_loop arg 0) as [b|] eqn:E; [|reflexivity].
  destruct arg as [|ch rest] eqn:Ea; [reflexivity|]. exfalso.
  assert (Hr : exists bitset, parse_cpass arg = Returned bitset).
  { exists b. unfold parse_cpass. subst arg. rewrite E. reflexivity. }
  rewrite Ea in Hr. apply Hiff in Hr. destruct Hr as (passes & Hl & Hp).
  exact (Hno passes Hl Hp).
Qed.

(** X5.  For a list of pass numbers from 0 to 3, [parse_cpass] leaves in
    [cpass_bitset] the bit [k - 1] set exactly when the list names the
    pass [k]; the pass number 0 sets no bit, so the bitset is below 8. *)
Theorem parse_cpass_sets_the_bits_of_the_passes (passes : list nat) :
  cpass_list passes ->
  exists bitset,
    parse_cpass (cpass_arg passes) = Returned bitset /\
    (forall k, (1 <= k)%nat ->
       Z.testbit bitset (Z.of_nat k - 1) = true <-> In k passes) /\
    0 <= bitset < 8.
Proof.
  intros [Hne Hp].
  destruct (Cpass.parse_cpass_loop_accepts passes 0 Hp) as (b & Hb & Hbits).
  exists b. split; [|split].
  - unfold parse_cpass. rewrite Hb.
    destruct passes as [|k [|k2 rest]]; [contradiction| |]; reflexivity.
  - intros k Hk. rewrite Hbits by lia. rewrite Z.testbit_0_l. cbn [orb].
    rewrite existsb_exists. split.
    + intros (x & Hx & E). apply Z.eqb_eq in E.
      replace k with x by lia. exact Hx.
    + intros Hin. exists k. split; [exact Hin|]. apply Z.eqb_eq. lia.
  - assert (Hhigh : forall j, 3 <= j -> Z.testbit b j = false).
    { intros j Hj. rewrite Hbits by lia. rewrite Z.testbit_0_l. cbn [orb].
      destruct (existsb (fun k => Z.of_nat k =? j + 1) passes) eqn:E; [|reflexivity].
      apply existsb_exists in E. destruct E as (x & Hx & E).
      apply Z.eqb_eq in E. specialize (Hp x Hx). lia. }
    assert (Hnn : 0 <= b).
    { apply Z.bits_iff_nonneg_ex. exists 3. intros m Hm. apply Hhigh. lia. }
    split; [exact Hnn|].
    destruct (Z_lt_le_dec b 8) as [Hlt|Hge]; [exact Hlt|exfalso].
    assert (Hlog : 3 <= Z.log2 b) by (apply (Z.log2_le_mono 8 b) in Hge; exact Hge).
    pose proof (Z.bit_log2 b ltac:(lia)) as Hbit.
    rewrite Hhigh in Hbit by exact Hlog. discriminate.
Qed.

Lemma parse_cpass_sets_the_bits_of_the_passes_witness :
  exists bitset,
    parse_cpass "3,0,1" = Returned bitset /\
    (forall k, (1 <= k)%nat ->
       Z.testbit bitset (Z.of_nat k - 1) = true <-> In k [3; 0; 1]%nat) /\
    0 <= bitset < 8.
Proof.
  apply (parse_cpass_sets_the_bits_of_the_passes [3; 0; 1]%nat).
  split; [discriminate|].
  intros k Hk. cbn in Hk. repeat (destruct Hk as [<-|Hk]; [lia|]). destruct Hk.
Defined.

Module Files.

Section Stat.

Variable stat : string -> option Stat.

Lemma check_identical_same iname oname mapname :
  check_identical stat iname oname mapname =
  same_file stat iname oname
  || match mapname with
     | Some m => same_file stat iname m || same_file stat oname m
     | None => false
     end.
Proof.
  unfold check_identical, same_file.
  destruct (String.eqb iname oname) eqn:Eio; cbn [negb orb]; [reflexivity|].
  destruct (same_inode (stat iname) (stat oname)); cbn [orb]; [reflexivity|].
  destruct mapname as [m|]; [|reflexivity].
  destruct (String.eqb iname m) eqn:Eim; cbn [negb orb]; [reflexivity|].
  destruct (same_inode (stat iname) (stat m)); cbn [orb]; [reflexivity|].
  destruct (String.eqb oname m || same_inode (stat oname) (stat m)); reflexivity.
Qed.

End Stat.

End Files.

(** X6.  [check_files] lets the program go on only when both the input
    and the output file are named, no two of the input file, the output
    file and the mapfile are the same name or the same file, the
    mapfile is a regular file if it exists, and an output file that
    exists and is no regular file is written to only in generate mode
    or under [--force] without extending, preallocating or sparse
    writes; and it lets the program go on whenever all this holds. *)
Theorem check_files_refuses_files_that_are_the_same
    (stat : string -> option Stat) (iname oname mapname : option string)
    (min_outfile_size : Z) (force generate preallocate sparse : bool) :
  check_files stat iname oname mapname min_outfile_size force generate
    preallocate sparse = true <->
  exists i o,
    iname = Some i /\ oname = Some o /\
    same_file stat i o = false /\
    (forall m, mapname = Some m ->
       same_file stat i m = false /\ same_file stat o m = false /\
       special_file stat m = false) /\
    (special_file stat o = true ->
     generate = true \/
     (force = true /\ min_outfile_size <= 0 /\ preallocate = false /\ sparse = false)).
Proof.
  unfold check_files. split.
  - destruct iname as [i|]; [|discriminate]. destruct oname as [o|]; [|discriminate].
    rewrite Files.check_identical_same.
    destruct (same_file stat i o) eqn:Eio; cbn [orb]; [discriminate|].
    intros H. exists i, o. split; [reflexivity|]. split; [reflexivity|].
    split; [exact Eio|].
    destruct mapname as [m|].
    + destruct (same_file stat i m) eqn:Eim; cbn [orb] in H; [discriminate|].
      destruct (same_file stat o m) eqn:Eom; cbn [orb] in H; [discriminate|].
      fold (special_file stat m) in H.
      destruct (special_file stat m) eqn:Em; [discriminate|].
      fold (special_file stat o) in H.
      split.
      * intros m' E. inversion E; subst m'. auto.
      * intros Ho. rewrite Ho, andb_true_r in H.
        destruct generate; [left; reflexivity|right]. cbn [negb andb] in H.
        destruct (Z.ltb_spec 0 min_outfile_size); [discriminate|].
        destruct force; [|discriminate]. destruct preallocate; [discriminate|].
        destruct sparse; [discriminate|]. repeat split; auto.
    + fold (special_file stat o) in H. split; [intros m' E; discriminate|].
      intros Ho. rewrite Ho, andb_true_r in H.
      destruct generate; [left; reflexivity|right]. cbn [negb andb] in H.
      destruct (Z.ltb_spec 0 min_outfile_size); [discriminate|].
      destruct force; [|discriminate]. destruct preallocate; [discriminate|].
      destruct sparse; [discriminate|]. repeat split; auto.
  - intros (i & o & -> & -> & Eio & Hm & Ho).
    rewrite Files.check_identical_same, Eio. cbn [orb].
    fold (special_file stat o).
    assert (Hout : negb generate
                   && ((0 <? min_outfile_size) || negb force || preallocate || sparse)
                   && special_file stat o = false).
    { destruct (special_file stat o); [|apply andb_false_r].
      destruct (Ho eq_refl) as [-> |(-> & Hmin & -> & ->)]; [reflexivity|].
      replace (0 <? min_outfile_size) with false by (symmetry; apply Z.ltb_ge; lia).
      cbn. rewrite andb_false_r. reflexivity. }
    destruct mapname as [m|].
    + destruct (Hm m eq_refl) as (Eim & Eom & Em). rewrite Eim, Eom. cbn [orb].
      fold (special_file stat m). rewrite Em, Hout. reflexivity.
    + rewrite Hout. reflexivity.
Qed.

Section Sizes.

Variable strtonum : string -> Z -> bool -> option Z.
Variable DVDREAD : bool.

(** What the option loop keeps true of the sector size and of the
    cluster size. *)
Lemma process_options_sizes codes : forall m m',
  1 <= hardbs m <= max_hardbs -> 0 <= cluster m <= INT_MAX ->
  process_options strtonum DVDREAD m codes = Returned m' ->
  1 <= hardbs m' <= max_hardbs /\ 0 <= cluster m' <= INT_MAX.
Proof.
  induction codes as [|c codes IH]; intros m m' Hh Hc Hr; cbn [process_options] in Hr.
  - inversion Hr; subst. auto.
  - apply bind_Returned in Hr. destruct Hr as (m1 & H1 & H2).
    apply (IH m1 m'); [| |exact H2].
    + destruct c; cbn [process_option] in H1.
      * apply bind_Returned in H1. destruct H1 as (m2 & H1 & H3).
        inversion H3; subst m1. cbn [hardbs].
        destruct (hardbs_at_default m); cbn [negb] in H1.
        -- inversion H1; subst. exact Hh.
        -- apply bind_Returned in H1. destruct H1 as (n & Hn & H4).
           inversion H4; subst m2. cbn [hardbs].
           apply getnum_limits in Hn. exact Hn.
      * apply bind_Returned in H1. destruct H1 as (n & Hn & H3).
        inversion H3; subst m1. exact Hh.
      * apply bind_Returned in H1. destruct H1 as (rb & Hn & H3).
        inversion H3; subst m1. exact Hh.
      * destruct DVDREAD; [|discriminate]. inversion H1; subst m1. cbn [hardbs].
        destruct (hardbs_at_default m); [unfold max_hardbs, max_max_skipbs; lia|exact Hh].
      * inversion H1; subst. exact Hh.
    + destruct c; cbn [process_option] in H1.
      * apply bind_Returned in H1. destruct H1 as (m2 & H1 & H3).
        inversion H3; subst m1. cbn [cluster].
        destruct (hardbs_at_default m); cbn [negb] in H1.
        -- inversion H1; subst. exact Hc.
        -- apply bind_Returned in H1. destruct H1 as (n & Hn & H4).
           inversion H4; subst m2. exact Hc.
      * apply bind_Returned in H1. destruct H1 as (n & Hn & H3).
        inversion H3; subst m1. cbn [cluster].
        apply getnum_limits in Hn. lia.
      * apply bind_Returned in H1. destruct H1 as (rb & Hn & H3).
        inversion H3; subst m1. exact Hc.
      * destruct DVDREAD; [|discriminate]. inversion H1; subst m1. exact Hc.
      * inversion H1; subst. exact Hc.
Qed.

(** X7.  Whatever the options are, when [main] has scanned them the
    sector size is at least 1 and at most 1 GiB, the cluster size is
    at least 1 sector, and a cluster of sectors is less than [INT_MAX]
    bytes, the largest size that [readblock] and [writeblock] take. *)
Theorem cluster_of_sectors_fits_an_int (codes : list Option_code) (m : Main_vars) :
  scan_arguments strtonum DVDREAD codes = Returned m ->
  1 <= hardbs m <= max_hardbs /\ 1 <= cluster m /\
  cluster m * hardbs m < INT_MAX.
Proof.
  unfold scan_arguments. intros H.
  apply bind_Returned in H. destruct H as (m0 & H0 & H1).
  inversion H1; subst m. clear H1.
  destruct (process_options_sizes codes Main_vars_init m0) as [Hh Hc];
    [unfold Main_vars_init; cbn [hardbs];
     unfold default_hardbs, max_hardbs, max_max_skipbs; lia
    |unfold Main_vars_init; cbn [cluster]; unfold INT_MAX; lia
    |exact H0|].
  unfold settle_sizes. cbn [hardbs cluster].
  unfold max_hardbs, max_max_skipbs, INT_MAX, cluster_bytes, default_hardbs in *.
  replace (hardbs m0 <? 1) with false by (symmetry; apply Z.ltb_ge; lia).
  set (h := hardbs m0) in *. set (c := cluster m0) in *.
  rewrite !Z.quot_div_nonneg by lia.
  pose proof (Z.mul_div_le 2147483647 h ltac:(lia)) as Q1.
  pose proof (Z.mul_div_le 65536 h ltac:(lia)) as Q2.
  assert (Q3 : 1 <= 2147483647 / h)
    by (apply Z.div_le_lower_bound; lia).
  assert (Q4 : 0 <= 65536 / h) by (apply Z.div_pos; lia).
  set (q := 2147483647 / h) in *. set (r := 65536 / h) in *.
  split; [lia|].
  assert (Hc1 : forall c1, 1 <= c1 <= q - 1 -> c1 * h < 2147483647).
  { intros c1 H1.
    assert (c1 * h <= (q - 1) * h) by (apply Z.mul_le_mono_nonneg_r; lia).
    lia. }
  destruct (Z.leb_spec q c) as [A|A].
  - destruct (Z.ltb_spec (q - 1) 1) as [B|B].
    + destruct (Z.ltb_spec r 1) as [C|C]; split; try lia.
    + replace (q - 1 <? 1) with false by (symmetry; apply Z.ltb_ge; lia).
      split; [lia|]. apply Hc1. lia.
  - destruct (Z.ltb_spec c 1) as [B|B].
    + destruct (Z.ltb_spec r 1) as [C|C]; split; try lia.
    + replace (c <? 1) with false by (symmetry; apply Z.ltb_ge; lia).
      split; [lia|]. apply Hc1. lia.
Qed.

End Sizes.

Lemma cluster_of_sectors_fits_an_int_witness :
  1 <= 2048 <= max_hardbs /\ 1 <= 1048574 /\ 1048574 * 2048 < INT_MAX.
Proof.
  apply (cluster_of_sectors_fits_an_int strtonum_decimal true
           [opt_dvd; opt_c "2147483647"]
           (mkMain 1048574 true 2048 Rb_options_default true)).
  reflexivity.
Defined.

(* ================================================================== *)
(** * The types of --change-types and --create-logfile *)

Module Types.

Import Vector Dom.

Lemma append_nil_r s : String.append s EmptyString = s.
Proof. induction s as [|c s IH]; [reflexivity|]. cbn. rewrite IH. reflexivity. Qed.

Lemma append_assoc a b c :
  String.append (String.append a b) c = String.append a (String.append b c).
Proof. induction a as [|x a IH]; [reflexivity|]. cbn. rewrite IH. reflexivity. Qed.

Lemma length_append a b :
  String.length (String.append a b) = (String.length a + String.length b)%nat.
Proof. induction a as [|x a IH]; [reflexivity|]. cbn. rewrite IH. reflexivity. Qed.

Lemma length_fill n c : String.length (string_fill n c) = n.
Proof. induction n as [|n IH]; [reflexivity|]. cbn. rewrite IH. reflexivity. Qed.

Lemma status_string_append a b :
  status_string (String.append a b) = status_string a && status_string b.
Proof.
  induction a as [|x a IH]; [reflexivity|]. cbn. rewrite IH, andb_assoc. reflexivity.
Qed.

Lemma status_string_fill n c : isstatus c = true -> status_string (string_fill n c) = true.
Proof. intros H. induction n as [|n IH]; [reflexivity|]. cbn. rewrite H, IH. reflexivity. Qed.

Lemma status_string_back s :
  s <> EmptyString -> status_string s = true -> isstatus (string_back s) = true.
Proof.
  induction s as [|c s IH]; intros Hne H; [contradiction|].
  cbn in H. apply andb_prop in H. destruct H as [Hc Hs].
  destruct s as [|c2 s]; [exact Hc|]. apply IH; [discriminate|exact Hs].
Qed.

Lemma status_string_get s : forall j,
  status_string s = true -> (j < String.length s)%nat ->
  exists c, String.get j s = Some c /\ isstatus c = true.
Proof.
  induction s as [|x s IH]; intros j H Hj; [cbn in Hj; lia|].
  cbn in H. apply andb_prop in H. destruct H as [Hx Hs].
  destruct j as [|j]; [exists x; split; [reflexivity|exact Hx]|].
  cbn [String.get]. apply IH; [exact Hs|cbn in Hj; lia].
Qed.

Lemma string_find_length s c j :
  string_find s c = Some j -> (j < String.length s)%nat.
Proof.
  revert j. induction s as [|x s IH]; intros j H; [discriminate|].
  cbn in H. destruct (Ascii.eqb x c); [inversion H; cbn; lia|].
  destruct (string_find s c) as [k|]; [|discriminate].
  inversion H; subst. specialize (IH k eq_refl). cbn. lia.
Qed.

Lemma Status_of_char_char s : Status_of_char (Status_char s) = Some s.
Proof. destruct s; reflexivity. Qed.

Lemma Status_of_char_Some c s : Status_of_char c = Some s -> c = Status_char s.
Proof.
  unfold Status_of_char.
  destruct (Ascii.eqb_spec c "?"); [intros H; inversion H; subst; reflexivity|].
  destruct (Ascii.eqb_spec c "*"); [intros H; inversion H; subst; reflexivity|].
  destruct (Ascii.eqb_spec c "/"); [intros H; inversion H; subst; reflexivity|].
  destruct (Ascii.eqb_spec c "-"); [intros H; inversion H; subst; reflexivity|].
  destruct (Ascii.eqb_spec c "+"); [intros H; inversion H; subst; reflexivity|].
  discriminate.
Qed.

Lemma isstatus_char c : isstatus c = true -> exists s, c = Status_char s.
Proof.
  unfold isstatus. destruct (Status_of_char c) as [s|] eqn:E; [|discriminate].
  intros _. exists s. apply Status_of_char_Some. exact E.
Qed.

Lemma isstatus_Status_char s : isstatus (Status_char s) = true.
Proof. destruct s; reflexivity. Qed.

Lemma Status_char_inj a b : Status_char a = Status_char b -> a = b.
Proof.
  intros H. apply (f_equal Status_of_char) in H.
  rewrite !Status_of_char_char in H. inversion H. reflexivity.
Qed.

Lemma isstatus_not_comma c : isstatus c = true -> Ascii.eqb c "," = false.
Proof. intros H. destruct (isstatus_char c H) as [s ->]. destruct s; reflexivity. Qed.

(** After the comma the loop takes the characters of statuses. *)
Lemma set_types_loop_after arg : forall a b,
  status_string arg = true ->
  set_types_loop arg true a b = Some (a, String.append b arg).
Proof.
  induction arg as [|c arg IH]; intros a b H.
  - cbn. rewrite append_nil_r. reflexivity.
  - cbn in H. apply andb_prop in H. destruct H as [Hc Hs].
    cbn [set_types_loop]. rewrite (isstatus_not_comma c Hc), Hc. cbn [negb].
    rewrite (IH a _ Hs), append_assoc. reflexivity.
Qed.

Lemma set_types_loop_before x : forall y a b,
  status_string x = true ->
  set_types_loop (String.append x (String "," y)) false a b =
  set_types_loop y true (String.append a x) b.
Proof.
  induction x as [|c x IH]; intros y a b H.
  - cbn. rewrite append_nil_r. reflexivity.
  - cbn in H. apply andb_prop in H. destruct H as [Hc Hs].
    cbn [String.append set_types_loop].
    rewrite (isstatus_not_comma c Hc), Hc. cbn [negb].
    rewrite (IH y _ b Hs), append_assoc. reflexivity.
Qed.

Lemma set_types_loop_after_inv arg : forall a b t1 t2,
  set_types_loop arg true a b = Some (t1, t2) ->
  status_string arg = true /\ t1 = a /\ t2 = String.append b arg.
Proof.
  induction arg as [|c arg IH]; intros a b t1 t2 H.
  - cbn in H. inversion H; subst. rewrite append_nil_r. auto.
  - cbn [set_types_loop] in H.
    destruct (Ascii.eqb c ","); [discriminate|].
    destruct (isstatus c) eqn:Hc; [|discriminate]. cbn [negb] in H.
    apply IH in H. destruct H as (Hs & -> & ->).
    cbn. rewrite Hc, Hs, append_assoc. auto.
Qed.

Lemma set_types_loop_before_inv arg : forall a b t1 t2,
  set_types_loop arg false a b = Some (t1, t2) ->
  (status_string arg = true /\ t1 = String.append a arg /\ t2 = b) \/
  exists x y,
    arg = String.append x (String "," y) /\
    status_string x = true /\ status_string y = true /\
    t1 = String.append a x /\ t2 = String.append b y.
Proof.
  induction arg as [|c arg IH]; intros a b t1 t2 H.
  - cbn in H. inversion H; subst. left. rewrite append_nil_r. auto.
  - cbn [set_types_loop] in H.
    destruct (Ascii.eqb_spec c ",") as [->|Hn].
    + apply set_types_loop_after_inv in H. destruct H as (Hs & -> & ->).
      right. exists EmptyString, arg. rewrite append_nil_r. auto.
    + destruct (isstatus c) eqn:Hc; [|discriminate]. cbn [negb] in H.
      apply IH in H. destruct H as [(Hs & -> & ->)|(x & y & -> & Hx & Hy & -> & ->)].
      * left. cbn. rewrite Hc, Hs, append_assoc. auto.
      * right. exists (String c x), y. cbn. rewrite Hc, Hx, append_assoc. auto.
Qed.

Lemma length_zero s : (String.length s =? 0)%nat = true <-> s = EmptyString.
Proof.
  destruct s; cbn; split; intros H; try reflexivity; discriminate.
Qed.

Lemma padded_types_long t1 nt :
  (String.length t1 <= String.length nt)%nat -> padded_types t1 nt = nt.
Proof.
  intros H. unfold padded_types.
  replace (String.length t1 - String.length nt)%nat with 0%nat by lia.
  apply append_nil_r.
Qed.

(** What [set_types] returns. *)
Lemma set_types_result ot nt :
  ot <> EmptyString -> nt <> EmptyString ->
  status_string ot = true -> status_string nt = true ->
  set_types (String.append ot (String "," nt)) = Returned (ot, padded_types ot nt).
Proof.
  intros Ho Hn Hso Hsn. unfold set_types.
  rewrite (set_types_loop_before ot nt _ _ Hso), (set_types_loop_after nt _ _ Hsn).
  cbn [String.append].
  destruct (String.length ot =? 0)%nat eqn:E1;
    [apply length_zero in E1; contradiction|].
  destruct (String.length nt =? 0)%nat eqn:E2;
    [apply length_zero in E2; contradiction|].
  cbn [orb].
  destruct (Nat.ltb_spec (String.length nt) (String.length ot)); [reflexivity|].
  rewrite padded_types_long by lia. reflexivity.
Qed.

Lemma set_types_inv arg t1 t2 :
  set_types arg = Returned (t1, t2) ->
  exists nt,
    arg = String.append t1 (String "," nt) /\
    t1 <> EmptyString /\ nt <> EmptyString /\
    status_string t1 = true /\ status_string nt = true /\
    t2 = padded_types t1 nt.
Proof.
  unfold set_types. intros H.
  destruct (set_types_loop arg false EmptyString EmptyString) as [[a b]|] eqn:E;
    [|discriminate].
  apply set_types_loop_before_inv in E.
  destruct ((String.length a =? 0)%nat || (String.length b =? 0)%nat) eqn:Ez;
    [discriminate|].
  apply orb_false_elim in Ez. destruct Ez as [Ea Eb].
  assert (Hane : a <> EmptyString)
    by (intros ->; discriminate).
  assert (Hbne : b <> EmptyString)
    by (intros ->; discriminate).
  destruct E as [(_ & _ & ->)|(x & y & -> & Hx & Hy & -> & ->)];
    [contradiction|].
  cbn [String.append] in *. exists y.
  destruct (Nat.ltb_spec (String.length y) (String.length x)) as [Hl|Hl];
    inversion H; subst; repeat split; auto.
  symmetry. apply padded_types_long. exact Hl.
Qed.

Lemma padded_types_ok t1 nt :
  nt <> EmptyString -> status_string nt = true ->
  status_string (padded_types t1 nt) = true /\
  (String.length t1 <= String.length (padded_types t1 nt))%nat.
Proof.
  intros Hn Hs. unfold padded_types. split.
  - rewrite status_string_append, Hs.
    rewrite status_string_fill; [reflexivity|].
    apply status_string_back; assumption.
  - rewrite length_append, length_fill. lia.
Qed.

Lemma change_type_block t1 t2 sb : Sblock_block (change_type t1 t2 sb) = Sblock_block sb.
Proof.
  unfold change_type.
  destruct (string_find t1 (Status_char (status sb))); [|reflexivity].
  destruct (String.get n t2); [|reflexivity].
  destruct (Status_of_char a); reflexivity.
Qed.

Lemma change_sblock_block d t1 t2 sb :
  Sblock_block (change_sblock d t1 t2 sb) = Sblock_block sb.
Proof.
  unfold change_sblock. destruct (Domain_includes d sb); [|reflexivity].
  apply change_type_block.
Qed.

Lemma change_types_loop_map d t1 t2 v :
  Domain_ordered d = true -> contiguous v = true ->
  change_types_loop d t1 t2 v = map (change_sblock d t1 t2) v.
Proof.
  intros Hd. induction v as [|sb v IH]; intros Hc; [reflexivity|].
  destruct (contiguous_cons _ _ Hc) as (Hs & Hc' & Ha).
  cbn [change_types_loop map]. unfold change_sblock at 1.
  destruct (Domain_includes d sb) eqn:Hi; cbn [negb].
  - rewrite IH by exact Hc'. reflexivity.
  - unfold Domain_lt. destruct (Domain_end d <=? pos sb) eqn:He.
    + apply Z.leb_le in He. f_equal. symmetry.
      rewrite <- (map_id v) at 2. apply map_ext_in. intros x Hx.
      unfold change_sblock.
      rewrite (none_included_past_end d sb v Hd Hc He x (or_intror Hx)).
      reflexivity.
    + rewrite IH by exact Hc'. reflexivity.
Qed.

End Types.

(** X8.  [set_types] returns exactly on the arguments of the form
    "ot,nt" where ot and nt are non-empty strings of status characters
    (so with exactly one comma), and exits with status 1 on all others;
    it returns ot as the old types and nt as the new types, with the
    last character of nt repeated until there are as many new types as
    old ones. *)
Theorem set_types_splits_at_the_comma (arg types1 types2 : string) :
  (set_types arg = Returned (types1, types2) <->
   exists nt,
     arg = String.append types1 (String "," nt) /\
     types1 <> EmptyString /\ nt <> EmptyString /\
     status_string types1 = true /\ status_string nt = true /\
     types2 = padded_types types1 nt) /\
  (set_types arg = Exited 1 \/ exists t1 t2, set_types arg = Returned (t1, t2)) /\
  (set_types arg = Returned (types1, types2) ->
   status_string types2 = true /\
   (String.length types1 <= String.length types2)%nat).
Proof.
  split; [split|split].
  - apply Types.set_types_inv.
  - intros (nt & -> & H1 & H2 & H3 & H4 & ->).
    apply Types.set_types_result; assumption.
  - unfold set_types.
    destruct (set_types_loop arg false EmptyString EmptyString) as [[a b]|];
      [|left; reflexivity].
    destruct ((String.length a =? 0)%nat || (String.length b =? 0)%nat);
      [left; reflexivity|].
    right. destruct (String.length b <? String.length a)%nat; eauto.
  - intros H. apply Types.set_types_inv in H.
    destruct H as (nt & _ & _ & Hn & _ & Hs & ->).
    apply Types.padded_types_ok; assumption.
Qed.

(** X9.  With the types that [set_types] returns for [--change-types],
    [change_types] prints a logfile in which every byte of an sblock of
    the domain whose type is the [j]-th old type has the [j]-th new
    type, which always exists, and every byte of another type or of an
    sblock outside the domain has the status it had. *)
Theorem change_types_after_set_types
    (arg types1 types2 : string) (d : Domain) (v : list Sblock) :
  set_types arg = Returned (types1, types2) ->
  Domain_ordered d = true -> contiguous v = true -> Domain_size d <> 0 ->
  exists R,
    change_types d (Some v) types1 types2 = Returned R /\
    forall (sb : Sblock) p,
      In sb v -> Block_includes_pos sb p = true ->
      (Domain_includes d sb = false ->
       status_at (sblock_vector R) p = Some (status sb)) /\
      (string_find types1 (Status_char (status sb)) = None ->
       status_at (sblock_vector R) p = Some (status sb)) /\
      (Domain_includes d sb = true ->
       forall j, string_find types1 (Status_char (status sb)) = Some j ->
         exists st,
           String.get j types2 = Some (Status_char st) /\
           status_at (sblock_vector R) p = Some st).
Proof.
  intros Hset Hd Hc Hn. apply Z.eqb_neq in Hn.
  apply Types.set_types_inv in Hset.
  destruct Hset as (nt & _ & _ & Hnt & _ & Hsnt & ->).
  destruct (Types.padded_types_ok types1 nt Hnt Hsnt) as [Hst Hlen].
  unfold change_types, verify_logname_and_domain.
  cbn [Logbook_open logfile_exists_ domain_ negb sblock_vector bind]. rewrite Hn.
  cbn [bind]. eexists. split; [reflexivity|].
  cbn [compact_sblock_vector with_vector sblock_vector].
  rewrite (Types.change_types_loop_map d types1 _ v Hd Hc).
  intros sb p Hin Hp.
  rewrite Compact.status_at_compact
    by (rewrite Compact.contiguous_map; auto using Types.change_sblock_block).
  rewrite (Compact.status_at_map (change_sblock d types1 (padded_types types1 nt)) v sb p
             (Types.change_sblock_block d types1 _) Hc Hin Hp).
  unfold change_sblock, change_type.
  split; [intros ->; reflexivity|]. split.
  - intros ->. destruct (Domain_includes d sb); reflexivity.
  - intros -> j Hj. rewrite Hj.
    pose proof (Types.string_find_length _ _ _ Hj) as Hjl.
    destruct (Types.status_string_get (padded_types types1 nt) j Hst ltac:(lia))
      as (c & Hg & Hcs).
    destruct (Types.isstatus_char c Hcs) as [st ->].
    exists st. rewrite Hg, Types.Status_of_char_char. split; reflexivity.
Qed.

Lemma change_types_after_set_types_witness :
  exists R,
    change_types [mkBlock 0 8192]
      (Some [sbl 0 4096 non_tried; sbl 4096 512 non_split; sbl 4608 3584 finished])
      "?/*" "-++" = Returned R /\
    status_at (sblock_vector R) 0 = Some bad_sector /\
    status_at (sblock_vector R) 4100 = Some finished /\
    status_at (sblock_vector R) 5000 = Some finished.
Proof.
  destruct (change_types_after_set_types "?/*,-+" "?/*" "-++" [mkBlock 0 8192]
              [sbl 0 4096 non_tried; sbl 4096 512 non_split; sbl 4608 3584 finished]
              eq_refl eq_refl eq_refl ltac:(discriminate)) as (R & HR & Hs).
  exists R. split; [exact HR|].
  destruct (Hs (sbl 0 4096 non_tried) 0 ltac:(cbn; auto) eq_refl) as (_ & _ & H1).
  destruct (Hs (sbl 4096 512 non_split) 4100 ltac:(cbn; auto) eq_refl) as (_ & _ & H2).
  destruct (Hs (sbl 4608 3584 finished) 5000 ltac:(cbn; auto) eq_refl) as (_ & H3 & _).
  destruct (H1 eq_refl 0%nat eq_refl) as (st1 & G1 & S1).
  destruct (H2 eq_refl 1%nat eq_refl) as (st2 & G2 & S2).
  cbn in G1, G2. inversion G1 as [E1]. inversion G2 as [E2].
  apply (Types.Status_char_inj bad_sector st1) in E1.
  apply (Types.Status_char_inj finished st2) in E2. subst st1 st2.
  split; [exact S1|]. split; [exact S2|]. apply H3. reflexivity.
Defined.

(** X10.  [set_types] for [--create-logfile] leaves the two statuses as
    they are on the empty argument, takes them from an argument of two
    different status characters, and exits with status 1 on every other
    argument; so the two statuses of create mode, which differ at the
    start, always differ. *)
Theorem set_types_create_keeps_the_types_apart
    (arg : string) (type1 type2 t1 t2 : Status) :
  (set_types_create arg type1 type2 = Returned (t1, t2) <->
   (arg = EmptyString /\ t1 = type1 /\ t2 = type2) \/
   (t1 <> t2 /\
    arg = String (Status_char t1) (String (Status_char t2) EmptyString))) /\
  (set_types_create arg type1 type2 = Exited 1 \/
   exists s1 s2, set_types_create arg type1 type2 = Returned (s1, s2)) /\
  (type1 <> type2 -> set_types_create arg type1 type2 = Returned (t1, t2) ->
   t1 <> t2).
Proof.
  assert (Hiff : set_types_create arg type1 type2 = Returned (t1, t2) <->
     (arg = EmptyString /\ t1 = type1 /\ t2 = type2) \/
     (t1 <> t2 /\
      arg = String (Status_char t1) (String (Status_char t2) EmptyString))).
  { split.
    - unfold set_types_create. intros H.
      destruct arg as [|a [|b [|c rest]]]; try discriminate.
      + inversion H; subst. left. auto.
      + destruct (Ascii.eqb_spec a b) as [->|Hab]; [discriminate|]. cbn [orb] in H.
        destruct (Status_of_char a) as [s1|] eqn:Ea;
          [|destruct (negb (isstatus a) || negb (isstatus b)); discriminate].
        destruct (Status_of_char b) as [s2|] eqn:Eb;
          [|destruct (negb (isstatus a) || negb (isstatus b)); discriminate].
        destruct (negb (isstatus a) || negb (isstatus b)); [discriminate|].
        inversion H; subst s1 s2.
        apply Types.Status_of_char_Some in Ea. apply Types.Status_of_char_Some in Eb.
        subst a b. right. split; [|reflexivity]. intros ->. apply Hab. reflexivity.
    - intros [(-> & -> & ->)|(Hne & ->)]; [reflexivity|].
      unfold set_types_create.
      destruct (Ascii.eqb_spec (Status_char t1) (Status_char t2)) as [E|_];
        [apply Types.Status_char_inj in E; contradiction|].
      rewrite !Types.isstatus_Status_char, !Types.Status_of_char_char. reflexivity. }
  split; [exact Hiff|]. split.
  - unfold set_types_create.
    destruct arg as [|a [|b [|c rest]]]; try (left; reflexivity);
      [right; eauto|].
    destruct (Ascii.eqb a b || negb (isstatus a) || negb (isstatus b));
      [left; reflexivity|].
    destruct (Status_of_char a), (Status_of_char b); eauto.
  - intros Hne H. apply Hiff in H.
    destruct H as [(_ & -> & ->)|[H _]]; assumption.
Qed.

Lemma set_types_create_keeps_the_types_apart_witness :
  non_trimmed <> finished.
Proof.
  apply (proj2 (proj2 (set_types_create_keeps_the_types_apart "*+"
                         finished bad_sector non_trimmed finished))).
  - discriminate.
  - reflexivity.
Defined.

(* ================================================================== *)
(** * Comparing two logfiles *)

Module Compare.

Import Vector Dom.

Lemma Sblock_eqb_eq (a b : Sblock) : Sblock_eqb a b = true <-> a = b.
Proof.
  unfold Sblock_eqb, Block_eqb. destruct a as [[pa sa] ta], b as [[pb sb] tb].
  cbn [Sblock_block pos size status]. split.
  - intros H. apply andb_prop in H. destruct H as [H Ht].
    apply andb_prop in H. destruct H as [Hp Hs].
    apply Z.eqb_eq in Hp. apply Z.eqb_eq in Hs. apply Status_eqb_eq in Ht.
    subst. reflexivity.
  - intros H. inversion H; subst. rewrite !Z.eqb_refl, Status_eqb_refl. reflexivity.
Qed.

(** [find_index] and [sblock] find an sblock of a contiguous vector
    from its position. *)
Lemma found_at_its_position d2 vB (sb : Sblock) :
  contiguous vB = true -> 0 < size sb ->
  (find_index (mkLogbook 0 d2 1 vB true) (pos sb) <? 0)
  || negb (Sblock_eqb
             (sblock (mkLogbook 0 d2 1 vB true)
                (find_index (mkLogbook 0 d2 1 vB true) (pos sb))) sb) = false
  <-> In sb vB.
Proof.
  intros Hc Hs. unfold find_index, sblock. cbn [sblock_vector]. split.
  - intros H. apply orb_false_elim in H. destruct H as [Hj He].
    destruct (vfind_index vB (pos sb)) as [k|] eqn:Ek; [|discriminate].
    rewrite Nat2Z.id in He. apply negb_false_iff in He. apply Sblock_eqb_eq in He.
    destruct (vfind_index_Some _ _ _ Ek) as (pre & x & post & -> & <- & _).
    rewrite vget_seam in He. subst x. apply in_or_app. right. left. reflexivity.
  - intros Hin. destruct (in_split _ _ Hin) as (pre & post & ->).
    destruct (contiguous_split _ _ _ Hc) as (Hpre & _ & _).
    rewrite (vfind_index_seam pre sb post (pos sb) Hpre)
      by (unfold Block_includes_pos, Block_end; Z_to_bool; lia).
    rewrite Nat2Z.id, vget_seam.
    replace (Sblock_eqb sb sb) with true by (symmetry; apply Sblock_eqb_eq; reflexivity).
    replace (Z.of_nat (length pre) <? 0) with false
      by (symmetry; apply Z.ltb_ge; lia).
    reflexivity.
Qed.

Lemma compare_logfiles_loop_values d lb2 v :
  compare_logfiles_loop d lb2 v = 0 \/ compare_logfiles_loop d lb2 v = 1.
Proof.
  induction v as [|sb v IH]; [left; reflexivity|]. cbn [compare_logfiles_loop].
  destruct (negb (Domain_includes d sb)).
  - destruct (Domain_lt d sb); [left; reflexivity|exact IH].
  - destruct (_ || _); [right; reflexivity|exact IH].
Qed.

Lemma compare_logfiles_loop_spec d d2 vB v :
  Domain_ordered d = true -> contiguous vB = true -> contiguous v = true ->
  compare_logfiles_loop d (mkLogbook 0 d2 1 vB true) v = 0 <->
  forall sb : Sblock, In sb v -> Domain_includes d sb = true -> In sb vB.
Proof.
  intros Hd HcB. induction v as [|sb v IH]; intros Hc.
  - cbn. split; [intros _ sb []|reflexivity].
  - destruct (contiguous_cons _ _ Hc) as (Hs & Hc' & _).
    cbn [compare_logfiles_loop].
    destruct (Domain_includes d sb) eqn:Hi; cbn [negb].
    + destruct (_ || _) eqn:Ef.
      * split; [discriminate|]. intros H. exfalso.
        assert (Hin : In sb vB) by (apply H; [left; reflexivity|exact Hi]).
        apply (found_at_its_position d2 vB sb HcB Hs) in Hin.
        rewrite Hin in Ef. discriminate.
      * apply (found_at_its_position d2 vB sb HcB Hs) in Ef.
        rewrite (IH Hc'). split.
        -- intros H x [<-|Hx] Hix; [exact Ef|apply H; assumption].
        -- intros H x Hx Hix. apply H; [right; exact Hx|exact Hix].
    + unfold Domain_lt. destruct (Z.leb_spec (Domain_end d) (pos sb)) as [He|He].
      * split; [|reflexivity]. intros _ x Hx Hix. exfalso.
        destruct Hx as [<-|Hx]; [rewrite Hi in Hix; discriminate|].
        rewrite (none_included_past_end d sb v Hd Hc He x (or_intror Hx)) in Hix.
        discriminate.
      * rewrite (IH Hc'). split.
        -- intros H x [<-|Hx] Hix; [rewrite Hi in Hix; discriminate|].
           apply H; assumption.
        -- intros H x Hx Hix. apply H; [right; exact Hx|exact Hix].
Qed.

End Compare.

(** X11.  [compare_logfiles] returns 0 exactly when the two logbooks
    have the same domain and every sblock of the first logfile that
    lies in the domain is an sblock of the second logfile, with its
    position, its size and its status; it returns 1 otherwise.  So a
    logfile does not differ from itself. *)
Theorem compare_logfiles_finds_every_sblock
    (d d2 : Domain) (vA vB : list Sblock) :
  Domain_ordered d = true -> Domain_size d <> 0 -> Domain_size d2 <> 0 ->
  contiguous vA = true -> contiguous vB = true ->
  (compare_logfiles d d2 (Some vA) (Some vB) = Returned 0 <->
   Domain_eqb d d2 = true /\
   forall sb : Sblock, In sb vA -> Domain_includes d sb = true -> In sb vB) /\
  (compare_logfiles d d2 (Some vA) (Some vB) = Returned 0 \/
   compare_logfiles d d2 (Some vA) (Some vB) = Returned 1) /\
  compare_logfiles d d (Some vA) (Some vA) = Returned 0.
Proof.
  intros Hd Hn Hn2 HcA HcB.
  apply Z.eqb_neq in Hn. apply Z.eqb_neq in Hn2.
  assert (Hrefl : forall x, Domain_eqb x x = true).
  { induction x as [|D x IH]; [reflexivity|]. cbn. rewrite IH.
    unfold Block_eqb. rewrite !Z.eqb_refl. reflexivity. }
  unfold compare_logfiles, verify_logname_and_domain.
  cbn [Logbook_open logfile_exists_ domain_ negb sblock_vector bind].
  rewrite Hn, Hn2. cbn [bind].
  split; [|split].
  - destruct (Domain_eqb d d2) eqn:Ed; cbn [negb].
    + rewrite <- (Compare.compare_logfiles_loop_spec d d2 vB vA Hd HcB HcA).
      split.
      * intros H. injection H as E. split; [reflexivity|exact E].
      * intros [_ H]. rewrite H. reflexivity.
    + split; [discriminate|]. intros [H _]. discriminate.
  - destruct (Domain_eqb d d2); cbn [negb]; [|right; reflexivity].
    destruct (Compare.compare_logfiles_loop_values d (mkLogbook 0 d2 1 vB true) vA)
      as [-> | ->]; auto.
  - rewrite Hrefl. cbn [negb].
    rewrite (proj2 (Compare.compare_logfiles_loop_spec d d vA vA Hd HcA HcA));
      [reflexivity|]. intros sb Hin _. exact Hin.
Qed.

Lemma compare_logfiles_finds_every_sblock_witness :
  compare_logfiles [mkBlock 0 4096] [mkBlock 0 4096]
    (Some [sbl 0 2048 finished; sbl 2048 2048 bad_sector; sbl 4096 512 non_tried])
    (Some [sbl 0 2048 finished; sbl 2048 2048 bad_sector; sbl 4096 100 finished])
  = Returned 0.
Proof.
  apply (proj1 (compare_logfiles_finds_every_sblock [mkBlock 0 4096] [mkBlock 0 4096]
           [sbl 0 2048 finished; sbl 2048 2048 bad_sector; sbl 4096 512 non_tried]
           [sbl 0 2048 finished; sbl 2048 2048 bad_sector; sbl 4096 100 finished]
           eq_refl ltac:(discriminate) ltac:(discriminate) eq_refl eq_refl)).
  split; [reflexivity|].
  intros sb Hin Hi. cbn in Hin.
  destruct Hin as [<-|[<-|[<-|[]]]]; cbn; auto. discriminate Hi.
Defined.

(** X12.  When [compare_logfiles] returns 0, every byte of the domain
    that the first logfile holds has the same status in the second
    logfile. *)
Theorem compared_logfiles_agree_on_the_domain
    (d d2 : Domain) (vA vB : list Sblock) (p : Z) (a : Status) :
  Domain_ordered d = true -> Domain_size d <> 0 -> Domain_size d2 <> 0 ->
  mapfile_ok d vA = true -> contiguous vB = true ->
  compare_logfiles d d2 (Some vA) (Some vB) = Returned 0 ->
  in_domain d p = true -> status_at vA p = Some a ->
  status_at vB p = Some a.
Proof.
  intros Hd Hn Hn2 HA HcB H Hp Ha.
  unfold mapfile_ok in HA. apply andb_prop in HA. destruct HA as [HcA HbA].
  apply Z.eqb_neq in Hn. apply Z.eqb_neq in Hn2.
  unfold compare_logfiles, verify_logname_and_domain in H.
  cbn [Logbook_open logfile_exists_ domain_ negb sblock_vector bind] in H.
  rewrite Hn, Hn2 in H. cbn [bind] in H.
  destruct (Domain_eqb d d2); cbn [negb] in H; [|discriminate].
  injection H as E.
  destruct (Vector.status_at_Some _ _ _ Ha) as (sb & Hin & Hsp & <-).
  apply (Vector.status_at_In vB sb p HcB); [|exact Hsp].
  apply (proj1 (Compare.compare_logfiles_loop_spec d d2 vB vA Hd HcB HcA) E sb Hin).
  apply (Dom.in_domain_included d vA sb p HbA Hin Hsp Hp).
Qed.

Lemma compared_logfiles_agree_on_the_domain_witness :
  status_at [sbl 0 2048 finished; sbl 2048 2048 bad_sector; sbl 4096 100 finished]
    3000 = Some bad_sector.
Proof.
  apply (compared_logfiles_agree_on_the_domain [mkBlock 0 4096] [mkBlock 0 4096]
           [sbl 0 2048 finished; sbl 2048 2048 bad_sector; sbl 4096 512 non_tried]
           [sbl 0 2048 finished; sbl 2048 2048 bad_sector; sbl 4096 100 finished]
           3000 bad_sector
           eq_refl ltac:(discriminate) ltac:(discriminate) eq_refl eq_refl
           eq_refl eq_refl eq_refl).
Defined.

(* ================================================================== *)
(** * The sizes and the areas of the status summary *)

Module Summary.

Import Vector Dom Replace.

Lemma show_status_step_size s (sb : Sblock) :
  summary_size (show_status_step s sb) = summary_size s + size sb.
Proof.
  unfold summary_size, show_status_step.
  destruct (status sb); cbn; lia.
Qed.

Lemma included_size_outside d (v : list Sblock) :
  (forall x, In x v -> Domain_includes d x = false) -> included_size d v = 0.
Proof.
  induction v as [|sb v IH]; intros H; [reflexivity|].
  cbn [included_size fold_right]. rewrite (H sb (or_introl eq_refl)).
  fold (included_size d v). rewrite IH; [reflexivity|].
  intros x Hx. apply H. right. exact Hx.
Qed.

Lemma show_status_loop_size d v :
  Domain_ordered d = true -> contiguous v = true ->
  forall s,
    summary_size (show_status_loop d v s) = summary_size s + included_size d v.
Proof.
  intros Hd. induction v as [|sb v IH]; intros Hc s; [cbn; lia|].
  destruct (contiguous_cons _ _ Hc) as (Hs & Hc' & Ha).
  cbn [show_status_loop included_size fold_right]. fold (included_size d v).
  destruct (Domain_includes d sb) eqn:Hi; cbn [negb].
  - rewrite (IH Hc'), show_status_step_size. lia.
  - unfold Domain_lt. destruct (Z.leb_spec (Domain_end d) (pos sb)) as [He|He].
    + rewrite included_size_outside; [lia|].
      intros x Hx. apply (none_included_past_end d sb v Hd Hc He). right. exact Hx.
    + rewrite (IH Hc'). reflexivity.
Qed.

(** The sblocks inside a block of the domain hold the bytes of the
    block that the vector holds. *)
Lemma size_inside_block D v : forall lo,
  contiguous v = true -> seam_at v lo ->
  (forall sb : Sblock, In sb v ->
     Block_includes D sb || Block_disjoint D sb = true) ->
  size_inside D v =
  Z.max 0 (Z.min (Block_end D) (lo + vsize v) - Z.max (pos D) lo).
Proof.
  induction v as [|sb v IH]; intros lo Hc Hq Hb.
  - cbn. lia.
  - cbn [seam_at] in Hq. subst lo.
    destruct (contiguous_cons _ _ Hc) as (Hs & Hc' & _).
    cbn [size_inside fold_right]. fold (size_inside D v). rewrite vsize_cons.
    pose proof (vsize_nonneg v Hc') as Hv.
    rewrite (IH (Block_end sb) Hc');
      [|destruct v as [|y v]; [exact I|apply (contiguous_cons_touch _ _ _ Hc)]
       |intros x Hx; apply Hb; right; exact Hx].
    specialize (Hb sb (or_introl eq_refl)).
    unfold Block_includes, Block_disjoint, Block_end in *.
    destruct ((pos D <=? pos sb) && (pos sb + size sb <=? pos D + size D)) eqn:Ei.
    + apply andb_prop in Ei. destruct Ei as [E1 E2].
      apply Z.leb_le in E1. apply Z.leb_le in E2. lia.
    + cbn [orb] in Hb. apply orb_prop in Hb.
      destruct Hb as [E|E]; apply Z.leb_le in E; lia.
Qed.

Lemma Domain_includes_cons D d (sb : Block) :
  Domain_includes (D :: d) sb = Block_includes D sb || Domain_includes d sb.
Proof. reflexivity. Qed.

Lemma included_size_cons D d v :
  Domain_ordered (D :: d) = true -> contiguous v = true ->
  included_size (D :: d) v = size_inside D v + included_size d v.
Proof.
  intros Hd. induction v as [|sb v IH]; intros Hc; [reflexivity|].
  destruct (contiguous_cons _ _ Hc) as (Hs & Hc' & _).
  cbn [included_size size_inside fold_right].
  fold (included_size (D :: d) v). fold (included_size d v). fold (size_inside D v).
  rewrite (IH Hc'), Domain_includes_cons.
  destruct (Block_includes D sb) eqn:E1; cbn [orb]; [|lia].
  destruct (Domain_includes d sb) eqn:E2; [exfalso|lia].
  apply Domain_includes_In in E2. destruct E2 as (N & HN & HNi).
  destruct (Domain_ordered_cons _ _ Hd) as (_ & _ & Hafter).
  specialize (Hafter N HN).
  unfold Block_includes, Block_end in *. bool_to_Z. lia.
Qed.

Lemma included_size_covered d : forall v,
  Domain_ordered d = true -> contiguous v = true ->
  split_at_domain_borders d v = true -> covers_domain d v = true ->
  included_size d v = Domain_in_size d.
Proof.
  induction d as [|D d IH]; intros v Hd Hc Hb Hcov.
  - cbn [Domain_in_size fold_right]. apply included_size_outside.
    intros x _. reflexivity.
  - destruct (Domain_ordered_cons _ _ Hd) as (HsD & Hd' & _).
    rewrite (included_size_cons D d v Hd Hc).
    cbn [Domain_in_size fold_right]. fold (Domain_in_size d).
    unfold covers_domain in Hcov. cbn [forallb] in Hcov.
    apply andb_prop in Hcov. destruct Hcov as [HcD Hcov].
    rewrite (IH v Hd' Hc); [| |exact Hcov].
    + rewrite (size_inside_block D v (pos (vget v 0)) Hc).
      * unfold Block_includes, Block_end in HcD. cbn [pos size] in HcD.
        apply andb_prop in HcD. destruct HcD as [E1 E2].
        apply Z.leb_le in E1. apply Z.leb_le in E2. unfold Block_end. lia.
      * destruct v; [exact I|reflexivity].
      * intros sb Hsb. unfold split_at_domain_borders in Hb.
        rewrite forallb_forall in Hb. specialize (Hb sb Hsb).
        cbn [forallb] in Hb. apply andb_prop in Hb. apply Hb.
    + unfold split_at_domain_borders in *. rewrite forallb_forall in *.
      intros sb Hsb. specialize (Hb sb Hsb). cbn [forallb] in Hb.
      apply andb_prop in Hb. apply Hb.
Qed.

Lemma area_starts_with_error s (sb : Sblock) :
  areas_invariant_holds s -> good s = true -> good_status (status sb) = false ->
  first_block s || negb (Status_eqb (status sb) (old_status s)) = true.
Proof.
  intros [_ Hg] Hgood Hbad.
  destruct (first_block s); [reflexivity|]. cbn [orb].
  specialize (Hg eq_refl). rewrite Hgood in Hg.
  destruct (Status_eqb (status sb) (old_status s)) eqn:E; [|reflexivity].
  apply Status_eqb_eq in E. rewrite E, <- Hg in Hbad. discriminate.
Qed.

Lemma show_status_step_areas s (sb : Sblock) :
  areas_invariant_holds s -> areas_invariant_holds (show_status_step s sb).
Proof.
  intros H. pose proof (area_starts_with_error s sb H) as Hsc.
  destruct H as [He Hg].
  unfold areas_invariant_holds, error_areas, show_status_step, incr_if in *.
  destruct (status sb) eqn:Es; rewrite ?Es in Hsc;
    cbn [errors areas_non_trimmed areas_non_split areas_bad_sector
         first_block good old_status];
    (split; [|intros _; reflexivity]); try lia;
    (destruct (good s);
     [rewrite (Hsc eq_refl eq_refl); lia
     |destruct (first_block s || negb (Status_eqb _ (old_status s))); lia]).
Qed.

Lemma show_status_loop_areas d v : forall s,
  areas_invariant_holds s -> areas_invariant_holds (show_status_loop d v s).
Proof.
  induction v as [|sb v IH]; intros s H; [exact H|].
  cbn [show_status_loop].
  destruct (negb (Domain_includes d sb)).
  - destruct (Domain_lt d sb); [exact H|]. apply IH.
    destruct H as [He _]. split; [exact He|]. cbn. discriminate.
  - apply IH. apply show_status_step_areas. exact H.
Qed.

End Summary.

(** X13.  For a logfile that holds the domain, the five sizes that the
    status summary prints (rescued, non-tried, non-trimmed, non-split
    and bad-sector) add up to the size of the domain, so that the
    percentages it prints add up to the whole. *)
Theorem show_status_sizes_add_up_to_the_domain (d : Domain) (v : list Sblock) :
  Domain_ordered d = true -> Domain_size d <> 0 ->
  mapfile_ok d v = true -> covers_domain d v = true ->
  exists s,
    do_show_status d (Some v) = Returned s /\
    summary_size s = Domain_in_size d.
Proof.
  intros Hd Hn Hv Hcov. apply Z.eqb_neq in Hn.
  unfold mapfile_ok in Hv. apply andb_prop in Hv. destruct Hv as [Hc Hb].
  unfold do_show_status, verify_logname_and_domain.
  cbn [Logbook_open logfile_exists_ domain_ negb sblock_vector bind]. rewrite Hn.
  cbn [bind]. eexists. split; [reflexivity|].
  rewrite (Summary.show_status_loop_size d v Hd Hc).
  rewrite (Summary.included_size_covered d v Hd Hc Hb Hcov). reflexivity.
Qed.

Lemma show_status_sizes_add_up_to_the_domain_witness :
  exists s,
    do_show_status [mkBlock 0 1024; mkBlock 2048 2048]
      (Some [sbl 0 512 finished; sbl 512 512 bad_sector; sbl 1024 1024 bad_sector;
             sbl 2048 512 bad_sector; sbl 2560 512 non_trimmed; sbl 3072 1024 non_tried;
             sbl 4096 4096 non_tried])
    = Returned s /\
    summary_size s = 3072.
Proof.
  apply (show_status_sizes_add_up_to_the_domain [mkBlock 0 1024; mkBlock 2048 2048]
           [sbl 0 512 finished; sbl 512 512 bad_sector; sbl 1024 1024 bad_sector;
            sbl 2048 512 bad_sector; sbl 2560 512 non_trimmed; sbl 3072 1024 non_tried;
            sbl 4096 4096 non_tried]
           eq_refl ltac:(discriminate) eq_refl eq_refl).
Defined.

(** X14.  The status summary never counts more errors than it counts
    areas of the three types that make an error (non-trimmed, non-split
    and bad-sector): every error starts with an sblock that also starts
    an area of its type. *)
Theorem show_status_errors_are_at_most_the_error_areas
    (d : Domain) (logfile : option (list Sblock)) (s : Show_status) :
  do_show_status d logfile = Returned s -> errors s <= error_areas s.
Proof.
  unfold do_show_status. intros H.
  destruct (verify_logname_and_domain (Logbook_open 0 d 1 logfile));
    cbn [bind] in H; try discriminate.
  injection H as <-.
  apply Summary.show_status_loop_areas.
  split; [cbn; lia|]. cbn. discriminate.
Qed.

Lemma show_status_errors_are_at_most_the_error_areas_witness :
  1 <= 2.
Proof.
  apply (show_status_errors_are_at_most_the_error_areas [mkBlock 0 4096]
           (Some [sbl 0 512 finished; sbl 512 512 bad_sector; sbl 1024 1024 non_split;
                  sbl 2048 2048 non_tried])
           (mkShow 2048 0 1024 512 512 1 0 1 1 1 1 non_tried false true)).
  reflexivity.
Defined.

(* ================================================================== *)
(** * Listing the blocks of a created logfile *)

Module RoundTrip.

Import Vector Dom Replace ChunkStatus Create.

(** ** The vector that [truncate_vector] leaves *)

Lemma truncate_head v e : forall y rest,
  truncate v e = y :: rest -> pos y = pos (vget v 0).
Proof.
  destruct v as [|sb v]; intros y rest H; [discriminate|].
  cbn [truncate] in H. change (vget (sb :: v) 0) with sb.
  destruct (e <=? pos sb); [discriminate|].
  destruct (e <? Block_end sb); inversion H; reflexivity.
Qed.

Lemma contiguous_truncate v e :
  contiguous v = true -> contiguous (truncate v e) = true.
Proof.
  induction v as [|sb v IH]; intros Hc; [reflexivity|].
  destruct (contiguous_cons _ _ Hc) as (Hs & Hc' & _).
  cbn [truncate].
  destruct (Z.leb_spec e (pos sb)); [reflexivity|].
  destruct (Z.ltb_spec e (Block_end sb)).
  - cbn. apply andb_true_intro. split; [|reflexivity].
    apply andb_true_intro. split; [apply Z.ltb_lt; lia|reflexivity].
  - apply contiguous_cons_intro; [exact Hs|apply IH; exact Hc'|].
    intros y r E. rewrite (truncate_head v e y r E).
    destruct v as [|x v]; [discriminate|].
    apply (contiguous_cons_touch _ _ _ Hc).
Qed.

Lemma split_at_domain_borders_truncate d v e :
  contiguous v = true -> split_at_domain_borders d v = true ->
  split_at_domain_borders d (truncate v e) = true.
Proof.
  induction v as [|sb v IH]; intros Hc Hb; [reflexivity|].
  destruct (contiguous_cons _ _ Hc) as (Hs & Hc' & _).
  rewrite split_at_domain_borders_cons in Hb.
  apply andb_prop in Hb. destruct Hb as [Hsb Hv].
  cbn [truncate].
  destruct (Z.leb_spec e (pos sb)); [reflexivity|].
  destruct (Z.ltb_spec e (Block_end sb)).
  - rewrite split_at_domain_borders_cons. apply andb_true_intro.
    split; [|reflexivity].
    apply (borders_ok_sub d sb _ Hsb).
    unfold Block_includes, Block_end in *. cbn [pos size Sblock_block].
    Z_to_bool; lia.
  - rewrite split_at_domain_borders_cons, Hsb, (IH Hc' Hv). reflexivity.
Qed.

Lemma truncate_nonempty v e p :
  contiguous v = true -> status_at v p <> None -> p < e -> truncate v e <> [].
Proof.
  destruct v as [|sb v]; intros Hc Hp He; [cbn in Hp; contradiction|].
  cbn [truncate].
  destruct (Z.leb_spec e (pos sb)) as [H|H].
  - exfalso. apply Hp.
    apply (status_at_starts_after (sb :: v) (pos sb) p
             (starts_after_contiguous sb v Hc)). lia.
  - destruct (e <? Block_end sb); discriminate.
Qed.

Section Lines.

Variable Block_new : Z -> Z -> Block.
Variable d : Domain.
Variable hardbs : Z.
Variable type1 : Status.
Hypothesis Block_new_plain : Block_constructor Block_new.
Hypothesis d_separated : Domain_separated d = true.
Hypothesis hardbs_positive : 0 < hardbs.

(** The loop of [create_logfile] keeps what it relies on. *)
Lemma create_logfile_loop_keeps o e stdin : forall v,
  create_invariant d hardbs v ->
  forallb (accepted hardbs) stdin = true ->
  forallb (plain_block hardbs) stdin = true ->
  exists v',
    create_logfile_loop Block_new hardbs type1 (mkLogbook o d hardbs v e) stdin
    = Returned (mkLogbook o d hardbs v' e) /\
    create_invariant d hardbs v' /\
    (forall p, status_at v' p =
               if marked d hardbs stdin p then Some type1 else status_at v p).
Proof.
  induction stdin as [|line rest IH]; intros v Hinv Hacc Hplain.
  - exists v. split; [reflexivity|]. split; [exact Hinv|reflexivity].
  - cbn [forallb] in Hacc. apply andb_prop in Hacc. destruct Hacc as [Hl Hrest].
    cbn [forallb] in Hplain. apply andb_prop in Hplain.
    destruct Hplain as [Hpl Hprest].
    destruct line as [block|]; [|discriminate].
    cbn [create_logfile_loop domain_].
    rewrite (Create.Block_new_line Block_new hardbs Block_new_plain
               hardbs_positive block Hpl).
    replace (Z.quot LLONG_MAX hardbs <? block) with false.
    2:{ symmetry. unfold accepted in Hl. apply Z.leb_le in Hl.
        rewrite Z.quot_div_nonneg by (unfold LLONG_MAX; lia).
        apply Z.ltb_ge. exact Hl. }
    destruct (Domain_includes d (mkBlock (block * hardbs) hardbs)) eqn:Hi.
    + destruct (mark_block d hardbs type1 d_separated hardbs_positive
                  o e v block Hinv Hi) as (v1 & -> & Hinv1 & Hs1).
      destruct (IH v1 Hinv1 Hrest Hprest) as (v' & -> & Hinv' & Hs').
      exists v'. split; [reflexivity|]. split; [exact Hinv'|].
      intros p. rewrite (marked_cons d hardbs), Hi, Hs', Hs1. cbn [andb].
      destruct (Block_includes_pos (mkBlock (block * hardbs) hardbs) p);
        destruct (marked d hardbs rest p); reflexivity.
    + destruct (IH v Hinv Hrest Hprest) as (v' & -> & Hinv' & Hs').
      exists v'. split; [reflexivity|]. split; [exact Hinv'|].
      intros p. rewrite (marked_cons d hardbs), Hi, Hs'. reflexivity.
Qed.

(** The bytes of the blocks that the lines name. *)
Lemma marked_block stdin p :
  marked d hardbs stdin p = true <->
  exists n, In (Some n) stdin /\
            Domain_includes d (mkBlock (n * hardbs) hardbs) = true /\
            n * hardbs <= p < n * hardbs + hardbs.
Proof.
  unfold marked. rewrite existsb_exists. split.
  - intros ([n|] & Hin & H); [|discriminate].
    apply andb_prop in H. destruct H as [Hi Hp].
    unfold Block_includes_pos, Block_end in Hp. cbn [pos size] in Hp.
    bool_to_Z. exists n. repeat split; auto.
  - intros (n & Hin & Hi & Hp). exists (Some n). split; [exact Hin|].
    rewrite Hi. unfold Block_includes_pos, Block_end. cbn [pos size andb].
    Z_to_bool; lia.
Qed.

End Lines.

Lemma string_find_one c x :
  string_find (String c EmptyString) x = (if Ascii.eqb c x then Some O else None).
Proof. cbn. destruct (Ascii.eqb c x); reflexivity. Qed.

Lemma listed_one d type1 (sb : Sblock) :
  listed d (String (Status_char type1) EmptyString) sb = true <->
  Domain_includes d sb = true /\ status sb = type1.
Proof.
  unfold listed. rewrite string_find_one.
  destruct (Domain_includes d sb); cbn [andb]; [|split; [discriminate|intros [H _]; discriminate]].
  destruct (Ascii.eqb_spec (Status_char type1) (Status_char (status sb))) as [E|E].
  - apply Types.Status_char_inj in E. split; auto.
  - split; [discriminate|]. intros [_ H]. subst. contradiction.
Qed.

End RoundTrip.

(** X15.  Listing the blocks of the first type of a logfile made by
    create mode gives back the block numbers that create mode read,
    when these are not negative and their blocks end at or below
    [LLONG_MAX] (blocks as spec 3 has them, of which [Block_new], the
    constructor of [Block], holds the two numbers): [to_badblocks], on
    the logfile that [create_logfile] writes (read back as any
    contiguous vector split at the borders of the domain that gives
    every byte the status it has in that logfile, as the vector itself
    is), prints in ascending order and once each exactly the numbers on
    the standard input whose block lies inside the domain.  The blocks
    it lists end at or below [LLONG_MAX], so the numbers [to_badblocks]
    works with are [long long] numbers. *)
Theorem list_blocks_of_created_logfile
    (Block_new : Z -> Z -> Block)
    (d : Domain) (existing force : bool) (fresh : list Sblock) (hardbs : Z)
    (type1 type2 : Status) (stdin : list (option Z)) :
  Block_constructor Block_new ->
  Domain_separated d = true -> Domain_size d <> 0 -> 0 <= Domain_pos d ->
  fresh_ok d fresh = true -> 0 < hardbs ->
  existing && negb force = false -> type1 <> type2 ->
  forallb (accepted hardbs) stdin = true ->
  forallb (plain_block hardbs) stdin = true ->
  exists R,
    create_logfile Block_new d existing fresh hardbs type1 type2 force stdin true
    = Returned R /\
    contiguous (sblock_vector R) = true /\
    split_at_domain_borders d (sblock_vector R) = true /\
    forall v2,
      contiguous v2 = true -> split_at_domain_borders d v2 = true ->
      (forall p, status_at v2 p = status_at (sblock_vector R) p) ->
      exists out,
        to_badblocks 0 d (Some v2) hardbs (String (Status_char type1) EmptyString)
        = Returned out /\
        ascending_above (-1) out = true /\
        forall n, In n out <->
          In (Some n) stdin /\
          Domain_includes d (mkBlock (n * hardbs) hardbs) = true.
Proof.
  intros HB Hsep Hn Hpos Hf Hh He Hne Hacc Hplain.
  pose proof (ChunkStatus.Domain_separated_ordered d Hsep) as Hd.
  pose proof (Create.fresh_create_invariant d hardbs fresh type2 Hf) as Hinv.
  assert (Hnz := Hn). apply Z.eqb_neq in Hnz.
  destruct (RoundTrip.create_logfile_loop_keeps Block_new d hardbs type1 HB Hsep Hh
              0 false stdin _ Hinv Hacc Hplain) as (v' & Hloop & Hinv' & Hs').
  destruct Hinv' as (Hc' & Hb' & Hcov' & _).
  (* the first block of the domain lies below the end of the domain *)
  assert (Hfirst : exists p, p < Domain_end d /\ status_at v' p <> None).
  { unfold fresh_ok in Hf. apply andb_prop in Hf. destruct Hf as [Hf Hcover].
    apply andb_prop in Hf. destruct Hf as [Hf _].
    apply andb_prop in Hf. destruct Hf as [Hcf _].
    destruct d as [|D0 d0]; [cbn in Hn; contradiction|].
    assert (HD0 : In D0 (D0 :: d0)) by (left; reflexivity).
    pose proof (Dom.Domain_ordered_end _ Hd D0 HD0) as Hend.
    destruct (Dom.Domain_ordered_cons _ _ Hd) as (Hs0 & _ & _).
    assert (Hlt : pos D0 < Domain_end (D0 :: d0)).
    { unfold Domain_size, Domain_pos in Hn. cbn [hd] in Hn.
      unfold Block_end in Hend. lia. }
    unfold covers_domain in Hcover. rewrite forallb_forall in Hcover.
    pose proof (Hcover D0 HD0) as H0.
    assert (Hl : forall D, In D (D0 :: d0) -> Block_end D <=
                 pos (vget fresh 0) + vsize fresh).
    { intros D HD. specialize (Hcover D HD).
      unfold Block_includes, Block_end in *. cbn [pos size] in Hcover.
      bool_to_Z. lia. }
    assert (Hlast : Domain_end (D0 :: d0) <= pos (vget fresh 0) + vsize fresh).
    { unfold Domain_end. apply Hl.
      destruct (exists_last (l := D0 :: d0) ltac:(discriminate)) as (l' & a & E).
      rewrite E. rewrite last_last. apply in_or_app. right. left. reflexivity. }
    unfold Block_includes, Block_end in H0. cbn [pos size] in H0.
    apply andb_prop in H0. destruct H0 as [H0 _]. apply Z.leb_le in H0.
    exists (pos D0). split; [exact Hlt|].
    rewrite Hs'. destruct (marked (D0 :: d0) hardbs stdin (pos D0)); [discriminate|].
    rewrite Create.status_at_with_status.
    pose proof (Create.status_at_inside fresh (pos D0) Hcf ltac:(lia)) as Hin.
    destruct (status_at fresh (pos D0)); [discriminate|contradiction]. }
  destruct Hfirst as (p0 & Hp0 & Hp0').
  pose proof (RoundTrip.truncate_nonempty v' (Domain_end d) p0 Hc' Hp0' Hp0) as Hne'.
  assert (HR : create_logfile Block_new d existing fresh hardbs type1 type2 force
                 stdin true
               = Returned (mkLogbook 0 d hardbs (truncate v' (Domain_end d)) false)).
  { unfold create_logfile.
    cbn [logfile_exists_ domain_ sblock_vector with_vector offset_ hardbs_].
    rewrite He, Hnz. unfold with_vector.
    cbn [logfile_exists_ domain_ sblock_vector offset_ hardbs_].
    rewrite Hloop. cbn [bind negb domain_]. unfold truncate_vector.
    cbn [sblock_vector].
    destruct (truncate v' (Domain_end d)); [contradiction|reflexivity]. }
  eexists. split; [exact HR|]. cbn [sblock_vector].
  split; [apply RoundTrip.contiguous_truncate; exact Hc'|].
  split; [apply RoundTrip.split_at_domain_borders_truncate; assumption|].
  intros v2 Hc2 Hb2 Hsame.
  assert (Hst : forall p,
            status_at v2 p = Some type1 <->
            marked d hardbs stdin p = true).
  { intros p. rewrite Hsame, (Create.status_at_truncate v' (Domain_end d) p Hc'), Hs'.
    rewrite Create.status_at_with_status.
    destruct (marked d hardbs stdin p) eqn:Em.
    - split; [reflexivity|]. intros _.
      pose proof (Create.marked_in_domain d hardbs stdin p Em) as Hdom.
      apply Dom.in_domain_In in Hdom. destruct Hdom as (D & HD & HDp).
      pose proof (Dom.Domain_ordered_end d Hd D HD) as Hend.
      unfold Block_includes_pos in HDp. apply andb_prop in HDp.
      destruct HDp as [_ HDp]. apply Z.ltb_lt in HDp.
      replace (p <? Domain_end d) with true by (symmetry; apply Z.ltb_lt; lia).
      reflexivity.
    - split; [|discriminate]. intros H. exfalso.
      destruct (p <? Domain_end d); [|discriminate].
      destruct (status_at fresh p); [|discriminate].
      inversion H. apply Hne. congruence. }
  assert (Hnn : forall sb : Sblock,
             Domain_includes d sb = true -> 0 <= pos sb + 0).
  { intros sb Hi. pose proof (Dom.included_after_Domain_pos d sb Hd Hi). lia. }
  unfold to_badblocks, verify_logname_and_domain.
  cbn [Logbook_open logfile_exists_ domain_ negb sblock_vector offset_ bind].
  rewrite Hnz. cbn [bind].
  destruct (Badblocks.to_badblocks_loop_spec 0 d hardbs
              (String (Status_char type1) EmptyString) Hh Hd Hnn
              v2 (-1) [] Hc2 (or_introl eq_refl) ltac:(lia))
    as (out & Hr & Hasc & Hmem).
  exists out. split; [exact Hr|]. split; [exact Hasc|].
  intros n. rewrite Hmem. split.
  - intros (_ & sb & byte & Hsb & Hl & Hb & ->).
    apply RoundTrip.listed_one in Hl. destruct Hl as [Hi Hty].
    assert (Hm : marked d hardbs stdin byte = true).
    { apply Hst. rewrite <- Hty. apply (Vector.status_at_In v2 sb byte Hc2 Hsb Hb). }
    apply (RoundTrip.marked_block d hardbs) in Hm.
    destruct Hm as (m & Hin & Him & Hbyte).
    replace ((byte + 0) / hardbs) with m; [split; assumption|].
    rewrite Z.add_0_r. apply Z.div_unique with (r := byte - m * hardbs); lia.
  - intros [Hin Hi].
    assert (Hm : marked d hardbs stdin (n * hardbs) = true).
    { apply (RoundTrip.marked_block d hardbs). exists n. repeat split; auto; lia. }
    pose proof (proj2 (Hst (n * hardbs)) Hm) as Hs.
    destruct (Vector.status_at_Some _ _ _ Hs) as (sb & Hsb & Hb & Hty).
    assert (Hdom : in_domain d (n * hardbs) = true)
      by (apply (Create.marked_in_domain d hardbs stdin); exact Hm).
    pose proof (Dom.in_domain_included d v2 sb (n * hardbs) Hb2 Hsb Hb Hdom) as Hisb.
    assert (Hblock : block_of_listed_byte 0 d v2 hardbs
                       (String (Status_char type1) EmptyString) n).
    { exists sb, (n * hardbs). split; [exact Hsb|]. split.
      - apply RoundTrip.listed_one. split; assumption.
      - split; [exact Hb|]. rewrite Z.add_0_r, Z.div_mul; lia. }
    split; [|exact Hblock].
    specialize (Hnn sb Hisb). unfold Block_includes_pos in Hb. bool_to_Z.
    assert (0 <= n * hardbs) by lia.
    assert (0 <= n) by nia. lia.
Qed.

Lemma list_blocks_of_created_logfile_witness :
  exists R,
    create_logfile Block_or_empty [mkBlock 0 2048; mkBlock 4096 2048] false
      [sbl 0 2048 non_tried; sbl 2048 2048 non_tried; sbl 4096 2048 non_tried;
       sbl 6144 (LLONG_MAX - 6144) non_tried]
      512 finished bad_sector false [Some 9; Some 1; Some 5; Some 2; Some 1] true
    = Returned R /\
    to_badblocks 0 [mkBlock 0 2048; mkBlock 4096 2048] (Some (sblock_vector R)) 512 "+"
    = Returned [1; 2; 9].
Proof.
  destruct (list_blocks_of_created_logfile Block_or_empty
              [mkBlock 0 2048; mkBlock 4096 2048] false false
              [sbl 0 2048 non_tried; sbl 2048 2048 non_tried; sbl 4096 2048 non_tried;
               sbl 6144 (LLONG_MAX - 6144) non_tried]
              512 finished bad_sector [Some 9; Some 1; Some 5; Some 2; Some 1]
              Create.Block_or_empty_constructor
              eq_refl ltac:(discriminate) ltac:(cbn; lia) eq_refl eq_refl eq_refl
              ltac:(discriminate) eq_refl eq_refl)
    as (R & HR & Hc & Hb & Hlist).
  exists R. split; [exact HR|].
  destruct (Hlist (sblock_vector R) Hc Hb (fun p => eq_refl)) as (out & Ho & _ & _).
  unfold Status_char in Ho. rewrite Ho. f_equal.
  vm_compute in HR. injection HR as <-. vm_compute in Ho. injection Ho as <-.
  reflexivity.
Defined.

(* ================================================================== *)
(** * The loop of do_logic_ops in OR and XOR mode *)

Module OrXor.

Import Vector Dom Seam Replace Chunk.

Section Loop.

Variables (d d2 : Domain) (vB : list Sblock).
Hypothesis vB_contiguous : contiguous vB = true.
Hypothesis d_ordered : Domain_ordered d = true.

Lemma changed_refl mode p s : changed_where_finished mode d d2 vB p s s.
Proof. left. reflexivity. Qed.

Lemma changed_trans mode p a b c :
  changed_where_finished mode d d2 vB p a b ->
  changed_where_finished mode d d2 vB p b c ->
  changed_where_finished mode d d2 vB p a c.
Proof.
  intros [->|(H1 & H2 & H3 & st & -> & H4)] H; [exact H|].
  destruct H as [->|(_ & _ & _ & st2 & -> & H5)].
  - right. repeat split; auto. exists st. auto.
  - right. repeat split; auto. exists st2. auto.
Qed.

Lemma finished_stays mode p s :
  mode = m_or -> changed_where_finished mode d d2 vB p (Some finished) s ->
  s = Some finished.
Proof.
  intros -> [->|(_ & _ & _ & st & -> & H)]; [reflexivity|].
  cbn in H. apply Status_eqb_eq in H. subst. reflexivity.
Qed.

Lemma logic_measure_bounds suf :
  contiguous suf = true ->
  0 <= logic_measure (mkLogbook 0 d2 1 vB true) suf <= 2 * vsize suf + 1.
Proof.
  intros Hc. pose proof (vsize_nonneg suf Hc).
  unfold logic_measure. destruct suf as [|x v]; [cbn in *; lia|].
  destruct (Block_eqb _ x); lia.
Qed.

Lemma align_end_1 (x : Block) (y : Sblock) :
  (if Block_end x =? Block_end y then x else Block_align_end x 1) = x.
Proof. destruct (Block_end x =? Block_end y); reflexivity. Qed.

(** How [find_chunk] finds a chunk that starts where the block
    starts. *)
Lemma find_chunk_front (b c : Block) :
  0 < size b ->
  c = find_chunk (mkLogbook 0 d2 1 vB true) b finished ->
  0 < size c -> pos c = pos b ->
  exists k (sbB : Sblock),
    pos (vget vB 0) <= pos b /\
    vfind_index vB (pos b) = Some k /\
    vfind_status d2 finished (skipn k vB) = Some sbB /\
    pos sbB <= pos b /\
    Block_includes sbB c = true.
Proof.
  intros Hb ->. unfold find_chunk.
  replace (size b <=? 0) with false by (symmetry; apply Z.leb_gt; lia).
  cbn [sblock_vector domain_ hardbs_].
  destruct (Z.ltb_spec (pos b) (pos (vget vB 0))) as [E1|E1].
  { (* the block starts before the vector: the chunk starts later *)
    cbn [pos size].
    destruct (vfind_index vB (pos (vget vB 0))) as [k|];
      [|cbn [size]; lia].
    destruct (vfind_status d2 finished (skipn k vB)) as [sbB|];
      [|cbn [size]; lia].
    rewrite align_end_1. intros _ Hp. exfalso.
    destruct (Z.ltb_spec (pos (vget vB 0)) (pos sbB));
      destruct (Block_includes sbB _) in Hp; unfold Block_crop in Hp;
      cbn [pos size] in Hp; lia. }
  destruct (vfind_index vB (pos b)) as [k|] eqn:Ek; [|cbn [size]; lia].
  destruct (vfind_status d2 finished (skipn k vB)) as [sbB|] eqn:Es;
    [|cbn [size]; lia].
  rewrite align_end_1.
  destruct (Z.ltb_spec (pos b) (pos sbB)) as [E2|E2].
  { intros _ Hp. exfalso.
    destruct (Block_includes sbB _) in Hp; unfold Block_crop in Hp;
      cbn [pos size] in Hp; lia. }
  intros Hsz Hp. exists k, sbB.
  split; [exact E1|]. split; [first [reflexivity|exact Ek]|].
  split; [first [reflexivity|exact Es]|].
  split; [exact E2|].
  destruct (Block_includes sbB b) eqn:Ei; [exact Ei|].
  unfold Block_crop, Block_includes, Block_end in *. cbn [pos size] in *.
  Z_to_bool; lia.
Qed.

(** A chunk that [find_chunk] finds where the block starts is found
    again as it is. *)
Lemma find_chunk_again (b c : Block) :
  0 < size b ->
  c = find_chunk (mkLogbook 0 d2 1 vB true) b finished ->
  0 < size c -> pos c = pos b ->
  find_chunk (mkLogbook 0 d2 1 vB true) c finished = c.
Proof.
  intros Hb Ec Hsz Hp.
  destruct (find_chunk_front b c Hb Ec Hsz Hp)
    as (k & sbB & E1 & Ek & Es & E2 & Hinc).
  clear Ec. unfold find_chunk.
  replace (size c <=? 0) with false by (symmetry; apply Z.leb_gt; lia).
  cbn [sblock_vector domain_ hardbs_].
  rewrite Hp.
  replace (pos b <? pos (vget vB 0)) with false
    by (symmetry; apply Z.ltb_ge; lia).
  rewrite ?Hp, Ek, Es, ?Hp.
  replace (pos b <? pos sbB) with false by (symmetry; apply Z.ltb_ge; lia).
  rewrite Hinc, align_end_1. reflexivity.
Qed.

Lemma or_xor_loop_spec mode :
  mode = m_or \/ mode = m_xor ->
  forall fuel pre suf,
  contiguous (pre ++ suf) = true ->
  split_at_domain_borders d suf = true ->
  logic_measure (mkLogbook 0 d2 1 vB true) suf < Z.of_nat fuel ->
  exists v',
    logic_loop fuel mode (mkLogbook 0 d2 1 vB true)
      (mkLogbook 0 d 1 (pre ++ suf) true) (Z.of_nat (length pre))
    = Returned (mkLogbook 0 d 1 v' true) /\
    or_xor_done mode d d2 vB (pre ++ suf) suf v'.
Proof.
  intros Hmode.
  induction fuel as [|fuel IH]; intros pre suf Hc Hb Hm.
  { destruct (contiguous_app _ _ Hc) as [_ Hcs].
    pose proof (logic_measure_bounds suf Hcs). simpl in Hm. lia. }
  destruct suf as [|sb post].
  { (* the loop counter has reached the end of the vector *)
    cbn [logic_loop]. rewrite index_at_end. cbn [negb].
    eexists. split; [reflexivity|]. split; [exact Hc|].
    split; [intros p; apply changed_refl|]. intros _ x []. }
  destruct (contiguous_split _ _ _ Hc) as (Hpre & Hs & Hpost).
  destruct (contiguous_app _ _ Hc) as [Hcpre Hcsuf].
  destruct (contiguous_cons _ _ Hcsuf) as (_ & Hcpost & _).
  rewrite split_at_domain_borders_cons in Hb.
  apply andb_prop in Hb. destruct Hb as [Hbsb Hbpost].
  pose proof (logic_measure_bounds post Hcpost) as Hmpost.
  assert (Hmsb : 2 * (size sb + vsize post)
                 <= logic_measure (mkLogbook 0 d2 1 vB true) (sb :: post)).
  { unfold logic_measure. rewrite vsize_cons. destruct (Block_eqb _ sb); lia. }
  (* going on from a later state *)
  assert (Hnext : forall pre1 suf1,
    contiguous (pre1 ++ suf1) = true ->
    split_at_domain_borders d suf1 = true ->
    logic_measure (mkLogbook 0 d2 1 vB true) suf1
      < logic_measure (mkLogbook 0 d2 1 vB true) (sb :: post) ->
    (forall p, changed_where_finished mode d d2 vB p
                 (status_at (pre ++ sb :: post) p) (status_at (pre1 ++ suf1) p)) ->
    (mode = m_or -> forall x : Sblock, In x (sb :: post) ->
       Domain_includes d x = true ->
       forall p, pos x <= p < Block_end x -> finished_from d2 vB (pos x) p ->
       status_at (pre1 ++ suf1) p = Some finished \/
       exists y : Sblock,
         In y suf1 /\ Domain_includes d y = true /\
         pos y <= p < Block_end y /\ finished_from d2 vB (pos y) p) ->
    exists v',
      logic_loop fuel mode (mkLogbook 0 d2 1 vB true)
        (mkLogbook 0 d 1 (pre1 ++ suf1) true) (Z.of_nat (length pre1))
      = Returned (mkLogbook 0 d 1 v' true) /\
      or_xor_done mode d d2 vB (pre ++ sb :: post) (sb :: post) v').
  { intros pre1 suf1 Hc1 Hb1 Hm1 Hch HP.
    destruct (IH pre1 suf1 Hc1 Hb1 ltac:(lia)) as (v' & Hr & Hcv & Hchv & HPv).
    exists v'. split; [exact Hr|]. split; [exact Hcv|]. split.
    - intros p. apply (changed_trans mode p _ (status_at (pre1 ++ suf1) p)); auto.
    - intros Hor x Hx Hix p Hp Hf.
      destruct (HP Hor x Hx Hix p Hp Hf) as [Hfin|(y & Hy & Hiy & Hpy & Hfy)].
      + apply (finished_stays mode p _ Hor). rewrite <- Hfin. apply Hchv.
      + apply (HPv Hor y Hy Hiy p Hpy Hfy). }
  (* stepping over the sblock at the seam, possibly with a new status *)
  assert (Hover : forall st',
    (st' = status sb \/
     (new_status mode st' = true /\ Domain_includes d sb = true /\
      forall p, pos sb <= p < Block_end sb -> finished_chunk_at d2 vB p = true)) ->
    (mode = m_or -> Domain_includes d sb = true ->
     finished_chunk_at d2 vB (pos sb) = true -> st' = finished) ->
    exists v',
      logic_loop fuel mode (mkLogbook 0 d2 1 vB true)
        (mkLogbook 0 d 1 (pre ++ Sblock_with_status sb st' :: post) true)
        (Z.of_nat (length pre) + 1)
      = Returned (mkLogbook 0 d 1 v' true) /\
      or_xor_done mode d d2 vB (pre ++ sb :: post) (sb :: post) v').
  { intros st' Hst HPsb.
    rewrite (next_index pre (Sblock_with_status sb st')).
    replace (pre ++ Sblock_with_status sb st' :: post)
      with ((pre ++ [Sblock_with_status sb st']) ++ post)
      by (rewrite <- app_assoc; reflexivity).
    assert (Hc1 : contiguous (pre ++ Sblock_with_status sb st' :: post) = true).
    { apply (contiguous_suffix_replace pre sb _ post); [exact Hc| |reflexivity].
      apply (contiguous_head_replace sb); auto. }
    apply Hnext.
    - rewrite <- app_assoc. exact Hc1.
    - exact Hbpost.
    - lia.
    - intros p. rewrite <- app_assoc. cbn [app]. rewrite !status_at_app.
      destruct (status_at pre p); [apply changed_refl|]. cbn [status_at].
      change (Block_includes_pos (Sblock_with_status sb st') p)
        with (Block_includes_pos sb p).
      destruct (Block_includes_pos sb p) eqn:Ep; [|apply changed_refl].
      cbn [status Sblock_with_status].
      destruct Hst as [->|(Hnew & Hi & Hfin)]; [apply changed_refl|].
      right. split; [apply (included_in_domain d sb p Hi Ep)|].
      split; [apply Hfin; unfold Block_includes_pos in Ep; bool_to_Z; lia|].
      split; [discriminate|]. exists st'. auto.
    - intros Hor x Hx Hix p Hp Hf. destruct Hx as [<-|Hx].
      + left. rewrite <- app_assoc. cbn [app].
        rewrite (status_at_In _ (Sblock_with_status sb st') p Hc1);
          [|apply in_or_app; right; left; reflexivity
           |unfold Block_includes_pos; cbn [Sblock_with_status Sblock_block];
            Z_to_bool; lia].
        cbn [status Sblock_with_status]. f_equal.
        apply (HPsb Hor Hix). apply Hf. lia.
      + right. exists x. repeat split; auto; lia. }
  cbn [logic_loop]. rewrite index_in_range, sblock_seam. cbn [negb domain_].
  destruct (Domain_includes d sb) eqn:Hi; cbn [negb].
  2:{ unfold Domain_lt. destruct (Z.leb_spec (Domain_end d) (pos sb)) as [He|He].
      - (* past the end of the domain: break *)
        eexists. split; [reflexivity|]. split; [exact Hc|].
        split; [intros p; apply changed_refl|].
        intros _ x Hx Hix.
        rewrite (none_included_past_end d sb post d_ordered Hcsuf He x Hx) in Hix.
        discriminate.
      - (* an sblock outside the domain: continue *)
        destruct (Hover (status sb)) as (v' & Hr & Hd);
          [left; reflexivity|intros _ Hix; discriminate|].
        destruct sb as [bsb ssb]. exists v'. split; [exact Hr|exact Hd]. }
  assert (Hin : forall p, pos sb <= p < Block_end sb -> in_domain d p = true).
  { intros p Hp. apply (included_in_domain d sb p Hi).
    unfold Block_includes_pos. Z_to_bool; lia. }
  pose proof (find_chunk_spec d2 vB vB_contiguous 0 true sb Hs) as Hspec.
  cbv zeta in Hspec.
  pose proof (find_chunk_again sb
                (find_chunk (mkLogbook 0 d2 1 vB true) sb finished) Hs eq_refl)
    as Hagain.
  assert (Hmeasure :
            logic_measure (mkLogbook 0 d2 1 vB true) (sb :: post) =
            2 * (size sb + vsize post)
            + (if Block_eqb (find_chunk (mkLogbook 0 d2 1 vB true) sb finished) sb
               then 0 else 1)) by reflexivity.
  remember (find_chunk (mkLogbook 0 d2 1 vB true) sb finished) as c eqn:Ec in *.
  clear Ec. destruct Hspec as (Hc1 & Hc2 & Hc3).
  (* the passes that look for a chunk of the second logfile *)
  assert (Hbody : forall st,
    status sb <> st -> new_status mode st = true ->
    (mode = m_or -> st = finished) ->
    exists v',
      (if (size c <=? 0) || (Block_end sb <=? pos c)
       then logic_loop fuel mode (mkLogbook 0 d2 1 vB true)
              (mkLogbook 0 d 1 (pre ++ sb :: post) true)
              (Z.of_nat (length pre) + 1)
       else if Block_eqb c sb
       then logic_loop fuel mode (mkLogbook 0 d2 1 vB true)
              (change_sblock_status (mkLogbook 0 d 1 (pre ++ sb :: post) true)
                 (Z.of_nat (length pre)) st)
              (Z.of_nat (length pre) + 1)
       else if pos c =? pos sb
       then match change_chunk_status
                    (mkLogbook 0 d 1 (pre ++ sb :: post) true) c st with
            | None => internal_error
            | Some logbook' =>
                logic_loop fuel mode (mkLogbook 0 d2 1 vB true) logbook'
                  (Z.of_nat (length pre) - 1 + 1)
            end
       else logic_loop fuel mode (mkLogbook 0 d2 1 vB true)
              (split_sblock_by (mkLogbook 0 d 1 (pre ++ sb :: post) true)
                 (Block_end c) (Z.of_nat (length pre)))
              (Z.of_nat (length pre) + 1))
      = Returned (mkLogbook 0 d 1 v' true) /\
      or_xor_done mode d d2 vB (pre ++ sb :: post) (sb :: post) v').
  { intros st Hne Hnew Hor.
    destruct ((size c <=? 0) || (Block_end sb <=? pos c)) eqn:Hnone.
    { (* no finished chunk in the sblock: continue *)
      destruct (Hover (status sb)) as (v' & Hr & Hd); [left; reflexivity| |].
      - intros _ _ Hf. exfalso.
        apply orb_prop in Hnone. destruct Hnone as [Hn|Hn].
        + apply Z.leb_le in Hn.
          rewrite (Hc2 Hn (pos sb)) in Hf by lia. discriminate.
        + apply Z.leb_le in Hn.
          destruct (Z_le_gt_dec (size c) 0) as [Hz|Hz];
            [rewrite (Hc2 Hz (pos sb)) in Hf by lia; discriminate|].
          destruct (Hc3 ltac:(lia)) as (_ & Hcf & _).
          rewrite (Hcf (pos sb)) in Hf; [discriminate|].
          unfold Block_end in *. lia.
      - destruct sb as [bsb ssb]. exists v'. split; [exact Hr|exact Hd]. }
    apply orb_false_elim in Hnone. destruct Hnone as [Hn1 Hn2].
    apply Z.leb_gt in Hn1. apply Z.leb_gt in Hn2.
    destruct (Hc3 ltac:(lia)) as (Hcp & Hcf & Hct). clear Hc2 Hc3.
    destruct (Block_eqb c sb) eqn:Heq.
    { (* the whole sblock is finished in the second logfile *)
      unfold Block_eqb in Heq. apply andb_prop in Heq. destruct Heq as [Heq1 Heq2].
      apply Z.eqb_eq in Heq1. apply Z.eqb_eq in Heq2.
      rewrite change_sblock_status_seam.
      apply Hover.
      - right. split; [exact Hnew|]. split; [reflexivity|]. intros p Hp.
        apply Hct. unfold Block_end in *. lia.
      - intros Hmo _ _. apply Hor. exact Hmo. }
    destruct (Z.eqb_spec (pos c) (pos sb)) as [Hpc|Hpc].
    { (* finished at its beginning: the chunk gets the new status and
         the pass is done again *)
      assert (Hsz : size c < size sb).
      { unfold Block_eqb in Heq. rewrite Hpc, Z.eqb_refl in Heq. cbn [andb] in Heq.
        apply Z.eqb_neq in Heq. lia. }
      specialize (Hagain Hn1 Hpc).
      pose proof Hmeasure as Hdelta. clear Hmeasure Heq.
      destruct c as [pc k]. cbn [pos size] in *. subst pc.
      assert (Hk : 0 < k < size sb) by lia.
      rewrite (change_chunk_status_front 0 d 1 true pre sb post k st Hc Hi Hk Hne).
      replace (Z.of_nat (length pre) - 1 + 1) with (Z.of_nat (length pre)) by lia.
      set (C := mkSblock (mkBlock (pos sb) k) st).
      set (R := mkSblock (mkBlock (pos sb + k) (size sb - k)) (status sb)).
      assert (HcR : contiguous (R :: post) = true).
      { apply (contiguous_head_replace sb); auto; unfold R, Block_end; cbn; lia. }
      assert (HbR : borders_ok d R = true).
      { apply (borders_ok_sub d sb R Hbsb).
        unfold Block_includes, R, Block_end. cbn. Z_to_bool; lia. }
      assert (HiR : Domain_includes d R = true).
      { apply (Domain_includes_sub d sb R Hi).
        unfold Block_includes, R, Block_end. cbn. Z_to_bool; lia. }
      assert (HmR : logic_measure (mkLogbook 0 d2 1 vB true) (R :: post)
                    < logic_measure (mkLogbook 0 d2 1 vB true) (sb :: post)).
      { pose proof (logic_measure_bounds (R :: post) HcR) as HB.
        rewrite vsize_cons in HB. unfold R at 3 in HB. cbn [size Sblock_block] in HB.
        lia. }
      assert (Hchunk : forall p, pos sb <= p < pos sb + k ->
                in_domain d p = true /\ finished_chunk_at d2 vB p = true).
      { intros p Hp. split; [apply Hin; unfold Block_end; lia|].
        apply Hct. unfold Block_end. cbn [pos size]. lia. }
      assert (HPpost : mode = m_or -> forall x : Sblock, In x post ->
                Domain_includes d x = true ->
                forall p, pos x <= p < Block_end x -> finished_from d2 vB (pos x) p ->
                forall pre1 mid,
                status_at (pre1 ++ mid ++ post) p = Some finished \/
                exists y : Sblock,
                  In y (mid ++ post) /\ Domain_includes d y = true /\
                  pos y <= p < Block_end y /\ finished_from d2 vB (pos y) p).
      { intros _ x Hx Hix p Hp Hf pre1 mid. right. exists x.
        split; [apply in_or_app; right; exact Hx|]. auto. }
      assert (Hinserted : exists v',
        logic_loop fuel mode (mkLogbook 0 d2 1 vB true)
          (mkLogbook 0 d 1 (pre ++ C :: R :: post) true) (Z.of_nat (length pre))
        = Returned (mkLogbook 0 d 1 v' true) /\
        or_xor_done mode d d2 vB (pre ++ sb :: post) (sb :: post) v').
      { assert (HcCR : contiguous (C :: R :: post) = true).
        { apply contiguous_cons_intro; [unfold C; cbn; lia|exact HcR|].
          intros y r E. inversion E; subst. unfold C, R, Block_end. cbn. lia. }
        assert (HcAll : contiguous (pre ++ C :: R :: post) = true)
          by (apply (contiguous_suffix_replace pre sb C post); auto).
        apply Hnext.
        - exact HcAll.
        - rewrite !split_at_domain_borders_cons, Hbpost, HbR, andb_true_r.
          apply (borders_ok_sub d sb C Hbsb).
          unfold Block_includes, C, Block_end. cbn. Z_to_bool; lia.
        - rewrite Hdelta. unfold logic_measure.
          change (Sblock_block C) with (mkBlock (pos sb) k). rewrite Hagain.
          rewrite !vsize_cons. unfold C, R, Block_eqb.
          cbn [pos size Sblock_block]. rewrite !Z.eqb_refl. cbn [andb]. lia.
        - intros p. rewrite !status_at_app.
          destruct (status_at pre p); [apply changed_refl|]. cbn [status_at].
          unfold Block_includes_pos, C, R, Block_end.
          cbn [pos size Sblock_block status].
          destruct (Z_le_gt_dec (pos sb) p) as [H1|H1];
            [destruct (Z_lt_le_dec p (pos sb + k)) as [H2|H2]|].
          + destruct (Hchunk p ltac:(lia)) as [Hd1 Hd2].
            right. split; [exact Hd1|]. split; [exact Hd2|].
            replace (pos sb <=? p) with true by (symmetry; apply Z.leb_le; lia).
            replace (p <? pos sb + size sb) with true
              by (symmetry; apply Z.ltb_lt; lia).
            replace (p <? pos sb + k) with true by (symmetry; apply Z.ltb_lt; lia).
            cbn [andb]. split; [discriminate|]. exists st. auto.
          + left. split_tests; try lia; reflexivity.
          + left. split_tests; try lia; reflexivity.
        - intros Hor' x Hx Hix p Hp Hf. destruct Hx as [<-|Hx].
          + destruct (Z_lt_le_dec p (pos sb + k)) as [H2|H2].
            * left. rewrite (status_at_In _ C p HcAll);
                [|apply in_or_app; right; left; reflexivity
                 |unfold Block_includes_pos, C, Block_end;
                  cbn [pos size Sblock_block]; Z_to_bool; lia].
              unfold C. cbn [status]. f_equal. apply Hor. exact Hor'.
            * right. exists R. split; [right; left; reflexivity|].
              split; [exact HiR|]. unfold R, Block_end in *.
              cbn [pos size Sblock_block]. split; [lia|].
              intros r Hr. apply Hf. lia.
          + apply (HPpost Hor' x Hx Hix p Hp Hf pre [C; R]). }
      destruct (rev pre) as [|l rpre] eqn:Er; [exact Hinserted|].
      destruct (Status_eqb (status l) st && Domain_includes d l) eqn:El;
        [|exact Hinserted].
      (* the chunk has joined the sblock before the seam *)
      apply andb_prop in El. destruct El as [El _]. apply Status_eqb_eq in El.
      assert (Ep : pre = rev rpre ++ [l]).
      { apply (f_equal (@rev Sblock)) in Er. rewrite rev_involutive in Er. exact Er. }
      set (l' := inc_size l k).
      assert (Hlen : Z.of_nat (length pre) = Z.of_nat (length (rev rpre ++ [l'])))
        by (rewrite Ep, !length_app; reflexivity).
      rewrite Hlen.
      replace (rev rpre ++ l' :: R :: post) with ((rev rpre ++ [l']) ++ R :: post)
        by (rewrite <- app_assoc; reflexivity).
      assert (Hc0 : contiguous (rev rpre ++ l :: sb :: post) = true)
        by (rewrite Ep, <- app_assoc in Hc; exact Hc).
      destruct (contiguous_split _ _ _ Hc0) as (Hrpre & Hls & _).
      destruct (contiguous_app _ _ Hc0) as [_ Hcl].
      pose proof (contiguous_cons_touch _ _ _ Hcl) as Htouch.
      assert (Hcl' : contiguous (l' :: R :: post) = true).
      { apply contiguous_cons_intro; [unfold l'; cbn; lia|exact HcR|].
        intros y r E. inversion E; subst. unfold l', R, Block_end in *. cbn. lia. }
      assert (HcAll : contiguous (rev rpre ++ l' :: R :: post) = true)
        by (apply (contiguous_suffix_replace (rev rpre) l l' (sb :: post)); auto).
      apply Hnext.
      - rewrite <- app_assoc. cbn [app]. exact HcAll.
      - rewrite split_at_domain_borders_cons, Hbpost, HbR. reflexivity.
      - exact HmR.
      - intros p. rewrite Ep, <- !app_assoc. cbn [app]. rewrite !status_at_app.
        destruct (status_at (rev rpre) p); [apply changed_refl|]. cbn [status_at].
        unfold Block_includes_pos, l', inc_size, R, Block_end in *.
        cbn [pos size Sblock_block status].
        destruct (Z_le_gt_dec (pos sb) p) as [H1|H1];
          [destruct (Z_lt_le_dec p (pos sb + k)) as [H2|H2]|].
        + destruct (Hchunk p ltac:(lia)) as [Hd1 Hd2].
          right. split; [exact Hd1|]. split; [exact Hd2|].
          replace (pos l <=? p) with true by (symmetry; apply Z.leb_le; lia).
          replace (p <? pos l + size l) with false
            by (symmetry; apply Z.ltb_ge; lia).
          replace (p <? pos l + (size l + k)) with true
            by (symmetry; apply Z.ltb_lt; lia).
          replace (pos sb <=? p) with true by (symmetry; apply Z.leb_le; lia).
          replace (p <? pos sb + size sb) with true
            by (symmetry; apply Z.ltb_lt; lia).
          cbn [andb]. split; [discriminate|]. exists st. rewrite El. auto.
        + left. split_tests; try lia; reflexivity.
        + left. split_tests; try lia; reflexivity.
      - intros Hor' x Hx Hix p Hp Hf. destruct Hx as [<-|Hx].
        + destruct (Z_lt_le_dec p (pos sb + k)) as [H2|H2].
          * left. rewrite <- app_assoc. cbn [app].
            rewrite (status_at_In _ l' p HcAll);
              [|apply in_or_app; right; left; reflexivity
               |unfold Block_includes_pos, l', inc_size, Block_end in *;
                cbn [pos size Sblock_block]; Z_to_bool; lia].
            unfold l', inc_size. cbn [status]. rewrite El. f_equal.
            apply Hor. exact Hor'.
          * right. exists R. split; [left; reflexivity|].
            split; [exact HiR|]. unfold R, Block_end in *.
            cbn [pos size Sblock_block]. split; [lia|].
            intros r Hr. apply Hf. lia.
        + apply (HPpost Hor' x Hx Hix p Hp Hf (rev rpre ++ [l']) [R]). }
    (* finished from inside the sblock on: the sblock is split where
       the chunk ends, and the loop goes on after that *)
    assert (Hnot : finished_chunk_at d2 vB (pos sb) = false)
      by (apply Hcf; lia).
    destruct (Z_lt_le_dec (Block_end c) (Block_end sb)) as [Hcut|Hcut].
    - rewrite split_sblock_by_seam by (unfold Block_end in *; lia).
      set (L := mkSblock (mkBlock (pos sb) (Block_end c - pos sb)) (status sb)).
      set (R := mkSblock (mkBlock (Block_end c) (Block_end sb - Block_end c))
                  (status sb)).
      rewrite (next_index pre L).
      replace (pre ++ L :: R :: post) with ((pre ++ [L]) ++ R :: post)
        by (rewrite <- app_assoc; reflexivity).
      assert (HcR : contiguous (R :: post) = true).
      { apply (contiguous_head_replace sb); auto; unfold R, Block_end in *; cbn; lia. }
      assert (HcLR : contiguous (L :: R :: post) = true).
      { apply contiguous_cons_intro; [unfold L, Block_end in *; cbn; lia|exact HcR|].
        intros y r E. inversion E; subst. unfold L, R, Block_end. cbn. lia. }
      apply Hnext.
      + rewrite <- app_assoc. cbn [app].
        apply (contiguous_suffix_replace pre sb L post); auto.
      + rewrite split_at_domain_borders_cons, Hbpost, andb_true_r.
        apply (borders_ok_sub d sb R Hbsb).
        unfold Block_includes, R, Block_end in *. cbn. Z_to_bool; lia.
      + pose proof (logic_measure_bounds (R :: post) HcR) as HB.
        rewrite vsize_cons in HB. unfold R at 3 in HB. cbn [size Sblock_block] in HB.
        unfold Block_end in *. lia.
      + intros p. left. rewrite <- app_assoc. cbn [app]. rewrite !status_at_app.
        destruct (status_at pre p); [reflexivity|]. cbn [status_at].
        unfold Block_includes_pos, L, R, Block_end in *.
        cbn [pos size Sblock_block status].
        split_tests; try lia; reflexivity.
      + intros Hor' x Hx Hix p Hp Hf. destruct Hx as [<-|Hx].
        * rewrite (Hf (pos sb)) in Hnot by lia. discriminate.
        * right. exists x. split; [right; exact Hx|]. auto.
    - rewrite split_sblock_by_outside by (right; exact Hcut).
      destruct (Hover (status sb)) as (v' & Hr & Hd); [left; reflexivity| |].
      + intros _ _ Hf. rewrite Hf in Hnot. discriminate.
      + destruct sb as [bsb ssb]. exists v'. split; [exact Hr|exact Hd]. }
  destruct Hmode as [-> | ->].
  - (* OR *)
    destruct (Status_eqb (status sb) finished) eqn:Hfin.
    + apply Status_eqb_eq in Hfin.
      destruct (Hover (status sb)) as (v' & Hr & Hd);
        [left; reflexivity|intros _ _ _; exact Hfin|].
      destruct sb as [bsb ssb]. exists v'. split; [exact Hr|exact Hd].
    + apply Status_eqb_neq in Hfin.
      apply (Hbody finished); [exact Hfin|reflexivity|reflexivity].
  - (* XOR *)
    apply (Hbody (if Status_eqb (status sb) finished then bad_sector else finished)).
    + destruct (Status_eqb (status sb) finished) eqn:Hfin.
      * apply Status_eqb_eq in Hfin. rewrite Hfin. discriminate.
      * apply Status_eqb_neq in Hfin. exact Hfin.
    + destruct (Status_eqb (status sb) finished); reflexivity.
    + discriminate.
Qed.

End Loop.

(** [do_logic_ops] in OR or XOR mode on two logfiles, each with the
    domain of its logbook. *)
Lemma or_xor_of_logfiles (mode : Mode) (d d2 : Domain) (vA vB : list Sblock) :
  mode = m_or \/ mode = m_xor ->
  Domain_ordered d = true -> Domain_size d <> 0 -> Domain_size d2 <> 0 ->
  mapfile_ok d vA = true -> mapfile_ok d2 vB = true ->
  exists R,
    do_logic_ops d d2 (Some vA) (Some vB) mode = Returned R /\
    (forall p, changed_where_finished mode d d2 vB p
                 (status_at vA p) (status_at (sblock_vector R) p)) /\
    (mode = m_or -> forall x : Sblock, In x vA -> Domain_includes d x = true ->
       forall p, pos x <= p < Block_end x -> finished_from d2 vB (pos x) p ->
       status_at (sblock_vector R) p = Some finished).
Proof.
  intros Hmode Hd Hn Hn2 HA HB.
  apply Z.eqb_neq in Hn. apply Z.eqb_neq in Hn2.
  assert (HA' := HA). assert (HB' := HB).
  unfold mapfile_ok in HA', HB'.
  apply andb_prop in HA'. destruct HA' as [HcA HsA].
  apply andb_prop in HB'. destruct HB' as [HcB _].
  unfold do_logic_ops, verify_logname_and_domain.
  cbn [Logbook_open logfile_exists_ domain_ negb sblock_vector bind].
  rewrite Hn. cbn [bind]. rewrite Hn2. cbn [bind].
  destruct (or_xor_loop_spec d d2 vB HcB Hd mode Hmode (logic_fuel vA) [] vA)
    as (v' & Hr & Hc' & Hch & HP); auto.
  - pose proof (logic_measure_bounds d2 vB vA HcA).
    pose proof (vsize_nonneg vA HcA).
    unfold logic_fuel. rewrite Nat2Z.inj_succ, Z2Nat.id by lia. lia.
  - cbn [app length Z.of_nat] in Hr. rewrite Hr. cbn [bind].
    eexists. split; [reflexivity|].
    cbn [compact_sblock_vector with_vector sblock_vector]. split.
    + intros p. rewrite Compact.status_at_compact by exact Hc'. apply Hch.
    + intros Hor x Hx Hix p Hp Hf.
      rewrite Compact.status_at_compact by exact Hc'.
      apply (HP Hor x Hx Hix p Hp Hf).
Qed.

End OrXor.

(** OR goes over the part of an sblock that comes before a chunk of the
    second logfile: the sblock is split where the chunk ends, and the
    loop goes on after the split.  Here the second half of the logfile
    is finished in the second logfile and stays non-tried. *)
Lemma or_goes_over_a_chunk_inside_an_sblock :
  exists R,
    do_logic_ops [mkBlock 0 4096] [mkBlock 0 4096] (Some [sbl 0 4096 non_tried])
      (Some [sbl 0 2048 non_tried; sbl 2048 2048 finished]) m_or = Returned R /\
    sblock_vector R = [sbl 0 4096 non_tried].
Proof. eexists. split; reflexivity. Qed.

(** X16.  [d] is the domain of the logbook of the first logfile and [d2]
    that of the second, each logfile being split at the borders of the
    domain of its own logbook.  OR ends and prints a logfile in which a
    byte either has the status it has in the first logfile, or is
    finished; the second happens only to bytes of the domain that are
    finished in the second logfile and lie in the domain of its
    logbook.  Every byte of an sblock of the first logfile in the
    domain is finished in the result when the second logbook is
    finished from the start of the sblock up to that byte. *)
Theorem or_of_logfiles (d d2 : Domain) (vA vB : list Sblock) :
  Domain_ordered d = true -> Domain_size d <> 0 -> Domain_size d2 <> 0 ->
  mapfile_ok d vA = true -> mapfile_ok d2 vB = true ->
  exists R,
    do_logic_ops d d2 (Some vA) (Some vB) m_or = Returned R /\
    (forall p,
       status_at (sblock_vector R) p = status_at vA p \/
       (in_domain d p = true /\
        finished_at vB p = true /\ in_domain d2 p = true /\
        status_at vA p <> None /\
        status_at (sblock_vector R) p = Some finished)) /\
    (forall x : Sblock, In x vA -> Domain_includes d x = true ->
       forall p, pos x <= p < Block_end x ->
       (forall r, pos x <= r <= p ->
          finished_at vB r = true /\ in_domain d2 r = true) ->
       status_at (sblock_vector R) p = Some finished).
Proof.
  intros Hd Hn Hn2 HA HB.
  destruct (OrXor.or_xor_of_logfiles m_or d d2 vA vB (or_introl eq_refl)
              Hd Hn Hn2 HA HB) as (R & Hr & Hch & HP).
  exists R. split; [exact Hr|]. split.
  - intros p. destruct (Hch p) as [E|(Hp & Hf & Hs & st & E & Hst)]; [left; exact E|].
    right. rewrite (Chunk.finished_chunk_at_logbook d2 vB p HB) in Hf.
    apply andb_prop in Hf. destruct Hf as [Hf1 Hf2].
    cbn [new_status] in Hst. apply Vector.Status_eqb_eq in Hst. subst st. auto.
  - intros x Hx Hix p Hp Hf. apply (HP eq_refl x Hx Hix p Hp).
    intros r Hr'. rewrite (Chunk.finished_chunk_at_logbook d2 vB r HB).
    destruct (Hf r Hr') as [H1 H2]. rewrite H1, H2. reflexivity.
Qed.

Lemma or_of_logfiles_witness :
  exists R,
    do_logic_ops [mkBlock 0 4096; mkBlock 8192 4096] [mkBlock 0 4096]
      (Some [sbl 0 4096 non_tried; sbl 4096 4096 bad_sector; sbl 8192 4096 non_trimmed])
      (Some [sbl 0 1024 finished; sbl 1024 3072 non_tried;
             sbl 4096 2048 finished])
      m_or = Returned R /\
    (forall p,
       status_at (sblock_vector R) p =
       status_at [sbl 0 4096 non_tried; sbl 4096 4096 bad_sector;
                  sbl 8192 4096 non_trimmed] p \/
       (in_domain [mkBlock 0 4096; mkBlock 8192 4096] p = true /\
        finished_at [sbl 0 1024 finished; sbl 1024 3072 non_tried;
                     sbl 4096 2048 finished] p = true /\
        in_domain [mkBlock 0 4096] p = true /\
        status_at [sbl 0 4096 non_tried; sbl 4096 4096 bad_sector;
                   sbl 8192 4096 non_trimmed] p <> None /\
        status_at (sblock_vector R) p = Some finished)) /\
    (forall x : Sblock,
       In x [sbl 0 4096 non_tried; sbl 4096 4096 bad_sector; sbl 8192 4096 non_trimmed] ->
       Domain_includes [mkBlock 0 4096; mkBlock 8192 4096] x = true ->
       forall p, pos x <= p < Block_end x ->
       (forall r, pos x <= r <= p ->
          finished_at [sbl 0 1024 finished; sbl 1024 3072 non_tried;
                       sbl 4096 2048 finished] r = true /\
          in_domain [mkBlock 0 4096] r = true) ->
       status_at (sblock_vector R) p = Some finished).
Proof.
  apply (or_of_logfiles [mkBlock 0 4096; mkBlock 8192 4096] [mkBlock 0 4096]
    [sbl 0 4096 non_tried; sbl 4096 4096 bad_sector; sbl 8192 4096 non_trimmed]
    [sbl 0 1024 finished; sbl 1024 3072 non_tried; sbl 4096 2048 finished]
    eq_refl ltac:(discriminate) ltac:(discriminate) eq_refl eq_refl).
Defined.

(** X17.  [d] is the domain of the logbook of the first logfile and [d2]
    that of the second, each logfile being split at the borders of the
    domain of its own logbook.  XOR ends and prints a logfile in which
    a byte either has the status it has in the first logfile, or is
    finished or a bad sector; the second happens only to bytes of the
    domain that are finished in the second logfile and lie in the
    domain of its logbook.  A byte outside the domain, and a byte that
    is not finished in the second logbook, keeps its status. *)
Theorem xor_of_logfiles (d d2 : Domain) (vA vB : list Sblock) :
  Domain_ordered d = true -> Domain_size d <> 0 -> Domain_size d2 <> 0 ->
  mapfile_ok d vA = true -> mapfile_ok d2 vB = true ->
  exists R,
    do_logic_ops d d2 (Some vA) (Some vB) m_xor = Returned R /\
    (forall p,
       status_at (sblock_vector R) p = status_at vA p \/
       (in_domain d p = true /\
        finished_at vB p = true /\ in_domain d2 p = true /\
        status_at vA p <> None /\
        (status_at (sblock_vector R) p = Some finished \/
         status_at (sblock_vector R) p = Some bad_sector))) /\
    (forall p,
       in_domain d p = false \/ finished_at vB p = false \/ in_domain d2 p = false ->
       status_at (sblock_vector R) p = status_at vA p).
Proof.
  intros Hd Hn Hn2 HA HB.
  destruct (OrXor.or_xor_of_logfiles m_xor d d2 vA vB (or_intror eq_refl)
              Hd Hn Hn2 HA HB) as (R & Hr & Hch & _).
  assert (Hall : forall p,
    status_at (sblock_vector R) p = status_at vA p \/
    (in_domain d p = true /\
     finished_at vB p = true /\ in_domain d2 p = true /\
     status_at vA p <> None /\
     (status_at (sblock_vector R) p = Some finished \/
      status_at (sblock_vector R) p = Some bad_sector))).
  { intros p. destruct (Hch p) as [E|(Hp & Hf & Hs & st & E & Hst)]; [left; exact E|].
    right. rewrite (Chunk.finished_chunk_at_logbook d2 vB p HB) in Hf.
    apply andb_prop in Hf. destruct Hf as [Hf1 Hf2].
    cbn [new_status] in Hst. apply orb_prop in Hst.
    repeat split; auto.
    destruct Hst as [Hst|Hst]; apply Vector.Status_eqb_eq in Hst; subst st; auto. }
  exists R. split; [exact Hr|]. split; [exact Hall|].
  intros p Hout. destruct (Hall p) as [E|(Hp & Hf & Hp2 & _)]; [exact E|].
  destruct Hout as [Ho|[Ho|Ho]];
    [rewrite Ho in Hp|rewrite Ho in Hf|rewrite Ho in Hp2]; discriminate.
Qed.

Lemma xor_of_logfiles_witness :
  exists R,
    do_logic_ops [mkBlock 0 4096; mkBlock 8192 4096] [mkBlock 0 4096]
      (Some [sbl 0 4096 finished; sbl 4096 4096 bad_sector; sbl 8192 4096 non_trimmed])
      (Some [sbl 0 1024 finished; sbl 1024 3072 non_tried;
             sbl 4096 2048 finished])
      m_xor = Returned R /\
    (forall p,
       status_at (sblock_vector R) p =
       status_at [sbl 0 4096 finished; sbl 4096 4096 bad_sector;
                  sbl 8192 4096 non_trimmed] p \/
       (in_domain [mkBlock 0 4096; mkBlock 8192 4096] p = true /\
        finished_at [sbl 0 1024 finished; sbl 1024 3072 non_tried;
                     sbl 4096 2048 finished] p = true /\
        in_domain [mkBlock 0 4096] p = true /\
        status_at [sbl 0 4096 finished; sbl 4096 4096 bad_sector;
                   sbl 8192 4096 non_trimmed] p <> None /\
        (status_at (sblock_vector R) p = Some finished \/
         status_at (sblock_vector R) p = Some bad_sector))) /\
    (forall p,
       in_domain [mkBlock 0 4096; mkBlock 8192 4096] p = false \/
       finished_at [sbl 0 1024 finished; sbl 1024 3072 non_tried;
                    sbl 4096 2048 finished] p = false \/
       in_domain [mkBlock 0 4096] p = false ->
       status_at (sblock_vector R) p =
       status_at [sbl 0 4096 finished; sbl 4096 4096 bad_sector;
                  sbl 8192 4096 non_trimmed] p).
Proof.
  apply (xor_of_logfiles [mkBlock 0 4096; mkBlock 8192 4096] [mkBlock 0 4096]
    [sbl 0 4096 finished; sbl 4096 4096 bad_sector; sbl 8192 4096 non_trimmed]
    [sbl 0 1024 finished; sbl 1024 3072 non_tried; sbl 4096 2048 finished]
    eq_refl ltac:(discriminate) ltac:(discriminate) eq_refl eq_refl).
Defined.

(* ================================================================== *)
(** * format_percentage *)

Module Percentage.

Import Types.

Lemma substring_length n s : (String.length (substring 0 n s) <= n)%nat.
Proof.
  revert s. induction n as [|n IH]; intros s.
  - destruct s; cbn; lia.
  - destruct s as [|c s]; cbn; [lia|]. specialize (IH s). lia.
Qed.

(** The loop writes at index [i] only when [i < 78]. *)
Lemma loop_length prec trunc den buf rest :
  (String.length buf <= 78)%nat ->
  (String.length (format_percentage_loop prec trunc den buf rest) <= 78)%nat.
Proof.
  revert buf rest. induction prec as [|prec IH]; intros buf rest Hb; [exact Hb|].
  cbn [format_percentage_loop].
  destruct ((0 <? rest) || negb trunc); cbn [andb]; [|exact Hb].
  destruct (Z.ltb_spec (Z.of_nat (String.length buf)) 78) as [Hlt|Hge]; [|exact Hb].
  apply IH. rewrite length_append. cbn [String.length]. lia.
Qed.

Lemma quot_max_100 : Z.quot LLONG_MAX 100 = 92233720368547758.
Proof. reflexivity. Qed.

Lemma quot_max_10 : Z.quot LLONG_MAX 10 = 922337203685477580.
Proof. reflexivity. Qed.

Lemma max_value : LLONG_MAX = 9223372036854775807.
Proof. reflexivity. Qed.

(** The scaling on a denominator that is not negative. *)
Lemma scale_bounds num den :
  Z.abs num <= LLONG_MAX -> 0 <= den <= LLONG_MAX ->
  let '(n, d) :=
    if (llabs num <=? Z.quot LLONG_MAX 100) && (den <=? Z.quot LLONG_MAX 10)
    then (num * 100, den)
    else if llabs num <=? Z.quot LLONG_MAX 10 then (num * 10, Z.quot den 10)
    else (num, Z.quot den 100) in
  Z.abs n <= LLONG_MAX /\ 0 <= d <= Z.quot LLONG_MAX 10.
Proof.
  intros Hn Hd. unfold llabs. rewrite quot_max_100, quot_max_10, max_value in *.
  pose proof (Z.div_le_mono den 9223372036854775807 10 ltac:(lia) ltac:(lia)) as Hu.
  change (9223372036854775807 / 10) with 922337203685477580 in Hu.
  pose proof (Z.div_le_mono den 9223372036854775807 100 ltac:(lia) ltac:(lia)) as Hv.
  change (9223372036854775807 / 100) with 92233720368547758 in Hv.
  pose proof (Z.div_pos den 10 ltac:(lia) ltac:(lia)) as Hu0.
  pose proof (Z.div_pos den 100 ltac:(lia) ltac:(lia)) as Hv0.
  rewrite <- (Z.quot_div_nonneg den 10) in Hu, Hu0 by lia.
  rewrite <- (Z.quot_div_nonneg den 100) in Hv, Hv0 by lia.
  destruct (Z.leb_spec (Z.abs num) 92233720368547758) as [H1|H1];
    destruct (Z.leb_spec den 922337203685477580) as [H2|H2]; cbn [andb];
    try destruct (Z.leb_spec (Z.abs num) 922337203685477580) as [H3|H3]; lia.
Qed.

Lemma char_plus_zero_digit d :
  decimal_digit d -> char_plus_zero d = digit_char d.
Proof.
  intros Hd. unfold decimal_digit in Hd. unfold char_plus_zero, digit_char.
  rewrite Z.mod_small by lia. reflexivity.
Qed.

Lemma digit_string_app a b :
  digit_string (a ++ b) = String.append (digit_string a) (digit_string b).
Proof. induction a as [|x a IH]; cbn; [reflexivity|rewrite IH; reflexivity]. Qed.

Lemma digits_number_bounds ds :
  Forall decimal_digit ds -> 0 <= digits_number ds < 10 ^ Z.of_nat (length ds).
Proof.
  induction 1 as [|d ds Hd _ IH]; [cbn; lia|].
  cbn [digits_number length]. rewrite Nat2Z.inj_succ, Z.pow_succ_r by lia.
  unfold decimal_digit in Hd. nia.
Qed.

(** The decimals the loop writes are those of the long division of
    [rest] by [den]. *)
Lemma loop_digits prec trunc den :
  0 < den ->
  forall buf rest,
    0 <= rest < den ->
    (String.length buf + prec <= 78)%nat ->
    exists ds,
      format_percentage_loop prec trunc den buf rest =
        String.append buf (digit_string ds) /\
      (length ds <= prec)%nat /\
      Forall decimal_digit ds /\
      digits_number ds = rest * 10 ^ Z.of_nat (length ds) / den /\
      (trunc = false -> length ds = prec) /\
      (trunc = true ->
       length ds = prec \/ (rest * 10 ^ Z.of_nat (length ds)) mod den = 0) /\
      (0 < rest -> (0 < prec)%nat -> ds <> []).
Proof.
  intros Hden. induction prec as [|prec IH]; intros buf rest Hr Hb.
  - exists []. cbn [format_percentage_loop digit_string length digits_number].
    rewrite append_nil_r, Z.mul_1_r, Z.div_small by lia.
    repeat split; auto; lia.
  - cbn [format_percentage_loop].
    replace (Z.of_nat (String.length buf) <? 78) with true
      by (symmetry; apply Z.ltb_lt; lia).
    rewrite andb_true_r.
    destruct ((0 <? rest) || negb trunc) eqn:Hgo.
    + assert (Hq : Z.quot (rest * 10) den = rest * 10 / den)
        by (apply Z.quot_div_nonneg; lia).
      assert (Hm : Z.rem (rest * 10) den = (rest * 10) mod den)
        by (apply Z.rem_mod_nonneg; lia).
      rewrite Hq, Hm.
      pose proof (Z.div_mod (rest * 10) den ltac:(lia)) as Hdm.
      pose proof (Z.mod_pos_bound (rest * 10) den Hden) as Hmb.
      set (q := rest * 10 / den) in *. set (r := (rest * 10) mod den) in *.
      assert (Hdig : decimal_digit q) by (unfold decimal_digit; nia).
      destruct (IH (String.append buf (String (char_plus_zero q) EmptyString)) r Hmb)
        as (ds & Hl & Hlen & Hall & Hnum & Hno & Htr & _).
      { rewrite length_append. cbn [String.length]. lia. }
      exists (q :: ds). rewrite Hl, append_assoc.
      cbn [String.append digit_string length digits_number].
      rewrite (char_plus_zero_digit q Hdig).
      assert (Hpow : rest * 10 ^ Z.of_nat (S (length ds)) =
                     q * 10 ^ Z.of_nat (length ds) * den
                     + r * 10 ^ Z.of_nat (length ds)).
      { rewrite Nat2Z.inj_succ, Z.pow_succ_r by lia. nia. }
      split; [reflexivity|]. split; [lia|]. split; [constructor; auto|].
      split; [|split; [|split]].
      * rewrite Hpow, Z.div_add_l by lia. rewrite Hnum. reflexivity.
      * intros Ht. rewrite (Hno Ht). reflexivity.
      * intros Ht. destruct (Htr Ht) as [E|E]; [left; rewrite E; reflexivity|].
        right. rewrite Hpow, Z.add_comm, Z.mod_add by lia. exact E.
      * intros _ _. discriminate.
    + apply orb_false_elim in Hgo. destruct Hgo as [H0 Ht].
      apply Z.ltb_ge in H0. apply negb_false_iff in Ht.
      assert (rest = 0) by lia. subst rest.
      exists []. cbn [digit_string length digits_number].
      rewrite append_nil_r. cbn.
      repeat split; auto; try lia.
      intros E. rewrite E in Ht. discriminate.
Qed.

Lemma decimal_digits_length fuel n acc :
  (String.length (decimal_digits fuel n acc) <= fuel + String.length acc)%nat.
Proof.
  revert n acc. induction fuel as [|fuel IH]; intros n acc; [cbn; lia|].
  cbn [decimal_digits]. destruct (n <? 10); [cbn [String.length]; lia|].
  specialize (IH (n / 10) (String (char_plus_zero (n mod 10)) acc)).
  cbn [String.length] in IH. lia.
Qed.

Lemma lld_length n : 0 <= n -> (String.length (lld n) <= 19)%nat.
Proof.
  intros Hn. unfold lld.
  replace (n <? 0) with false by (symmetry; apply Z.ltb_ge; exact Hn).
  pose proof (decimal_digits_length 19 n EmptyString) as H. cbn [String.length] in H.
  lia.
Qed.

Lemma printf_field_length width s :
  Z.of_nat (String.length (printf_field width s)) =
  Z.max (Z.abs width) (Z.of_nat (String.length s)).
Proof.
  unfold printf_field. destruct (width <? 0);
    rewrite length_append, length_fill; lia.
Qed.

End Percentage.

(** X18: the string format_percentage returns has at most 79
    characters, whatever the numbers, the width and the precision are:
    it fits the 80 characters of the buffer, with the zero that ends
    it. *)
Theorem format_percentage_fits_its_buffer (num den iwidth prec : Z) :
  (String.length (format_percentage num den iwidth prec) < 80)%nat.
Proof.
  unfold format_percentage.
  destruct (format_percentage_scale num den) as [n d].
  destruct (d =? 0).
  { destruct (0 <? n); [cbn; lia|]. destruct (n <? 0); cbn; lia. }
  cbv zeta.
  set (field := if (n <? 0) && (Z.quot n d =? 0) then printf_field iwidth "-0"
                else printf_field iwidth (lld (Z.quot n d))).
  rewrite Types.length_append. cbn [String.length].
  destruct (Z.ltb_spec (Z.of_nat (String.length field)) 78) as [Hlt|Hge].
  - destruct ((0 <? (if prec <? 0 then - prec else prec))
              && ((0 <? Z.rem (llabs n) d) || negb (prec <? 0))).
    + pose proof (Percentage.loop_length
                    (Z.to_nat (if prec <? 0 then - prec else prec)) (prec <? 0) d
                    (String.append field ".") (Z.rem (llabs n) d)) as H.
      rewrite Types.length_append in H. cbn [String.length] in H. lia.
    + lia.
  - pose proof (Percentage.substring_length 78 field). lia.
Qed.

(** X19: for a numerator and a denominator that are long long numbers,
    with a numerator other than the lowest of them, the scaling of
    format_percentage gives a numerator that is a long long number and
    a denominator between 0 and LLONG_MAX / 10, so that ten times a
    rest of the division by it is a long long number too. *)
Theorem format_percentage_scaling_stays_in_range (num den : Z) :
  Z.abs num <= LLONG_MAX -> Z.abs den <= LLONG_MAX ->
  Z.abs (fst (format_percentage_scale num den)) <= LLONG_MAX /\
  0 <= snd (format_percentage_scale num den) <= LLONG_MAX / 10 /\
  forall rest, 0 <= rest < snd (format_percentage_scale num den) ->
    0 <= rest * 10 <= LLONG_MAX.
Proof.
  intros Hn Hd. unfold format_percentage_scale.
  assert (H : forall n d, Z.abs n <= LLONG_MAX -> 0 <= d <= LLONG_MAX ->
            let p := if (llabs n <=? Z.quot LLONG_MAX 100) && (d <=? Z.quot LLONG_MAX 10)
                     then (n * 100, d)
                     else if llabs n <=? Z.quot LLONG_MAX 10 then (n * 10, Z.quot d 10)
                     else (n, Z.quot d 100) in
            Z.abs (fst p) <= LLONG_MAX /\ 0 <= snd p <= LLONG_MAX / 10 /\
            forall rest, 0 <= rest < snd p -> 0 <= rest * 10 <= LLONG_MAX).
  { intros n d Hn' Hd'. pose proof (Percentage.scale_bounds n d Hn' Hd') as Hs.
    cbv zeta.
    destruct (if (llabs n <=? Z.quot LLONG_MAX 100) && (d <=? Z.quot LLONG_MAX 10)
              then (n * 100, d)
              else if llabs n <=? Z.quot LLONG_MAX 10 then (n * 10, Z.quot d 10)
              else (n, Z.quot d 100)) as [n' d'].
    cbn [fst snd]. destruct Hs as [Hs1 Hs2].
    rewrite Percentage.quot_max_10 in Hs2.
    change (LLONG_MAX / 10) with 922337203685477580.
    rewrite Percentage.max_value in *. repeat split; lia. }
  destruct (Z.ltb_spec den 0) as [Hneg|Hpos].
  - apply (H (- num) (- den)); lia.
  - apply (H num den); lia.
Qed.

Lemma format_percentage_scaling_stays_in_range_witness :
  Z.abs (fst (format_percentage_scale 4611686018427387904 (-7))) <= LLONG_MAX /\
  0 <= snd (format_percentage_scale 4611686018427387904 (-7)) <= LLONG_MAX / 10 /\
  forall rest, 0 <= rest < snd (format_percentage_scale 4611686018427387904 (-7)) ->
    0 <= rest * 10 <= LLONG_MAX.
Proof.
  apply (format_percentage_scaling_stays_in_range 4611686018427387904 (-7));
    unfold LLONG_MAX; cbn; lia.
Defined.

(** X20: for a numerator from 0 to LLONG_MAX / 100, a denominator from
    1 to LLONG_MAX / 10, and a width and a precision that leave room in
    the buffer, format_percentage returns the whole part of
    100 * num / den in a field of the width, then the decimals and the
    percent sign.  The decimals are those of 100 * num / den, cut off
    and not rounded: as many as the precision says when it is not
    negative; when it is negative, at most as many, and fewer only when
    the percentage is written in full. *)
Theorem format_percentage_writes_the_decimals (num den iwidth prec : Z) :
  0 <= num <= LLONG_MAX / 100 -> 0 < den <= LLONG_MAX / 10 ->
  Z.max 19 (Z.abs iwidth) + Z.abs prec < 78 ->
  exists ds,
    format_percentage num den iwidth prec =
      String.append (printf_field iwidth (lld (100 * num / den)))
        (String.append (decimals ds) "%") /\
    Forall decimal_digit ds /\
    (100 * num / den) * 10 ^ Z.of_nat (length ds) + digits_number ds =
      100 * num * 10 ^ Z.of_nat (length ds) / den /\
    (0 <= prec -> Z.of_nat (length ds) = prec) /\
    (prec < 0 ->
     Z.of_nat (length ds) = - prec \/
     (Z.of_nat (length ds) < - prec /\
      (100 * num * 10 ^ Z.of_nat (length ds)) mod den = 0)).
Proof.
  intros Hn Hd Hroom.
  change (LLONG_MAX / 100) with 92233720368547758 in Hn.
  change (LLONG_MAX / 10) with 922337203685477580 in Hd.
  unfold format_percentage, format_percentage_scale, llabs.
  replace (den <? 0) with false by (symmetry; apply Z.ltb_ge; lia).
  rewrite Percentage.quot_max_100, Percentage.quot_max_10.
  replace (Z.abs num <=? 92233720368547758) with true
    by (symmetry; apply Z.leb_le; lia).
  replace (den <=? 922337203685477580) with true by (symmetry; apply Z.leb_le; lia).
  cbn [andb].
  replace (den =? 0) with false by (symmetry; apply Z.eqb_neq; lia).
  replace (num * 100 <? 0) with false by (symmetry; apply Z.ltb_ge; lia).
  cbn [andb]. cbv zeta.
  rewrite Z.quot_div_nonneg by lia.
  rewrite Z.rem_mod_nonneg by lia.
  rewrite Z.abs_eq by lia.
  replace (num * 100) with (100 * num) by lia.
  set (q := 100 * num / den). set (rest := (100 * num) mod den).
  pose proof (Z.div_mod (100 * num) den ltac:(lia)) as Hdm.
  pose proof (Z.mod_pos_bound (100 * num) den ltac:(lia)) as Hmb.
  fold q rest in Hdm, Hmb.
  assert (Hq : 0 <= q) by (apply Z.div_pos; lia).
  pose proof (Percentage.lld_length q Hq) as Hlq.
  pose proof (Percentage.printf_field_length iwidth (lld q)) as Hfl.
  set (field := printf_field iwidth (lld q)) in *.
  replace (Z.of_nat (String.length field) <? 78) with true
    by (symmetry; apply Z.ltb_lt; lia).
  set (n := if prec <? 0 then - prec else prec).
  assert (Hnabs : n = Z.abs prec) by (unfold n; destruct (Z.ltb_spec prec 0); lia).
  destruct (Percentage.loop_digits (Z.to_nat n) (prec <? 0) den ltac:(lia)
              (String.append field ".") rest Hmb)
    as (ds & Hl & Hlen & Hall & Hnum & Hno & Htr & Hne).
  { rewrite Types.length_append. cbn [String.length]. lia. }
  assert (Hval : forall k, q * 10 ^ k + rest * 10 ^ k / den = 100 * num * 10 ^ k / den).
  { intros k. rewrite Hdm.
    replace ((den * q + rest) * 10 ^ k) with (q * 10 ^ k * den + rest * 10 ^ k) by ring.
    rewrite Z.div_add_l by lia. reflexivity. }
  assert (Hmod : forall k, (100 * num * 10 ^ k) mod den = (rest * 10 ^ k) mod den).
  { intros k. rewrite Hdm.
    replace ((den * q + rest) * 10 ^ k) with (rest * 10 ^ k + q * 10 ^ k * den) by ring.
    apply Z.mod_add. lia. }
  destruct ((0 <? n) && ((0 <? rest) || negb (prec <? 0))) eqn:Hgo.
  - apply andb_prop in Hgo. destruct Hgo as [Hn0 Hgo]. apply Z.ltb_lt in Hn0.
    exists ds. rewrite Hl.
    assert (Hds : ds <> []).
    { apply orb_prop in Hgo. destruct Hgo as [Hgo|Hgo].
      - apply Z.ltb_lt in Hgo. apply Hne; lia.
      - apply negb_true_iff in Hgo. specialize (Hno Hgo).
        intros E. rewrite E in Hno. cbn in Hno. lia. }
    split.
    { rewrite !Types.append_assoc. unfold decimals.
      destruct ds as [|d0 ds0]; [contradiction|]. reflexivity. }
    split; [exact Hall|]. split; [rewrite Hnum; apply Hval|]. split.
    + intros Hp. replace (prec <? 0) with false in Hno
        by (symmetry; apply Z.ltb_ge; lia).
      rewrite (Hno eq_refl). lia.
    + intros Hp. replace (prec <? 0) with true in Htr
        by (symmetry; apply Z.ltb_lt; lia).
      destruct (Htr eq_refl) as [E|E]; [left; rewrite E; lia|].
      destruct (Z.eq_dec (Z.of_nat (length ds)) (- prec)) as [E'|E']; [left; exact E'|].
      right. split; [lia|]. rewrite Hmod. exact E.
  - exists []. cbn [decimals length digits_number Z.of_nat Z.pow].
    split; [reflexivity|]. split; [constructor|].
    apply andb_false_iff in Hgo.
    assert (Hcase : n = 0 \/ (rest = 0 /\ prec < 0)).
    { destruct Hgo as [Hgo|Hgo]; [apply Z.ltb_ge in Hgo; left; lia|].
      apply orb_false_elim in Hgo. destruct Hgo as [H0 Ht].
      apply Z.ltb_ge in H0. apply negb_false_iff in Ht. apply Z.ltb_lt in Ht.
      right. lia. }
    split; [rewrite !Z.mul_1_r; fold q; lia|]. split.
    + intros Hp. destruct Hcase as [E|[_ E]]; lia.
    + intros Hp. destruct Hcase as [E|[E _]]; [left; lia|].
      right. split; [lia|]. rewrite Z.mul_1_r. fold rest. exact E.
Qed.

Lemma format_percentage_writes_the_decimals_witness :
  exists ds,
    format_percentage 1 8 3 (-2) =
      String.append (printf_field 3 (lld (100 * 1 / 8)))
        (String.append (decimals ds) "%") /\
    Forall decimal_digit ds /\
    (100 * 1 / 8) * 10 ^ Z.of_nat (length ds) + digits_number ds =
      100 * 1 * 10 ^ Z.of_nat (length ds) / 8 /\
    (0 <= -2 -> Z.of_nat (length ds) = -2) /\
    (-2 < 0 ->
     Z.of_nat (length ds) = - -2 \/
     (Z.of_nat (length ds) < - -2 /\
      (100 * 1 * 10 ^ Z.of_nat (length ds)) mod 8 = 0)).
Proof.
  apply (format_percentage_writes_the_decimals 1 8 3 (-2)).
  - unfold LLONG_MAX. cbn. lia.
  - unfold LLONG_MAX. cbn. lia.
  - cbn. lia.
Defined.

(** X21: with a denominator of 0 format_percentage writes no number:
    for every numerator from -LLONG_MAX to LLONG_MAX it returns +INF
    when the numerator is above 0, -INF when it is below 0, and NAN for
    0 / 0. *)
Theorem format_percentage_of_a_zero_denominator (num iwidth prec : Z) :
  Z.abs num <= LLONG_MAX ->
  format_percentage num 0 iwidth prec =
  if 0 <? num then "+INF"%string
  else if num <? 0 then "-INF"%string else "NAN"%string.
Proof.
  intros _.
  unfold format_percentage, format_percentage_scale, llabs.
  cbn [Z.ltb Z.compare].
  change (0 <=? Z.quot LLONG_MAX 10) with true. rewrite andb_true_r.
  change (Z.quot 0 10) with 0. change (Z.quot 0 100) with 0.
  destruct (Z.abs num <=? Z.quot LLONG_MAX 100);
    [|destruct (Z.abs num <=? Z.quot LLONG_MAX 10)]; cbn [Z.eqb].
  - destruct (Z.ltb_spec 0 num), (Z.ltb_spec 0 (num * 100)); try lia;
      [reflexivity|].
    destruct (Z.ltb_spec num 0), (Z.ltb_spec (num * 100) 0); try lia; reflexivity.
  - destruct (Z.ltb_spec 0 num), (Z.ltb_spec 0 (num * 10)); try lia;
      [reflexivity|].
    destruct (Z.ltb_spec num 0), (Z.ltb_spec (num * 10) 0); try lia; reflexivity.
  - reflexivity.
Qed.

Lemma format_percentage_of_a_zero_denominator_witness :
  format_percentage (-4611686018427387904) 0 3 (-2) =
  if 0 <? -4611686018427387904 then "+INF"%string
  else if -4611686018427387904 <? 0 then "-INF"%string else "NAN"%string.
Proof.
  apply (format_percentage_of_a_zero_denominator (-4611686018427387904) 3 (-2)).
  unfold LLONG_MAX. lia.
Defined.

(* ================================================================== *)
(** * A logfile and itself *)

(** X22: the AND and the OR of a logfile with itself change nothing:
    in the logfile each of them prints every byte has the status it has
    in the logfile given. *)
Theorem and_or_of_a_logfile_with_itself (d : Domain) (v : list Sblock) :
  Domain_ordered d = true -> Domain_size d <> 0 -> mapfile_ok d v = true ->
  exists R1 R2,
    do_logic_ops d d (Some v) (Some v) m_and = Returned R1 /\
    do_logic_ops d d (Some v) (Some v) m_or = Returned R2 /\
    forall p,
      status_at (sblock_vector R1) p = status_at v p /\
      status_at (sblock_vector R2) p = status_at v p.
Proof.
  intros Hd Hn Hv.
  destruct (LogicOps.and_at_every_byte d d v v Hd Hn Hn Hv Hv) as (R1 & Hr1 & H1).
  destruct (OrXor.or_xor_of_logfiles m_or d d v v (or_introl eq_refl) Hd Hn Hn Hv Hv)
    as (R2 & Hr2 & H2 & _).
  exists R1, R2. split; [exact Hr1|]. split; [exact Hr2|].
  intros p. split.
  - rewrite H1. unfold and_at. destruct (in_domain d p) eqn:Hp; [|reflexivity].
    rewrite (Chunk.finished_chunk_at_domain d v p Hv Hp). unfold finished_at.
    destruct (status_at v p) as [[]|]; reflexivity.
  - destruct (H2 p) as [E|(Hp & Hf & _ & st & E & Hst)]; [exact E|].
    rewrite (Chunk.finished_chunk_at_domain d v p Hv Hp) in Hf.
    cbn [new_status] in Hst. apply Vector.Status_eqb_eq in Hst. subst st.
    rewrite E. unfold finished_at in Hf.
    destruct (status_at v p) as [[]|]; try discriminate. reflexivity.
Qed.

Lemma and_or_of_a_logfile_with_itself_witness :
  exists R1 R2,
    do_logic_ops [mkBlock 0 4096; mkBlock 8192 4096]
      [mkBlock 0 4096; mkBlock 8192 4096]
      (Some [sbl 0 1024 finished; sbl 1024 3072 non_tried;
             sbl 4096 4096 bad_sector; sbl 8192 4096 finished])
      (Some [sbl 0 1024 finished; sbl 1024 3072 non_tried;
             sbl 4096 4096 bad_sector; sbl 8192 4096 finished]) m_and
    = Returned R1 /\
    do_logic_ops [mkBlock 0 4096; mkBlock 8192 4096]
      [mkBlock 0 4096; mkBlock 8192 4096]
      (Some [sbl 0 1024 finished; sbl 1024 3072 non_tried;
             sbl 4096 4096 bad_sector; sbl 8192 4096 finished])
      (Some [sbl 0 1024 finished; sbl 1024 3072 non_tried;
             sbl 4096 4096 bad_sector; sbl 8192 4096 finished]) m_or
    = Returned R2 /\
    forall p,
      status_at (sblock_vector R1) p =
      status_at [sbl 0 1024 finished; sbl 1024 3072 non_tried;
                 sbl 4096 4096 bad_sector; sbl 8192 4096 finished] p /\
      status_at (sblock_vector R2) p =
      status_at [sbl 0 1024 finished; sbl 1024 3072 non_tried;
                 sbl 4096 4096 bad_sector; sbl 8192 4096 finished] p.
Proof.
  apply (and_or_of_a_logfile_with_itself [mkBlock 0 4096; mkBlock 8192 4096]
    [sbl 0 1024 finished; sbl 1024 3072 non_tried;
     sbl 4096 4096 bad_sector; sbl 8192 4096 finished]
    eq_refl ltac:(discriminate) eq_refl).
Defined.
